(* ===== verification/_CoqProject ===== *)
-Q . S2P
Prelude.v
Riscv.v
Mem.v
Kalloc.v
Vm.v
VmTree.v
VmSpec.v
VmUser.v
VmCopy.v
VmFree.v
VmSpace.v
VmFork.v
VmExample.v
VmTheorems.v
Block.v
FsFormat.v
Bio.v
BioSpec.v
BioTheorems.v
Log.v
LogSpec.v
LogOps.v
LogTheorems.v
Txn.v
Fs.v
FsBlocks.v
FsInode.v
FsCopy.v
FsFile.v
FsWrite.v
FsTable.v
FsPath.v
FsExample.v
FsTheorems.v
Ring.v
Pipe.v
PipeTheorems.v
Uart.v
Printf.v
PrintfTheorems.v
Console.v
ConsoleTheorems.v
File.v
Spinlock.v
Proc.v
ProcFrame.v
ProcExit.v
ProcTheorems.v
Sched.v
Sleep.v
Exec.v
Fcntl.v
Sysfile.v
Syscall.v
Trap.v
Grep.v
Virtio.v
VirtioInv.v
VirtioTheorems.v
Umalloc.v
UmallocList.v
UmallocTheorems.v
User.v
Sh.v
ShTheorems.v
ShPrint.v
ShRun.v
Mkfs.v
MkfsInv.v
MkfsTheorems.v
Ulib.v
Uprogs.v
Machine.v
Trampoline.v
Switch.v
Boot.v
TrapTheorems.v
ExecTheorems.v
ExecExample.v
Utools.v
