(* ===== verification/Prelude.v ===== *)
(** * Verification of the xv6 kernel (RISC-V) and of some of its user programs

    The program is a small Unix kernel for RISC-V (kernel/), with user programs
    (user/) and a tool that makes the disk image (mkfs/). This library is a
    shallow embedding of its C code: every C function is a Rocq function over
    explicit state, with the source's name, guards, order of effects and error
    results, and theorems about these functions.

    ** How C becomes Rocq

    - A function that changes state of type [S] and returns an [A] is an
      [M S A] (below): it ends in [Done], calls [panic], goes to sleep, or runs
      out of the iteration bound of a loop ([OutOfFuel]). Theorems conclude
      [Done], so they include termination. The bounds are computed from the
      arguments: one more than the number of iterations the loop can make
      (bytes to copy, pages in a range, entries of a table, the length of a
      list), and loops over tables run over the table's indices.
    - Integers are [Z] with the wrap-around of their C type written out where
      it can happen ([u8], [u16], [u32], [u64], [i16], [i32]).
    - Physical memory is a map from addresses to bytes (Mem). Page tables, the
      free list of pages, user memory and trap frames live in it. C strings
      and structures that are only reached by pointers from C variables are
      records and lists.
    - Code under one spin lock, from its acquisition to its release or to
      sleep, is one transition. What justifies this is proved for the locks
      (Spinlock) and for sleep and wakeup (Sleep), where single memory accesses
      are the steps. A function that sleeps returns a value that says where it
      continues.
    - Linker symbols, addresses of C variables, the answers of devices and the
      sizes chosen by mkfs are parameters: arguments, section variables, and
      for the kernel above the file system the record [Proc.env].
    - Assembly is a list of instructions that a hart (Machine) executes, with
      every load, store and fetch translated by the page tables in memory as
      the RISC-V manuals say; a fault is [None].

    ** The files

    Foundations: Prelude (this file: the monad, its rules, machine integers),
    Riscv (kernel/riscv.h, memlayout.h, param.h), Mem (kernel/string.c on
    memory), Ring (queues in arrays).

    Memory: Kalloc (kernel/kalloc.c); Vm (kernel/vm.c and the page table
    functions of kernel/proc.c); VmTree, VmSpec, VmUser, VmCopy (page tables
    as trees, specifications), VmExample (a concrete page table), VmTheorems.

    Disk and file system: Block (the interface [BufCache] that the log uses),
    FsFormat (kernel/fs.h), Bio (kernel/bio.c, sleeplock.c), BioSpec and
    BioTheorems (Bio implements [BufCache]), Log (kernel/log.c), LogSpec,
    LogOps, LogTheorems; Txn (the interface [TxnLayer] that the file system
    uses, implemented by the log), Fs (kernel/fs.c), FsBlocks, FsInode,
    FsFile, FsWrite, FsTable, FsPath, FsExample, FsTheorems; Virtio
    (kernel/virtio_disk.c), VirtioInv, VirtioTheorems.

    Devices and streams: Pipe (kernel/pipe.c), PipeTheorems; Uart
    (kernel/uart.c); Printf (kernel/printf.c and user/printf.c),
    PrintfTheorems; Console (kernel/console.c), ConsoleTheorems.

    Processes: Spinlock (kernel/spinlock.c), File (kernel/file.c), Proc
    (kernel/proc.c), ProcFrame, ProcExit, ProcTheorems, Sched (the CPUs and
    the scheduler), Sleep (sleep and wakeup), Exec (kernel/exec.c), Sysfile
    (kernel/sysfile.c, the arguments of kernel/syscall.c), Syscall
    (kernel/sysproc.c, the dispatch of kernel/syscall.c), Trap (kernel/trap.c,
    plic.c, forkret); ExecTheorems and ExecExample (a program on an image made
    by mkfs is executed), TrapTheorems.

    The hart: Machine (registers, privilege modes, Sv39, instructions),
    Trampoline (kernel/trampoline.S), Switch (kernel/swtch.S and kernelvec),
    Boot (kernel/entry.S, start.c, timervec, the control registers of
    riscv.h, kvminithart).

    User programs: Fcntl (the flags of open and the choice of a descriptor,
    shared with the kernel), Ulib (user/ulib.c), Grep (user/grep.c), Umalloc
    (user/umalloc.c), UmallocList, UmallocTheorems; User (descriptor tables
    and the tree of what a family of processes does), Sh (the parser of
    user/sh.c), ShTheorems, ShPrint (commands as text), ShRun (runcmd and
    main); Uprogs (user/wc.c, cat.c, echo.c, primes.c, find.c, xargs.c),
    Utools (user/ls.c, rm.c, mkdir.c, ln.c, init.c, pingpong.c, the main of
    grep.c, do_rand of grind.c).

    The disk image: Mkfs (mkfs/mkfs.c), MkfsInv, MkfsTheorems.

    ** What the theorems show

    - Pages: kalloc and kfree are pop and push on a stack of distinct pages;
      kinit frees exactly the RAM; kfree panics exactly on bad addresses.
    - Page tables: mappages, uvmunmap and uvmalloc change exactly the given
      range, all or nothing where the code promises it; copyout, copyin and
      copyinstr move the bytes that a byte-by-byte walk of the user address
      space gives, and a copy out and in again is the identity.
    - Buffer cache: bread gives the current contents, recycles the least
      recently used buffer, brelse makes a buffer the most recent.
    - Log: whatever prefix of its disk writes a commit has done at a crash,
      recovery gives the state before the transaction or after it; recovery
      can crash and run again; begin_op reserves room for what an operation
      may write, for a log with LOGSIZE data blocks (mkfs makes one with one
      less: three_operations_overflow_log).
    - File system: writei and readi are splice and slice of the file's bytes
      for direct and indirect blocks, balloc takes the first free block and
      bfree gives it back, the inode table counts references, ilock reads what
      iupdate wrote, skipelem splits paths.
    - Disk driver: with any interleaving of callers, device and interrupts the
      driver is a refinement of atomic block reads and writes, and does not
      panic.
    - Streams: pipes, the UART ring and the console's line editing are queues
      and a line discipline; the printf functions print numerals that read
      back as the number, and a rendering of the format's pieces.
    - Processes: spin locks exclude each other with interrupts off; a process
      runs on at most one CPU; sleep and wakeup lose no wakeup; fork makes the
      child the parent's copy; wait returns an exited child's status and frees
      its slot.
    - exec: it fails without a trace in the process table or replaces the
      program of the calling process and nothing else.
    - Traps and switches: a trap saves and restores all user registers through
      the change of page tables, and usertrapret leaves what the trampoline
      needs; swtch resumes a suspended thread with its registers; kernelvec
      and timervec are invisible to the code they interrupt; start enters main
      in supervisor mode with the clock running.
    - grep: the matcher decides the language of its pattern and the filter
      prints the matching lines, for every way the input is cut by read.
    - malloc and free: the free list stays a list of disjoint blocks inside
      the memory that sbrk gave, and an allocated block is disjoint from the
      others.
    - The shell: the parser ends on every line, with a syntax error or a
      command whose parts are inside the line; it reads back every command
      that is printed; runcmd connects the commands of a pipeline and closes
      the other ends of its pipes.
    - mkfs: the image is a file system in which every given file has its
      name, its bytes and blocks of its own.
    - The user library and programs: strcmp, memmove and atoi against their
      meaning; what wc counts, cat copies and primes prints; that find ends
      and misses nothing; the exec calls of xargs.

    ** What is not modelled

    The order of calls in main.c; initcode.S; ramdisk.c, which is not in the
    build; the accessed and dirty bits and the caching of page table entries;
    relaxed memory ordering (the fences are taken to work); the devices beyond
    what the drivers rely on; the user programs that only make one or two
    system calls (kill, sleep, testjump, zombie); the test programs
    (usertests, forktest, stressfs, and grind but for its random numbers).
    The file system calls and usertrap, kerneltrap and devintr are modelled
    completely but have no theorem of their own beyond those of the functions
    they call. *)

From stdpp Require Export functions relations base gmap list strings.

#[export] Set Default Goal Selector "!".

Declare Scope xv6_scope.
Delimit Scope xv6_scope with xv6.
#[global] Open Scope Z_scope.
#[global] Open Scope xv6_scope.
Coercion Z.of_nat : nat >-> Z.

(** ** Outcomes of kernel code

    A C function that reads and writes kernel state of type [S] and returns
    an [A] is a function from the state before to an [outcome]: it returns, it
    calls [panic], it goes to sleep on a channel (giving up the CPU in the
    middle of its loop), or the iteration bound of a modelled loop is reached.
    The last case never happens with the bounds used in this development, and
    the theorems say so: they conclude [Done]. *)
Inductive outcome (S A : Type) : Type :=
| Done (a : A) (s : S)
| Panic (msg : string)
| Sleep (chan : Z) (s : S)
| OutOfFuel.

Arguments Done {S A} a s.
Arguments Panic {S A} msg.
Arguments Sleep {S A} chan s.
Arguments OutOfFuel {S A}.

Definition M (S A : Type) : Type := S → outcome S A.

Section monad.
Context {S : Type}.

Definition ret {A} (a : A) : M S A := λ s, Done a s.

Definition bind {A B} (m : M S A) (k : A → M S B) : M S B := λ s,
  match m s with
  | Done a s' => k a s'
  | Panic msg => Panic msg
  | Sleep c s' => Sleep c s'
  | OutOfFuel => OutOfFuel
  end.

Definition get : M S S := λ s, Done s s.
Definition put (s : S) : M S unit := λ _, Done tt s.
Definition gets {A} (f : S → A) : M S A := λ s, Done (f s) s.
Definition modify (f : S → S) : M S unit := λ s, Done tt (f s).
Definition panic {A} (msg : string) : M S A := λ _, Panic msg.
Definition sleep_on {A} (chan : Z) : M S A := λ s, Sleep chan s.

(** A loop whose body either continues with a new value of the loop
    variables ([inl]) or leaves the loop with a result ([inr]). *)
Fixpoint loop {A B} (fuel : nat) (body : A → M S (A + B)) (a : A) : M S B :=
  match fuel with
  | O => λ _, OutOfFuel
  | Datatypes.S fuel =>
      bind (body a) (λ r, match r with
                          | inl a' => loop fuel body a'
                          | inr b => ret b
                          end)
  end.

(** [for] over a known list of values, without an early exit. *)
Fixpoint for_each {A} (l : list A) (body : A → M S unit) : M S unit :=
  match l with
  | [] => ret tt
  | a :: l => bind (body a) (λ _, for_each l body)
  end.
End monad.

Notation "'let*' x ':=' m 'in' k" := (bind m (λ x, k))
  (at level 10, x pattern, m at level 200, k at level 200,
   format "'[v' 'let*'  x  ':='  m  'in' '/' k ']'") : xv6_scope.
Notation "m ;;; k" := (bind m (λ _, k))
  (at level 100, k at level 200, right associativity,
   format "'[v' m  ;;; '/' k ']'") : xv6_scope.

(** ** Reasoning about outcomes

    [wp m s Q]: run from [s], [m] returns (no panic, no sleep, no exhausted
    bound) with a result and a state that satisfy [Q]. *)
Definition wp {S A} (m : M S A) (s : S) (Q : A → S → Prop) : Prop :=
  match m s with
  | Done a s' => Q a s'
  | _ => False
  end.

Section wp.
Context {S : Type}.
Implicit Types s : S.

Lemma wp_done {A} (m : M S A) s Q :
  wp m s Q ↔ ∃ a s', m s = Done a s' ∧ Q a s'.
Proof. unfold wp. destruct (m s); naive_solver. Qed.

Lemma wp_mono {A} (m : M S A) s (Q Q' : A → S → Prop) :
  wp m s Q → (∀ a s', Q a s' → Q' a s') → wp m s Q'.
Proof. unfold wp. destruct (m s); eauto. Qed.

Lemma wp_ret {A} (a : A) s (Q : A → S → Prop) : Q a s → wp (ret a) s Q.
Proof. done. Qed.

Lemma wp_get s (Q : S → S → Prop) : Q s s → wp get s Q.
Proof. done. Qed.

Lemma wp_gets {A} (f : S → A) s (Q : A → S → Prop) : Q (f s) s → wp (gets f) s Q.
Proof. done. Qed.

Lemma wp_modify (f : S → S) s (Q : unit → S → Prop) : Q tt (f s) → wp (modify f) s Q.
Proof. done. Qed.

Lemma wp_bind {A B} (m : M S A) (k : A → M S B) s Q :
  wp m s (λ a s', wp (k a) s' Q) → wp (bind m k) s Q.
Proof. unfold wp, bind. by destruct (m s). Qed.

Lemma bind_done {A B} (m : M S A) (k : A → M S B) s a s' :
  m s = Done a s' → bind m k s = k a s'.
Proof. unfold bind. by intros ->. Qed.

Lemma bind_inv {A B} (m : M S A) (k : A → M S B) s b s'' :
  bind m k s = Done b s'' → ∃ a s', m s = Done a s' ∧ k a s' = Done b s''.
Proof. unfold bind. destruct (m s); naive_solver. Qed.

Lemma bind_panic {A B} (m : M S A) (k : A → M S B) s msg :
  m s = Panic msg → bind m k s = Panic msg.
Proof. unfold bind. by intros ->. Qed.

Lemma bind_assoc {A B C} (m : M S A) (f : A → M S B) (g : B → M S C) s :
  bind (bind m f) g s = bind m (λ a, bind (f a) g) s.
Proof. unfold bind. by destruct (m s). Qed.

(** Rule for [loop]: an invariant [I] indexed by the number of iterations
    that are still allowed. *)
Lemma wp_loop {A B} (I : nat → A → S → Prop) (body : A → M S (A + B)) Q :
  (∀ n a s, I (Datatypes.S n) a s →
     wp (body a) s (λ r s', match r with
                            | inl a' => I n a' s'
                            | inr b => Q b s'
                            end)) →
  (∀ a s, ¬ I O a s) →
  ∀ fuel a s, I fuel a s → wp (loop fuel body a) s Q.
Proof.
  intros Hbody H0 fuel. induction fuel as [|n IH]; intros a s HI.
  - by destruct (H0 a s).
  - simpl. apply wp_bind. eapply wp_mono; [by apply (Hbody n)|].
    intros [a'|b] s' H'; [by apply IH|done].
Qed.
End wp.

(** ** Code that may panic

    [runs B m s Q]: run from [s], [m] returns with a result and a state that
    satisfy [Q], or it panics, which it does not if [B] holds; it does not
    sleep and no loop reaches its bound. *)

Definition runs {S A} (B : Prop) (m : M S A) (s : S) (Q : A → S → Prop) : Prop :=
  match m s with
  | Done a s' => Q a s'
  | Panic _ => ¬ B
  | _ => False
  end.

Section runs.
Context {S : Type}.
Implicit Types (s : S) (B : Prop).

Lemma runs_mono {A} B (m : M S A) s (Q Q' : A → S → Prop) :
  runs B m s Q → (∀ a s', Q a s' → Q' a s') → runs B m s Q'.
Proof. unfold runs. destruct (m s); naive_solver. Qed.

Lemma runs_ret {A} B (a : A) s (Q : A → S → Prop) : Q a s → runs B (ret a) s Q.
Proof. done. Qed.

Lemma runs_bind {A C} B (m : M S A) (k : A → M S C) s Q :
  runs B m s (λ a s', runs B (k a) s' Q) → runs B (bind m k) s Q.
Proof. unfold runs, bind. by destruct (m s). Qed.

(** Rule for loops: [d] decreases in every iteration that is not the last. *)
Lemma runs_loop {A C} B (d : A → S → nat) (I : A → S → Prop) (body : A → M S (A + C)) Q :
  (∀ a s, I a s → runs B (body a) s (λ r s', match r with
                                           | inl a' => I a' s' ∧ (d a' s' < d a s)%nat
                                           | inr b => Q b s'
                                           end)) →
  ∀ (fuel : nat) a s, I a s → (d a s < fuel)%nat → runs B (loop fuel body a) s Q.
Proof.
  intros Hb fuel. induction fuel as [|fuel IH]; intros a s HI Hd; [lia|]. cbn [loop]. apply runs_bind.
  eapply runs_mono; [by apply Hb|]. intros [a'|b] s' H; [|done]. apply IH; [apply H|]. destruct H. lia.
Qed.
End runs.

(** Run the next step of a program by lemma [l]. *)
Tactic Notation "runs_by" uconstr(l) := eapply runs_mono; [apply l; lia|cbn beta].

(** ** Machine integers

    C integers are [Z]; every operation that can leave the range of its type
    is followed by the wrap-around of that type. *)
Definition u8 (x : Z) : Z := x `mod` 2^8.
Definition u16 (x : Z) : Z := x `mod` 2^16.
Definition u32 (x : Z) : Z := x `mod` 2^32.
Definition u64 (x : Z) : Z := x `mod` 2^64.
Definition i32 (x : Z) : Z := (x + 2^31) `mod` 2^32 - 2^31.
Definition i16 (x : Z) : Z := (x + 2^15) `mod` 2^16 - 2^15.

Lemma u32_small x : 0 ≤ x < 2^32 → u32 x = x.
Proof. apply Z.mod_small. Qed.
Lemma u64_small x : 0 ≤ x < 2^64 → u64 x = x.
Proof. apply Z.mod_small. Qed.
Lemma i32_small x : -2^31 ≤ x < 2^31 → i32 x = x.
Proof. intros. unfold i32. rewrite Z.mod_small; lia. Qed.

(** The characters of a string literal. *)
Definition str (s : string) : list Z := (λ a, Z.of_N (Ascii.N_of_ascii a)) <$> String.list_ascii_of_string s.

Create HintDb xv6.
Create Rewrite HintDb len.

#[export] Hint Rewrite @length_app @length_drop @length_take @length_fmap
  @length_replicate @length_insert @length_alter @length_reverse @length_nil
  @length_cons @length_seqZ : len.

Ltac len := autorewrite with len in *; simpl in *; try lia.

(** Proves a closed decidable proposition by evaluating its decision. *)
Ltac decide_now := apply (bool_decide_unpack _); vm_compute; exact I.
