(* ===== verification/Riscv.v ===== *)
(** * RISC-V paging constants and macros

    The macros of [kernel/riscv.h] and [kernel/memlayout.h] that the memory
    code uses: page rounding, page-table entries, the split of a virtual
    address, and the layout of the kernel's address space. Addresses and
    entries are [uint64] values, kept in [0, 2^64). *)

From S2P Require Import Prelude.

(** ** kernel/riscv.h *)
Definition PGSIZE : Z := 4096.
Definition PGSHIFT : Z := 12.

Definition PGROUNDUP (sz : Z) : Z :=
  Z.land (u64 (sz + PGSIZE - 1)) (u64 (Z.lnot (PGSIZE - 1))).
Definition PGROUNDDOWN (a : Z) : Z :=
  Z.land a (u64 (Z.lnot (PGSIZE - 1))).

Definition PTE_V : Z := Z.shiftl 1 0.
Definition PTE_R : Z := Z.shiftl 1 1.
Definition PTE_W : Z := Z.shiftl 1 2.
Definition PTE_X : Z := Z.shiftl 1 3.
Definition PTE_U : Z := Z.shiftl 1 4.

Definition PA2PTE (pa : Z) : Z := u64 (Z.shiftl (Z.shiftr pa 12) 10).
Definition PTE2PA (pte : Z) : Z := u64 (Z.shiftl (Z.shiftr pte 10) 12).
Definition PTE_FLAGS (pte : Z) : Z := Z.land pte 0x3FF.

Definition PXMASK : Z := 0x1FF.
Definition PXSHIFT (level : Z) : Z := PGSHIFT + 9 * level.
Definition PX (level va : Z) : Z := Z.land (Z.shiftr va (PXSHIFT level)) PXMASK.

Definition MAXVA : Z := Z.shiftl 1 (9 + 9 + 9 + 12 - 1).

Definition SATP_SV39 : Z := u64 (Z.shiftl 8 60).
Definition MAKE_SATP (pagetable : Z) : Z := Z.lor SATP_SV39 (Z.shiftr pagetable 12).

(** ** kernel/memlayout.h *)
Definition UART0 : Z := 0x10000000.
Definition VIRTIO0 : Z := 0x10001000.
Definition PLIC : Z := 0x0c000000.
Definition KERNBASE : Z := 0x80000000.
Definition PHYSTOP : Z := KERNBASE + 128 * 1024 * 1024.
Definition TRAMPOLINE : Z := MAXVA - PGSIZE.
Definition KSTACK (p : Z) : Z := TRAMPOLINE - (p + 1) * 2 * PGSIZE.
Definition TRAPFRAME : Z := TRAMPOLINE - PGSIZE.
Definition NPROC : Z := 64.

(** ** Bit fields as arithmetic *)

Lemma land_high_mask n a :
  0 ≤ n ≤ 64 → 0 ≤ a < 2^64 →
  Z.land a (u64 (Z.lnot (Z.ones n))) = a - a `mod` 2^n.
Proof.
  intros Hn Ha. unfold u64.
  rewrite <-(Z.land_ones _ 64) by lia.
  rewrite (Z.land_comm (Z.lnot _)), Z.land_assoc, (Z.land_ones a) by lia.
  rewrite (Z.mod_small a) by lia.
  rewrite <-Z.ldiff_land, Z.ldiff_ones_r by lia.
  rewrite Z.shiftl_mul_pow2, Z.shiftr_div_pow2 by lia.
  pose proof (Z.div_mod a (2^n)). lia.
Qed.

Lemma lor_disjoint n a b :
  0 ≤ n → 0 ≤ b < 2^n → Z.lor (a * 2^n) b = a * 2^n + b.
Proof.
  intros Hn Hb. symmetry. apply Z.add_nocarry_lor.
  apply Z.bits_inj'. intros i Hi. rewrite Z.land_spec, Z.bits_0.
  destruct (decide (i < n)).
  - by rewrite Z.mul_pow2_bits_low.
  - rewrite <-(Z.mod_small b (2^n)), Z.mod_pow2_bits_high by lia.
    by rewrite andb_false_r.
Qed.

Lemma PGROUNDUP_small sz :
  0 ≤ sz ≤ 2^64 - PGSIZE → PGROUNDUP sz = (sz + 4095) `div` 4096 * 4096.
Proof.
  unfold PGSIZE. intros H. unfold PGROUNDUP, PGSIZE.
  change (4096 - 1) with (Z.ones 12).
  rewrite land_high_mask; unfold u64.
  - rewrite Z.mod_small by lia.
    pose proof (Z.div_mod (sz + 4096 - 1) 4096).
    change (2^12) with 4096. replace (sz + 4095) with (sz + 4096 - 1) by lia. lia.
  - lia.
  - apply Z.mod_pos_bound. lia.
Qed.

Lemma PGROUNDDOWN_spec a :
  0 ≤ a < 2^64 → PGROUNDDOWN a = a - a `mod` 4096.
Proof.
  intros H. unfold PGROUNDDOWN, PGSIZE.
  change (4096 - 1) with (Z.ones 12). by rewrite land_high_mask.
Qed.

Lemma PX_spec level va :
  0 ≤ level → PX level va = (va `div` 2^(12 + 9 * level)) `mod` 512.
Proof.
  intros H. unfold PX, PXSHIFT, PXMASK, PGSHIFT. change 0x1FF with (Z.ones 9).
  rewrite Z.land_ones, Z.shiftr_div_pow2 by lia. done.
Qed.

Lemma PX_range level va : 0 ≤ level → 0 ≤ PX level va < 512.
Proof. intros. rewrite PX_spec by done. apply Z.mod_pos_bound. lia. Qed.

Lemma PA2PTE_spec pa :
  0 ≤ pa < 2^56 → PA2PTE pa = pa `div` 4096 * 1024.
Proof.
  intros H. unfold PA2PTE, u64.
  rewrite Z.shiftl_mul_pow2, Z.shiftr_div_pow2 by lia.
  change (2^12) with 4096. change (2^10) with 1024. apply Z.mod_small.
  assert (0 ≤ pa `div` 4096 < 2^44); [|lia].
  split; [by apply Z.div_pos; lia|apply Z.div_lt_upper_bound; lia].
Qed.

(** A valid physical page: page-aligned, and its number fits the 44 bits an
    Sv39 entry has for it. *)
Definition page_aligned (pa : Z) : Prop := pa `mod` PGSIZE = 0.

Lemma pte_roundtrip pa flags :
  0 ≤ pa < 2^56 → page_aligned pa → 0 ≤ flags < 1024 →
  PTE2PA (Z.lor (PA2PTE pa) flags) = pa ∧
  PTE_FLAGS (Z.lor (PA2PTE pa) flags) = flags.
Proof.
  unfold page_aligned, PGSIZE. intros Hpa Hal Hf.
  rewrite PA2PTE_spec by done. change 1024 with (2^10).
  rewrite lor_disjoint by lia. unfold PTE2PA, PTE_FLAGS, u64.
  rewrite Z.shiftl_mul_pow2, Z.shiftr_div_pow2 by lia.
  change 0x3FF with (Z.ones 10). rewrite Z.land_ones by lia.
  rewrite Z.div_add_l, (Z.div_small flags), Z.add_0_r by lia.
  rewrite (Z.add_comm _ flags), Z_mod_plus_full, (Z.mod_small flags) by lia.
  split; [|done]. change (2^12) with 4096.
  pose proof (Z.div_mod pa 4096). rewrite Z.mod_small; lia.
Qed.

(** The three level indices determine a page-aligned address below MAXVA. *)
Lemma PX_inj va1 va2 :
  0 ≤ va1 < MAXVA → 0 ≤ va2 < MAXVA →
  page_aligned va1 → page_aligned va2 →
  (∀ level, 0 ≤ level ≤ 2 → PX level va1 = PX level va2) → va1 = va2.
Proof.
  unfold page_aligned, PGSIZE. change MAXVA with (2^38). intros H1 H2 A1 A2 HPX.
  assert (∀ va, 0 ≤ va < 2^38 → va `mod` 4096 = 0 →
    va = (PX 2 va * 2^18 + PX 1 va * 2^9 + PX 0 va) * 2^12) as Hdec.
  { intros va Hva Hal. rewrite !PX_spec by lia. simpl (12 + _).
    change (2^(12 + 9 * 2)) with (2^18 * 2^12).
    change (2^(12 + 9 * 1)) with (2^9 * 2^12). change (2^(12 + 9 * 0)) with (2^12).
    pose proof (Z.div_mod va (2^12)).
    rewrite !(Z.mul_comm _ (2^12)), <-!Z.div_div by lia.
    set (n := va `div` 2^12) in *. assert (0 ≤ n < 2^26).
    { unfold n. split; [apply Z.div_pos; lia|apply Z.div_lt_upper_bound; lia]. }
    change (2^18) with (512 * 512). change (2^9) with 512.
    rewrite <-Z.div_div by lia.
    pose proof (Z.div_mod n 512). pose proof (Z.div_mod (n `div` 512) 512).
    rewrite (Z.mod_small ((n `div` 512) `div` 512)).
    - change (2^12) with 4096 in *. lia.
    - split; [apply Z.div_pos; [apply Z.div_pos; lia|lia]|].
      rewrite Z.div_div by lia. apply Z.div_lt_upper_bound; lia. }
  rewrite (Hdec va1), (Hdec va2) by done. by rewrite !HPX by lia.
Qed.
