(* ===== verification/Mem.v ===== *)
(** * Byte-addressed memory and kernel/string.c

    Memory is a finite map from addresses to bytes; [char] is unsigned on
    RISC-V, so a byte is a [Z] in [0, 256) and a load always yields one. The
    routines of [kernel/string.c] are loops over this memory. *)

From S2P Require Import Prelude.

Abbreviation mem := (gmap Z Z).

Definition load8 (m : mem) (a : Z) : Z := u8 (default 0 (m !! a)).
Definition store8 (m : mem) (a v : Z) : mem := <[a := u8 v]> m.

(** Little-endian words, as a RISC-V load or store of 2, 4 or 8 bytes. *)
Definition load_bytes (m : mem) (a n : Z) : list Z :=
  (λ i, load8 m (a + i)) <$> seqZ 0 n.
Fixpoint store_bytes (m : mem) (a : Z) (bs : list Z) : mem :=
  match bs with
  | [] => m
  | b :: bs => store_bytes (store8 m a b) (a + 1) bs
  end.
Definition load64 (m : mem) (a : Z) : Z := little_endian_to_Z 8 (load_bytes m a 8).
Definition store64 (m : mem) (a v : Z) : mem :=
  store_bytes m a (Z_to_little_endian 8 8 v).

(** ** kernel/string.c *)

(** [for(i = 0; i < n; i++) cdst[i] = c;] with [k] iterations left. *)
Fixpoint memset_loop (m : mem) (cdst c i : Z) (k : nat) : mem :=
  match k with
  | O => m
  | S k => memset_loop (store8 m (cdst + i) c) cdst c (i + 1) k
  end.
Definition memset (m : mem) (dst c n : Z) : mem :=
  memset_loop m dst c 0 (Z.to_nat n).

(** [while(n-- > 0)] of memcmp; the result is an [int]. *)
Fixpoint memcmp_loop (m : mem) (s1 s2 : Z) (n : nat) : Z :=
  match n with
  | O => 0
  | S n =>
      if load8 m s1 =? load8 m s2 then memcmp_loop m (s1 + 1) (s2 + 1) n
      else load8 m s1 - load8 m s2
  end.
Definition memcmp (m : mem) (v1 v2 n : Z) : Z := memcmp_loop m v1 v2 (Z.to_nat n).

(** [while(n-- > 0) *--d = *--s;] *)
Fixpoint memmove_down (m : mem) (d s : Z) (n : nat) : mem :=
  match n with
  | O => m
  | S n => memmove_down (store8 m (d - 1) (load8 m (s - 1))) (d - 1) (s - 1) n
  end.
(** [while(n-- > 0) *d++ = *s++;] *)
Fixpoint memmove_up (m : mem) (d s : Z) (n : nat) : mem :=
  match n with
  | O => m
  | S n => memmove_up (store8 m d (load8 m s)) (d + 1) (s + 1) n
  end.
Definition memmove (m : mem) (dst src n : Z) : mem :=
  if n =? 0 then m
  else if (src <? dst) && (dst <? src + n)
  then memmove_down m (dst + n) (src + n) (Z.to_nat n)
  else memmove_up m dst src (Z.to_nat n).
Definition memcpy (m : mem) (dst src n : Z) : mem := memmove m dst src n.

Fixpoint strncmp_loop (m : mem) (p q : Z) (n : nat) : Z :=
  match n with
  | O => 0
  | S n' =>
      if negb (load8 m p =? 0) && (load8 m p =? load8 m q)
      then strncmp_loop m (p + 1) (q + 1) n'
      else load8 m p - load8 m q
  end.
Definition strncmp (m : mem) (p q n : Z) : Z := strncmp_loop m p q (Z.to_nat n).

(** [while(n-- > 0) *s++ = 0;] *)
Fixpoint zero_loop (m : mem) (s : Z) (n : nat) : mem :=
  match n with
  | O => m
  | S n => zero_loop (store8 m s 0) (s + 1) n
  end.
(** [while(n-- > 0 && ( *s++ = *t++) != 0) ;] and then the loop above. The
    test [n-- > 0] that ends the first loop also decrements [n], so when all
    [n] bytes were copied the second loop does not run. *)
Fixpoint strncpy_loop (m : mem) (s t : Z) (n : nat) : mem :=
  match n with
  | O => m
  | S n =>
      let m' := store8 m s (load8 m t) in
      if load8 m t =? 0 then zero_loop m' (s + 1) n
      else strncpy_loop m' (s + 1) (t + 1) n
  end.
Definition strncpy (m : mem) (s t n : Z) : mem := strncpy_loop m s t (Z.to_nat n).

(** [while(--n > 0 && ( *s++ = *t++) != 0) ; *s = 0;] with [n] the number of
    bytes the loop may still copy. *)
Fixpoint safestrcpy_loop (m : mem) (s t : Z) (n : nat) : mem :=
  match n with
  | O => store8 m s 0
  | S n =>
      let m' := store8 m s (load8 m t) in
      if load8 m t =? 0 then store8 m' (s + 1) 0
      else safestrcpy_loop m' (s + 1) (t + 1) n
  end.
Definition safestrcpy (m : mem) (s t n : Z) : mem :=
  if n <=? 0 then m else safestrcpy_loop m s t (Z.to_nat (n - 1)).

(** [for(n = 0; s[n]; n++) ;] inspects at most [fuel] bytes. *)
Fixpoint strlen_loop (m : mem) (s n : Z) (fuel : nat) : option Z :=
  match fuel with
  | O => None
  | S fuel =>
      if load8 m (s + n) =? 0 then Some n else strlen_loop m s (n + 1) fuel
  end.
Definition strlen (fuel : nat) (m : mem) (s : Z) : option Z := strlen_loop m s 0 fuel.

#[global] Arguments load8 : simpl never.
#[global] Arguments store8 : simpl never.
#[global] Arguments load64 : simpl never.
#[global] Arguments store64 : simpl never.
#[global] Arguments memset : simpl never.
#[global] Arguments memmove : simpl never.

(** ** Loads after stores *)

Lemma u8_range x : 0 ≤ u8 x < 256.
Proof. apply Z.mod_pos_bound. lia. Qed.
Lemma u8_small x : 0 ≤ x < 256 → u8 x = x.
Proof. apply Z.mod_small. Qed.
Lemma u8_u8 x : u8 (u8 x) = u8 x.
Proof. apply u8_small, u8_range. Qed.
Lemma load8_range m a : 0 ≤ load8 m a < 256.
Proof. apply u8_range. Qed.
Lemma u8_load8 m a : u8 (load8 m a) = load8 m a.
Proof. apply u8_small, load8_range. Qed.
#[export] Hint Resolve load8_range u8_range : xv6.

Lemma load8_store8 m a v x :
  load8 (store8 m a v) x = if decide (a = x) then u8 v else load8 m x.
Proof.
  unfold load8, store8. rewrite lookup_insert.
  case_decide; simpl; [apply u8_u8|done].
Qed.

Lemma load8_store_bytes m a bs x :
  load8 (store_bytes m a bs) x =
    if decide (a ≤ x < a + length bs) then u8 (bs !!! Z.to_nat (x - a))
    else load8 m x.
Proof.
  revert m a. induction bs as [|b bs IH]; intros m a; simpl.
  { rewrite decide_False by lia. done. }
  rewrite IH, load8_store8.
  destruct (decide (a = x)) as [->|Hne].
  - rewrite decide_False by lia. rewrite decide_True by lia.
    by rewrite Z.sub_diag.
  - destruct (decide (a + 1 ≤ x < a + 1 + length bs)).
    + rewrite decide_True by lia.
      replace (Z.to_nat (x - a)) with (S (Z.to_nat (x - (a + 1)))) by lia. done.
    + by rewrite decide_False by lia.
Qed.

Lemma length_load_bytes m a n : length (load_bytes m a n) = Z.to_nat n.
Proof. unfold load_bytes. by rewrite length_fmap, length_seqZ. Qed.

Lemma load_bytes_byte m a n : Forall (λ b, 0 ≤ b < 2^8) (load_bytes m a n).
Proof.
  unfold load_bytes. apply Forall_fmap, Forall_forall.
  intros i _. apply load8_range.
Qed.

Lemma load_bytes_ext m m' a n :
  (∀ x, a ≤ x < a + n → load8 m x = load8 m' x) →
  load_bytes m a n = load_bytes m' a n.
Proof.
  intros H. unfold load_bytes. apply list_fmap_ext. intros i x Hx.
  apply lookup_seqZ in Hx. apply H. lia.
Qed.

Lemma load64_ext m m' a :
  (∀ x, a ≤ x < a + 8 → load8 m x = load8 m' x) → load64 m a = load64 m' a.
Proof. intros H. unfold load64. by rewrite (load_bytes_ext m m'). Qed.

Lemma load64_range m a : 0 ≤ load64 m a < 2^64.
Proof.
  unfold load64.
  pose proof (little_endian_to_Z_bound 8 (load_bytes m a 8)) as H.
  rewrite length_load_bytes in H. apply H; [lia|apply load_bytes_byte].
Qed.
#[export] Hint Resolve load64_range : xv6.

Lemma load_store_bytes m a bs :
  Forall (λ b, 0 ≤ b < 2^8) bs →
  load_bytes (store_bytes m a bs) a (length bs) = bs.
Proof.
  intros Hbs. apply list_eq. intros i. unfold load_bytes.
  destruct (decide (i < length bs)%nat) as [Hi|Hi].
  - rewrite list_lookup_fmap, lookup_seqZ_lt by lia. simpl.
    rewrite load8_store_bytes, decide_True by lia.
    replace (Z.to_nat (a + (0 + Z.of_nat i) - a)) with i by lia.
    destruct (lookup_lt_is_Some_2 bs i) as [b Hb]; [done|].
    rewrite (list_lookup_total_correct _ _ _ Hb), Hb. f_equal. apply u8_small.
    by eapply Forall_lookup in Hbs.
  - rewrite !lookup_ge_None_2; [done|len|len].
Qed.

Lemma length_Z_to_le n m z : 0 ≤ n → length (Z_to_little_endian n m z) = Z.to_nat n.
Proof. intros H. pose proof (length_Z_to_little_endian n m z H). lia. Qed.

Lemma load64_store64_eq m a v : load64 (store64 m a v) a = u64 v.
Proof.
  unfold load64, store64.
  replace 8 with (Z.of_nat (length (Z_to_little_endian 8 8 v))) at 2
    by (rewrite length_Z_to_le; lia).
  rewrite load_store_bytes by (apply Z_to_little_endian_bound; lia).
  by rewrite little_endian_to_Z_to_little_endian by lia.
Qed.

Lemma load8_store64_ne m a v x :
  ¬ (a ≤ x < a + 8) → load8 (store64 m a v) x = load8 m x.
Proof.
  intros H. unfold store64. rewrite load8_store_bytes, decide_False; [done|].
  rewrite length_Z_to_le; lia.
Qed.

Lemma load64_store64_ne m a v b :
  a + 8 ≤ b ∨ b + 8 ≤ a → load64 (store64 m a v) b = load64 m b.
Proof. intros H. apply load64_ext. intros x Hx. apply load8_store64_ne. lia. Qed.

Lemma load64_zero m a : (∀ x, a ≤ x < a + 8 → load8 m x = 0) → load64 m a = 0.
Proof.
  intros H. rewrite (load64_ext m ∅).
  - unfold load64, load_bytes, load8.
    change (seqZ 0 8) with [0;1;2;3;4;5;6;7]. simpl. by rewrite !lookup_empty.
  - intros x Hx. rewrite H by done. unfold load8. by rewrite lookup_empty.
Qed.

(** ** memset and memmove *)

Lemma memset_loop_spec m d c i k x :
  load8 (memset_loop m d c i k) x =
    if decide (d + i ≤ x < d + i + k) then u8 c else load8 m x.
Proof.
  revert m i. induction k as [|k IH]; intros m i; cbn [memset_loop].
  { by rewrite decide_False by lia. }
  rewrite IH, load8_store8.
  repeat case_decide; (done || lia).
Qed.

Lemma load8_memset m dst c n x :
  0 ≤ n →
  load8 (memset m dst c n) x =
    if decide (dst ≤ x < dst + n) then u8 c else load8 m x.
Proof.
  intros Hn. unfold memset. rewrite memset_loop_spec, Z2Nat.id by done.
  by rewrite Z.add_0_r.
Qed.

Lemma memmove_up_spec m d s (n : nat) x :
  (d ≤ s ∨ s + n ≤ d) →
  load8 (memmove_up m d s n) x =
    if decide (d ≤ x < d + n) then load8 m (s + (x - d)) else load8 m x.
Proof.
  revert m d s. induction n as [|n IH]; intros m d s H; cbn [memmove_up].
  { by rewrite decide_False by lia. }
  rewrite IH by lia. rewrite !load8_store8, u8_load8.
  repeat case_decide; subst; try lia; try done; f_equal; lia.
Qed.

Lemma memmove_down_spec m d s (n : nat) x :
  s < d →
  load8 (memmove_down m d s n) x =
    if decide (d - n ≤ x < d) then load8 m (s + (x - d)) else load8 m x.
Proof.
  revert m d s. induction n as [|n IH]; intros m d s H; cbn [memmove_down].
  { by rewrite decide_False by lia. }
  rewrite IH by lia. rewrite !load8_store8, u8_load8.
  repeat case_decide; subst; try lia; try done; f_equal; lia.
Qed.

Lemma load8_memmove m dst src n x :
  0 ≤ n →
  load8 (memmove m dst src n) x =
    if decide (dst ≤ x < dst + n) then load8 m (src + (x - dst)) else load8 m x.
Proof.
  intros Hn. unfold memmove.
  destruct (Z.eqb_spec n 0) as [->|].
  { by rewrite decide_False by lia. }
  destruct (Z.ltb_spec src dst); destruct (Z.ltb_spec dst (src + n)); simpl.
  2,3,4: rewrite memmove_up_spec by lia; by rewrite Z2Nat.id by lia.
  rewrite memmove_down_spec by lia. rewrite Z2Nat.id by lia.
  repeat case_decide; try lia; try done; f_equal; lia.
Qed.

(** ** C strings

    [cstrn m p n]: the bytes of the string at [p] before its NUL, at most [n]
    of them; what [strncmp] compares and [strncpy] copies. *)
Fixpoint cstrn (m : mem) (p : Z) (n : nat) : list Z :=
  match n with
  | O => []
  | S n => if load8 m p =? 0 then [] else load8 m p :: cstrn m (p + 1) n
  end.

Lemma cstrn_ext m m' p (n : nat) :
  (∀ x, p ≤ x < p + n → load8 m x = load8 m' x) → cstrn m p n = cstrn m' p n.
Proof.
  revert p. induction n as [|n IH]; intros p H; simpl; [done|].
  rewrite (H p) by lia. case_match; [done|]. f_equal. apply IH.
  intros x Hx. apply H. lia.
Qed.

Lemma length_cstrn m p n : (length (cstrn m p n) ≤ n)%nat.
Proof.
  revert p. induction n as [|n IH]; intros p; simpl; [lia|].
  case_match; simpl; [lia|]. specialize (IH (p + 1)). lia.
Qed.

Lemma strncmp_loop_zero m p q n :
  strncmp_loop m p q n = 0 ↔ cstrn m p n = cstrn m q n.
Proof.
  revert p q. induction n as [|n IH]; intros p q; cbn [strncmp_loop cstrn]; [done|].
  destruct (Z.eqb_spec (load8 m p) 0) as [Hp|Hp];
    destruct (Z.eqb_spec (load8 m q) 0) as [Hq|Hq]; simpl.
  - split; [done|lia].
  - split; [lia|done].
  - rewrite (proj2 (Z.eqb_neq (load8 m p) (load8 m q))) by lia.
    split; [lia|done].
  - destruct (Z.eqb_spec (load8 m p) (load8 m q)) as [Heq|Hne].
    + rewrite IH, Heq. split; [by intros ->|by intros [=]].
    + split; [lia|]. intros [=]. done.
Qed.

Lemma load8_zero_loop m s (n : nat) x :
  load8 (zero_loop m s n) x = if decide (s ≤ x < s + n) then 0 else load8 m x.
Proof.
  revert m s. induction n as [|n IH]; intros m s; cbn [zero_loop].
  { by rewrite decide_False by lia. }
  rewrite IH, load8_store8. repeat case_decide; try lia; done.
Qed.

(** Byte [i] of a string of at most [n] bytes padded with NULs. *)
Definition padded (bs : list Z) (i : Z) : Z := default 0 (bs !! Z.to_nat i).

Lemma load8_strncpy_loop m s t (n : nat) x :
  s + n ≤ t ∨ t + n ≤ s →
  load8 (strncpy_loop m s t n) x =
    if decide (s ≤ x < s + n) then padded (cstrn m t n) (x - s) else load8 m x.
Proof.
  revert m s t. induction n as [|n IH]; intros m s t H; cbn [strncpy_loop cstrn].
  { by rewrite decide_False by lia. }
  destruct (Z.eqb_spec (load8 m t) 0) as [H0|H0].
  - rewrite load8_zero_loop, load8_store8, H0. unfold padded. simpl.
    repeat case_decide; try lia; done.
  - rewrite IH by lia.
    rewrite (cstrn_ext _ m (t + 1)).
    2: { intros y Hy. rewrite load8_store8. case_decide; [lia|done]. }
    rewrite load8_store8, u8_load8. unfold padded.
    destruct (decide (s = x)) as [->|].
    + rewrite decide_False, decide_True by lia. by rewrite Z.sub_diag.
    + case_decide.
      * rewrite decide_True by lia.
        by replace (Z.to_nat (x - s)) with (S (Z.to_nat (x - (s + 1)))) by lia.
      * by rewrite decide_False by lia.
Qed.

Lemma load8_safestrcpy_loop m s t (n : nat) x :
  s + n + 1 ≤ t ∨ t + n ≤ s →
  load8 (safestrcpy_loop m s t n) x =
    if decide (s ≤ x < s + length (cstrn m t n)) then padded (cstrn m t n) (x - s)
    else if decide (x = s + length (cstrn m t n)) then 0
    else if decide (x = s + length (cstrn m t n) + 1 ∧ (length (cstrn m t n) < n)%nat)
    then 0
    else load8 m x.
Proof.
  revert m s t. induction n as [|n IH]; intros m s t H; cbn [safestrcpy_loop cstrn].
  { simpl. rewrite decide_False by lia. rewrite load8_store8.
    repeat case_decide; try lia; done. }
  destruct (Z.eqb_spec (load8 m t) 0) as [H0|H0].
  - simpl. rewrite !load8_store8, H0. repeat case_decide; try lia; done.
  - rewrite IH by lia.
    rewrite (cstrn_ext _ m (t + 1)).
    2: { intros y Hy. rewrite load8_store8. case_decide; [lia|done]. }
    set (k := cstrn m (t + 1) n). simpl length. rewrite load8_store8, u8_load8.
    unfold padded.
    destruct (decide (s = x)) as [->|].
    + do 3 (rewrite decide_False by lia). rewrite decide_True by lia.
      by rewrite Z.sub_diag.
    + destruct (decide (s + 1 ≤ x < s + 1 + length k)).
      * rewrite decide_True by lia.
        by replace (Z.to_nat (x - s)) with (S (Z.to_nat (x - (s + 1)))) by lia.
      * rewrite (decide_False (P := s ≤ x < _)) by lia.
        repeat case_decide; try lia; done.
Qed.

Lemma strlen_loop_spec m s n k fuel :
  0 ≤ k → (Z.to_nat k < fuel)%nat →
  (∀ i, n ≤ i < n + k → load8 m (s + i) ≠ 0) → load8 m (s + (n + k)) = 0 →
  strlen_loop m s n fuel = Some (n + k).
Proof.
  revert n k. induction fuel as [|fuel IH]; intros n k Hk Hf Hnz Hz; [lia|].
  simpl. destruct (decide (k = 0)) as [->|].
  - rewrite Z.add_0_r in Hz |- *. by rewrite Hz.
  - rewrite (proj2 (Z.eqb_neq _ _)) by (apply Hnz; lia).
    rewrite (IH (n + 1) (k - 1)); [f_equal; lia|lia|lia| |].
    + intros i Hi. apply Hnz. lia.
    + by replace (n + 1 + (k - 1)) with (n + k) by lia.
Qed.

(** From here on the proofs use the lemmas above, not the loops. *)
#[global] Opaque memset memmove store64 load64 strncmp strncpy safestrcpy.
