(* ===== verification/Kalloc.v ===== *)
(** * The physical page allocator, kernel/kalloc.c

    The free list of [kmem] is threaded through the free pages themselves: the
    first eight bytes of a free page hold the address of the next one. The
    state is the physical memory and the head of that list. [kend] is the
    address of the linker symbol [end] of [kernel/kernel.ld], the first byte
    after the kernel image. [kmem.lock] makes each operation one atomic
    transition. *)

From S2P Require Import Prelude Riscv Mem.

Record kmem := Kmem { km_mem : mem; freelist : Z }.

Definition upd_mem (f : mem → mem) (k : kmem) : kmem := Kmem (f (km_mem k)) (freelist k).

Section kalloc.
Variable kend : Z.

Definition kfree (pa : Z) : M kmem unit :=
  if negb (pa `mod` PGSIZE =? 0) || (pa <? kend) || (PHYSTOP <=? pa)
  then panic "kfree"
  else
    modify (upd_mem (λ m, memset m pa 1 PGSIZE)) ;;;
    let* next := gets freelist in
    modify (upd_mem (λ m, store64 m pa next)) ;;;
    modify (λ k, Kmem (km_mem k) pa).

Definition kalloc : M kmem Z :=
  let* r := gets freelist in
  (if r =? 0 then ret tt
   else modify (λ k, Kmem (km_mem k) (load64 (km_mem k) r))) ;;;
  (if r =? 0 then ret tt
   else modify (upd_mem (λ m, memset m r 5 PGSIZE))) ;;;
  ret r.

(** [for(; p + PGSIZE <= pa_end; p += PGSIZE) kfree(p);] The bound is one more
    than the number of pages between the two addresses. *)
Definition freerange (pa_start pa_end : Z) : M kmem unit :=
  loop (S (Z.to_nat ((pa_end - pa_start) `div` PGSIZE)))
    (λ p, if p + PGSIZE <=? pa_end
          then kfree p ;;; ret (inl (p + PGSIZE))
          else ret (inr tt))
    (PGROUNDUP pa_start).

Definition kinit : M kmem unit := freerange kend PHYSTOP.

(** ** The free list as a sequence of pages *)

Definition page_ok (p : Z) : Prop := page_aligned p ∧ kend ≤ p < PHYSTOP.

Definition in_page (p x : Z) : Prop := p ≤ x < p + PGSIZE.

Fixpoint chain (m : mem) (head : Z) (l : list Z) : Prop :=
  match l with
  | [] => head = 0
  | p :: l => head = p ∧ page_ok p ∧ chain m (load64 m p) l
  end.

Definition kmem_ok (k : kmem) (l : list Z) : Prop :=
  chain (km_mem k) (freelist k) l ∧ NoDup l.

(** Memory [m'] agrees with [m] outside the pages [ps]. *)
Definition same_outside (ps : list Z) (m m' : mem) : Prop :=
  ∀ x, (∀ p, p ∈ ps → ¬ in_page p x) → load8 m' x = load8 m x.

Lemma same_outside_refl ps m : same_outside ps m m.
Proof. done. Qed.

Lemma same_outside_trans ps m1 m2 m3 :
  same_outside ps m1 m2 → same_outside ps m2 m3 → same_outside ps m1 m3.
Proof. intros H1 H2 x Hx. by rewrite H2, H1. Qed.

Lemma same_outside_mono ps ps' m m' :
  (∀ p, p ∈ ps → p ∈ ps') → same_outside ps m m' → same_outside ps' m m'.
Proof. intros Hs H x Hx. apply H. eauto. Qed.

Lemma pages_disjoint p q x :
  page_aligned p → page_aligned q → in_page p x → in_page q x → p = q.
Proof.
  unfold page_aligned, in_page, PGSIZE. intros Hp Hq H1 H2.
  pose proof (Z.div_mod p 4096). pose proof (Z.div_mod q 4096). lia.
Qed.

(** A word that lies in one page is not touched by stores to other pages. *)
Lemma same_outside_load64 ps m m' p i :
  same_outside ps m m' → p ∉ ps → page_aligned p → Forall page_aligned ps →
  0 ≤ i → i + 8 ≤ PGSIZE → load64 m' (p + i) = load64 m (p + i).
Proof.
  intros Hs Hp Hpa Hal Hi Hi'. apply load64_ext. intros x Hx. apply Hs.
  intros q Hq Hin. assert (in_page p x) by (unfold in_page; lia).
  assert (p = q); [|congruence].
  eapply pages_disjoint; eauto. rewrite Forall_forall in Hal. by apply Hal.
Qed.

Lemma chain_pages m head l : chain m head l → Forall page_ok l.
Proof.
  revert head. induction l as [|p l IH]; intros head; simpl; [done|].
  intros (_ & ? & H). constructor; eauto.
Qed.

Lemma page_ok_aligned l : Forall page_ok l → Forall page_aligned l.
Proof. intros H. eapply Forall_impl; [done|]. by intros p []. Qed.

Lemma chain_frame ps m m' head l :
  chain m head l → same_outside ps m m' → Forall page_aligned ps →
  (∀ p, p ∈ l → p ∉ ps) → chain m' head l.
Proof.
  intros Hc Hs Hal. revert head Hc.
  induction l as [|p l IH]; intros head; simpl; [done|].
  intros (-> & Hp & Hc) Hd. split; [done|]. split; [done|].
  replace (load64 m' p) with (load64 m p).
  - apply IH; [done|]. intros q Hq. apply Hd. set_solver.
  - symmetry. rewrite <-(Z.add_0_r p).
    eapply same_outside_load64; eauto; [set_solver|apply Hp|lia|].
    unfold PGSIZE; lia.
Qed.

Lemma kmem_ok_frame ps k m' l :
  kmem_ok k l → same_outside ps (km_mem k) m' → Forall page_aligned ps →
  (∀ p, p ∈ l → p ∉ ps) → kmem_ok (Kmem m' (freelist k)) l.
Proof. intros [Hc Hnd] Hs Hal Hd. split; [by eapply chain_frame|done]. Qed.

Lemma kmem_ok_upd ps f k l :
  kmem_ok k l → same_outside ps (km_mem k) (f (km_mem k)) → Forall page_aligned ps →
  (∀ p, p ∈ l → p ∉ ps) → kmem_ok (upd_mem f k) l.
Proof. apply kmem_ok_frame. Qed.

Lemma memset_same_outside m p c : same_outside [p] m (memset m p c PGSIZE).
Proof.
  intros x Hx. rewrite load8_memset by (unfold PGSIZE; lia).
  rewrite decide_False; [done|]. apply (Hx p). set_solver.
Qed.

Lemma store64_same_outside m p i v :
  0 ≤ i → i + 8 ≤ PGSIZE → same_outside [p] m (store64 m (p + i) v).
Proof.
  intros Hi Hi' x Hx. apply load8_store64_ne. intros ?.
  apply (Hx p); [set_solver|unfold in_page; lia].
Qed.

Lemma store64_same_outside_0 m p v : same_outside [p] m (store64 m p v).
Proof.
  intros x Hx. apply load8_store64_ne. intros ?.
  apply (Hx p); [set_solver|unfold in_page, PGSIZE; lia].
Qed.

(** ** Specifications of the operations *)

Hypothesis kend_pos : 0 < kend.

Lemma kalloc_nil k : kmem_ok k [] → kalloc k = Done 0 k.
Proof. intros [Hc _]. simpl in Hc. unfold kalloc, bind, gets. by rewrite Hc. Qed.

Lemma kalloc_cons k p l :
  kmem_ok k (p :: l) →
  ∃ k', kalloc k = Done p k' ∧ kmem_ok k' l ∧
        same_outside [p] (km_mem k) (km_mem k') ∧
        (∀ x, in_page p x → load8 (km_mem k') x = 5).
Proof.
  intros [(Hh & Hp & Hc) [Hnin Hnd]%NoDup_cons].
  assert (p ≠ 0) by (destruct Hp; lia).
  unfold kalloc, bind, gets, modify. rewrite Hh.
  rewrite (proj2 (Z.eqb_neq p 0)) by done. eexists. split; [done|]. simpl.
  split; [|split].
  - split; [|done]. simpl.
    eapply chain_frame; [done|apply memset_same_outside| |set_solver].
    constructor; [apply Hp|done].
  - apply memset_same_outside.
  - intros x Hx. rewrite load8_memset by (unfold PGSIZE; lia).
    by rewrite decide_True by done.
Qed.

Lemma kfree_ok k p l :
  kmem_ok k l → page_ok p → p ∉ l →
  ∃ k', kfree p k = Done tt k' ∧ kmem_ok k' (p :: l) ∧
        same_outside [p] (km_mem k) (km_mem k') ∧
        (∀ x, in_page p x → p + 8 ≤ x → load8 (km_mem k') x = 1).
Proof.
  intros [Hc Hnd] [Hal Hr] Hnin. unfold kfree.
  assert (negb (p `mod` PGSIZE =? 0) || (p <? kend) || (PHYSTOP <=? p) = false) as ->.
  { unfold page_aligned in Hal. rewrite Hal. simpl.
    destruct (Z.ltb_spec p kend), (Z.leb_spec PHYSTOP p); simpl; lia || done. }
  eexists. split; [done|]. simpl.
  assert (same_outside [p] (km_mem k)
            (store64 (memset (km_mem k) p 1 PGSIZE) p (freelist k))) as Hs.
  { eapply same_outside_trans; [apply memset_same_outside|].
    apply store64_same_outside_0. }
  split; [|split; [done|]].
  - split; [|by constructor]. simpl. split; [done|]. split; [by split|].
    rewrite load64_store64_eq.
    assert (u64 (freelist k) = freelist k) as ->.
    { apply Z.mod_small. destruct l as [|q l]; simpl in Hc; [lia|].
      destruct Hc as (-> & [_ Hq] & _). unfold PHYSTOP, KERNBASE in Hq. lia. }
    eapply chain_frame; eauto. set_solver.
  - intros x Hx Hx8. rewrite load8_store64_ne by lia.
    rewrite load8_memset by (unfold PGSIZE; lia). by rewrite decide_True.
Qed.

Lemma kfree_bad k p : ¬ page_ok p → kfree p k = Panic "kfree".
Proof.
  intros Hp. unfold kfree.
  destruct (negb (p `mod` PGSIZE =? 0) || (p <? kend) || (PHYSTOP <=? p)) eqn:E; [done|].
  exfalso. apply Hp. unfold page_ok, page_aligned.
  apply orb_false_elim in E as [[E1 E2]%orb_false_elim E3].
  apply negb_false_iff in E1. lia.
Qed.

(** The pages [freerange] puts on the list, lowest address first. *)
Definition pages_from (lo n : Z) : list Z := (λ i, lo + i * PGSIZE) <$> seqZ 0 n.

Lemma pages_from_snoc lo n :
  0 ≤ n → pages_from lo (n + 1) = pages_from lo n ++ [lo + n * PGSIZE].
Proof.
  intros Hn. unfold pages_from. rewrite seqZ_app by lia.
  rewrite fmap_app. simpl. by rewrite Z.add_0_l.
Qed.

Lemma elem_of_pages_from lo n q :
  q ∈ pages_from lo n ↔ ∃ i, 0 ≤ i < n ∧ q = lo + i * PGSIZE.
Proof.
  unfold pages_from. rewrite list_elem_of_fmap. setoid_rewrite elem_of_seqZ.
  naive_solver lia.
Qed.

Lemma freerange_ok k l lo hi :
  kmem_ok k l → kend ≤ PGROUNDUP lo → hi ≤ PHYSTOP →
  0 ≤ lo → lo ≤ hi →
  (∀ q, q ∈ pages_from (PGROUNDUP lo) ((hi - PGROUNDUP lo) `div` PGSIZE) → q ∉ l) →
  wp (freerange lo hi) k (λ _ k', kmem_ok k'
    (reverse (pages_from (PGROUNDUP lo) ((hi - PGROUNDUP lo) `div` PGSIZE)) ++ l)).
Proof.
  intros Hk Hlo Hhi H0 Hle Hdisj.
  assert (PGROUNDUP lo = (lo + 4095) `div` 4096 * 4096) as Hup.
  { apply PGROUNDUP_small. unfold PHYSTOP, KERNBASE, PGSIZE in *. lia. }
  set (p0 := PGROUNDUP lo) in *. set (N := (hi - p0) `div` PGSIZE) in *.
  assert (lo ≤ p0 ∧ page_aligned p0) as [Hp0 Hal0].
  { unfold page_aligned, PGSIZE. rewrite Hup.
    split; [|by rewrite Z_mod_mult].
    pose proof (Z.div_mod (lo + 4095) 4096). pose proof (Z.mod_pos_bound (lo + 4095) 4096). lia. }
  assert (N * PGSIZE ≤ hi - p0 < (N + 1) * PGSIZE) as HN.
  { unfold N, PGSIZE. pose proof (Z.div_mod (hi - p0) 4096).
    pose proof (Z.mod_pos_bound (hi - p0) 4096). lia. }
  unfold freerange.
  apply (wp_loop (λ n p s, ∃ i, p = p0 + i * PGSIZE ∧ 0 ≤ i ∧ i ≤ Z.max 0 N ∧ (Z.max 0 N - i < n)%Z
          ∧ kmem_ok s (reverse (pages_from p0 i) ++ l))).
  - intros n p s (i & -> & Hi & HiN & Hn & Hs).
    destruct (Z.leb_spec (p0 + i * PGSIZE + PGSIZE) hi) as [Hin|Hout].
    + apply wp_bind. assert (i < N) by (unfold PGSIZE in *; lia).
      destruct (kfree_ok s (p0 + i * PGSIZE) (reverse (pages_from p0 i) ++ l))
        as (s' & Hfree & Hs' & _); [done| | |].
      * split; [|unfold PGSIZE in *; lia].
        unfold page_aligned, PGSIZE in *. by rewrite Z_mod_plus_full.
      * rewrite elem_of_app, elem_of_reverse, elem_of_pages_from.
        intros [(j & Hj & Heq)|Hl]; [unfold PGSIZE in *; lia|].
        apply (Hdisj (p0 + i * PGSIZE)); [|done]. apply elem_of_pages_from. eauto with lia.
      * unfold wp. rewrite Hfree. simpl. exists (i + 1).
        split; [lia|]. split; [lia|]. split; [lia|]. split; [lia|].
        rewrite pages_from_snoc by lia. by rewrite reverse_app.
    + apply wp_ret. assert (i = Z.max 0 N) as -> by (unfold PGSIZE in *; lia).
      destruct (decide (0 ≤ N)); [by rewrite Z.max_r in Hs by lia|].
      rewrite Z.max_l in Hs by lia.
      replace (pages_from p0 N) with (pages_from p0 0); [done|].
      unfold pages_from. by rewrite !seqZ_nil by lia.
  - intros p s (i & _ & ? & ? & ? & _). lia.
  - exists 0. rewrite Z.mul_0_l, Z.add_0_r. split; [done|]. split; [lia|]. split; [lia|].
    split; [|done]. assert (N ≤ (hi - lo) `div` PGSIZE).
    { apply Z.div_le_mono; unfold PGSIZE; lia. }
    assert (0 ≤ (hi - lo) `div` PGSIZE) by (apply Z.div_pos; unfold PGSIZE; lia). lia.
Qed.
End kalloc.

(** ** The allocator as a stack of pages

    The contract of [kalloc] and [kfree]: a stack of distinct free pages.
    [None] marks calls outside the contract (freeing a page that is not a RAM
    page, or that is free already). *)
Inductive kop := OpAlloc | OpFree (pa : Z).

#[global] Instance page_ok_dec kend p : Decision (page_ok kend p).
Proof. unfold page_ok, page_aligned. apply _. Defined.

Definition stack_step (kend : Z) (l : list Z) (op : kop) : option (Z * list Z) :=
  match op with
  | OpAlloc => match l with [] => Some (0, []) | p :: l => Some (p, l) end
  | OpFree p =>
      if decide (page_ok kend p ∧ p ∉ l) then Some (0, p :: l) else None
  end.

Fixpoint stack_run (kend : Z) (l : list Z) (ops : list kop) : option (list Z * list Z) :=
  match ops with
  | [] => Some ([], l)
  | op :: ops =>
      match stack_step kend l op with
      | None => None
      | Some (r, l) =>
          match stack_run kend l ops with
          | None => None
          | Some (rs, l) => Some (r :: rs, l)
          end
      end
  end.

Definition kop_run (kend : Z) (op : kop) : M kmem Z :=
  match op with
  | OpAlloc => kalloc
  | OpFree p => kfree kend p ;;; ret 0
  end.

Fixpoint kops_run (kend : Z) (ops : list kop) : M kmem (list Z) :=
  match ops with
  | [] => ret []
  | op :: ops =>
      let* r := kop_run kend op in
      let* rs := kops_run kend ops in
      ret (r :: rs)
  end.

Lemma kop_refines kend k l op r l' :
  0 < kend → kmem_ok kend k l → stack_step kend l op = Some (r, l') →
  ∃ k', kop_run kend op k = Done r k' ∧ kmem_ok kend k' l'.
Proof.
  intros Hend Hk Hop. destruct op as [|p]; simpl in *.
  - destruct l as [|p l]; simplify_eq.
    + exists k. split; [by eapply kalloc_nil|done].
    + edestruct kalloc_cons as (k' & ? & ? & _); eauto.
  - case_decide as Hp; [|done]. destruct Hp as [Hp Hnin]. simplify_eq.
    edestruct kfree_ok as (k' & Hf & ? & _); eauto.
    exists k'. unfold bind. by rewrite Hf.
Qed.

(** C8. Every legal sequence of [kalloc] and [kfree] calls behaves as a stack
    of free pages: the concrete allocator, whose list lives in the bytes of
    the free pages it overwrites, returns page by page what the stack returns,
    never panics, and still represents the resulting stack. *)
Theorem kalloc_refines_stack kend k l ops rs l' :
  0 < kend → kmem_ok kend k l → stack_run kend l ops = Some (rs, l') →
  ∃ k', kops_run kend ops k = Done rs k' ∧ kmem_ok kend k' l'.
Proof.
  intros Hend. revert k l rs.
  induction ops as [|op ops IH]; intros k l rs Hk Hrun; simpl in *.
  { simplify_eq. by exists k. }
  destruct (stack_step kend l op) as [[r l1]|] eqn:Hs; [|done].
  destruct (stack_run kend l1 ops) as [[rs1 l2]|] eqn:Hr; [|done]. simplify_eq.
  destruct (kop_refines kend k l op r l1) as (k1 & Hk1 & Hok1); [done..|].
  destruct (IH k1 l1 rs1) as (k2 & Hk2 & Hok2); [done..|].
  exists k2. split; [|done]. unfold bind, ret. by rewrite Hk1, Hk2.
Qed.

Lemma kalloc_refines_stack_witness :
  ∃ k', kops_run 4096 [OpAlloc; OpAlloc; OpFree 8192; OpAlloc] (Kmem ∅ 0)
          = Done [0; 0; 0; 8192] k' ∧ kmem_ok 4096 k' [].
Proof.
  apply (kalloc_refines_stack 4096 (Kmem ∅ 0) []).
  - lia.
  - split; [done|constructor].
  - vm_compute. reflexivity.
Defined.

(** After [kinit] the free list holds every whole page between the end of
    the kernel image and [PHYSTOP], each exactly once, highest address first. *)
Theorem kinit_frees_ram kend m :
  KERNBASE ≤ kend → kend ≤ PHYSTOP →
  ∃ k', kinit kend (Kmem m 0) = Done tt k' ∧
    kmem_ok kend k'
      (reverse (pages_from (PGROUNDUP kend) ((PHYSTOP - PGROUNDUP kend) `div` PGSIZE))).
Proof.
  intros Hlo Hhi.
  assert (kend ≤ PGROUNDUP kend).
  { rewrite PGROUNDUP_small by (unfold PHYSTOP, KERNBASE, PGSIZE in *; lia).
    pose proof (Z.div_mod (kend + 4095) 4096).
    pose proof (Z.mod_pos_bound (kend + 4095) 4096). lia. }
  assert (0 < kend) as Hpos by (unfold KERNBASE in *; lia).
  pose proof (freerange_ok kend Hpos (Kmem m 0) [] kend PHYSTOP) as H'.
  rewrite app_nil_r, wp_done in H'. destruct H' as ([] & k' & Hk' & Hok).
  - split; [done|constructor].
  - done.
  - lia.
  - unfold KERNBASE in *; lia.
  - done.
  - set_solver.
  - by exists k'.
Qed.

Lemma kinit_frees_ram_witness :
  ∃ k', kinit 0x87ffd123 (Kmem ∅ 0) = Done tt k' ∧
    kmem_ok 0x87ffd123 k' [0x87fff000; 0x87ffe000].
Proof.
  apply (kinit_frees_ram 0x87ffd123 ∅); unfold PHYSTOP, KERNBASE; lia.
Defined.


