(* ===== verification/Vm.v ===== *)
(** * Virtual memory, kernel/vm.c

    Sv39 page tables over the physical memory of the page allocator. A page
    table is named by the physical address of its root page, as [pagetable_t]
    is in C, and every entry is a 64-bit word read from and written to that
    memory. A function that returns a pointer or an address returns [0] for
    NULL; a function that returns an [int] status returns [0] or [-1].
    The page-table functions of [kernel/proc.c] are here too. *)

From S2P Require Import Prelude Riscv Mem Kalloc.

Section vm.
(** Linker symbols: [end] (kernel/kernel.ld), [etext] (kernel/kernel.ld) and
    the physical address of [trampoline] (kernel/trampoline.S). *)
Variable kend etext trampoline : Z.

Definition ld64 (a : Z) : M kmem Z := gets (λ k, load64 (km_mem k) a).
Definition st64 (a v : Z) : M kmem unit := modify (upd_mem (λ m, store64 m a v)).
Definition memset_k (dst c n : Z) : M kmem unit := modify (upd_mem (λ m, memset m dst c n)).
Definition memmove_k (dst src n : Z) : M kmem unit := modify (upd_mem (λ m, memmove m dst src n)).

(** [pte & flag] as a condition. *)
Definition has (pte flag : Z) : bool := negb (Z.land pte flag =? 0).

(** The loop of [walk] at [level], then the address of the level-0 entry. *)
Fixpoint walk_loop (level : nat) (pagetable va : Z) (alloc : bool) : M kmem Z :=
  match level with
  | O => ret (pagetable + 8 * PX 0 va)
  | S level' =>
      let pte := pagetable + 8 * PX level va in
      let* v := ld64 pte in
      if has v PTE_V then walk_loop level' (PTE2PA v) va alloc
      else if negb alloc then ret 0
      else
        let* page := kalloc in
        if page =? 0 then ret 0
        else
          memset_k page 0 PGSIZE ;;;
          st64 pte (Z.lor (PA2PTE page) PTE_V) ;;;
          walk_loop level' page va alloc
  end.

Definition walk (pagetable va : Z) (alloc : bool) : M kmem Z :=
  if MAXVA <=? va then panic "walk" else walk_loop 2 pagetable va alloc.

Definition walkaddr (pagetable va : Z) : M kmem Z :=
  if MAXVA <=? va then ret 0
  else
    let* pte := walk pagetable va false in
    if pte =? 0 then ret 0
    else
      let* v := ld64 pte in
      if negb (has v PTE_V) then ret 0
      else if negb (has v PTE_U) then ret 0
      else ret (PTE2PA v).

Definition mappages (pagetable va size pa perm : Z) : M kmem Z :=
  if negb (va `mod` PGSIZE =? 0) then panic "mappages: va not aligned"
  else if negb (size `mod` PGSIZE =? 0) then panic "mappages: size not aligned"
  else if size =? 0 then panic "mappages: size"
  else
    let last := u64 (va + size - PGSIZE) in
    loop (Z.to_nat (size `div` PGSIZE))
      (λ '(a, pa),
        let* pte := walk pagetable a true in
        if pte =? 0 then ret (inr (-1))
        else
          let* v := ld64 pte in
          if has v PTE_V then panic "mappages: remap"
          else
            st64 pte (Z.lor (Z.lor (PA2PTE pa) perm) PTE_V) ;;;
            if a =? last then ret (inr 0)
            else ret (inl (u64 (a + PGSIZE), u64 (pa + PGSIZE))))
      (va, pa).

Definition kvmmap (kpgtbl va pa sz perm : Z) : M kmem unit :=
  let* r := mappages kpgtbl va sz pa perm in
  if negb (r =? 0) then panic "kvmmap" else ret tt.

Definition uvmunmap (pagetable va npages : Z) (do_free : bool) : M kmem unit :=
  if negb (va `mod` PGSIZE =? 0) then panic "uvmunmap: not aligned"
  else
    loop (S (Z.to_nat npages))
      (λ a,
        if a <? u64 (va + npages * PGSIZE) then
          let* pte := walk pagetable a false in
          if pte =? 0 then panic "uvmunmap: walk"
          else
            let* v := ld64 pte in
            if negb (has v PTE_V) then panic "uvmunmap: not mapped"
            else if PTE_FLAGS v =? PTE_V then panic "uvmunmap: not a leaf"
            else
              (if do_free then kfree kend (PTE2PA v) else ret tt) ;;;
              st64 pte 0 ;;;
              ret (inl (u64 (a + PGSIZE)))
        else ret (inr tt))
      va.

Definition uvmcreate : M kmem Z :=
  let* pagetable := kalloc in
  if pagetable =? 0 then ret 0
  else memset_k pagetable 0 PGSIZE ;;; ret pagetable.

Definition uvmfirst (pagetable src sz : Z) : M kmem unit :=
  if PGSIZE <=? sz then panic "uvmfirst: more than a page"
  else
    let* m := kalloc in
    memset_k m 0 PGSIZE ;;;
    mappages pagetable 0 PGSIZE m (Z.lor (Z.lor (Z.lor PTE_W PTE_R) PTE_X) PTE_U) ;;;
    memmove_k m src sz.

Definition uvmdealloc (pagetable oldsz newsz : Z) : M kmem Z :=
  if oldsz <=? newsz then ret oldsz
  else
    (if PGROUNDUP newsz <? PGROUNDUP oldsz then
       let npages := u64 (i32 ((PGROUNDUP oldsz - PGROUNDUP newsz) `div` PGSIZE)) in
       uvmunmap pagetable (PGROUNDUP newsz) npages true
     else ret tt) ;;;
    ret newsz.

Definition uvmalloc (pagetable oldsz newsz xperm : Z) : M kmem Z :=
  if newsz <? oldsz then ret oldsz
  else
    let oldsz := PGROUNDUP oldsz in
    loop (S (S (Z.to_nat ((newsz - oldsz) `div` PGSIZE))))
      (λ a,
        if a <? newsz then
          let* m := kalloc in
          if m =? 0 then
            uvmdealloc pagetable a oldsz ;;; ret (inr 0)
          else
            memset_k m 0 PGSIZE ;;;
            let* r := mappages pagetable a PGSIZE m (Z.lor (Z.lor PTE_R PTE_U) xperm) in
            if negb (r =? 0) then
              kfree kend m ;;;
              uvmdealloc pagetable a oldsz ;;;
              ret (inr 0)
            else ret (inl (u64 (a + PGSIZE)))
        else ret (inr newsz))
      oldsz.

(** [depth] bounds the recursion; an Sv39 table has three levels. *)
Fixpoint freewalk (depth : nat) (pagetable : Z) : M kmem unit :=
  match depth with
  | O => λ _, OutOfFuel
  | S depth =>
      for_each (seqZ 0 512) (λ i,
        let* pte := ld64 (pagetable + 8 * i) in
        if has pte PTE_V && negb (has pte (Z.lor (Z.lor PTE_R PTE_W) PTE_X)) then
          freewalk depth (PTE2PA pte) ;;;
          st64 (pagetable + 8 * i) 0
        else if has pte PTE_V then panic "freewalk: leaf"
        else ret tt) ;;;
      kfree kend pagetable
  end.

Definition uvmfree (pagetable sz : Z) : M kmem unit :=
  (if 0 <? sz then uvmunmap pagetable 0 (PGROUNDUP sz `div` PGSIZE) true else ret tt) ;;;
  freewalk 3 pagetable.

(** The loop ends with the status [0] ([inl]) or jumps to [err] with the
    offset [i] of the page that failed ([inr]). *)
Definition uvmcopy (old_pt new_pt sz : Z) : M kmem Z :=
  let* r :=
    loop (S (Z.to_nat ((sz + PGSIZE - 1) `div` PGSIZE)))
      (λ i,
        if i <? sz then
          let* pte := walk old_pt i false in
          if pte =? 0 then panic "uvmcopy: pte should exist"
          else
            let* v := ld64 pte in
            if negb (has v PTE_V) then panic "uvmcopy: page not present"
            else
              let pa := PTE2PA v in
              let flags := PTE_FLAGS v in
              let* m := kalloc in
              if m =? 0 then ret (inr (inr i))
              else
                memmove_k m pa PGSIZE ;;;
                let* r := mappages new_pt i PGSIZE m flags in
                if negb (r =? 0) then kfree kend m ;;; ret (inr (inr i))
                else ret (inl (u64 (i + PGSIZE)))
        else ret (inr (inl 0)))
      0 in
  match r with
  | inl status => ret status
  | inr i => uvmunmap new_pt 0 (i `div` PGSIZE) true ;;; ret (-1)
  end.

Definition uvmclear (pagetable va : Z) : M kmem unit :=
  let* pte := walk pagetable va false in
  if pte =? 0 then panic "uvmclear"
  else
    let* v := ld64 pte in
    st64 pte (Z.land v (u64 (Z.lnot PTE_U))).

Definition copyout (pagetable dstva src len : Z) : M kmem Z :=
  loop (S (Z.to_nat len))
    (λ '(dstva, src, len),
      if 0 <? len then
        let va0 := PGROUNDDOWN dstva in
        if MAXVA <=? va0 then ret (inr (-1))
        else
          let* pte := walk pagetable va0 false in
          let* v := (if pte =? 0 then ret 0 else ld64 pte) in
          if (pte =? 0) || negb (has v PTE_V) || negb (has v PTE_U) || negb (has v PTE_W)
          then ret (inr (-1))
          else
            let pa0 := PTE2PA v in
            let n := PGSIZE - (dstva - va0) in
            let n := if len <? n then len else n in
            memmove_k (pa0 + (dstva - va0)) src n ;;;
            ret (inl (u64 (va0 + PGSIZE), src + n, len - n))
      else ret (inr 0))
    (dstva, src, len).

Definition copyin (pagetable dst srcva len : Z) : M kmem Z :=
  loop (S (Z.to_nat len))
    (λ '(dst, srcva, len),
      if 0 <? len then
        let va0 := PGROUNDDOWN srcva in
        let* pa0 := walkaddr pagetable va0 in
        if pa0 =? 0 then ret (inr (-1))
        else
          let n := PGSIZE - (srcva - va0) in
          let n := if len <? n then len else n in
          memmove_k dst (pa0 + (srcva - va0)) n ;;;
          ret (inl (dst + n, u64 (va0 + PGSIZE), len - n))
      else ret (inr 0))
    (dst, srcva, len).

(** The inner [while(n > 0)] of copyinstr over one page; it ends with the
    new [dst] and [max], or with [None] after the NUL was copied. *)
Definition copyinstr_page (dst p n max : Z) : M kmem (option (Z * Z)) :=
  loop (S (Z.to_nat n))
    (λ '(dst, p, n, max),
      if 0 <? n then
        let* c := gets (λ k, load8 (km_mem k) p) in
        if c =? 0 then
          modify (upd_mem (λ m, store8 m dst 0)) ;;; ret (inr None)
        else
          modify (upd_mem (λ m, store8 m dst c)) ;;;
          ret (inl (dst + 1, p + 1, n - 1, max - 1))
      else ret (inr (Some (dst, max))))
    (dst, p, n, max).

Definition copyinstr (pagetable dst srcva max : Z) : M kmem Z :=
  loop (S (Z.to_nat max))
    (λ '(dst, srcva, max),
      if 0 <? max then
        let va0 := PGROUNDDOWN srcva in
        let* pa0 := walkaddr pagetable va0 in
        if pa0 =? 0 then ret (inr (-1))
        else
          let n := PGSIZE - (srcva - va0) in
          let n := if max <? n then max else n in
          let* r := copyinstr_page dst (pa0 + (srcva - va0)) n max in
          match r with
          | None => ret (inr 0)
          | Some (dst, max) => ret (inl (dst, u64 (va0 + PGSIZE), max))
          end
      else ret (inr (-1)))
    (dst, srcva, max).

(** ** Page tables in kernel/proc.c and the kernel page table *)

Definition proc_mapstacks (kpgtbl : Z) : M kmem unit :=
  for_each (seqZ 0 NPROC) (λ p,
    let* pa := kalloc in
    if pa =? 0 then panic "kalloc"
    else kvmmap kpgtbl (KSTACK p) pa PGSIZE (Z.lor PTE_R PTE_W)).

Definition kvmmake : M kmem Z :=
  let* kpgtbl := kalloc in
  memset_k kpgtbl 0 PGSIZE ;;;
  kvmmap kpgtbl UART0 UART0 PGSIZE (Z.lor PTE_R PTE_W) ;;;
  kvmmap kpgtbl VIRTIO0 VIRTIO0 PGSIZE (Z.lor PTE_R PTE_W) ;;;
  kvmmap kpgtbl PLIC PLIC 0x400000 (Z.lor PTE_R PTE_W) ;;;
  kvmmap kpgtbl KERNBASE KERNBASE (etext - KERNBASE) (Z.lor PTE_R PTE_X) ;;;
  kvmmap kpgtbl etext etext (PHYSTOP - etext) (Z.lor PTE_R PTE_W) ;;;
  kvmmap kpgtbl TRAMPOLINE trampoline PGSIZE (Z.lor PTE_R PTE_X) ;;;
  proc_mapstacks kpgtbl ;;;
  ret kpgtbl.

Definition proc_pagetable (trapframe : Z) : M kmem Z :=
  let* pagetable := uvmcreate in
  if pagetable =? 0 then ret 0
  else
    let* r := mappages pagetable TRAMPOLINE PGSIZE trampoline (Z.lor PTE_R PTE_X) in
    if r <? 0 then uvmfree pagetable 0 ;;; ret 0
    else
      let* r := mappages pagetable TRAPFRAME PGSIZE trapframe (Z.lor PTE_R PTE_W) in
      if r <? 0 then
        uvmunmap pagetable TRAMPOLINE 1 false ;;;
        uvmfree pagetable 0 ;;;
        ret 0
      else ret pagetable.

Definition proc_freepagetable (pagetable sz : Z) : M kmem unit :=
  uvmunmap pagetable TRAMPOLINE 1 false ;;;
  uvmunmap pagetable TRAPFRAME 1 false ;;;
  uvmfree pagetable sz.
End vm.
