(* ===== verification/VmTree.v ===== *)
(** * Page tables as trees of pages

    What a page table in memory means: the pages it is made of ([pt_pages]),
    the address of the level-0 entry of a virtual address ([leaf_addr]) and
    the value of that entry ([pteval], [0] when the path is missing). The
    lemmas say how these change under the two kinds of stores vm.c makes: to
    pages outside the table, and to a level-0 entry. *)

From S2P Require Import Prelude Riscv Mem Kalloc Vm.

(** ** Flags of an entry *)

Lemma has_bit v n : 0 ≤ n → has v (Z.shiftl 1 n) = Z.testbit v n.
Proof.
  intros Hn. unfold has. rewrite Z.shiftl_1_l.
  destruct (Z.testbit v n) eqn:E.
  - apply negb_true_iff, Z.eqb_neq. intros H.
    assert (Z.testbit (Z.land v (2^n)) n = true) as H'.
    { by rewrite Z.land_spec, E, Z.pow2_bits_true. }
    by rewrite H, Z.bits_0 in H'.
  - apply negb_false_iff, Z.eqb_eq, Z.bits_inj'. intros i Hi.
    rewrite Z.land_spec, Z.bits_0, Z.pow2_bits_eqb by done.
    destruct (Z.eqb_spec n i) as [->|]; [by rewrite E|by rewrite andb_false_r].
Qed.

Lemma has_V_lor v : has (Z.lor v PTE_V) PTE_V = true.
Proof. unfold PTE_V at 2. rewrite has_bit, Z.lor_spec by lia. by rewrite orb_true_r. Qed.

Lemma has_0 f : has 0 f = false.
Proof. done. Qed.

Lemma lor_bound n a b :
  0 ≤ n → 0 ≤ a < 2^n → 0 ≤ b < 2^n → 0 ≤ Z.lor a b < 2^n.
Proof.
  intros Hn Ha Hb. rewrite <-(Z.mod_small a (2^n)), <-(Z.mod_small b (2^n)) by done.
  rewrite <-!Z.land_ones, <-Z.land_lor_distr_l, Z.land_ones by done.
  apply Z.mod_pos_bound. lia.
Qed.

(** ** Sums over the 512 entries of a node *)

Lemma bind_ext_in {A B} (l : list A) (f g : A → list B) :
  (∀ j, j ∈ l → f j = g j) → l ≫= f = l ≫= g.
Proof.
  induction l as [|x l IH]; intros H; [done|].
  rewrite !bind_cons, (H x), IH; [done| |]; set_solver.
Qed.

Lemma bind_perm_update {A} (l : list Z) (f g : Z → list A) i ex :
  NoDup l → i ∈ l → (∀ j, j ∈ l → j ≠ i → g j = f j) →
  g i ≡ₚ ex ++ f i → (l ≫= g) ≡ₚ ex ++ (l ≫= f).
Proof.
  induction l as [|x l IH]; intros Hnd Hi Hne Hg; [set_solver|].
  apply NoDup_cons in Hnd as [Hx Hnd]. rewrite !bind_cons.
  destruct (decide (x = i)) as [->|Hxi].
  - rewrite Hg, (bind_ext_in l g f) by (intros; apply Hne; set_solver).
    by rewrite app_assoc.
  - rewrite Hne, IH by set_solver. rewrite !app_assoc. by rewrite (Permutation_app_comm (f x)).
Qed.

Lemma NoDup_bind_inj {A} (l : list Z) (f : Z → list A) i j y :
  NoDup (l ≫= f) → i ∈ l → j ∈ l → y ∈ f i → y ∈ f j → i = j.
Proof.
  induction l as [|x l IH]; intros Hnd Hi Hj Hyi Hyj; [set_solver|].
  rewrite bind_cons in Hnd. apply NoDup_app in Hnd as (Hnd1 & Hd & Hnd2).
  apply elem_of_cons in Hi as [->|Hi]; apply elem_of_cons in Hj as [->|Hj]; [done| | |by apply IH].
  - exfalso. apply (Hd y); [done|]. apply list_elem_of_bind. eauto.
  - exfalso. apply (Hd y); [done|]. apply list_elem_of_bind. eauto.
Qed.

Lemma NoDup_bind_elem {A} (l : list Z) (f : Z → list A) i :
  NoDup (l ≫= f) → i ∈ l → NoDup (f i).
Proof.
  induction l as [|x l IH]; intros Hnd Hi; [set_solver|].
  rewrite bind_cons in Hnd. apply NoDup_app in Hnd as (Hnd1 & _ & Hnd2).
  apply elem_of_cons in Hi as [->|Hi]; [done|by apply IH].
Qed.

Definition idx512 : list Z := seqZ 0 512.
Lemma elem_of_idx512 i : i ∈ idx512 ↔ 0 ≤ i < 512.
Proof. unfold idx512. rewrite elem_of_seqZ. lia. Qed.
Lemma NoDup_idx512 : NoDup idx512.
Proof. apply NoDup_seqZ. Qed.
Lemma idx512_eq : idx512 = seqZ 0 512.
Proof. done. Qed.
#[global] Opaque idx512.

(** ** The tree *)

Fixpoint leaf_addr (m : mem) (level : nat) (root va : Z) : option Z :=
  match level with
  | O => Some (root + 8 * PX 0 va)
  | S level' =>
      let v := load64 m (root + 8 * PX level va) in
      if has v PTE_V then leaf_addr m level' (PTE2PA v) va else None
  end.

Definition pteval (m : mem) (level : nat) (root va : Z) : Z :=
  match leaf_addr m level root va with
  | Some a => load64 m a
  | None => 0
  end.

Fixpoint pt_pages (m : mem) (level : nat) (root : Z) : list Z :=
  root :: match level with
          | O => []
          | S level' =>
              idx512 ≫= λ i,
                let v := load64 m (root + 8 * i) in
                if has v PTE_V then pt_pages m level' (PTE2PA v) else []
          end.

(** The pages below entry [i] of a node. *)
Definition sub_pages (m : mem) (level : nat) (root i : Z) : list Z :=
  let v := load64 m (root + 8 * i) in
  if has v PTE_V then pt_pages m level (PTE2PA v) else [].

(** The entries that lead to another node have none of the flags of a leaf,
    and the root uses only the entries of addresses below MAXVA. *)
Definition PTE_RWX : Z := Z.lor (Z.lor PTE_R PTE_W) PTE_X.
Fixpoint clean (m : mem) (level : nat) (root : Z) : Prop :=
  match level with
  | O => True
  | S level' =>
      ∀ i, i ∈ idx512 → let v := load64 m (root + 8 * i) in
        has v PTE_V = true → has v PTE_RWX = false ∧ (level' = 1%nat → i < 256) ∧ clean m level' (PTE2PA v)
  end.

Lemma pt_pages_S m level root :
  pt_pages m (S level) root = root :: (idx512 ≫= sub_pages m level root).
Proof. done. Qed.

Lemma leaf_addr_S m level root va :
  leaf_addr m (S level) root va =
    let v := load64 m (root + 8 * PX (S level) va) in
    if has v PTE_V then leaf_addr m level (PTE2PA v) va else None.
Proof. done. Qed.

Lemma pteval_S m level root va :
  pteval m (S level) root va =
    let v := load64 m (root + 8 * PX (S level) va) in
    if has v PTE_V then pteval m level (PTE2PA v) va else 0.
Proof.
  unfold pteval. cbn [leaf_addr].
  destruct (has (load64 m (root + 8 * PX (S level) va)) PTE_V); done.
Qed.

Lemma pt_pages_root m level root : root ∈ pt_pages m level root.
Proof. destruct level; simpl; left. Qed.

Section tree.
Variable kend : Z.

(** The pages of a table are distinct RAM pages. *)
Definition tree_ok (m : mem) (level : nat) (root : Z) : Prop :=
  NoDup (pt_pages m level root) ∧ Forall (page_ok kend) (pt_pages m level root).

Lemma tree_ok_root m level root : tree_ok m level root → page_ok kend root.
Proof. intros [_ H]. rewrite Forall_forall in H. apply H, pt_pages_root. Qed.

Lemma PX_elem level va : 0 ≤ level → PX level va ∈ idx512.
Proof. intros H. apply elem_of_idx512. by apply PX_range. Qed.

Lemma sub_pages_elem m level root i q :
  i ∈ idx512 → q ∈ sub_pages m level root i → q ∈ pt_pages m (S level) root.
Proof.
  intros Hi Hq. rewrite pt_pages_S. right. apply list_elem_of_bind. eauto.
Qed.

Lemma tree_ok_child m level root i :
  tree_ok m (S level) root → i ∈ idx512 →
  has (load64 m (root + 8 * i)) PTE_V = true →
  tree_ok m level (PTE2PA (load64 m (root + 8 * i))).
Proof.
  intros [Hnd Hok] Hi Hv. rewrite pt_pages_S in Hnd.
  apply NoDup_cons in Hnd as [_ Hnd].
  assert (pt_pages m level (PTE2PA (load64 m (root + 8 * i))) = sub_pages m level root i) as Heq.
  { unfold sub_pages. by rewrite Hv. }
  split.
  - rewrite Heq. by eapply NoDup_bind_elem.
  - rewrite Forall_forall in Hok |- *. intros q Hq. apply Hok.
    eapply sub_pages_elem; [done|]. by rewrite <-Heq.
Qed.

Lemma root_not_sub m level root i :
  tree_ok m (S level) root → i ∈ idx512 → root ∉ sub_pages m level root i.
Proof.
  intros [Hnd _] Hi Hin. rewrite pt_pages_S in Hnd.
  apply NoDup_cons in Hnd as [Hnin _]. apply Hnin, list_elem_of_bind. eauto.
Qed.

Lemma sub_pages_disjoint m level root i j q :
  tree_ok m (S level) root → i ∈ idx512 → j ∈ idx512 →
  q ∈ sub_pages m level root i → q ∈ sub_pages m level root j → i = j.
Proof.
  intros [Hnd _] Hi Hj H1 H2. rewrite pt_pages_S in Hnd.
  apply NoDup_cons in Hnd as [_ Hnd]. by eapply NoDup_bind_inj.
Qed.

(** ** Stores outside the table *)

Lemma entry_frame ps m m' root i :
  same_outside ps m m' → Forall page_aligned ps → page_aligned root →
  root ∉ ps → i ∈ idx512 → load64 m' (root + 8 * i) = load64 m (root + 8 * i).
Proof.
  intros Hs Hal Hr Hn Hi%elem_of_idx512.
  eapply same_outside_load64; eauto; unfold PGSIZE; lia.
Qed.

(** Two memories that agree on the pages of a table hold the same table. *)
Lemma tree_agree m m' level root :
  (∀ q x, q ∈ pt_pages m level root → in_page q x → load8 m' x = load8 m x) →
  pt_pages m' level root = pt_pages m level root ∧
  (∀ va, leaf_addr m' level root va = leaf_addr m level root va) ∧
  (∀ va, pteval m' level root va = pteval m level root va).
Proof.
  revert root. induction level as [|level IH]; intros root Hd;
    assert (∀ i, i ∈ idx512 → load64 m' (root + 8 * i) = load64 m (root + 8 * i)) as Hent
    by (intros i Hi%elem_of_idx512; apply load64_ext; intros x Hx;
        apply (Hd root); [apply pt_pages_root|unfold in_page, PGSIZE; lia]).
  - split; [done|]. split; [done|]. intros va. unfold pteval. simpl. by apply Hent, PX_elem.
  - assert (∀ i, i ∈ idx512 → has (load64 m (root + 8 * i)) PTE_V = true →
      pt_pages m' level (PTE2PA (load64 m (root + 8 * i))) =
        pt_pages m level (PTE2PA (load64 m (root + 8 * i))) ∧
      (∀ va, leaf_addr m' level (PTE2PA (load64 m (root + 8 * i))) va =
             leaf_addr m level (PTE2PA (load64 m (root + 8 * i))) va) ∧
      (∀ va, pteval m' level (PTE2PA (load64 m (root + 8 * i))) va =
             pteval m level (PTE2PA (load64 m (root + 8 * i))) va)) as Hch.
    { intros i Hi Hv. apply IH. intros q x Hq. apply Hd. apply (sub_pages_elem _ _ _ i); [done|].
      unfold sub_pages. by rewrite Hv. }
    split; [|split].
    + rewrite !pt_pages_S. f_equal. apply bind_ext_in. intros i Hi.
      unfold sub_pages. rewrite Hent by done.
      destruct (has (load64 m (root + 8 * i)) PTE_V) eqn:Hv; [|done].
      by apply Hch.
    + intros va. cbn [leaf_addr]. rewrite Hent by (apply PX_elem; lia).
      destruct (has _ PTE_V) eqn:Hv; [|done]. apply Hch; [apply PX_elem; lia|done].
    + intros va. rewrite !pteval_S. cbv zeta. rewrite Hent by (apply PX_elem; lia).
      destruct (has _ PTE_V) eqn:Hv; [|done]. apply Hch; [apply PX_elem; lia|done].
Qed.

Lemma tree_frame ps m m' level root :
  tree_ok m level root → same_outside ps m m' → Forall page_aligned ps →
  (∀ q, q ∈ pt_pages m level root → q ∉ ps) →
  pt_pages m' level root = pt_pages m level root ∧
  (∀ va, leaf_addr m' level root va = leaf_addr m level root va) ∧
  (∀ va, pteval m' level root va = pteval m level root va).
Proof.
  intros [_ Hok] Hs Hal Hd. apply tree_agree. intros q x Hq Hx. apply Hs.
  intros p Hp Hx'. apply (Hd q Hq). rewrite Forall_forall in Hok, Hal.
  rewrite (pages_disjoint q p x); [done|by apply Hok|by apply Hal|done..].
Qed.

Lemma clean_agree m m' level root :
  (∀ q x, q ∈ pt_pages m level root → in_page q x → load8 m' x = load8 m x) →
  clean m level root → clean m' level root.
Proof.
  revert root. induction level as [|level IH]; intros root Hd Hc; [done|]. intros i Hi. cbv zeta.
  assert (load64 m' (root + 8 * i) = load64 m (root + 8 * i)) as ->.
  { apply elem_of_idx512 in Hi. apply load64_ext. intros x Hx. apply (Hd root); [apply pt_pages_root|unfold in_page, PGSIZE; lia]. }
  intros Hv. destruct (Hc i Hi Hv) as (H1 & H2 & H3). split; [done|]. split; [done|]. apply IH; [|done].
  intros q x Hq. apply Hd, (sub_pages_elem _ _ _ i); [done|]. unfold sub_pages. by rewrite Hv.
Qed.

Lemma clean_frame ps m m' level root :
  tree_ok m level root → same_outside ps m m' → Forall page_aligned ps →
  (∀ q, q ∈ pt_pages m level root → q ∉ ps) → clean m level root → clean m' level root.
Proof.
  intros [_ Hok] Hs Hal Hd. apply clean_agree. intros q x Hq Hx. apply Hs.
  intros p Hp Hx'. apply (Hd q Hq). rewrite Forall_forall in Hok, Hal.
  rewrite (pages_disjoint q p x); [done|by apply Hok|by apply Hal|done..].
Qed.

(** ** The level-0 entry of an address *)

Lemma leaf_addr_page m level root va a :
  leaf_addr m level root va = Some a →
  ∃ q, q ∈ pt_pages m level root ∧ a = q + 8 * PX 0 va.
Proof.
  revert root. induction level as [|level IH]; intros root; cbn [leaf_addr].
  - intros [= <-]. exists root. split; [left|done].
  - destruct (has _ PTE_V) eqn:Hv; [|done]. intros (q & Hq & ->)%IH.
    exists q. split; [|done]. apply (sub_pages_elem _ _ _ (PX (S level) va)).
    + apply PX_elem. lia.
    + unfold sub_pages. by rewrite Hv.
Qed.

Lemma entry_in_page q va : in_page q (q + 8 * PX 0 va).
Proof. unfold in_page, PGSIZE. pose proof (PX_range 0 va). lia. Qed.

Lemma leaf_addr_inj m level root va1 va2 a :
  tree_ok m level root →
  leaf_addr m level root va1 = Some a → leaf_addr m level root va2 = Some a →
  ∀ l : Z, 0 ≤ l ≤ level → PX l va1 = PX l va2.
Proof.
  revert root. induction level as [|level IH]; intros root Hok H1 H2 l Hl.
  - simpl in H1, H2. simplify_eq. replace l with 0 by lia. lia.
  - cbn [leaf_addr] in H1, H2.
    destruct (has (load64 m (root + 8 * PX (S level) va1)) PTE_V) eqn:Hv1; [|done].
    destruct (has (load64 m (root + 8 * PX (S level) va2)) PTE_V) eqn:Hv2; [|done].
    assert (PX (S level) va1 = PX (S level) va2) as Heq.
    { destruct (leaf_addr_page _ _ _ _ _ H1) as (q1 & Hq1 & Ha1).
      destruct (leaf_addr_page _ _ _ _ _ H2) as (q2 & Hq2 & Ha2).
      assert (q1 ∈ sub_pages m level root (PX (S level) va1)).
      { unfold sub_pages. by rewrite Hv1. }
      assert (q2 ∈ sub_pages m level root (PX (S level) va2)).
      { unfold sub_pages. by rewrite Hv2. }
      assert (Forall (page_ok kend) (pt_pages m (S level) root)) as Hal by apply Hok.
      rewrite Forall_forall in Hal.
      assert (q1 = q2) as <-.
      { eapply (pages_disjoint q1 q2 a).
        - apply (Hal q1). eapply sub_pages_elem; [|done]. apply PX_elem; lia.
        - apply (Hal q2). eapply sub_pages_elem; [|done]. apply PX_elem; lia.
        - subst a. apply entry_in_page.
        - rewrite Ha2. apply entry_in_page. }
      eapply sub_pages_disjoint; eauto; apply PX_elem; lia. }
    destruct (decide (l = S level)) as [->|]; [done|].
    rewrite <-Heq in H2. eapply IH; eauto; [|lia].
    apply tree_ok_child; [done|apply PX_elem; lia|done].
Qed.

(** ** Stores to a level-0 entry *)

Lemma leaf_store m level root va a v :
  tree_ok m level root → leaf_addr m level root va = Some a →
  pt_pages (store64 m a v) level root = pt_pages m level root ∧
  (∀ va', leaf_addr (store64 m a v) level root va' = leaf_addr m level root va') ∧
  (clean m level root → clean (store64 m a v) level root).
Proof.
  revert root. induction level as [|level IH]; intros root Hok Ha.
  { done. }
  cbn [leaf_addr] in Ha.
  destruct (has (load64 m (root + 8 * PX (S level) va)) PTE_V) eqn:Hv; [|done].
  set (i := PX (S level) va) in *. assert (i ∈ idx512) as Hi by (apply PX_elem; lia).
  destruct (IH (PTE2PA (load64 m (root + 8 * i)))) as (IH1 & IH2 & IH3);
    [by apply tree_ok_child|done|].
  destruct (leaf_addr_page _ _ _ _ _ Ha) as (q & Hq & Haq).
  assert (q ∈ sub_pages m level root i) as Hqi.
  { unfold sub_pages. by rewrite Hv. }
  assert (same_outside [q] m (store64 m a v)) as Hs.
  { rewrite Haq. pose proof (PX_range 0 va). apply store64_same_outside; unfold PGSIZE; lia. }
  assert (Forall page_aligned [q]) as Hal.
  { constructor; [|done]. destruct Hok as [_ Hok']. rewrite Forall_forall in Hok'.
    apply (Hok' q). by eapply sub_pages_elem. }
  assert (∀ j, j ∈ idx512 →
    load64 (store64 m a v) (root + 8 * j) = load64 m (root + 8 * j)) as Hent.
  { intros j Hj. eapply entry_frame; eauto; [apply (tree_ok_root _ _ _ Hok)|].
    apply not_elem_of_cons. split; [|set_solver]. intros <-.
    by apply (root_not_sub m level root i). }
  assert (∀ j, j ∈ idx512 → j ≠ i → has (load64 m (root + 8 * j)) PTE_V = true →
    ∀ q', q' ∈ pt_pages m level (PTE2PA (load64 m (root + 8 * j))) → q' ∉ [q]) as Hsib.
  { intros j Hj Hne Hvj q' Hq' ->%list_elem_of_singleton. apply Hne.
    eapply (sub_pages_disjoint m level root); eauto. unfold sub_pages. by rewrite Hvj. }
  split_and!.
  - rewrite !pt_pages_S. f_equal. apply bind_ext_in. intros j Hj.
    unfold sub_pages. rewrite Hent by done.
    destruct (has (load64 m (root + 8 * j)) PTE_V) eqn:Hvj; [|done].
    destruct (decide (j = i)) as [->|Hne]; [done|].
    eapply tree_frame; eauto. by apply tree_ok_child.
  - intros va'. cbn [leaf_addr].
    assert (PX (S level) va' ∈ idx512) as Hj by (apply PX_elem; lia).
    rewrite Hent by done.
    destruct (has (load64 m (root + 8 * PX (S level) va')) PTE_V) eqn:Hvj; [|done].
    destruct (decide (PX (S level) va' = i)) as [Heq|Hne]; [rewrite Heq; apply IH2|].
    eapply tree_frame; eauto. by apply tree_ok_child.
  - intros Hc j Hj. cbv zeta. rewrite Hent by done. intros Hvj. destruct (Hc j Hj Hvj) as (H1 & H2 & H3).
    split; [done|]. split; [done|]. destruct (decide (j = i)) as [->|Hne]; [by apply IH3|].
    eapply clean_frame; eauto. by apply tree_ok_child.
Qed.

(** The entry of [va] changes; every other page-aligned address keeps its own. *)
Lemma leaf_store_pteval m root va a v :
  tree_ok m 2 root → leaf_addr m 2 root va = Some a →
  0 ≤ va < MAXVA → page_aligned va →
  ∀ va', 0 ≤ va' < MAXVA → page_aligned va' →
    pteval (store64 m a v) 2 root va' =
      if decide (va' = va) then u64 v else pteval m 2 root va'.
Proof.
  intros Hok Ha Hr Hal va' Hr' Hal'.
  destruct (leaf_store m 2 root va a v) as (_ & Hleaf & _); [done..|].
  unfold pteval. rewrite Hleaf.
  destruct (decide (va' = va)) as [->|Hne].
  - rewrite Ha. apply load64_store64_eq.
  - destruct (leaf_addr m 2 root va') as [b|] eqn:Hb; [|done].
    destruct (leaf_addr_page _ _ _ _ _ Ha) as (q & Hq & ->).
    destruct (leaf_addr_page _ _ _ _ _ Hb) as (q' & Hq' & ->).
    destruct Hok as [Hnd Hpg]. rewrite Forall_forall in Hpg.
    apply load64_store64_ne.
    pose proof (PX_range 0 va). pose proof (PX_range 0 va').
    destruct (decide (q = q')) as [<-|Hqq].
    + destruct (decide (PX 0 va = PX 0 va')) as [Heq|]; [|lia].
      exfalso. apply Hne, PX_inj; [done..|]. intros level Hl.
      eapply (leaf_addr_inj m 2 root); [by split; [|apply Forall_forall]| |exact Ha|lia].
      by rewrite Hb, Heq.
    + destruct (Hpg q Hq) as [Hqa _], (Hpg q' Hq') as [Hqa' _].
      unfold page_aligned, PGSIZE in *.
      pose proof (Z.div_mod q 4096). pose proof (Z.div_mod q' 4096). lia.
Qed.
End tree.

#[global] Arguments pt_pages : simpl never.
#[global] Arguments leaf_addr : simpl never.
#[global] Arguments pteval : simpl never.
