(* ===== verification/VmSpec.v ===== *)
(** * Correctness of the page-table operations of kernel/vm.c

    The contract of each operation in terms of the entry every virtual page
    has ([VmTree.pteval]), the pages of the table and the free list: which
    entries change, where new pages come from, and that the rest of memory is
    untouched. *)

From S2P Require Import Prelude Riscv Mem Kalloc Vm VmTree.

Section spec.
Variable kend : Z.
Hypothesis kend_pos : 0 < kend.

(** A page table whose pages are distinct RAM pages, none of them free. *)
Definition node_inv (k : kmem) (l : list Z) (level : nat) (root : Z) : Prop :=
  kmem_ok kend k l ∧ tree_ok kend (km_mem k) level root ∧
  (∀ q, q ∈ l → q ∉ pt_pages (km_mem k) level root).

Lemma page_ok_bounds p : page_ok kend p → 0 < p < 2^56 ∧ page_aligned p.
Proof. intros [Hal Hr]. unfold PHYSTOP, KERNBASE in Hr. split; [lia|done]. Qed.

Lemma free_pages_ok k l : kmem_ok kend k l → Forall (page_ok kend) l.
Proof. intros [Hc _]. by eapply chain_pages. Qed.

(** What a new leaf or interior entry decodes to. *)
Lemma new_pte_decode pa perm :
  0 ≤ pa < 2^56 → page_aligned pa → 0 ≤ perm < 1024 →
  PTE2PA (Z.lor (Z.lor (PA2PTE pa) perm) PTE_V) = pa ∧
  PTE_FLAGS (Z.lor (Z.lor (PA2PTE pa) perm) PTE_V) = Z.lor perm PTE_V.
Proof.
  intros. rewrite <-Z.lor_assoc. apply pte_roundtrip; [done..|].
  apply (lor_bound 10); [lia|lia|change PTE_V with 1; lia].
Qed.

Lemma new_pte_range pa perm :
  0 ≤ pa < 2^56 → 0 ≤ perm < 1024 →
  0 ≤ Z.lor (Z.lor (PA2PTE pa) perm) PTE_V < 2^64.
Proof.
  intros. apply lor_bound; [lia| |change PTE_V with 1; lia].
  apply lor_bound; [lia| |lia]. rewrite PA2PTE_spec by done.
  assert (0 ≤ pa `div` 4096 < 2^44); [|lia].
  split; [apply Z.div_pos; lia|apply Z.div_lt_upper_bound; lia].
Qed.

Lemma node_pte_decode pa :
  page_ok kend pa →
  PTE2PA (Z.lor (PA2PTE pa) PTE_V) = pa ∧
  u64 (Z.lor (PA2PTE pa) PTE_V) = Z.lor (PA2PTE pa) PTE_V.
Proof.
  intros [? Hal]%page_ok_bounds. split.
  - apply (pte_roundtrip pa PTE_V); [lia|done|change PTE_V with 1; lia].
  - apply Z.mod_small. pose proof (new_pte_range pa 0). rewrite Z.lor_0_r in *. lia.
Qed.

(** ** Zeroed pages *)

Definition zero_page (m : mem) (p : Z) : Prop := ∀ x, in_page p x → load8 m x = 0.

Lemma zero_page_entry m p i : zero_page m p → i ∈ idx512 → load64 m (p + 8 * i) = 0.
Proof.
  intros Hz Hi%elem_of_idx512. apply load64_zero. intros x Hx. apply Hz.
  unfold in_page, PGSIZE. lia.
Qed.

Lemma zero_page_pages m level p : zero_page m p → pt_pages m level p = [p].
Proof.
  intros Hz. destruct level; [done|]. rewrite pt_pages_S. f_equal.
  transitivity (idx512 ≫= (λ _, [] : list Z)).
  - apply bind_ext_in. intros i Hi. unfold sub_pages. by rewrite zero_page_entry.
  - clear. induction idx512 as [|x l IH]; [done|]. by rewrite bind_cons.
Qed.

Lemma zero_page_pteval m level p va : zero_page m p → pteval m level p va = 0.
Proof.
  intros Hz. destruct level.
  - unfold pteval. simpl. apply zero_page_entry; [done|]. by apply PX_elem.
  - rewrite pteval_S. cbv zeta. rewrite zero_page_entry; [done..|apply PX_elem; lia].
Qed.

Lemma zero_page_clean m level p : zero_page m p → clean m level p.
Proof. intros Hz. destruct level; [done|]. intros i Hi. cbv zeta. by rewrite (zero_page_entry m p i Hz Hi). Qed.

Lemma memset_zero_page m p : zero_page (memset m p 0 PGSIZE) p.
Proof.
  intros x Hx. rewrite load8_memset by (unfold PGSIZE; lia).
  by rewrite decide_True by exact Hx.
Qed.

(** ** walk *)

(** The contract of the loop of [walk] with [alloc] set. *)
Definition walk_post (k : kmem) (l : list Z) (level : nat) (root va a : Z) (k' : kmem)
    (used l' : list Z) : Prop :=
  l = used ++ l' ∧ kmem_ok kend k' l' ∧
  pt_pages (km_mem k') level root ≡ₚ used ++ pt_pages (km_mem k) level root ∧
  same_outside (used ++ pt_pages (km_mem k) level root) (km_mem k) (km_mem k') ∧
  (∀ va', pteval (km_mem k') level root va' = pteval (km_mem k) level root va') ∧
  ((a = 0 ∧ l' = []) ∨ (a ≠ 0 ∧ leaf_addr (km_mem k') level root va = Some a)) ∧
  (length used ≤ level)%nat ∧
  (0 ≤ va < MAXVA → clean (km_mem k) level root → clean (km_mem k') level root).

(** A node whose entry [i] now leads to a bigger subtree, and whose other
    subtrees are where they were. *)
Lemma node_grow m m' level root i used ps :
  tree_ok kend m (S level) root → i ∈ idx512 →
  same_outside ps m m' → Forall page_aligned ps →
  (∀ j, j ∈ idx512 → j ≠ i → load64 m' (root + 8 * j) = load64 m (root + 8 * j)) →
  (∀ j q, j ∈ idx512 → j ≠ i → q ∈ sub_pages m level root j → q ∉ ps) →
  sub_pages m' level root i ≡ₚ used ++ sub_pages m level root i →
  (∀ va, PX (S level) va = i → pteval m' (S level) root va = pteval m (S level) root va) →
  pt_pages m' (S level) root ≡ₚ used ++ pt_pages m (S level) root ∧
  (∀ va, pteval m' (S level) root va = pteval m (S level) root va) ∧
  (clean m (S level) root →
   (let v := load64 m' (root + 8 * i) in has v PTE_V = true →
      has v PTE_RWX = false ∧ (level = 1%nat → i < 256) ∧ clean m' level (PTE2PA v)) →
   clean m' (S level) root).
Proof.
  intros Hok Hi Hs Hal Hent Hsib Hsub Hpt.
  assert (∀ j, j ∈ idx512 → j ≠ i → has (load64 m (root + 8 * j)) PTE_V = true →
    pt_pages m' level (PTE2PA (load64 m (root + 8 * j))) =
      pt_pages m level (PTE2PA (load64 m (root + 8 * j))) ∧
    (∀ va, leaf_addr m' level (PTE2PA (load64 m (root + 8 * j))) va =
           leaf_addr m level (PTE2PA (load64 m (root + 8 * j))) va) ∧
    (∀ va, pteval m' level (PTE2PA (load64 m (root + 8 * j))) va =
           pteval m level (PTE2PA (load64 m (root + 8 * j))) va)) as Hframe.
  { intros j Hj Hne Hv. eapply tree_frame; eauto; [by apply tree_ok_child|].
    intros q Hq. eapply Hsib; eauto. unfold sub_pages. by rewrite Hv. }
  split_and!.
  - rewrite !pt_pages_S.
    rewrite (bind_perm_update idx512 (sub_pages m level root) _ i used);
      [by rewrite Permutation_middle|apply NoDup_idx512|done| |done].
    intros j Hj Hne. unfold sub_pages. rewrite Hent by done.
    destruct (has (load64 m (root + 8 * j)) PTE_V) eqn:Hv; [|done].
    by apply Hframe.
  - intros va. destruct (decide (PX (S level) va = i)) as [|Hne]; [by apply Hpt|].
    assert (PX (S level) va ∈ idx512) by (apply PX_elem; lia).
    rewrite !pteval_S. cbv zeta. rewrite Hent by done.
    destruct (has _ PTE_V) eqn:Hv; [|done]. by apply Hframe.
  - intros Hc Hci j Hj. destruct (decide (j = i)) as [->|Hne]; [done|]. cbv zeta. rewrite Hent by done. intros Hv.
    destruct (Hc j Hj Hv) as (H1 & H2 & H3). split; [done|]. split; [done|].
    eapply clean_frame; eauto; [by apply tree_ok_child|]. intros q Hq. eapply Hsib; eauto. unfold sub_pages. by rewrite Hv.
Qed.

Lemma PX_2_bound va : 0 ≤ va < MAXVA → PX 2 va < 256.
Proof.
  intros Hva. rewrite PX_spec by lia. change MAXVA with (2^38) in Hva. change (12 + 9 * 2) with 30.
  assert (0 ≤ va `div` 2^30 < 256) as H.
  { split; [apply Z.div_pos; lia|apply Z.div_lt_upper_bound; lia]. }
  rewrite Z.mod_small; lia.
Qed.

Lemma node_pte_flags pa : page_ok kend pa → has (Z.lor (PA2PTE pa) PTE_V) PTE_RWX = false.
Proof.
  intros Hp. destruct (page_ok_bounds pa Hp) as [Hb Hal].
  destruct (pte_roundtrip pa PTE_V) as [_ Hf]; [lia|done|done|].
  assert (Z.land (Z.lor (PA2PTE pa) PTE_V) PTE_RWX = Z.land (PTE_FLAGS (Z.lor (PA2PTE pa) PTE_V)) PTE_RWX) as E.
  { unfold PTE_FLAGS. rewrite <-Z.land_assoc. done. }
  unfold has. rewrite E, Hf. done.
Qed.

Lemma same_outside_app_l ps ps' m m' :
  same_outside ps m m' → same_outside (ps ++ ps') m m'.
Proof. apply same_outside_mono. set_solver. Qed.

(** The entry of [va] is present: the loop goes on in the subtree. *)
Lemma walk_step_present k l level root va a k' used l' c :
  node_inv k l (S level) root →
  has (load64 (km_mem k) (root + 8 * PX (S level) va)) PTE_V = true →
  c = PTE2PA (load64 (km_mem k) (root + 8 * PX (S level) va)) →
  walk_post k l level c va a k' used l' →
  walk_post k l (S level) root va a k' used l'.
Proof.
  intros (Hk & Hok & Hd) Hv -> (Hl & Hk' & Hperm & Hs & Hpt & Hret & Hlen & Hcl).
  set (m := km_mem k) in *. set (m' := km_mem k') in *.
  set (i := PX (S level) va) in *. assert (i ∈ idx512) as Hi by (apply PX_elem; lia).
  set (c := PTE2PA (load64 m (root + 8 * i))) in *.
  assert (sub_pages m level root i = pt_pages m level c) as Hsub.
  { unfold sub_pages. by rewrite Hv. }
  assert (Forall page_aligned (used ++ pt_pages m level c)) as Hal.
  { apply page_ok_aligned with kend, Forall_app. split.
    - apply free_pages_ok in Hk. subst l. by apply Forall_app in Hk as [? _].
    - apply (tree_ok_child kend m level root i); done. }
  assert (∀ q, q ∈ pt_pages m (S level) root → q ∉ used) as Hused.
  { intros q Hq Hu. apply (Hd q); [subst l; by apply elem_of_app; left|done]. }
  assert (∀ j, j ∈ idx512 → load64 m' (root + 8 * j) = load64 m (root + 8 * j)) as Hent.
  { intros j Hj. eapply entry_frame; eauto; [apply (tree_ok_root kend m (S level) root Hok)|].
    apply not_elem_of_app. split; [apply Hused, pt_pages_root|].
    rewrite <-Hsub. by eapply root_not_sub. }
  destruct (node_grow m m' level root i used (used ++ pt_pages m level c)) as (Hp & Hv' & Hc');
    [done..|by intros; apply Hent| | | |].
  - intros j q Hj Hne Hq. apply not_elem_of_app. split.
    + by apply Hused, (sub_pages_elem _ _ _ j).
    + rewrite <-Hsub. intros Hq'. apply Hne. by eapply sub_pages_disjoint.
  - unfold sub_pages. rewrite (Hent i Hi). by rewrite Hv.
  - intros va' Heq. rewrite !pteval_S. cbv zeta. rewrite !Heq, (Hent i Hi), Hv. apply Hpt.
  - split; [done|]. split; [done|]. split; [done|]. split; [|split; [done|split; [|split; [lia|]]]].
    + eapply same_outside_mono; [|exact Hs]. intros q [?|Hq]%elem_of_app; [by apply elem_of_app; left|].
      apply elem_of_app. right. apply (sub_pages_elem m level root i); [done|]. by rewrite Hsub.
    + destruct Hret as [?|[? Hla]]; [by left|right]. split; [done|].
      rewrite leaf_addr_S. cbv zeta. fold m' i. by rewrite (Hent i Hi), Hv.
    + intros Hva Hc. apply Hc'; [done|]. cbv zeta. rewrite (Hent i Hi). intros _.
      destruct (Hc i Hi Hv) as (H1 & H2 & H3). split; [done|]. split; [done|]. by apply Hcl.
Qed.

(** The entry of [va] is missing: a zeroed page [p] is linked in, and the loop
    goes on there. [k3] is the state after those stores. *)
Lemma walk_step_fresh k l1 level root va a k1 k3 k' used l' p :
  node_inv k (p :: l1) (S level) root →
  has (load64 (km_mem k) (root + 8 * PX (S level) va)) PTE_V = false →
  kmem_ok kend k1 l1 → same_outside [p] (km_mem k) (km_mem k1) →
  k3 = upd_mem (λ m, store64 m (root + 8 * PX (S level) va) (Z.lor (PA2PTE p) PTE_V))
         (upd_mem (λ m, memset m p 0 PGSIZE) k1) →
  node_inv k3 l1 level p ∧ zero_page (km_mem k3) p ∧
  (walk_post k3 l1 level p va a k' used l' →
   walk_post k (p :: l1) (S level) root va a k' (p :: used) l').
Proof.
  intros (Hk & Hok & Hd) Hv Hk1 Hs1 Hk3.
  set (m := km_mem k) in *. set (i := PX (S level) va) in *.
  assert (i ∈ idx512) as Hi by (apply PX_elem; lia).
  assert (Hi' := Hi). apply elem_of_idx512 in Hi'.
  assert (page_ok kend p) as Hp.
  { apply free_pages_ok in Hk. by inversion Hk. }
  assert (page_ok kend root) as Hroot by by eapply tree_ok_root.
  destruct Hk as [_ Hnd]. apply NoDup_cons in Hnd as [Hpl Hnd].
  assert (p ≠ root) as Hpr.
  { intros ->. apply (Hd root); [left|apply pt_pages_root]. }
  destruct (node_pte_decode p Hp) as [Hdec Hu].
  set (m2 := memset (km_mem k1) p 0 PGSIZE).
  set (m3 := km_mem k3).
  assert (m3 = store64 m2 (root + 8 * i) (Z.lor (PA2PTE p) PTE_V)) as Hm3 by by subst m3 k3.
  assert (same_outside [p] m m2) as Hs2.
  { eapply same_outside_trans; [exact Hs1|apply memset_same_outside]. }
  assert (same_outside [root] m2 m3) as Hs3.
  { rewrite Hm3. apply store64_same_outside; unfold PGSIZE; lia. }
  assert (zero_page m3 p) as Hz.
  { intros x Hx. rewrite Hs3; [by apply memset_zero_page|].
    intros q ->%list_elem_of_singleton Hq. apply Hpr. symmetry.
    eapply pages_disjoint; eauto; [apply Hroot|apply Hp]. }
  assert (kmem_ok kend k3 l1) as Hk3ok.
  { subst k3. apply (kmem_ok_upd kend [root]).
    - apply (kmem_ok_upd kend [p]); [exact Hk1| | |].
      + apply memset_same_outside.
      + apply Forall_singleton, Hp.
      + intros q Hq Hq'%list_elem_of_singleton. rewrite Hq' in Hq. exact (Hpl Hq).
    - simpl. apply store64_same_outside; unfold PGSIZE; lia.
    - apply Forall_singleton, Hroot.
    - intros q Hq ->%list_elem_of_singleton. apply (Hd root); [by right|apply pt_pages_root]. }
  assert (pt_pages m3 level p = [p]) as Hpages by by apply zero_page_pages.
  split; [|split; [done|]].
  { split; [done|]. split; [split|].
    - fold m3. rewrite Hpages. apply NoDup_singleton.
    - fold m3. rewrite Hpages. by apply Forall_singleton.
    - intros q Hq. fold m3. rewrite Hpages. intros Hq'%list_elem_of_singleton.
      rewrite Hq' in Hq. exact (Hpl Hq). }
  intros (Hl & Hk' & Hperm & Hs & Hpt & Hret & Hlen & Hcl).
  set (m' := km_mem k') in *. fold m3 in Hperm, Hs, Hpt, Hcl. rewrite Hpages in Hperm, Hs.
  assert (∀ q, q ∈ pt_pages m (S level) root → q ∉ p :: used) as Hnew.
  { intros q Hq Hin. apply (Hd q); [|done]. subst l1. clear -Hin. set_solver. }
  assert (root ∉ p :: used) as Hrn by apply Hnew, pt_pages_root.
  assert (Forall page_aligned (root :: p :: used)) as Hal.
  { constructor; [apply Hroot|]. constructor; [apply Hp|].
    apply page_ok_aligned with kend. apply free_pages_ok in Hk3ok. subst l1.
    by apply Forall_app in Hk3ok as [? _]. }
  assert (same_outside (root :: p :: used) m m') as Hsall.
  { eapply same_outside_trans; [eapply same_outside_mono; [|exact Hs2]; clear; set_solver|].
    eapply same_outside_trans; [eapply same_outside_mono; [|exact Hs3]; clear; set_solver|].
    eapply same_outside_mono; [|exact Hs]; clear; set_solver. }
  assert (∀ j, j ∈ idx512 → load64 m' (root + 8 * j) = load64 m3 (root + 8 * j)) as Hent3.
  { intros j Hj. eapply entry_frame; [exact Hs| |apply Hroot| |done].
    - inversion Hal as [|?? _ Hal']; inversion Hal'; subst. apply Forall_app. split; [done|].
      by apply Forall_singleton.
    - clear -Hrn. set_solver. }
  assert (load64 m' (root + 8 * i) = Z.lor (PA2PTE p) PTE_V) as Henti.
  { rewrite Hent3, Hm3, load64_store64_eq by done. done. }
  assert (sub_pages m level root i = []) as Hsub0.
  { unfold sub_pages. by rewrite Hv. }
  assert (sub_pages m' level root i = pt_pages m' level p) as Hsubi.
  { unfold sub_pages. by rewrite Henti, has_V_lor, Hdec. }
  destruct (node_grow m m' level root i (p :: used) (root :: p :: used)) as (Hp' & Hv' & Hc');
    [done..| | | | |].
  - intros j Hj Hne. rewrite Hent3, Hm3 by done. assert (Hj' := Hj).
    apply elem_of_idx512 in Hj'. rewrite load64_store64_ne by lia.
    eapply entry_frame; [exact Hs2|apply Forall_singleton, Hp|apply Hroot|clear -Hrn; set_solver|done].
  - intros j q Hj Hne Hq. apply not_elem_of_cons. split.
    + intros ->. by eapply (root_not_sub kend m level root j).
    + by apply Hnew, (sub_pages_elem _ _ _ j).
  - rewrite Hsubi, Hsub0, Hperm, app_nil_r. by rewrite Permutation_app_comm.
  - intros va' Heq. rewrite !pteval_S. cbv zeta. rewrite !Heq, Henti, Hv, has_V_lor, Hdec.
    rewrite Hpt. by apply zero_page_pteval.
  - split; [by subst l1|]. split; [done|]. split; [done|]. split; [|split; [done|split; [|split; [cbn; lia|]]]].
    + eapply same_outside_mono; [|exact Hsall].
      intros q [->|?]%elem_of_cons; [|by apply elem_of_app; left].
      apply elem_of_app. right. apply pt_pages_root.
    + destruct Hret as [?|[? Hla]]; [by left|right]. split; [done|].
      rewrite leaf_addr_S. cbv zeta. fold m' i. by rewrite Henti, has_V_lor, Hdec.
    + intros Hva Hc. apply Hc'; [done|]. cbv zeta. rewrite Henti, Hdec. intros _. split; [by apply node_pte_flags|]. split.
      * intros ->. by apply PX_2_bound.
      * apply Hcl; [done|]. by apply zero_page_clean.
Qed.

Lemma walk_loop_alloc level root va k l :
  node_inv k l level root →
  ∃ a k' used l', walk_loop level root va true k = Done a k' ∧
    walk_post k l level root va a k' used l'.
Proof.
  revert root k l. induction level as [|level IH]; intros root k l Hinv.
  - eexists _, k, [], l. split; [done|]. destruct Hinv as (Hk & Hok & Hd).
    split; [done|]. split; [done|]. split; [done|]. split; [done|]. split; [done|].
    split; [|by split; [cbn; lia|]]. right. split; [|done]. pose proof (PX_range 0 va).
    destruct (tree_ok_root _ _ _ _ Hok) as [_ ?]. lia.
  - cbn [walk_loop].
    destruct (has (load64 (km_mem k) (root + 8 * PX (S level) va)) PTE_V) eqn:Hv.
    + destruct (IH (PTE2PA (load64 (km_mem k) (root + 8 * PX (S level) va))) k l)
        as (a & k' & used & l' & Hrun & Hpost).
      { destruct Hinv as (Hk & Hok & Hd). split; [done|].
        split; [apply tree_ok_child; [done|apply PX_elem; lia|done]|].
        intros q Hq Hin. apply (Hd q Hq), (sub_pages_elem _ _ _ (PX (S level) va)).
        - apply PX_elem; lia.
        - unfold sub_pages. by rewrite Hv. }
      exists a, k', used, l'. split; [|by eapply walk_step_present].
      unfold bind, ld64, gets. by rewrite Hv.
    + unfold bind, ld64, gets. cbv beta iota. rewrite Hv. cbn [negb]. cbv beta iota.
      destruct l as [|p l1].
      * rewrite (kalloc_nil kend) by apply Hinv. simpl. eexists 0, k, [], []. split; [done|].
        destruct Hinv as (Hk & Hok & Hd). repeat (split; [done|]). split; [by left|]. split; [cbn; lia|done].
      * destruct (kalloc_cons kend kend_pos k p l1) as (k1 & Hka & Hk1 & Hs1 & _); [apply Hinv|].
        rewrite Hka. assert (p ≠ 0) as Hp0.
        { destruct Hinv as (Hk & _). apply free_pages_ok in Hk. inversion Hk; subst.
          destruct (page_ok_bounds p) as [? _]; [done|lia]. }
        rewrite (proj2 (Z.eqb_neq p 0)) by done.
        unfold memset_k, st64, modify. cbv beta iota.
        set (k3 := upd_mem _ (upd_mem _ k1)).
        edestruct (walk_step_fresh k l1 level root va) as (Hinv3 & _ & _);
          [exact Hinv|exact Hv|exact Hk1|exact Hs1|reflexivity|].
        destruct (IH p k3 l1 Hinv3) as (a & k' & used & l' & Hrun & Hpost).
        exists a, k', (p :: used), l'. split; [done|].
        edestruct (walk_step_fresh k l1 level root va) as (_ & _ & Hfin);
          [exact Hinv|exact Hv|exact Hk1|exact Hs1|reflexivity|]. by apply Hfin.
        Unshelve. all: try exact 0; try exact k; try exact [].
Qed.

Lemma walk_post_inv k l level root va a k' used l' :
  node_inv k l level root → walk_post k l level root va a k' used l' →
  node_inv k' l' level root.
Proof.
  intros (Hk & [Hnd Hok] & Hd) (-> & Hk' & Hperm & _).
  assert (NoDup (used ++ pt_pages (km_mem k) level root)) as Hnd'.
  { apply NoDup_app. destruct Hk as [_ Hndl]. apply NoDup_app in Hndl as (? & _ & _).
    split; [done|]. split; [|done]. intros q Hq. apply Hd. by apply elem_of_app; left. }
  split; [done|]. split; [split|].
  - by rewrite Hperm.
  - rewrite Hperm. apply Forall_app. split; [|done].
    apply free_pages_ok in Hk. by apply Forall_app in Hk as [? _].
  - intros q Hq. rewrite Hperm. intros [Hu|Hp]%elem_of_app.
    + destruct Hk as [_ Hndl]. apply NoDup_app in Hndl as (_ & Hdis & _).
      by apply (Hdis q).
    + apply (Hd q); [by apply elem_of_app; right|done].
Qed.

Lemma walk_alloc root va k l :
  0 ≤ va < MAXVA → node_inv k l 2 root →
  ∃ a k' used l', walk root va true k = Done a k' ∧
    walk_post k l 2 root va a k' used l' ∧ node_inv k' l' 2 root.
Proof.
  intros Hva Hinv. unfold walk. rewrite (proj2 (Z.leb_gt _ _)) by lia.
  destruct (walk_loop_alloc 2 root va k l Hinv) as (a & k' & used & l' & Hrun & Hpost).
  exists a, k', used, l'. eauto using walk_post_inv.
Qed.

Lemma walk_loop_read level root va k :
  walk_loop level root va false k = Done (default 0 (leaf_addr (km_mem k) level root va)) k.
Proof.
  revert root. induction level as [|level IH]; intros root; [done|].
  rewrite leaf_addr_S. cbn [walk_loop]. cbv zeta. unfold bind, ld64, gets. cbv beta iota.
  destruct (has _ PTE_V); [apply IH|done].
Qed.

Lemma walk_read root va k :
  0 ≤ va < MAXVA →
  walk root va false k = Done (default 0 (leaf_addr (km_mem k) 2 root va)) k.
Proof.
  intros Hva. unfold walk. rewrite (proj2 (Z.leb_gt _ _)) by lia. apply walk_loop_read.
Qed.

Lemma leaf_addr_pos m level root va a :
  tree_ok kend m level root → leaf_addr m level root va = Some a → 0 < a.
Proof.
  intros [_ Hok] (q & Hq & ->)%leaf_addr_page. rewrite Forall_forall in Hok.
  destruct (Hok q Hq) as [_ ?]. pose proof (PX_range 0 va). lia.
Qed.

Lemma leaf_set k l root va a v :
  node_inv k l 2 root → leaf_addr (km_mem k) 2 root va = Some a →
  0 ≤ va < MAXVA → page_aligned va →
  let k' := upd_mem (λ m, store64 m a v) k in
  node_inv k' l 2 root ∧
  pt_pages (km_mem k') 2 root = pt_pages (km_mem k) 2 root ∧
  same_outside (pt_pages (km_mem k) 2 root) (km_mem k) (km_mem k') ∧
  (∀ va', 0 ≤ va' < MAXVA → page_aligned va' →
     pteval (km_mem k') 2 root va' =
       if decide (va' = va) then u64 v else pteval (km_mem k) 2 root va') ∧
  (clean (km_mem k) 2 root → clean (km_mem k') 2 root).
Proof.
  intros (Hk & Hok & Hd) Ha Hva Hal k'.
  destruct (leaf_store kend (km_mem k) 2 root va a v) as (Hpages & _ & Hcl); [done..|].
  destruct (leaf_addr_page _ _ _ _ _ Ha) as (q & Hq & Haq).
  assert (same_outside [q] (km_mem k) (km_mem k')) as Hs.
  { simpl. rewrite Haq. pose proof (PX_range 0 va).
    apply store64_same_outside; unfold PGSIZE; lia. }
  assert (page_ok kend q) as Hqok.
  { destruct Hok as [_ Hok]. rewrite Forall_forall in Hok. by apply Hok. }
  split; [|split; [done|split; [|split; [|done]]]].
  - split; [|split].
    + apply (kmem_ok_upd kend [q]); [done..|by apply Forall_singleton, Hqok|].
      intros p Hp Hpq%list_elem_of_singleton. subst p. by apply (Hd q).
    + split; simpl; rewrite Hpages; apply Hok.
    + simpl. by rewrite Hpages.
  - eapply same_outside_mono; [|exact Hs]. by intros p ->%list_elem_of_singleton.
  - intros. by eapply leaf_store_pteval.
Qed.

(** ** mappages *)

Definition map_entry (pa perm : Z) : Z := Z.lor (Z.lor (PA2PTE pa) perm) PTE_V.

(** The first [j] pages of a range are mapped and every other entry is as
    before; new page-table pages come from the free list, and memory outside
    them and the table is untouched. *)
Definition mapped_prefix (k : kmem) (l : list Z) (root va pa perm j : Z)
    (k' : kmem) (used l' : list Z) : Prop :=
  l = used ++ l' ∧ node_inv k' l' 2 root ∧
  pt_pages (km_mem k') 2 root ≡ₚ used ++ pt_pages (km_mem k) 2 root ∧
  same_outside (used ++ pt_pages (km_mem k) 2 root) (km_mem k) (km_mem k') ∧
  (∀ va', 0 ≤ va' < MAXVA → page_aligned va' →
     pteval (km_mem k') 2 root va' =
       if decide (va ≤ va' < va + j * PGSIZE) then map_entry (pa + (va' - va)) perm
       else pteval (km_mem k) 2 root va') ∧
  length used ≤ 2 * (j + 1) ∧ (clean (km_mem k) 2 root → clean (km_mem k') 2 root).

Lemma mapped_prefix_cons k l root va pa perm j k1 used1 l1 k' used l' :
  0 ≤ va → page_aligned va → 0 ≤ j → (length used1 ≤ 2)%nat →
  mapped_prefix k l root va pa perm 1 k1 used1 l1 →
  mapped_prefix k1 l1 root (va + PGSIZE) (pa + PGSIZE) perm j k' used l' →
  mapped_prefix k l root va pa perm (1 + j) k' (used1 ++ used) l'.
Proof.
  intros Hva Hal Hj Hl1 (-> & _ & Hp1 & Hs1 & Hv1 & _ & Hc1) (-> & Hinv & Hp & Hs & Hv & Hl & Hc).
  split; [by rewrite app_assoc|]. split; [done|]. split; [|split; [|split; [|split; [rewrite length_app; lia|by auto]]]].
  - rewrite Hp, Hp1, !app_assoc. by rewrite (Permutation_app_comm used).
  - eapply same_outside_trans.
    + eapply same_outside_mono; [|exact Hs1]. intros q. rewrite !elem_of_app. tauto.
    + eapply same_outside_mono; [|exact Hs]. intros q.
      rewrite elem_of_app, Hp1, !elem_of_app. tauto.
  - intros va' Hr Hal'. rewrite Hv, Hv1 by done.
    assert (va ≤ va' < va + PGSIZE → va' = va) as Hone.
    { unfold page_aligned, PGSIZE in *.
      pose proof (Z.div_mod va 4096). pose proof (Z.div_mod va' 4096). lia. }
    unfold PGSIZE in *. repeat case_decide; try lia; try done; f_equal; lia.
Qed.

Definition map_body (pagetable last perm : Z) : Z * Z → M kmem (Z * Z + Z) :=
  λ '(a, pa),
    let* pte := walk pagetable a true in
    if pte =? 0 then ret (inr (-1))
    else
      let* v := ld64 pte in
      if has v PTE_V then panic "mappages: remap"
      else
        st64 pte (Z.lor (Z.lor (PA2PTE pa) perm) PTE_V) ;;;
        if a =? last then ret (inr 0)
        else ret (inl (u64 (a + PGSIZE), u64 (pa + PGSIZE))).

Lemma map_body_ok k l root a pa perm last :
  node_inv k l 2 root → 0 ≤ a < MAXVA → page_aligned a →
  0 ≤ pa < 2^56 → 0 ≤ perm < 1024 →
  has (pteval (km_mem k) 2 root a) PTE_V = false →
  ∃ k' used l',
    (map_body root last perm (a, pa) k = Done (inr (-1)) k' ∧ l' = [] ∧
     mapped_prefix k l root a pa perm 0 k' used l') ∨
    ((length used ≤ 2)%nat ∧ map_body root last perm (a, pa) k =
       Done (if a =? last then inr 0 else inl (u64 (a + PGSIZE), u64 (pa + PGSIZE))) k' ∧
     mapped_prefix k l root a pa perm 1 k' used l').
Proof.
  intros Hinv Ha Hal Hpa Hperm Hun.
  destruct (walk_alloc root a k l) as (pte & k1 & used & l' & Hw & Hpost & Hinv1); [done..|].
  destruct Hpost as (Hl & Hk1 & Hpp & Hs & Hpt & Hret & Hlen & Hcl).
  unfold map_body, bind. rewrite Hw.
  destruct Hret as [[-> ->]|[Hne Hleaf]].
  - exists k1, used, []. left. split; [done|]. split; [done|].
    split; [done|]. split; [done|]. split; [done|]. split; [done|]. split; [|split; [lia|by auto]].
    intros. rewrite decide_False by lia. apply Hpt.
  - rewrite (proj2 (Z.eqb_neq pte 0)) by done.
    unfold ld64, gets. cbv beta iota.
    assert (load64 (km_mem k1) pte = pteval (km_mem k) 2 root a) as ->.
    { rewrite <-Hpt. unfold pteval. by rewrite Hleaf. }
    rewrite Hun. unfold st64, modify. cbv beta iota.
    destruct (leaf_set k1 l' root a pte (map_entry pa perm)) as (Hinv2 & Hp2 & Hs2 & Hv2 & Hc2); [done..|].
    fold (map_entry pa perm). set (k2 := upd_mem _ k1) in *.
    exists k2, used, l'. right. split; [lia|]. split; [by destruct (a =? last)|].
    split; [done|]. split; [done|]. split; [by rewrite Hp2|]. split; [|split; [|split; [lia|by auto]]].
    + eapply same_outside_trans; [exact Hs|]. eapply same_outside_mono; [|exact Hs2].
      intros q. by rewrite Hpp.
    + intros va' Hr' Hal'. rewrite Hv2, Hpt by done.
      assert (u64 (map_entry pa perm) = map_entry pa perm) as Hu.
      { apply Z.mod_small, new_pte_range; lia. }
      assert (a ≤ va' < a + 1 * PGSIZE ↔ va' = a) as Hone.
      { unfold page_aligned, PGSIZE in *.
        pose proof (Z.div_mod a 4096). pose proof (Z.div_mod va' 4096). lia. }
      destruct (decide (va' = a)) as [->|]; [|by rewrite decide_False by tauto].
      rewrite decide_True, Hu by tauto. by rewrite Z.sub_diag, Z.add_0_r.
Qed.

Lemma map_loop_ok root perm last n : ∀ k l a pa,
  node_inv k l 2 root → 0 ≤ a → a + (S n) * PGSIZE ≤ MAXVA → page_aligned a →
  0 ≤ pa → pa + (S n) * PGSIZE ≤ 2^56 → 0 ≤ perm < 1024 →
  last = a + n * PGSIZE →
  (∀ va, a ≤ va < a + (S n) * PGSIZE → page_aligned va →
     has (pteval (km_mem k) 2 root va) PTE_V = false) →
  ∃ r j k' used l', loop (S n) (map_body root last perm) (a, pa) k = Done r k' ∧
    mapped_prefix k l root a pa perm j k' used l' ∧
    ((r = 0 ∧ j = Z.of_nat (S n)) ∨ (r = -1 ∧ 0 ≤ j < S n ∧ l' = [])).
Proof.
  induction n as [|n IH]; intros k l a pa Hinv Ha Hmax Hal Hpa Hpmax Hperm Hlast Hun.
  all: assert (a < MAXVA ∧ pa < 2^56) as [??] by (unfold PGSIZE in *; lia).
  all: destruct (map_body_ok k l root a pa perm last) as (k1 & used1 & l1 & Hcase);
    [done|lia|done|lia|done|apply Hun; [unfold PGSIZE; lia|done]|].
  all: cbn [loop]; unfold bind at 1.
  - destruct Hcase as [(-> & -> & Hmp)|(Hlu & -> & Hmp)].
    + exists (-1), 0, k1, used1, []. split; [done|]. split; [done|]. right.
      split; [done|]. split; [lia|done].
    + rewrite (proj2 (Z.eqb_eq a last)) by lia.
      exists 0, 1, k1, used1, l1. split; [done|]. split; [done|]. left. lia.
  - destruct Hcase as [(-> & -> & Hmp)|(Hlu & -> & Hmp)].
    + exists (-1), 0, k1, used1, []. split; [done|]. split; [done|]. right.
      split; [done|]. split; [lia|done].
    + rewrite (proj2 (Z.eqb_neq a last)) by (unfold PGSIZE in *; lia).
      change MAXVA with (2^38) in *.
      assert (u64 (a + PGSIZE) = a + PGSIZE ∧ u64 (pa + PGSIZE) = pa + PGSIZE) as [-> ->].
      { unfold u64, PGSIZE in *. rewrite !Z.mod_small by lia. done. }
      assert (page_aligned (a + PGSIZE)) as Hal'.
      { unfold page_aligned, PGSIZE in *. by rewrite Z.add_mod, Hal. }
      destruct (IH k1 l1 (a + PGSIZE) (pa + PGSIZE)) as (r & j & k' & used & l' & Hrun & Hmp' & Hres).
      * apply Hmp.
      * unfold PGSIZE in *; lia.
      * change MAXVA with (2^38). lia.
      * done.
      * unfold PGSIZE in *; lia.
      * lia.
      * done.
      * lia.
      * intros va Hr Hva. assert (0 ≤ va < MAXVA) as Hva'.
        { change MAXVA with (2^38). unfold PGSIZE in *. lia. }
        destruct Hmp as (_ & _ & _ & _ & Hv1 & _). rewrite Hv1 by done.
        rewrite decide_False by (unfold PGSIZE in *; lia).
        apply Hun; [unfold PGSIZE in *; lia|done].
      * exists r, (1 + j), k', (used1 ++ used), l'. split; [exact Hrun|].
        assert (0 ≤ j) by lia.
        split; [by eapply mapped_prefix_cons|].
        destruct Hres as [[-> ->]|(-> & ? & ->)]; [left; lia|right].
        split; [done|]. split; [lia|done].
Qed.

Lemma mappages_ok k l root va n pa perm :
  node_inv k l 2 root → 0 < n → 0 ≤ va → va + n * PGSIZE ≤ MAXVA → page_aligned va →
  0 ≤ pa → pa + n * PGSIZE ≤ 2^56 → 0 ≤ perm < 1024 →
  (∀ va', va ≤ va' < va + n * PGSIZE → page_aligned va' →
     has (pteval (km_mem k) 2 root va') PTE_V = false) →
  ∃ r j k' used l', mappages root va (n * PGSIZE) pa perm k = Done r k' ∧
    mapped_prefix k l root va pa perm j k' used l' ∧
    ((r = 0 ∧ j = n) ∨ (r = -1 ∧ 0 ≤ j < n ∧ l' = [])).
Proof.
  intros Hinv Hn Hva Hmax Hal Hpa Hpmax Hperm Hun. unfold mappages.
  unfold page_aligned in Hal. rewrite Hal, Z_mod_mult. cbn [Z.eqb negb].
  rewrite (proj2 (Z.eqb_neq (n * PGSIZE) 0)) by (unfold PGSIZE; lia).
  rewrite Z.div_mul by done. change MAXVA with (2^38) in *.
  assert (u64 (va + n * PGSIZE - PGSIZE) = va + Z.pred n * PGSIZE) as ->.
  { unfold u64, PGSIZE in *. rewrite Z.mod_small; lia. }
  fold (map_body root (va + Z.pred n * PGSIZE) perm).
  destruct (map_loop_ok root perm (va + Z.pred n * PGSIZE) (Z.to_nat (Z.pred n)) k l va pa)
    as (r & j & k' & used & l' & Hrun & Hmp & Hres); try done.
  - change MAXVA with (2^38). unfold PGSIZE in *; lia.
  - unfold PGSIZE in *; lia.
  - unfold PGSIZE in *; lia.
  - intros. apply Hun; [unfold PGSIZE in *; lia|done].
  - exists r, j, k', used, l'. replace (Z.to_nat n) with (S (Z.to_nat (Z.pred n))) by lia.
    split; [done|]. split; [done|].
    destruct Hres as [[-> ->]|(-> & ? & ->)]; [left; lia|right].
    split; [done|]. split; [lia|done].
Qed.
End spec.
