(* ===== verification/VmUser.v ===== *)
(** * Correctness of user memory management in kernel/vm.c

    [uvmunmap], [uvmdealloc] and [uvmalloc]: how user pages move between the
    free list and the leaves of a page table. *)

From S2P Require Import Prelude Riscv Mem Kalloc Vm VmTree VmSpec.

Section user.
Variable kend : Z.
Hypothesis kend_pos : 0 < kend.

(** Stores to pages that are not part of the table, and a new free list. *)
Lemma node_inv_frame k l level root k' l' ps :
  node_inv kend k l level root → kmem_ok kend k' l' →
  same_outside ps (km_mem k) (km_mem k') → Forall page_aligned ps →
  (∀ q, q ∈ pt_pages (km_mem k) level root → q ∉ ps) →
  (∀ q, q ∈ l' → q ∉ pt_pages (km_mem k) level root) →
  node_inv kend k' l' level root ∧
  pt_pages (km_mem k') level root = pt_pages (km_mem k) level root ∧
  (∀ va, leaf_addr (km_mem k') level root va = leaf_addr (km_mem k) level root va) ∧
  (∀ va, pteval (km_mem k') level root va = pteval (km_mem k) level root va) ∧
  (clean (km_mem k) level root → clean (km_mem k') level root).
Proof.
  intros (Hk & Hok & Hd) Hk' Hs Hal Hps Hd'.
  destruct (tree_frame kend ps (km_mem k) (km_mem k') level root) as (Hp & Hl & Hv); [done..|].
  split; [|split_and!; [done..|by eapply clean_frame]]. split; [done|]. split; [split|]; rewrite Hp; [apply Hok..|done].
Qed.

Lemma page_aligned_add va i : page_aligned va → page_aligned (va + i * PGSIZE).
Proof. unfold page_aligned, PGSIZE. intros H. by rewrite Z_mod_plus_full. Qed.

(** The pages the entries of a range lead to. *)
Definition leaves (m : mem) (root va n : Z) : list Z :=
  (λ i, PTE2PA (pteval m 2 root (va + i * PGSIZE))) <$> seqZ 0 n.

Lemma leaves_S m root va n :
  0 ≤ n → leaves m root va (1 + n) =
    PTE2PA (pteval m 2 root va) :: leaves m root (va + PGSIZE) n.
Proof.
  intros Hn. unfold leaves. rewrite seqZ_cons by lia. simpl.
  rewrite Z.add_0_r. f_equal. replace (Z.pred (1 + n)) with n by lia.
  change (Z.succ 0) with (1 + 0).
  rewrite <-(fmap_add_seqZ 1 0 n), <-list_fmap_compose.
  apply list_fmap_ext. intros ? i _. simpl. do 2 f_equal. lia.
Qed.

Lemma leaves_ext m m' root va n :
  (∀ va', va ≤ va' < va + n * PGSIZE → page_aligned va' →
     pteval m' 2 root va' = pteval m 2 root va') →
  page_aligned va → leaves m' root va n = leaves m root va n.
Proof.
  intros H Hal. unfold leaves. apply list_fmap_ext. intros j i Hi.
  apply lookup_seqZ in Hi as [-> Hi]. f_equal. apply H; [unfold PGSIZE; lia|].
  by apply page_aligned_add.
Qed.

(** ** uvmunmap *)

(** Every entry of the range is a present leaf. *)
Definition range_mapped (m : mem) (root va n : Z) : Prop :=
  ∀ va', va ≤ va' < va + n * PGSIZE → page_aligned va' →
    has (pteval m 2 root va') PTE_V = true ∧ PTE_FLAGS (pteval m 2 root va') ≠ PTE_V.

(** The leaf pages [us] may be freed: distinct RAM pages in use by nothing else. *)
Definition owned (k : kmem) (l : list Z) (root : Z) (us : list Z) : Prop :=
  NoDup us ∧ Forall (page_ok kend) us ∧
  (∀ q, q ∈ us → (q ∉ l) ∧ (q ∉ pt_pages (km_mem k) 2 root)).

Definition unmapped_post (k : kmem) (l : list Z) (root va n : Z) (do_free : bool) (k' : kmem) : Prop :=
  let us := if do_free then leaves (km_mem k) root va n else [] in
  node_inv kend k' (reverse us ++ l) 2 root ∧
  pt_pages (km_mem k') 2 root = pt_pages (km_mem k) 2 root ∧
  same_outside (us ++ pt_pages (km_mem k) 2 root) (km_mem k) (km_mem k') ∧
  (∀ va', 0 ≤ va' < MAXVA → page_aligned va' →
     pteval (km_mem k') 2 root va' =
       if decide (va ≤ va' < va + n * PGSIZE) then 0 else pteval (km_mem k) 2 root va') ∧
  (clean (km_mem k) 2 root → clean (km_mem k') 2 root).

Definition unmap_body (pagetable stop : Z) (do_free : bool) : Z → M kmem (Z + unit) :=
  λ a,
    if a <? stop then
      let* pte := walk pagetable a false in
      if pte =? 0 then panic "uvmunmap: walk"
      else
        let* v := ld64 pte in
        if negb (has v PTE_V) then panic "uvmunmap: not mapped"
        else if PTE_FLAGS v =? PTE_V then panic "uvmunmap: not a leaf"
        else
          (if do_free then kfree kend (PTE2PA v) else ret tt) ;;;
          st64 pte 0 ;;;
          ret (inl (u64 (a + PGSIZE)))
    else ret (inr tt).

Lemma pteval_present m root va :
  has (pteval m 2 root va) PTE_V = true →
  ∃ a, leaf_addr m 2 root va = Some a ∧ load64 m a = pteval m 2 root va.
Proof.
  unfold pteval. destruct (leaf_addr m 2 root va) as [a|]; [by exists a|done].
Qed.

Lemma unmap_one k l root a stop do_free :
  node_inv kend k l 2 root → 0 ≤ a → a < stop → stop ≤ MAXVA → page_aligned a →
  range_mapped (km_mem k) root a 1 →
  (do_free = true → owned k l root (leaves (km_mem k) root a 1)) →
  ∃ k', unmap_body root stop do_free a k = Done (inl (u64 (a + PGSIZE))) k' ∧
    unmapped_post k l root a 1 do_free k'.
Proof.
  intros Hinv Ha Hstop Hmax Hal Hmap Hown.
  destruct (Hmap a) as [Hv Hfl]; [unfold PGSIZE; lia|done|].
  destruct (pteval_present (km_mem k) root a Hv) as (pte & Hleaf & Hld).
  assert (0 < pte) as Hpte.
  { eapply (leaf_addr_pos kend kend_pos); [|exact Hleaf]. apply Hinv. }
  unfold unmap_body. rewrite (proj2 (Z.ltb_lt a stop)) by done.
  unfold bind. rewrite walk_read, Hleaf by lia.
  change (default 0 (Some pte)) with pte. cbv beta iota.
  rewrite (proj2 (Z.eqb_neq pte 0)) by lia. unfold ld64, gets. cbv beta iota.
  rewrite Hld, Hv. cbn [negb]. rewrite (proj2 (Z.eqb_neq _ _)) by exact Hfl.
  set (us := if do_free then leaves (km_mem k) root a 1 else []).
  assert (leaves (km_mem k) root a 1 = [PTE2PA (pteval (km_mem k) 2 root a)]) as Hlv.
  { change 1 with (1 + 0) at 1. by rewrite leaves_S. }
  assert (∃ k1, (if do_free then kfree kend (PTE2PA (pteval (km_mem k) 2 root a)) else ret tt) k
      = Done tt k1 ∧ node_inv kend k1 (us ++ l) 2 root ∧
      pt_pages (km_mem k1) 2 root = pt_pages (km_mem k) 2 root ∧
      leaf_addr (km_mem k1) 2 root a = Some pte ∧
      (∀ va, pteval (km_mem k1) 2 root va = pteval (km_mem k) 2 root va) ∧
      same_outside us (km_mem k) (km_mem k1) ∧ (clean (km_mem k) 2 root → clean (km_mem k1) 2 root))
    as (k1 & -> & Hinv1 & Hp1 & Hl1 & Hv1 & Hs1 & Hc1).
  { unfold us. destruct do_free; [|exists k; by split_and!].
    destruct (Hown eq_refl) as (_ & Hok & Hfresh). rewrite Hlv in *.
    rewrite Forall_singleton in Hok.
    destruct (Hfresh (PTE2PA (pteval (km_mem k) 2 root a))) as [Hnl Hnp]; [left|].
    destruct (kfree_ok kend kend_pos k (PTE2PA (pteval (km_mem k) 2 root a)) l)
      as (k1 & Hf & Hk1 & Hs & _); [apply Hinv|done..|].
    exists k1. split; [done|].
    destruct (node_inv_frame k l 2 root k1
      (PTE2PA (pteval (km_mem k) 2 root a) :: l) [PTE2PA (pteval (km_mem k) 2 root a)])
      as (Hi & Hp & Hla & Hpv & Hcl); [done..|apply Forall_singleton, Hok| | |].
    - intros q Hq Hq'%list_elem_of_singleton. by subst q.
    - intros q [->|Hq]%elem_of_cons; [done|]. by apply Hinv.
    - split_and!; try done. by rewrite Hla. }
  unfold st64, modify. cbv beta iota. eexists. split; [done|].
  destruct (leaf_set kend k1 (us ++ l) root a pte 0) as (Hinv2 & Hp2 & Hs2 & Hv2 & Hc2); [done|done|lia|done|].
  unfold unmapped_post. fold us. assert (reverse us = us) as ->.
  { unfold us. destruct do_free; [by rewrite Hlv|done]. }
  split; [done|]. split; [by rewrite Hp2|]. split; [|split; [|by auto]].
  - eapply same_outside_trans.
    + eapply same_outside_mono; [|exact Hs1]. intros q Hq. by apply elem_of_app; left.
    + eapply same_outside_mono; [|exact Hs2]. intros q. rewrite Hp1. intros Hq.
      by apply elem_of_app; right.
  - intros va' Hr Hal'. rewrite Hv2, Hv1 by done.
    assert (a ≤ va' < a + 1 * PGSIZE ↔ va' = a) as Hone.
    { unfold page_aligned, PGSIZE in *.
      pose proof (Z.div_mod a 4096). pose proof (Z.div_mod va' 4096). lia. }
    destruct (decide (va' = a)); [by rewrite decide_True by tauto|].
    by rewrite decide_False by tauto.
Qed.

Lemma unmapped_post_cons k l root va n do_free k1 k' :
  0 ≤ n → 0 ≤ va → va + (1 + n) * PGSIZE ≤ MAXVA → page_aligned va →
  unmapped_post k l root va 1 do_free k1 →
  unmapped_post k1 (reverse (if do_free then leaves (km_mem k) root va 1 else []) ++ l)
    root (va + PGSIZE) n do_free k' →
  unmapped_post k l root va (1 + n) do_free k'.
Proof.
  intros Hn Hva Hmax Hal (_ & Hp1 & Hs1 & Hv1 & Hc1) (Hinv & Hp & Hs & Hv & Hc).
  assert (leaves (km_mem k) root va 1 = [PTE2PA (pteval (km_mem k) 2 root va)]) as Hlv.
  { change 1 with (1 + 0) at 1. by rewrite leaves_S. }
  assert (leaves (km_mem k1) root (va + PGSIZE) n = leaves (km_mem k) root (va + PGSIZE) n) as Hle.
  { apply leaves_ext; [|unfold page_aligned, PGSIZE in *; by rewrite Z.add_mod, Hal].
    intros va' Hr Hal'. rewrite Hv1; [|unfold PGSIZE in *; lia|done].
    by rewrite decide_False by (unfold PGSIZE in *; lia). }
  rewrite Hle in Hinv, Hs. unfold unmapped_post.
  split; [|split; [by rewrite Hp|split; [|split; [|by auto]]]].
  - destruct do_free; [|exact Hinv]. rewrite leaves_S by done. rewrite Hlv in Hinv.
    rewrite reverse_cons. rewrite <-app_assoc. exact Hinv.
  - eapply same_outside_trans.
    + eapply same_outside_mono; [|exact Hs1]. intros q.
      destruct do_free; [|done]. rewrite leaves_S, Hlv by done.
      intros [Hq|?]%elem_of_app; apply elem_of_app; [left|by right].
      apply list_elem_of_singleton in Hq. subst q. left.
    + eapply same_outside_mono; [|exact Hs]. intros q. rewrite Hp1.
      destruct do_free; [|done]. rewrite leaves_S by done.
      rewrite !elem_of_app, elem_of_cons. tauto.
  - intros va' Hr Hal'. rewrite Hv, Hv1 by done.
    unfold PGSIZE in *. repeat case_decide; try lia; done.
Qed.

Lemma unmap_loop root stop do_free (n : nat) : ∀ k l a,
  node_inv kend k l 2 root → 0 ≤ a → stop = a + n * PGSIZE → stop ≤ MAXVA → page_aligned a →
  range_mapped (km_mem k) root a n →
  (do_free = true → owned k l root (leaves (km_mem k) root a n)) →
  ∃ k', loop (S n) (unmap_body root stop do_free) a k = Done tt k' ∧
    unmapped_post k l root a n do_free k'.
Proof.
  induction n as [|n IH]; intros k l a Hinv Ha Hstop Hmax Hal Hmap Hown.
  - exists k. cbn [loop]. unfold bind, unmap_body.
    rewrite (proj2 (Z.ltb_ge a stop)) by lia. split; [done|].
    unfold unmapped_post. assert (leaves (km_mem k) root a 0%nat = []) as -> by done.
    replace (if do_free then [] else []) with ([] : list Z) by by destruct do_free.
    split_and!; try done. intros. by rewrite decide_False by lia.
  - assert (stop = a + PGSIZE + n * PGSIZE) as Hstop' by (unfold PGSIZE in *; lia).
    assert (leaves (km_mem k) root a (S n) =
      PTE2PA (pteval (km_mem k) 2 root a) :: leaves (km_mem k) root (a + PGSIZE) n) as HlS.
    { rewrite <-leaves_S by lia. f_equal. lia. }
    assert (leaves (km_mem k) root a 1 = [PTE2PA (pteval (km_mem k) 2 root a)]) as Hl1.
    { change 1 with (1 + 0) at 1. by rewrite leaves_S. }
    destruct (unmap_one k l root a stop do_free) as (k1 & Hrun & Hpost); [done|done| |done|done| | |].
    + unfold PGSIZE in *; lia.
    + intros va' Hr. apply Hmap. unfold PGSIZE in *; lia.
    + intros Hf. destruct (Hown Hf) as (Hnd & Hok & Hfr). rewrite HlS in *. rewrite Hl1.
      split; [apply NoDup_singleton|]. inversion Hok; subst.
      split; [by apply Forall_singleton|]. intros q Hq%list_elem_of_singleton. apply Hfr. subst q. left.
    + set (us := if do_free then leaves (km_mem k) root a 1 else []) in *.
      change MAXVA with (2^38) in *.
      assert (u64 (a + PGSIZE) = a + PGSIZE) as Hu.
      { unfold u64, PGSIZE in *. rewrite Z.mod_small; lia. }
      assert (page_aligned (a + PGSIZE)) as Hal'.
      { unfold page_aligned, PGSIZE in *. by rewrite Z.add_mod, Hal. }
      assert (∀ va', a + PGSIZE ≤ va' < a + PGSIZE + n * PGSIZE → page_aligned va' →
        pteval (km_mem k1) 2 root va' = pteval (km_mem k) 2 root va') as Hsame.
      { intros va' Hr Hva'. destruct Hpost as (_ & _ & _ & Hv1 & _).
        rewrite Hv1; [|change MAXVA with (2^38); unfold PGSIZE in *; lia|done].
        by rewrite decide_False by (unfold PGSIZE in *; lia). }
      destruct (IH k1 (reverse us ++ l) (a + PGSIZE)) as (k' & Hrun' & Hpost').
      * apply Hpost.
      * unfold PGSIZE in *; lia.
      * done.
      * done.
      * done.
      * intros va' Hr Hva'. rewrite Hsame by done. apply Hmap; [|done].
        unfold PGSIZE in *; lia.
      * intros Hf. destruct (Hown Hf) as (Hnd & Hok & Hfr).
        rewrite (leaves_ext (km_mem k)) by done. rewrite HlS in *.
        apply NoDup_cons in Hnd as [Hnin Hnd]. inversion Hok; subst.
        split; [done|]. split; [done|]. intros q Hq.
        destruct (Hfr q) as [? Hqp]; [by right|].
        destruct Hpost as (_ & -> & _). split; [|done].
        unfold us. rewrite Hl1. simpl. intros [->|?]%elem_of_cons; done.
      * exists k'. split.
        -- change (loop (S (S n)) (unmap_body root stop do_free) a k) with
             (bind (unmap_body root stop do_free a) (λ r, match r with
                | inl a' => loop (S n) (unmap_body root stop do_free) a'
                | inr b => ret b end) k).
           unfold bind. rewrite Hrun, Hu. exact Hrun'.
        -- replace (Z.of_nat (S n)) with (1 + n) by lia.
           eapply unmapped_post_cons; eauto; [lia|].
           change MAXVA with (2^38). unfold PGSIZE in *; lia.
Qed.

Lemma uvmunmap_ok k l root va n do_free :
  node_inv kend k l 2 root → 0 ≤ n → 0 ≤ va → va + n * PGSIZE ≤ MAXVA → page_aligned va →
  range_mapped (km_mem k) root va n →
  (do_free = true → owned k l root (leaves (km_mem k) root va n)) →
  ∃ k', uvmunmap kend root va n do_free k = Done tt k' ∧
    unmapped_post k l root va n do_free k'.
Proof.
  intros Hinv Hn Hva Hmax Hal Hmap Hown. unfold uvmunmap.
  unfold page_aligned in Hal. rewrite Hal. cbn [Z.eqb negb].
  change MAXVA with (2^38) in *.
  assert (u64 (va + n * PGSIZE) = va + n * PGSIZE) as ->.
  { unfold u64, PGSIZE in *. rewrite Z.mod_small; lia. }
  fold (unmap_body root (va + n * PGSIZE) do_free).
  destruct (unmap_loop root (va + n * PGSIZE) do_free (Z.to_nat n) k l va)
    as (k' & Hrun & Hpost); [done|done| |done|done| | |].
  all: rewrite ?Z2Nat.id in * by done; try done. by exists k'.
Qed.

(** ** uvmdealloc *)

Lemma PGROUNDUP_bounds sz :
  0 ≤ sz ≤ MAXVA →
  sz ≤ PGROUNDUP sz < sz + PGSIZE ∧ page_aligned (PGROUNDUP sz) ∧ PGROUNDUP sz ≤ MAXVA.
Proof.
  change MAXVA with (2^38). intros H. rewrite PGROUNDUP_small by (unfold PGSIZE; lia).
  unfold page_aligned, PGSIZE. rewrite Z_mod_mult.
  pose proof (Z.div_mod (sz + 4095) 4096). pose proof (Z.mod_pos_bound (sz + 4095) 4096).
  assert ((sz + 4095) `div` 4096 ≤ 2^26); [|lia].
  apply Z.lt_succ_r, Z.div_lt_upper_bound; lia.
Qed.

Lemma PGROUNDUP_aligned sz : 0 ≤ sz ≤ MAXVA → page_aligned sz → PGROUNDUP sz = sz.
Proof.
  intros H Hal. destruct (PGROUNDUP_bounds sz) as (? & Hal' & _); [done|].
  unfold page_aligned, PGSIZE in *.
  pose proof (Z.div_mod sz 4096). pose proof (Z.div_mod (PGROUNDUP sz) 4096). lia.
Qed.

Lemma PGROUNDUP_mono a b : 0 ≤ a → a ≤ b → b ≤ MAXVA → PGROUNDUP a ≤ PGROUNDUP b.
Proof.
  change MAXVA with (2^38). intros. rewrite !PGROUNDUP_small by (unfold PGSIZE; lia).
  apply Z.mul_le_mono_nonneg_r; [lia|]. apply Z.div_le_mono; lia.
Qed.

(** Pages between two sizes. *)
Definition npages (lo hi : Z) : Z := (PGROUNDUP hi - PGROUNDUP lo) `div` PGSIZE.

Lemma npages_spec lo hi :
  0 ≤ lo → lo ≤ hi → hi ≤ MAXVA →
  0 ≤ npages lo hi ∧ npages lo hi ≤ 2^26 ∧ PGROUNDUP hi = PGROUNDUP lo + npages lo hi * PGSIZE.
Proof.
  intros Hlo Hle Hhi. pose proof (PGROUNDUP_mono lo hi Hlo Hle Hhi).
  destruct (PGROUNDUP_bounds lo) as (? & Hal1 & _); [lia|].
  destruct (PGROUNDUP_bounds hi) as (? & Hal2 & ?); [lia|].
  unfold npages, page_aligned, PGSIZE in *. change MAXVA with (2^38) in *.
  pose proof (Z.div_mod (PGROUNDUP lo) 4096). pose proof (Z.div_mod (PGROUNDUP hi) 4096).
  set (a := PGROUNDUP lo `div` 4096) in *. set (b := PGROUNDUP hi `div` 4096) in *.
  replace (PGROUNDUP hi - PGROUNDUP lo) with ((b - a) * 4096) by lia.
  rewrite Z.div_mul by lia. lia.
Qed.

Lemma unmapped_post_nil k l root va :
  node_inv kend k l 2 root → unmapped_post k l root va 0 true k.
Proof.
  intros Hinv. unfold unmapped_post. assert (leaves (km_mem k) root va 0 = []) as -> by done.
  split_and!; try done. intros. by rewrite decide_False by lia.
Qed.

Lemma uvmdealloc_ok k l root oldsz newsz :
  node_inv kend k l 2 root → 0 ≤ newsz → newsz ≤ oldsz → oldsz ≤ MAXVA →
  range_mapped (km_mem k) root (PGROUNDUP newsz) (npages newsz oldsz) →
  owned k l root (leaves (km_mem k) root (PGROUNDUP newsz) (npages newsz oldsz)) →
  ∃ k', uvmdealloc kend root oldsz newsz k = Done newsz k' ∧
    unmapped_post k l root (PGROUNDUP newsz) (npages newsz oldsz) true k'.
Proof.
  intros Hinv Hnew Hle Hmax Hmap Hown.
  destruct (npages_spec newsz oldsz) as (Hn & Hn' & Hup); [done..|].
  destruct (PGROUNDUP_bounds newsz) as (? & Hal & _); [lia|].
  destruct (PGROUNDUP_bounds oldsz) as (? & _ & ?); [lia|]. unfold uvmdealloc.
  destruct (Z.leb_spec oldsz newsz).
  - assert (oldsz = newsz) as -> by lia. exists k. split; [done|].
    assert (npages newsz newsz = 0) as -> by (unfold npages; by rewrite Z.sub_diag).
    by apply unmapped_post_nil.
  - destruct (Z.ltb_spec (PGROUNDUP newsz) (PGROUNDUP oldsz)).
    + fold (npages newsz oldsz).
      assert (u64 (i32 (npages newsz oldsz)) = npages newsz oldsz) as ->.
      { unfold u64, i32. rewrite (Z.mod_small (_ + _)) by lia. rewrite Z.mod_small; lia. }
      destruct (uvmunmap_ok k l root (PGROUNDUP newsz) (npages newsz oldsz) true)
        as (k' & Hrun & Hpost); [done|done|lia|lia|done..|].
      exists k'. unfold bind. by rewrite Hrun.
    + exists k. split; [done|]. assert (npages newsz oldsz = 0) as ->
        by (unfold PGSIZE in *; lia).
      by apply unmapped_post_nil.
Qed.

(** ** uvmalloc *)

(** Pages [us] taken from the free list are mapped from [base] on, page [i]
    with permissions [perm i] and contents [bytes i]; [used] are the page-table
    pages that were needed. *)
Definition page_holds (m : mem) (p : Z) (f : Z → Z) : Prop := ∀ o, 0 ≤ o < PGSIZE → load8 m (p + o) = f o.
Definition grown (k : kmem) (l : list Z) (root base : Z) (perm : Z → Z) (bytes : Z → Z → Z) (us : list Z)
    (k' : kmem) (used l' : list Z) : Prop :=
  l ≡ₚ used ++ us ++ l' ∧ node_inv kend k' l' 2 root ∧
  pt_pages (km_mem k') 2 root ≡ₚ used ++ pt_pages (km_mem k) 2 root ∧
  same_outside (l ++ pt_pages (km_mem k) 2 root) (km_mem k) (km_mem k') ∧
  (∀ va', 0 ≤ va' < MAXVA → page_aligned va' →
     pteval (km_mem k') 2 root va' =
       if decide (base ≤ va' < base + length us * PGSIZE)
       then let i := (va' - base) `div` PGSIZE in map_entry (us !!! Z.to_nat i) (perm i)
       else pteval (km_mem k) 2 root va') ∧
  (∀ (i : nat) p, us !! i = Some p → page_holds (km_mem k') p (bytes i)) ∧
  (clean (km_mem k) 2 root → clean (km_mem k') 2 root).

(** The table may have new empty nodes; every entry is as before. *)
Definition unchanged (k : kmem) (l : list Z) (root : Z) (k' : kmem) (used l' : list Z) : Prop :=
  l ≡ₚ used ++ l' ∧ node_inv kend k' l' 2 root ∧
  pt_pages (km_mem k') 2 root ≡ₚ used ++ pt_pages (km_mem k) 2 root ∧
  same_outside (l ++ pt_pages (km_mem k) 2 root) (km_mem k) (km_mem k') ∧
  (∀ va', 0 ≤ va' < MAXVA → page_aligned va' →
     pteval (km_mem k') 2 root va' = pteval (km_mem k) 2 root va') ∧
  (clean (km_mem k) 2 root → clean (km_mem k') 2 root).

(** Permissions that make a leaf. *)
Definition leaf_perm (perm : Z) : Prop := 0 ≤ perm < 1024 ∧ Z.lor perm PTE_V ≠ PTE_V.

Lemma map_entry_leaf pa perm :
  page_ok kend pa → leaf_perm perm →
  PTE2PA (map_entry pa perm) = pa ∧ has (map_entry pa perm) PTE_V = true ∧
  PTE_FLAGS (map_entry pa perm) ≠ PTE_V.
Proof.
  intros [? Hal]%page_ok_bounds [Hperm HR]; [|done].
  destruct (new_pte_decode pa perm) as [Hpa Hfl]; [lia|done..|].
  unfold map_entry. rewrite Hpa, Hfl. split; [done|]. split; [apply has_V_lor|done].
Qed.

Section grow.
Context (k : kmem) (l : list Z) (root base : Z) (perm : Z → Z) (bytes : Z → Z → Z).
Hypothesis Hinv : node_inv kend k l 2 root.
Hypothesis Hbase : 0 ≤ base.
Hypothesis Halb : page_aligned base.
Hypothesis Hperm : ∀ i, 0 ≤ i → base + (i + 1) * PGSIZE ≤ MAXVA → leaf_perm (perm i).

Lemma grown_owned us k' used l' :
  grown k l root base perm bytes us k' used l' → base + length us * PGSIZE ≤ MAXVA →
  owned k' l' root us ∧ range_mapped (km_mem k') root base (length us) ∧
  leaves (km_mem k') root base (length us) = us.
Proof.
  intros (Hl & Hinv' & Hp & Hs & Hv & _) Hmax.
  destruct Hinv as (Hk & Hok & Hd).
  assert (NoDup (used ++ us ++ l')) as Hnd by (rewrite <-Hl; apply Hk).
  apply NoDup_app in Hnd as (Hndu & Hdu & (Hndus & Hdus & Hndl)%NoDup_app).
  assert (Forall (page_ok kend) us) as Husok.
  { apply free_pages_ok in Hk. rewrite Hl, !Forall_app in Hk. apply Hk. }
  assert (∀ i, 0 ≤ i < length us →
    pteval (km_mem k') 2 root (base + i * PGSIZE) = map_entry (us !!! Z.to_nat i) (perm i)) as Hent.
  { intros i Hi. rewrite Hv.
    - rewrite decide_True by (unfold PGSIZE in *; lia).
      cbv zeta. replace (base + i * PGSIZE - base) with (i * PGSIZE) by lia. by rewrite Z.div_mul.
    - unfold PGSIZE in *; lia.
    - by apply page_aligned_add. }
  assert (∀ i, 0 ≤ i < length us → us !! Z.to_nat i = Some (us !!! Z.to_nat i)) as Hlk.
  { intros i Hi. apply list_lookup_lookup_total_lt. lia. }
  split; [|split].
  - split; [done|]. split; [done|]. intros q Hq. split; [by apply Hdus|].
    rewrite Hp. intros [Hu|Hq']%elem_of_app.
    + apply (Hdu q Hu). by apply elem_of_app; left.
    + apply (Hd q); [|done]. rewrite Hl, !elem_of_app. tauto.
  - intros va' Hr Hal'.
    assert (va' = base + (va' - base) `div` PGSIZE * PGSIZE ∧
            0 ≤ (va' - base) `div` PGSIZE < length us) as [Hva Hi].
    { unfold page_aligned, PGSIZE in *. pose proof (Z.div_mod base 4096).
      pose proof (Z.div_mod va' 4096).
      set (x := va' `div` 4096) in *. set (y := base `div` 4096) in *.
      replace (va' - base) with ((x - y) * 4096) by lia. rewrite Z.div_mul by lia. lia. }
    rewrite Hva, Hent by done. eapply Forall_lookup_1 in Husok; [|by apply Hlk].
    apply map_entry_leaf; [done|]. apply Hperm; unfold PGSIZE in *; lia.
  - apply list_eq. intros i. unfold leaves.
    destruct (decide (i < length us)%nat) as [Hi|Hi].
    + rewrite list_lookup_fmap, lookup_seqZ_lt by lia. simpl.
      rewrite Hent by lia. rewrite Z.add_0_l.
      destruct (lookup_lt_is_Some_2 us i Hi) as [p Hpi]. rewrite Hpi. f_equal.
      rewrite Nat2Z.id, (list_lookup_total_correct _ _ _ Hpi).
      apply map_entry_leaf; [by eapply Forall_lookup_1|apply Hperm; unfold PGSIZE in *; lia].
    + rewrite !lookup_ge_None_2; [done|lia|]. rewrite length_fmap, length_seqZ. lia.
Qed.

Lemma grown_nil : grown k l root base perm bytes [] k [] l.
Proof.
  unfold grown. split_and!; try done.
  intros. by rewrite decide_False by (cbn; lia).
Qed.

(** A freshly allocated page, filled by [f], outside the table. *)
Lemma fresh_page f k1 p l1 :
  node_inv kend k1 (p :: l1) 2 root → (∀ m, same_outside [p] m (f m)) →
  ∃ k2, kalloc k1 = Done p k2 ∧ same_outside [p] (km_mem k1) (km_mem k2) ∧ let k3 := upd_mem f k2 in
    node_inv kend k3 l1 2 root ∧
    pt_pages (km_mem k3) 2 root = pt_pages (km_mem k1) 2 root ∧
    same_outside [p] (km_mem k1) (km_mem k3) ∧
    (∀ va, pteval (km_mem k3) 2 root va = pteval (km_mem k1) 2 root va) ∧
    (clean (km_mem k1) 2 root → clean (km_mem k3) 2 root).
Proof using kend_pos.
  intros H1 Hf. pose proof H1 as (Hk & Hok & Hd).
  destruct (kalloc_cons kend kend_pos k1 p l1 Hk) as (k2 & Hrun & Hk2 & Hs2 & _).
  pose proof (free_pages_ok _ _ _ Hk) as [Hp _]%Forall_cons.
  destruct Hk as [_ [Hnin Hnd]%NoDup_cons].
  exists k2. split; [done|]. split; [done|].
  assert (same_outside [p] (km_mem k1) (f (km_mem k2))) as Hs.
  { eapply same_outside_trans; [done|]. apply Hf. }
  destruct (node_inv_frame k1 (p :: l1) 2 root (upd_mem f k2) l1 [p])
    as (Hinv3 & Hp3 & _ & Hv3 & Hc3); [done| |done| | | |done].
  - eapply (kmem_ok_upd _ [p]); [done|apply Hf| |].
    + rewrite Forall_singleton. apply Hp.
    + intros q Hq ->%list_elem_of_singleton. done.
  - rewrite Forall_singleton. apply Hp.
  - intros q Hq ->%list_elem_of_singleton. apply (Hd p); [apply list_elem_of_here|done].
  - intros q Hq. apply Hd. by apply list_elem_of_further.
Qed.

Lemma page_holds_frame m m' ps p f :
  page_holds m p f → same_outside ps m m' → page_aligned p → Forall page_aligned ps → p ∉ ps →
  page_holds m' p f.
Proof.
  intros Hz Hs Hp Hal Hnin o Ho. rewrite Hs; [by apply Hz|].
  intros q Hq Hx'. apply Hnin. rewrite Forall_forall in Hal.
  by rewrite (pages_disjoint p q (p + o)) by (auto; unfold in_page; lia).
Qed.

(** Mapping one fresh page extends the range; a failed [mappages] changes
    no entry. *)
Lemma grown_step us k1 used l1 p k3 k4 used4 l4 j :
  base + (1 + length us) * PGSIZE ≤ MAXVA → 0 ≤ j ≤ 1 →
  grown k l root base perm bytes us k1 used (p :: l1) →
  node_inv kend k3 l1 2 root → page_holds (km_mem k3) p (bytes (length us)) →
  pt_pages (km_mem k3) 2 root = pt_pages (km_mem k1) 2 root →
  same_outside [p] (km_mem k1) (km_mem k3) →
  (∀ va, pteval (km_mem k3) 2 root va = pteval (km_mem k1) 2 root va) →
  (clean (km_mem k1) 2 root → clean (km_mem k3) 2 root) →
  mapped_prefix kend k3 l1 root (base + length us * PGSIZE) p (perm (length us)) j k4 used4 l4 →
  same_outside (l ++ pt_pages (km_mem k) 2 root) (km_mem k) (km_mem k4) ∧
  pt_pages (km_mem k4) 2 root ≡ₚ (used4 ++ used) ++ pt_pages (km_mem k) 2 root ∧
  (p ∉ pt_pages (km_mem k4) 2 root) ∧
  (∀ (i : nat) q, (us ++ [p]) !! i = Some q → page_holds (km_mem k4) q (bytes i)) ∧
  (clean (km_mem k) 2 root → clean (km_mem k4) 2 root).
Proof.
  intros Hmax Hj (Hl & Hinv1 & Hp1 & Hs1 & Hv1 & Hz1 & Hc1) Hinv3 Hz3 Hp3 Hs3 Hv3 Hc3
    (Hl1 & Hinv4 & Hp4 & Hs4 & Hv4 & _ & Hc4).
  destruct Hinv as (Hk & Hok & Hd). pose proof (free_pages_ok _ _ _ Hk) as Hlok.
  assert (pt_pages (km_mem k4) 2 root ≡ₚ (used4 ++ used) ++ pt_pages (km_mem k) 2 root) as Hp4'.
  { rewrite Hp4, Hp3, Hp1. by rewrite app_assoc. }
  assert (l ≡ₚ (used4 ++ used) ++ (p :: us) ++ l4) as Hl'.
  { rewrite Hl, Hl1. solve_Permutation. }
  assert (NoDup ((used4 ++ used) ++ (p :: us) ++ l4)) as Hnd by (rewrite <-Hl'; apply Hk).
  apply NoDup_app in Hnd as (_ & Hdu & _).
  assert (∀ q, q ∈ p :: us → q ∉ pt_pages (km_mem k4) 2 root) as Hout.
  { intros q Hq. rewrite Hp4'. intros [Hu|Hq']%elem_of_app.
    - apply (Hdu q Hu). by apply elem_of_app; left.
    - apply (Hd q); [|done]. rewrite Hl', !elem_of_app. auto. }
  assert (Forall page_aligned (pt_pages (km_mem k4) 2 root)) as Hal4.
  { apply page_ok_aligned with kend. apply Hinv4. }
  assert (same_outside (pt_pages (km_mem k4) 2 root) (km_mem k3) (km_mem k4)) as Hs4'.
  { eapply same_outside_mono; [|done]. intros q. by rewrite Hp4. }
  rewrite Hl', !Forall_app in Hlok. destruct Hlok as (_ & Hpus & _).
  split; [|split; [done|split; [|split; [|by auto]]]].
  - eapply same_outside_trans; [done|]. eapply same_outside_trans.
    + eapply same_outside_mono; [|done]. intros q ->%list_elem_of_singleton.
      rewrite Hl', !elem_of_app. left. right. left. apply list_elem_of_here.
    + eapply same_outside_mono; [|done]. intros q. rewrite Hp4', Hl', !elem_of_app. tauto.
  - apply Hout, list_elem_of_here.
  - intros i q Hq. assert (q ∈ p :: us) as Hin.
    { apply list_elem_of_lookup_2, elem_of_app in Hq. rewrite elem_of_cons. rewrite list_elem_of_singleton in Hq. tauto. }
    assert (page_aligned q) as Hqal.
    { rewrite Forall_forall in Hpus. by apply Hpus. }
    eapply page_holds_frame; [|done..|by apply Hout].
    apply lookup_app_Some in Hq as [Hq|[Hge Hq]]; cycle 1.
    { apply list_lookup_singleton_Some in Hq as [Hi <-]. by replace i with (length us) by lia. }
    eapply page_holds_frame; [by apply Hz1|done|done| |].
    + rewrite Forall_singleton. apply Forall_cons in Hpus as [[? _] _]. done.
    + intros ->%list_elem_of_singleton. apply list_elem_of_lookup_2 in Hq.
      assert (NoDup (used ++ us ++ p :: l1)) as Hnd' by (rewrite <-Hl; apply Hk).
      apply NoDup_app in Hnd' as (_ & _ & (_ & Hd' & _)%NoDup_app).
      apply (Hd' p Hq), list_elem_of_here.
Qed.

(** Undoing a partial allocation gives every user page back. *)
Lemma grown_undo us k1 used l1 :
  grown k l root base perm bytes us k1 used l1 → base + length us * PGSIZE ≤ MAXVA →
  (∀ va', base ≤ va' < base + length us * PGSIZE → page_aligned va' →
     pteval (km_mem k) 2 root va' = 0) →
  ∃ k', uvmdealloc kend root (base + length us * PGSIZE) base k1 = Done base k' ∧
    unchanged k l root k' used (reverse us ++ l1).
Proof.
  intros Hg Hmax Hzero. pose proof Hg as (Hl & Hinv1 & Hp1 & Hs1 & Hv1 & _ & Hc1).
  destruct (grown_owned us k1 used l1 Hg Hmax) as (Hown & Hmap & Hlv).
  assert (PGROUNDUP base = base) as Hup.
  { apply PGROUNDUP_aligned; [unfold PGSIZE in *; lia|done]. }
  assert (npages base (base + length us * PGSIZE) = length us) as Hnp.
  { unfold npages. rewrite Hup, PGROUNDUP_aligned.
    - replace (base + length us * PGSIZE - base) with (length us * PGSIZE) by lia.
      by apply Z.div_mul.
    - unfold PGSIZE in *; lia.
    - by apply page_aligned_add. }
  destruct (uvmdealloc_ok k1 l1 root (base + length us * PGSIZE) base) as (k' & Hrun & Hpost);
    [done|done|unfold PGSIZE in *; lia|done|by rewrite Hup, Hnp|by rewrite Hup, Hnp, Hlv|].
  rewrite Hup, Hnp in Hpost. unfold unmapped_post in Hpost. cbv zeta in Hpost.
  rewrite Hlv in Hpost. destruct Hpost as (Hinv' & Hp' & Hs' & Hv' & Hc').
  exists k'. split; [done|]. split_and!; [| | | | |by auto].
  - rewrite Hl. by rewrite (reverse_Permutation us).
  - done.
  - by rewrite Hp', Hp1.
  - eapply same_outside_trans; [done|]. eapply same_outside_mono; [|done].
    intros q. rewrite Hp1, Hl, !elem_of_app. tauto.
  - intros va' Hva' Hal'. rewrite Hv', Hv1 by done.
    case_decide; [|done]. symmetry. by apply Hzero.
Qed.

Lemma grown_snoc us k1 used l1 p k3 k4 used4 l4 :
  base + (1 + length us) * PGSIZE ≤ MAXVA →
  grown k l root base perm bytes us k1 used (p :: l1) →
  node_inv kend k3 l1 2 root → page_holds (km_mem k3) p (bytes (length us)) →
  pt_pages (km_mem k3) 2 root = pt_pages (km_mem k1) 2 root →
  same_outside [p] (km_mem k1) (km_mem k3) →
  (∀ va, pteval (km_mem k3) 2 root va = pteval (km_mem k1) 2 root va) →
  (clean (km_mem k1) 2 root → clean (km_mem k3) 2 root) →
  mapped_prefix kend k3 l1 root (base + length us * PGSIZE) p (perm (length us)) 1 k4 used4 l4 →
  grown k l root base perm bytes (us ++ [p]) k4 (used4 ++ used) l4.
Proof.
  intros Hmax Hg Hinv3 Hz3 Hp3 Hs3 Hv3 Hc3 Hmp.
  destruct (grown_step us k1 used l1 p k3 k4 used4 l4 1) as (Hs & Hp & _ & Hz & Hc);
    [done|lia|done..|].
  destruct Hg as (Hl & _ & _ & _ & Hv1 & _). destruct Hmp as (Hl1 & Hinv4 & _ & _ & Hv4 & _).
  split_and!; try done.
  - rewrite Hl, Hl1. solve_Permutation.
  - intros va' Hva' Hal'. rewrite Hv4, Hv3, Hv1 by done. rewrite length_app. simpl.
    unfold page_aligned, PGSIZE in *.
    pose proof (Z.div_mod va' 4096). pose proof (Z.div_mod base 4096).
    set (x := va' `div` 4096) in *. set (y := base `div` 4096) in *.
    replace (va' - base) with ((x - y) * 4096) by lia. rewrite Z.div_mul by lia.
    repeat case_decide; try lia.
    + rewrite lookup_total_app_r by lia.
      replace (Z.to_nat (x - y) - length us)%nat with 0%nat by lia. simpl. f_equal; [lia|f_equal; lia].
    + by rewrite lookup_total_app_l by lia.
Qed.

(** When [mappages] finds no memory for a node, the page goes back first. *)
Lemma grown_fail us k1 used l1 p k3 k4 used4 :
  base + (1 + length us) * PGSIZE ≤ MAXVA →
  grown k l root base perm bytes us k1 used (p :: l1) →
  node_inv kend k3 l1 2 root → page_holds (km_mem k3) p (bytes (length us)) →
  pt_pages (km_mem k3) 2 root = pt_pages (km_mem k1) 2 root →
  same_outside [p] (km_mem k1) (km_mem k3) →
  (∀ va, pteval (km_mem k3) 2 root va = pteval (km_mem k1) 2 root va) →
  (clean (km_mem k1) 2 root → clean (km_mem k3) 2 root) →
  mapped_prefix kend k3 l1 root (base + length us * PGSIZE) p (perm (length us)) 0 k4 used4 [] →
  ∃ k5, kfree kend p k4 = Done tt k5 ∧ grown k l root base perm bytes us k5 (used4 ++ used) [p].
Proof.
  intros Hmax Hg Hinv3 Hz3 Hp3 Hs3 Hv3 Hc3 Hmp.
  destruct (grown_step us k1 used l1 p k3 k4 used4 [] 0) as (Hs & Hp & Hout & Hz & Hc);
    [done|lia|done..|].
  destruct Hg as (Hl & Hinv1 & _ & _ & Hv1 & _). destruct Hmp as (Hl1 & Hinv4 & _ & _ & Hv4 & _).
  destruct Hinv1 as (Hk1 & _). pose proof (free_pages_ok _ _ _ Hk1) as [Hpok _]%Forall_cons.
  destruct (kfree_ok kend kend_pos k4 p []) as (k5 & Hrun & Hk5 & Hs5 & _); [apply Hinv4|done| |].
  { apply not_elem_of_nil. }
  assert (Forall page_aligned [p]) as Halp by (rewrite Forall_singleton; apply Hpok).
  destruct (node_inv_frame k4 [] 2 root k5 [p] [p]) as (Hinv5 & Hp5 & _ & Hv5 & Hc5); [done..| | |].
  { intros q Hq ->%list_elem_of_singleton. done. }
  { intros q ->%list_elem_of_singleton. done. }
  exists k5. split; [done|]. split_and!; [| | | | | |by auto].
  - rewrite Hl, Hl1. solve_Permutation.
  - done.
  - by rewrite Hp5.
  - eapply same_outside_trans; [done|]. eapply same_outside_mono; [|done].
    intros q ->%list_elem_of_singleton. rewrite Hl, !elem_of_app.
    left. right. right. apply list_elem_of_here.
  - intros va' Hva' Hal'. rewrite Hv5, Hv4, Hv3 by done. rewrite decide_False by lia.
    by apply Hv1.
  - intros i q Hi. assert (q ∈ us) as Hq by by eapply list_elem_of_lookup_2. destruct Hinv as (Hk & _).
    pose proof (free_pages_ok _ _ _ Hk) as Hlok.
    rewrite Hl, !Forall_app in Hlok. destruct Hlok as (_ & Husok & _).
    rewrite Forall_forall in Husok.
    eapply page_holds_frame; [apply Hz; by apply lookup_app_l_Some|done|by apply Husok|done|].
    intros ->%list_elem_of_singleton.
    assert (NoDup (used ++ us ++ p :: l1)) as Hnd by (rewrite <-Hl; apply Hk).
    apply NoDup_app in Hnd as (_ & _ & (_ & Hd & _)%NoDup_app).
    apply (Hd p Hq), list_elem_of_here.
Qed.

End grow.

Section alloc.
Context (k : kmem) (l : list Z) (root base perm : Z).
Hypothesis Hinv : node_inv kend k l 2 root.
Hypothesis Hbase : 0 ≤ base.
Hypothesis Halb : page_aligned base.
Hypothesis Hperm : leaf_perm perm.

Definition alloc_body (newsz : Z) : Z → M kmem (Z + Z) :=
  λ a,
    if a <? newsz then
      let* m := kalloc in
      if m =? 0 then
        uvmdealloc kend root a base ;;; ret (inr 0)
      else
        memset_k m 0 PGSIZE ;;;
        let* r := mappages root a PGSIZE m perm in
        if negb (r =? 0) then
          kfree kend m ;;;
          uvmdealloc kend root a base ;;;
          ret (inr 0)
        else ret (inl (u64 (a + PGSIZE)))
    else ret (inr newsz).

(** The two outcomes of allocating [n] pages: all of them are mapped, or none
    is and no more than [n] pages are left. *)
Definition alloc_result (newsz : Z) (n : nat) (r : outcome kmem Z) : Prop :=
  (∃ us k' used l', r = Done newsz k' ∧ length us = n ∧
     grown k l root base (λ _, perm) (λ _ _, 0) us k' used l') ∨
  (∃ k' used l', r = Done 0 k' ∧ unchanged k l root k' used l' ∧ (length l' ≤ n)%nat).

Lemma alloc_step us k1 used l1 newsz :
  grown k l root base (λ _, perm) (λ _ _, 0) us k1 used l1 →
  newsz ≤ MAXVA → base + length us * PGSIZE < newsz →
  base + (1 + length us) * PGSIZE ≤ MAXVA →
  (∀ va', base ≤ va' < base + (1 + length us) * PGSIZE → page_aligned va' →
     pteval (km_mem k) 2 root va' = 0) →
  (∃ p k' used' l', alloc_body newsz (base + length us * PGSIZE) k1
       = Done (inl (base + (1 + length us) * PGSIZE)) k' ∧
     grown k l root base (λ _, perm) (λ _ _, 0) (us ++ [p]) k' used' l') ∨
  (∃ k' used' l', alloc_body newsz (base + length us * PGSIZE) k1 = Done (inr 0) k' ∧
     unchanged k l root k' used' l' ∧ (length l' ≤ 1 + length us)%nat).
Proof.
  intros Hg Hnew Hlt Hmax Hzero. unfold alloc_body.
  rewrite (proj2 (Z.ltb_lt _ _) Hlt). pose proof Hg as (Hl & Hinv1 & _).
  destruct l1 as [|p l1].
  - right. destruct (grown_undo k l root base (λ _, perm) (λ _ _, 0) Hinv Hbase Halb (λ _ _ _, Hperm) us k1 used [] Hg) as (k' & Hrun & Hun).
    { unfold PGSIZE in *; lia. } { intros. apply Hzero; [unfold PGSIZE in *; lia|done]. }
    exists k', used, (reverse us ++ []). split; [|split; [done|]].
    + unfold bind. rewrite (kalloc_nil kend) by apply Hinv1. cbv beta iota. rewrite Z.eqb_refl.
      by rewrite Hrun.
    + rewrite length_app, length_reverse. simpl. lia.
  - destruct (fresh_page root (λ m, memset m p 0 PGSIZE) k1 p l1 Hinv1) as (k2 & Hka & _ & Hinv3 & Hp3 & Hs3 & Hv3 & Hc3).
    { intros m. apply memset_same_outside. }
    set (k3 := upd_mem (λ m, memset m p 0 PGSIZE) k2) in *.
    assert (memset_k p 0 PGSIZE k2 = Done tt k3) as Hms by done.
    assert (page_holds (km_mem k3) p (λ _, 0)) as Hz3.
    { intros o Ho. cbn. rewrite load8_memset by done. by rewrite decide_True by lia. }
    clearbody k3. pose proof (proj1 Hperm) as Hperm1. pose proof (free_pages_ok _ _ _ (proj1 Hinv1)) as [Hpok _]%Forall_cons.
    destruct (page_ok_bounds kend kend_pos p Hpok) as [Hpb _].
    destruct (mappages_ok kend kend_pos k3 l1 root (base + length us * PGSIZE) 1 p perm)
      as (r & j & k4 & used4 & l4 & Hmap & Hmp & Hres); try done.
    { unfold PGSIZE in *; lia. } { unfold PGSIZE in *; lia. }
    { by apply page_aligned_add. } { lia. }
    { unfold PGSIZE. destruct Hpok as [_ Hr]. unfold PHYSTOP, KERNBASE in Hr. lia. }
    { intros va' Hva' Hal'. rewrite Hv3. destruct Hg as (_ & _ & _ & _ & Hv & _).
      unfold PGSIZE in *. rewrite Hv by (done || lia). rewrite decide_False by lia.
      by rewrite Hzero by (done || lia). }
    unfold bind. rewrite Hka. cbv beta iota. rewrite (proj2 (Z.eqb_neq p 0)) by lia.
    rewrite Hms. cbv beta iota. rewrite Z.mul_1_l in Hmap. rewrite Hmap.
    destruct Hres as [[-> ->]|(-> & Hj & ->)]; cbv beta iota; cbn [Z.eqb negb].
    + left. exists p, k4, (used4 ++ used), l4. split; [|by eapply (grown_snoc k l root base (λ _, perm) (λ _ _, 0))].
      unfold ret. do 2 f_equal. unfold u64. change MAXVA with (2^38) in Hmax.
      rewrite Z.mod_small; unfold PGSIZE in *; lia.
    + right. assert (j = 0) as -> by lia.
      destruct (grown_fail k l root base (λ _, perm) (λ _ _, 0) Hinv us k1 used l1 p k3 k4 used4) as (k5 & Hkf & Hg5); [done..|].
      rewrite Hkf.
      destruct (grown_undo k l root base (λ _, perm) (λ _ _, 0) Hinv Hbase Halb (λ _ _ _, Hperm) us k5 (used4 ++ used) [p] Hg5) as (k' & Hrun & Hun).
      { unfold PGSIZE in *; lia. } { intros. apply Hzero; [unfold PGSIZE in *; lia|done]. }
      rewrite Hrun. exists k', (used4 ++ used), (reverse us ++ [p]). split_and!; [done..|].
      rewrite length_app, length_reverse. simpl. lia.
Qed.

Lemma alloc_loop newsz (n : nat) : ∀ fuel us k1 used l1,
  newsz ≤ MAXVA → PGROUNDUP newsz = base + (length us + n)%nat * PGSIZE →
  base ≤ PGROUNDUP newsz → 0 ≤ newsz →
  (∀ va', base ≤ va' < PGROUNDUP newsz → page_aligned va' →
     pteval (km_mem k) 2 root va' = 0) →
  grown k l root base (λ _, perm) (λ _ _, 0) us k1 used l1 → (n < fuel)%nat →
  alloc_result newsz (length us + n)
    (loop fuel (alloc_body newsz) (base + length us * PGSIZE) k1).
Proof.
  induction n as [|n IH]; intros fuel us k1 used l1 Hmax Hup Hle H0 Hzero Hg Hf;
    destruct fuel as [|fuel]; try lia; simpl;
    destruct (PGROUNDUP_bounds newsz) as (Hb & _ & Hm); [lia| |lia|].
  - left. exists us, k1, used, l1. split_and!; [|lia|done].
    unfold bind, alloc_body. rewrite (proj2 (Z.ltb_ge _ _)); [done|].
    rewrite Nat.add_0_r in Hup. lia.
  - destruct (alloc_step us k1 used l1 newsz) as
      [(p & k' & used' & l' & Hrun & Hg')|(k' & used' & l' & Hrun & Hun & Hlen)]; try done.
    { unfold PGSIZE in *; lia. } { unfold PGSIZE in *; lia. }
    { intros. apply Hzero; [unfold PGSIZE in *; lia|done]. }
    + unfold bind. rewrite Hrun. cbv beta iota.
      replace (1 + length us) with (length (us ++ [p]) : Z) by (rewrite length_app; simpl; lia).
      replace (length us + S n)%nat with (length (us ++ [p]) + n)%nat in *
        by (rewrite length_app; simpl; lia).
      eapply IH; try done. lia.
    + right. exists k', used', l'. unfold bind. rewrite Hrun. split_and!; [done..|lia].
Qed.
End alloc.

Definition user_perm (xperm : Z) : Z := Z.lor (Z.lor PTE_R PTE_U) xperm.

Lemma user_perm_ok xperm :
  0 ≤ xperm < 1024 → leaf_perm (user_perm xperm).
Proof.
  intros H. unfold user_perm. split.
  - change 1024 with (2^10). apply lor_bound; [lia|by unfold PTE_R, PTE_U|done].
  - intros E. assert (Z.testbit (Z.lor (Z.lor (Z.lor PTE_R PTE_U) xperm) PTE_V) 1 = true) as Hb by (by rewrite !Z.lor_spec).
    by rewrite E in Hb.
Qed.

Lemma uvmalloc_ok k l root oldsz newsz xperm :
  node_inv kend k l 2 root → 0 ≤ oldsz → oldsz ≤ newsz → newsz ≤ MAXVA → 0 ≤ xperm < 1024 →
  (∀ va', PGROUNDUP oldsz ≤ va' < PGROUNDUP newsz → page_aligned va' →
     pteval (km_mem k) 2 root va' = 0) →
  alloc_result k l root (PGROUNDUP oldsz) (user_perm xperm) newsz
    (Z.to_nat (npages oldsz newsz)) (uvmalloc kend root oldsz newsz xperm k).
Proof.
  intros Hinv H0 Hle Hmax Hx Hzero. unfold uvmalloc. cbv zeta.
  rewrite (proj2 (Z.ltb_ge _ _) Hle).
  pose proof (user_perm_ok xperm Hx) as Hp.
  destruct (npages_spec oldsz newsz) as (Hn & _ & Hup); [done..|].
  destruct (PGROUNDUP_bounds oldsz) as (Hb & Hal & _); [lia|].
  destruct (PGROUNDUP_bounds newsz) as (Hb' & Hal' & _); [lia|].
  set (base := PGROUNDUP oldsz) in *.
  pose proof (alloc_loop k l root base (user_perm xperm) Hinv ltac:(lia) Hal Hp newsz
    (Z.to_nat (npages oldsz newsz))
    (S (S (Z.to_nat ((newsz - base) `div` PGSIZE)))) [] k [] l) as Hloop.
  simpl length in Hloop. rewrite Z.mul_0_l, Z.add_0_r in Hloop.
  apply Hloop; [done| | |lia|done|by apply grown_nil|].
  - by rewrite Hup, Nat.add_0_l, Z2Nat.id.
  - unfold PGSIZE in *; lia.
  - unfold PGSIZE in *. pose proof (Z.div_mod (newsz - base) 4096).
    pose proof (Z.mod_pos_bound (newsz - base) 4096). lia.
Qed.
End user.
