(* ===== verification/VmCopy.v ===== *)
(** * Copies between kernel and user memory, kernel/vm.c

    [copyout], [copyin] and [copyinstr] work a page at a time on physical
    addresses. They are compared here with the accesses a user program would
    make: one byte at a time, every byte translated on its own. *)

From S2P Require Import Prelude Riscv Mem Kalloc Vm VmTree VmSpec VmUser.

(** Memories that no load can tell apart. *)
Definition mem_eq (m m' : mem) : Prop := ∀ x, load8 m x = load8 m' x.
Infix "≡ₘ" := mem_eq (at level 70) : xv6_scope.

#[global] Instance mem_eq_equivalence : Equivalence mem_eq.
Proof. split; [done|by intros m m' H x|by intros m1 m2 m3 H1 H2 x; rewrite H1]. Qed.

#[global] Instance store8_proper : Proper (mem_eq ==> eq ==> eq ==> mem_eq) store8.
Proof. intros m m' H a ? <- v ? <- x. rewrite !load8_store8. by rewrite H. Qed.

#[global] Instance load8_proper : Proper (mem_eq ==> eq ==> eq) load8.
Proof. intros m m' H a ? <-. apply H. Qed.

(** ** Accesses through a page table *)

(** The physical page of an aligned user address, for reading or writing. *)
Definition user_page (w : bool) (m : mem) (root va0 : Z) : option Z :=
  let v := pteval m 2 root va0 in
  if (va0 <? MAXVA) && has v PTE_V && has v PTE_U && (negb w || has v PTE_W)
  then Some (PTE2PA v) else None.

Definition user_addr (w : bool) (m : mem) (root va : Z) : option Z :=
  (λ pa, pa + va `mod` PGSIZE) <$> user_page w m root (PGROUNDDOWN va).

Definition user_load (m : mem) (root va : Z) : option Z :=
  load8 m <$> user_addr false m root va.
Definition user_store (m : mem) (root va b : Z) : option mem :=
  (λ a, store8 m a b) <$> user_addr true m root va.

(** Byte by byte from kernel address [src] to user address [va], up to the
    first fault; and the other way round. *)
Fixpoint copyout_bytes (m : mem) (root va src : Z) (n : nat) : Z * mem :=
  match n with
  | O => (0, m)
  | S n =>
      match user_store m root va (load8 m src) with
      | None => (-1, m)
      | Some m => copyout_bytes m root (va + 1) (src + 1) n
      end
  end.

Fixpoint copyin_bytes (m : mem) (root dst va : Z) (n : nat) : Z * mem :=
  match n with
  | O => (0, m)
  | S n =>
      match user_load m root va with
      | None => (-1, m)
      | Some b => copyin_bytes (store8 m dst b) root (dst + 1) (va + 1) n
      end
  end.

Fixpoint copyinstr_bytes (m : mem) (root dst va : Z) (max : nat) : Z * mem :=
  match max with
  | O => (-1, m)
  | S max =>
      match user_load m root va with
      | None => (-1, m)
      | Some b =>
          if b =? 0 then (0, store8 m dst 0)
          else copyinstr_bytes (store8 m dst b) root (dst + 1) (va + 1) max
      end
  end.

(** No two user addresses share a physical byte. *)
Definition user_inj (m : mem) (root : Z) : Prop :=
  ∀ va1 va2 a, 0 ≤ va1 < 2^64 → 0 ≤ va2 < 2^64 →
    user_addr false m root va1 = Some a → user_addr false m root va2 = Some a → va1 = va2.

Definition same_result (r r' : Z * mem) : Prop := r.1 = r'.1 ∧ r.2 ≡ₘ r'.2.

#[global] Instance same_result_equivalence : Equivalence same_result.
Proof.
  split; [done|by intros ?? []|].
  intros ??? [H1 H2] [H3 H4]. split; [congruence|]. by etrans.
Qed.

Lemma mem_eq_table m m' root :
  m ≡ₘ m' → pt_pages m' 2 root = pt_pages m 2 root ∧
  (∀ va, pteval m' 2 root va = pteval m 2 root va).
Proof.
  intros H. destruct (tree_agree m m' 2 root) as (? & _ & ?); [|done].
  intros. by rewrite (H x).
Qed.

#[global] Instance user_page_proper w : Proper (mem_eq ==> eq ==> eq ==> eq) (user_page w).
Proof.
  intros m m' H root ? <- va ? <-. unfold user_page.
  destruct (mem_eq_table m m' root H) as [_ ->]. done.
Qed.

#[global] Instance user_addr_proper w : Proper (mem_eq ==> eq ==> eq ==> eq) (user_addr w).
Proof. intros m m' H root ? <- va ? <-. unfold user_addr. by rewrite H. Qed.

Lemma copyout_bytes_proper m m' root va src n :
  m ≡ₘ m' → same_result (copyout_bytes m root va src n) (copyout_bytes m' root va src n).
Proof.
  revert m m' va src. induction n as [|n IH]; intros m m' va src H; simpl; [done|].
  unfold user_store. assert (user_addr true m root va = user_addr true m' root va) as -> by (by rewrite H).
  destruct (user_addr true m' root va); simpl; [|done].
  apply IH. by rewrite H.
Qed.

Lemma copyin_bytes_proper m m' root dst va n :
  m ≡ₘ m' → same_result (copyin_bytes m root dst va n) (copyin_bytes m' root dst va n).
Proof.
  revert m m' dst va. induction n as [|n IH]; intros m m' dst va H; simpl; [done|].
  unfold user_load. assert (user_addr false m root va = user_addr false m' root va) as -> by (by rewrite H).
  destruct (user_addr false m' root va); simpl; [|done].
  apply IH. by rewrite H.
Qed.

Section copy.
Variable kend : Z.
Hypothesis kend_pos : 0 < kend.

(** A well-formed table whose user pages are no table pages, and a kernel
    buffer [lo, hi) that lies in neither. *)
Definition user_ok (m : mem) (root lo hi : Z) : Prop :=
  tree_ok kend m 2 root ∧
  (∀ va pa, user_page false m root va = Some pa →
     0 < pa ∧ (pa ∉ pt_pages m 2 root) ∧ ∀ x, in_page pa x → ¬ lo ≤ x < hi) ∧
  (∀ q x, q ∈ pt_pages m 2 root → in_page q x → ¬ lo ≤ x < hi).

Lemma user_ok_sub m root lo hi lo' hi' : user_ok m root lo hi → lo ≤ lo' → hi' ≤ hi → user_ok m root lo' hi'.
Proof.
  intros (H1 & H2 & H3) Hl Hh. split; [done|]. split.
  - intros va pa Hpa. destruct (H2 va pa Hpa) as (? & ? & Hd). split_and!; [done..|]. intros x Hx Hr. apply (Hd x Hx). lia.
  - intros q x Hq Hx Hr. apply (H3 q x Hq Hx). lia.
Qed.

Lemma user_ok_agree m m' root lo hi :
  user_ok m root lo hi →
  (∀ q x, q ∈ pt_pages m 2 root → in_page q x → load8 m' x = load8 m x) →
  user_ok m' root lo hi ∧ (∀ w va, user_page w m' root va = user_page w m root va) ∧
  pt_pages m' 2 root = pt_pages m 2 root.
Proof.
  intros (Hok & Hu & Hb) Ha. destruct (tree_agree m m' 2 root Ha) as (Hp & _ & Hv).
  assert (∀ w va, user_page w m' root va = user_page w m root va) as Hup.
  { intros w va. unfold user_page. by rewrite Hv. }
  split; [|done]. unfold user_ok, tree_ok. rewrite Hp. split; [done|]. split; [|done].
  intros va pa. rewrite Hup. apply Hu.
Qed.

Lemma PTE2PA_aligned v : page_aligned (PTE2PA v).
Proof.
  unfold page_aligned, PTE2PA, PGSIZE, u64. rewrite Z.shiftl_mul_pow2 by lia.
  rewrite Z.mod_mod_divide; [by apply Z_mod_mult|]. exists (2^52). lia.
Qed.

Lemma user_page_weaken w m root va pa :
  user_page w m root va = Some pa → user_page false m root va = Some pa.
Proof.
  unfold user_page. destruct w; [|done].
  destruct (va <? MAXVA), (has _ PTE_V), (has _ PTE_U); simpl; try done. by case_match.
Qed.

Lemma user_page_aligned w m root va pa : user_page w m root va = Some pa → page_aligned pa.
Proof. unfold user_page. case_match; intros; simplify_eq. apply PTE2PA_aligned. Qed.

Lemma user_page_max w m root va pa : user_page w m root va = Some pa → va < 2^38.
Proof.
  unfold user_page. destruct (Z.ltb_spec va MAXVA) as [H|]; [|done]. done.
Qed.

(** A chunk of the buffer and a chunk of a user page do not overlap. *)
Lemma chunk_disjoint w m root lo hi va pa b o n :
  user_ok m root lo hi → user_page w m root va = Some pa →
  lo ≤ b → b + n ≤ hi → 0 ≤ o → 0 ≤ n → o + n ≤ PGSIZE →
  pa + o + n ≤ b ∨ b + n ≤ pa + o.
Proof.
  intros (_ & Hu & _) Hpa Hlo Hhi Ho Hn Hpg.
  destruct (Hu va pa) as (_ & _ & Hd); [by eapply user_page_weaken|].
  destruct (decide (pa + o + n ≤ b)); [by left|right].
  destruct (decide (b + n ≤ pa + o)); [done|exfalso].
  apply (Hd (Z.max b (pa + o))); [unfold in_page|]; lia.
Qed.

(** Stores to a user page and stores to the kernel buffer spare the table. *)
Lemma user_ok_store w m m' root lo hi va pa :
  user_ok m root lo hi → user_page w m root va = Some pa → same_outside [pa] m m' →
  user_ok m' root lo hi ∧ (∀ w va, user_page w m' root va = user_page w m root va) ∧
  pt_pages m' 2 root = pt_pages m 2 root.
Proof.
  intros Hok Hpa Hs. apply user_ok_agree; [done|]. intros q x Hq Hx. apply Hs.
  intros p ->%list_elem_of_singleton Hx'. destruct Hok as ([_ Hal] & Hu & _).
  destruct (Hu va pa) as (_ & Hn & _); [by eapply user_page_weaken|].
  apply Hn. rewrite Forall_forall in Hal.
  rewrite <-(pages_disjoint q pa x); [done|by apply Hal|by eapply user_page_aligned|done..].
Qed.

Lemma user_ok_buffer m m' root lo hi :
  user_ok m root lo hi → (∀ x, ¬ lo ≤ x < hi → load8 m' x = load8 m x) →
  user_ok m' root lo hi ∧ (∀ w va, user_page w m' root va = user_page w m root va) ∧
  pt_pages m' 2 root = pt_pages m 2 root.
Proof.
  intros Hok Hs. apply user_ok_agree; [done|]. intros q x Hq Hx. apply Hs.
  destruct Hok as (_ & _ & Hb). by eapply Hb.
Qed.

Lemma walkaddr_ok k root va :
  tree_ok kend (km_mem k) 2 root → 0 ≤ va →
  walkaddr root va k = Done (default 0 (user_page false (km_mem k) root va)) k.
Proof.
  intros Hok Hva. unfold walkaddr, user_page.
  destruct (Z.leb_spec MAXVA va); destruct (Z.ltb_spec va MAXVA); try lia; [done|].
  unfold bind. rewrite walk_read by done. unfold pteval.
  destruct (leaf_addr (km_mem k) 2 root va) as [a|] eqn:Ha; [|done].
  cbn [default]. pose proof (leaf_addr_pos kend kend_pos _ _ _ _ _ Hok Ha).
  rewrite (proj2 (Z.eqb_neq _ _)) by (simpl; lia). simpl.
  unfold ld64, gets. destruct (has _ PTE_V), (has _ PTE_U); done.
Qed.

(** The page of a byte, and the part of an access that lies in it. *)
Lemma page_split va :
  0 ≤ va < 2^64 →
  PGROUNDDOWN va = va - va `mod` PGSIZE ∧ 0 ≤ va `mod` PGSIZE < PGSIZE ∧
  va `mod` PGSIZE ≤ va ∧
  (∀ i, 0 ≤ i → va `mod` PGSIZE + i < PGSIZE → va + i < 2^64 →
     PGROUNDDOWN (va + i) = PGROUNDDOWN va ∧ (va + i) `mod` PGSIZE = va `mod` PGSIZE + i).
Proof.
  intros Hva. unfold PGSIZE. pose proof (Z.mod_pos_bound va 4096).
  split; [by apply PGROUNDDOWN_spec|]. split; [lia|].
  split; [apply Z.mod_le; lia|]. intros i Hi Hlt Hm.
  assert ((va + i) `mod` 4096 = va `mod` 4096 + i) as Heq.
  { symmetry. apply (Zmod_unique _ _ (va `div` 4096)); [lia|].
    pose proof (Z.div_mod va 4096). lia. }
  rewrite !PGROUNDDOWN_spec, Heq by lia. split; lia.
Qed.

(** [n] bytes that lie in one page, all at once. *)
Lemma copyout_bytes_page m root lo hi va src (n r : nat) pa :
  user_ok m root lo hi → lo ≤ src → src + n ≤ hi →
  0 ≤ va → va + n ≤ 2^64 → va `mod` PGSIZE + n ≤ PGSIZE →
  user_page true m root (PGROUNDDOWN va) = Some pa →
  copyout_bytes m root va src (n + r) =
    copyout_bytes (memmove_up m (pa + va `mod` PGSIZE) src n) root (va + n) (src + n) r.
Proof.
  revert m va src. induction n as [|n IH]; intros m va src Hok Hlo Hhi Hva Hmax Hpg Hpa.
  { simpl. by rewrite !Z.add_0_r. }
  cbn [Nat.add copyout_bytes memmove_up]. unfold user_store, user_addr. rewrite Hpa. simpl.
  destruct (page_split va) as (Hpd & Hb & _ & Hnext); [lia|].
  set (m1 := store8 m (pa + va `mod` PGSIZE) (load8 m src)).
  assert (same_outside [pa] m m1) as Hs.
  { intros x Hx. unfold m1. rewrite load8_store8. case_decide; [|done].
    exfalso. apply (Hx pa); [apply list_elem_of_here|]. unfold in_page. lia. }
  destruct (user_ok_store true m m1 root lo hi (PGROUNDDOWN va) pa) as (Hok1 & Hup & _); [done..|].
  destruct n as [|n'].
  { simpl. done. }
  destruct (Hnext 1) as [Hn1 Hn2]; [lia..|].
  rewrite (IH m1 (va + 1) (src + 1)); [|done|lia..| |].
  - rewrite Hn2. f_equal; [f_equal; lia|lia..].
  - rewrite Hn2. lia.
  - by rewrite Hn1, Hup.
Qed.

Lemma memmove_up_eq m d s (n : nat) :
  d + n ≤ s ∨ s + n ≤ d → memmove m d s n ≡ₘ memmove_up m d s n.
Proof. intros H x. rewrite load8_memmove by lia. by rewrite memmove_up_spec by lia. Qed.

Definition copyout_body (pagetable : Z) : Z * Z * Z → M kmem (Z * Z * Z + Z) :=
  λ '(dstva, src, len),
    if 0 <? len then
      let va0 := PGROUNDDOWN dstva in
      if MAXVA <=? va0 then ret (inr (-1))
      else
        let* pte := walk pagetable va0 false in
        let* v := (if pte =? 0 then ret 0 else ld64 pte) in
        if (pte =? 0) || negb (has v PTE_V) || negb (has v PTE_U) || negb (has v PTE_W)
        then ret (inr (-1))
        else
          let pa0 := PTE2PA v in
          let n := PGSIZE - (dstva - va0) in
          let n := if len <? n then len else n in
          memmove_k (pa0 + (dstva - va0)) src n ;;;
          ret (inl (u64 (va0 + PGSIZE), src + n, len - n))
    else ret (inr 0).

Lemma copyout_body_step k root va src len :
  tree_ok kend (km_mem k) 2 root → 0 ≤ va < 2^64 → 0 < len →
  copyout_body root (va, src, len) k =
    match user_page true (km_mem k) root (PGROUNDDOWN va) with
    | None => Done (inr (-1)) k
    | Some pa =>
        let n := Z.min len (PGSIZE - va `mod` PGSIZE) in
        Done (inl (u64 (PGROUNDDOWN va + PGSIZE), src + n, len - n))
          (upd_mem (λ m, memmove m (pa + va `mod` PGSIZE) src n) k)
    end.
Proof.
  intros Hok Hva Hlen. destruct (page_split va Hva) as (Hpd & Hb & Hle & _).
  unfold copyout_body, user_page. rewrite (proj2 (Z.ltb_lt 0 len)) by done. cbv zeta.
  destruct (Z.leb_spec MAXVA (PGROUNDDOWN va)); destruct (Z.ltb_spec (PGROUNDDOWN va) MAXVA);
    try lia; [done|].
  unfold bind. rewrite walk_read by lia. unfold pteval.
  destruct (leaf_addr (km_mem k) 2 root (PGROUNDDOWN va)) as [a|] eqn:Ha; [|done].
  cbn [default]. pose proof (leaf_addr_pos kend kend_pos _ _ _ _ _ Hok Ha).
  assert ((a =? 0) = false) as Ha0 by lia. simpl. rewrite Ha0.
  unfold ld64, gets. cbv beta iota. simpl.
  destruct (has _ PTE_V), (has _ PTE_U), (has _ PTE_W); simpl; try done.
  replace (va - PGROUNDDOWN va) with (va `mod` PGSIZE) by lia.
  assert ((if len <? PGSIZE - va `mod` PGSIZE then len else PGSIZE - va `mod` PGSIZE)
          = Z.min len (PGSIZE - va `mod` PGSIZE)) as -> by (case_match; lia).
  done.
Qed.

Definition agrees (o : outcome kmem Z) (k : kmem) (ref : Z * mem) : Prop :=
  ∃ k', o = Done ref.1 k' ∧ freelist k' = freelist k ∧ km_mem k' ≡ₘ ref.2.

Lemma copyout_loop lo hi root : ∀ fuel k va src len,
  user_ok (km_mem k) root lo hi → lo ≤ src → src + len ≤ hi → 0 ≤ va < 2^64 → 0 ≤ len →
  (Z.to_nat len < fuel)%nat →
  agrees (loop fuel (copyout_body root) (va, src, len) k) k
    (copyout_bytes (km_mem k) root va src (Z.to_nat len)).
Proof.
  induction fuel as [|fuel IH]; intros k va src len Hok Hlo Hhi Hva Hlen Hf; [lia|].
  cbn [loop]. unfold bind. destruct (decide (len = 0)) as [->|Hne].
  { exists k. done. }
  rewrite copyout_body_step by (done || lia || apply Hok).
  destruct (page_split va Hva) as (Hpd & Hb & Hle & _).
  destruct (user_page true (km_mem k) root (PGROUNDDOWN va)) as [pa|] eqn:Hpa.
  2: { exists k. destruct (Z.to_nat len) eqn:E; [lia|]. cbn [copyout_bytes].
       unfold user_store, user_addr. by rewrite Hpa. }
  pose proof (user_page_max _ _ _ _ _ Hpa) as Hmax. assert (PGSIZE = 4096) as Hpgs by done.
  set (n := Z.min len (PGSIZE - va `mod` PGSIZE)). cbv zeta beta iota.
  set (k1 := upd_mem _ k).
  destruct (user_ok_store true (km_mem k) (km_mem k1) root lo hi (PGROUNDDOWN va) pa)
    as (Hok1 & _ & _); [done|done| |].
  { intros x Hx. simpl. rewrite load8_memmove by lia. case_decide as Hd; [|done].
    exfalso. apply (Hx pa); [apply list_elem_of_here|]. unfold in_page. lia. }
  destruct (IH k1 (u64 (PGROUNDDOWN va + PGSIZE)) (src + n) (len - n)) as (k' & Hrun & Hfl & Hm);
    [done|lia|lia|apply Z.mod_pos_bound; lia|lia|lia|].
  assert (same_result (copyout_bytes (km_mem k) root va src (Z.to_nat len))
    (copyout_bytes (km_mem k1) root (u64 (PGROUNDDOWN va + PGSIZE)) (src + n)
      (Z.to_nat (len - n)))) as [Hr Hm'].
  { replace (Z.to_nat len) with (Z.to_nat n + Z.to_nat (len - n))%nat by lia.
    rewrite (copyout_bytes_page _ _ lo hi _ _ _ _ pa); [|done|lia|lia|lia|lia|lia|done].
    rewrite Z2Nat.id by lia.
    trans (copyout_bytes (km_mem k1) root (va + n) (src + n) (Z.to_nat (len - n))).
    - apply copyout_bytes_proper. simpl. rewrite <-(Z2Nat.id n) at 2 by lia. symmetry.
      apply memmove_up_eq. rewrite Z2Nat.id by lia.
      apply (chunk_disjoint true _ _ lo hi _ pa src (va `mod` PGSIZE) n Hok Hpa); lia.
    - destruct (decide (len - n = 0)) as [->|]; [done|].
      assert (u64 (PGROUNDDOWN va + PGSIZE) = va + n) as -> by
        (unfold u64; rewrite Z.mod_small; lia). done. }
  exists k'. rewrite Hr. split; [done|]. split; [by rewrite Hfl|]. by rewrite Hm, Hm'.
Qed.

(** ** copyin *)

Lemma copyin_bytes_page m root lo hi dst va (n r : nat) pa :
  user_ok m root lo hi → lo ≤ dst → dst + n ≤ hi →
  0 ≤ va → va + n ≤ 2^64 → va `mod` PGSIZE + n ≤ PGSIZE →
  user_page false m root (PGROUNDDOWN va) = Some pa →
  copyin_bytes m root dst va (n + r) =
    copyin_bytes (memmove_up m dst (pa + va `mod` PGSIZE) n) root (dst + n) (va + n) r.
Proof.
  revert m va dst. induction n as [|n IH]; intros m va dst Hok Hlo Hhi Hva Hmax Hpg Hpa.
  { simpl. by rewrite !Z.add_0_r. }
  cbn [Nat.add copyin_bytes memmove_up]. unfold user_load, user_addr. rewrite Hpa. simpl.
  destruct (page_split va) as (Hpd & Hb & _ & Hnext); [lia|].
  set (m1 := store8 m dst (load8 m (pa + va `mod` PGSIZE))).
  destruct (user_ok_buffer m m1 root lo hi) as (Hok1 & Hup & _); [done| |].
  { intros x Hx. unfold m1. rewrite load8_store8. by case_decide; [lia|]. }
  destruct n as [|n']; [done|].
  destruct (Hnext 1) as [Hn1 Hn2]; [lia..|].
  rewrite (IH m1 (va + 1) (dst + 1)); [|done|lia..| |].
  - rewrite Hn2. f_equal; [f_equal; lia|lia..].
  - rewrite Hn2. lia.
  - by rewrite Hn1, Hup.
Qed.

Definition copyin_body (pagetable : Z) : Z * Z * Z → M kmem (Z * Z * Z + Z) :=
  λ '(dst, srcva, len),
    if 0 <? len then
      let va0 := PGROUNDDOWN srcva in
      let* pa0 := walkaddr pagetable va0 in
      if pa0 =? 0 then ret (inr (-1))
      else
        let n := PGSIZE - (srcva - va0) in
        let n := if len <? n then len else n in
        memmove_k dst (pa0 + (srcva - va0)) n ;;;
        ret (inl (dst + n, u64 (va0 + PGSIZE), len - n))
    else ret (inr 0).

Lemma copyin_body_step k root lo hi dst va len :
  user_ok (km_mem k) root lo hi → 0 ≤ va < 2^64 → 0 < len →
  copyin_body root (dst, va, len) k =
    match user_page false (km_mem k) root (PGROUNDDOWN va) with
    | None => Done (inr (-1)) k
    | Some pa =>
        let n := Z.min len (PGSIZE - va `mod` PGSIZE) in
        Done (inl (dst + n, u64 (PGROUNDDOWN va + PGSIZE), len - n))
          (upd_mem (λ m, memmove m dst (pa + va `mod` PGSIZE) n) k)
    end.
Proof.
  intros Hok Hva Hlen. destruct (page_split va Hva) as (Hpd & Hb & Hle & _).
  unfold copyin_body. rewrite (proj2 (Z.ltb_lt 0 len)) by done. cbv zeta.
  unfold bind. rewrite walkaddr_ok by (apply Hok || lia). cbv beta iota.
  destruct (user_page false (km_mem k) root (PGROUNDDOWN va)) as [pa|] eqn:Hpa; [|done].
  destruct Hok as (_ & Hu & _). destruct (Hu _ _ Hpa) as [Hpos _]. change (default 0 (Some pa)) with pa.
  rewrite (proj2 (Z.eqb_neq pa 0)) by lia.
  replace (va - PGROUNDDOWN va) with (va `mod` PGSIZE) by lia.
  assert ((if len <? PGSIZE - va `mod` PGSIZE then len else PGSIZE - va `mod` PGSIZE)
          = Z.min len (PGSIZE - va `mod` PGSIZE)) as -> by (case_match; lia).
  done.
Qed.

Lemma copyin_loop lo hi root : ∀ fuel k dst va len,
  user_ok (km_mem k) root lo hi → lo ≤ dst → dst + len ≤ hi → 0 ≤ va < 2^64 → 0 ≤ len →
  (Z.to_nat len < fuel)%nat →
  agrees (loop fuel (copyin_body root) (dst, va, len) k) k
    (copyin_bytes (km_mem k) root dst va (Z.to_nat len)).
Proof.
  induction fuel as [|fuel IH]; intros k dst va len Hok Hlo Hhi Hva Hlen Hf; [lia|].
  cbn [loop]. unfold bind. destruct (decide (len = 0)) as [->|Hne]; [by exists k|].
  rewrite (copyin_body_step _ _ lo hi) by (done || lia).
  destruct (page_split va Hva) as (Hpd & Hb & Hle & _).
  destruct (user_page false (km_mem k) root (PGROUNDDOWN va)) as [pa|] eqn:Hpa.
  2: { exists k. destruct (Z.to_nat len) eqn:E; [lia|]. cbn [copyin_bytes].
       unfold user_load, user_addr. by rewrite Hpa. }
  pose proof (user_page_max _ _ _ _ _ Hpa) as Hmax. assert (PGSIZE = 4096) as Hpgs by done.
  set (n := Z.min len (PGSIZE - va `mod` PGSIZE)). cbv zeta beta iota.
  set (k1 := upd_mem _ k).
  destruct (user_ok_buffer (km_mem k) (km_mem k1) root lo hi) as (Hok1 & _ & _); [done| |].
  { intros x Hx. simpl. rewrite load8_memmove by lia. by case_decide; [lia|]. }
  destruct (IH k1 (dst + n) (u64 (PGROUNDDOWN va + PGSIZE)) (len - n)) as (k' & Hrun & Hfl & Hm);
    [done|lia|lia|apply Z.mod_pos_bound; lia|lia|lia|].
  assert (same_result (copyin_bytes (km_mem k) root dst va (Z.to_nat len))
    (copyin_bytes (km_mem k1) root (dst + n) (u64 (PGROUNDDOWN va + PGSIZE))
      (Z.to_nat (len - n)))) as [Hr Hm'].
  { replace (Z.to_nat len) with (Z.to_nat n + Z.to_nat (len - n))%nat by lia.
    rewrite (copyin_bytes_page _ _ lo hi _ _ _ _ pa); [|done|lia|lia|lia|lia|lia|done].
    rewrite Z2Nat.id by lia.
    trans (copyin_bytes (km_mem k1) root (dst + n) (va + n) (Z.to_nat (len - n))).
    - apply copyin_bytes_proper. simpl. rewrite <-(Z2Nat.id n) at 2 by lia. symmetry.
      apply memmove_up_eq. rewrite Z2Nat.id by lia.
      pose proof (chunk_disjoint false _ _ lo hi _ pa dst (va `mod` PGSIZE) n Hok Hpa). lia.
    - destruct (decide (len - n = 0)) as [->|]; [done|].
      assert (u64 (PGROUNDDOWN va + PGSIZE) = va + n) as -> by
        (unfold u64; rewrite Z.mod_small; lia). done. }
  exists k'. rewrite Hr. split; [done|]. split; [by rewrite Hfl|]. by rewrite Hm, Hm'.
Qed.

(** ** copyinstr *)

(** The inner loop as a function on memory: whether it met the NUL. *)
Fixpoint strpage (m : mem) (dst p : Z) (n : nat) : bool * mem :=
  match n with
  | O => (false, m)
  | S n =>
      if load8 m p =? 0 then (true, store8 m dst 0)
      else strpage (store8 m dst (load8 m p)) (dst + 1) (p + 1) n
  end.

Definition copyinstr_page_body : Z * Z * Z * Z → M kmem (Z * Z * Z * Z + option (Z * Z)) :=
  λ '(dst, p, n, max),
    if 0 <? n then
      let* c := gets (λ k, load8 (km_mem k) p) in
      if c =? 0 then
        modify (upd_mem (λ m, store8 m dst 0)) ;;; ret (inr None)
      else
        modify (upd_mem (λ m, store8 m dst c)) ;;;
        ret (inl (dst + 1, p + 1, n - 1, max - 1))
    else ret (inr (Some (dst, max))).

Lemma copyinstr_page_ok (n : nat) : ∀ k dst p max,
  loop (S n) copyinstr_page_body (dst, p, Z.of_nat n, max) k =
    Done (if (strpage (km_mem k) dst p n).1 then None else Some (dst + n, max - n))
      (Kmem (strpage (km_mem k) dst p n).2 (freelist k)).
Proof.
  induction n as [|n IH]; intros k dst p max.
  { simpl. rewrite Z.add_0_r, Z.sub_0_r. by destruct k. }
  change (loop (S (S n)) copyinstr_page_body (dst, p, Z.of_nat (S n), max) k) with
    (bind (copyinstr_page_body (dst, p, Z.of_nat (S n), max))
      (λ r, match r with
            | inl a' => loop (S n) copyinstr_page_body a'
            | inr b => ret b
            end) k).
  unfold bind at 1, copyinstr_page_body at 1. cbn [strpage].
  rewrite (proj2 (Z.ltb_lt 0 (S n))) by lia. unfold bind, gets.
  destruct (load8 (km_mem k) p =? 0); [done|].
  unfold modify, ret. cbv beta iota.
  replace (S n - 1) with (Z.of_nat n) by lia. rewrite IH. simpl.
  do 2 f_equal. case_match; [done|]. do 2 f_equal; lia.
Qed.

Lemma strpage_frame m dst p (n : nat) x :
  ¬ dst ≤ x < dst + n → load8 (strpage m dst p n).2 x = load8 m x.
Proof.
  revert m dst p. induction n as [|n IH]; intros m dst p Hx; simpl; [done|].
  case_match; simpl.
  - rewrite load8_store8. by case_decide; [lia|].
  - rewrite IH by lia. rewrite load8_store8. by case_decide; [lia|].
Qed.

Lemma copyinstr_bytes_page m root lo hi dst va (n r : nat) pa :
  user_ok m root lo hi → lo ≤ dst → dst + n ≤ hi →
  0 ≤ va → va + n ≤ 2^64 → va `mod` PGSIZE + n ≤ PGSIZE →
  user_page false m root (PGROUNDDOWN va) = Some pa →
  copyinstr_bytes m root dst va (n + r) =
    let '(b, m') := strpage m dst (pa + va `mod` PGSIZE) n in
    if b then (0, m') else copyinstr_bytes m' root (dst + n) (va + n) r.
Proof.
  revert m va dst. induction n as [|n IH]; intros m va dst Hok Hlo Hhi Hva Hmax Hpg Hpa.
  { simpl. by rewrite !Z.add_0_r. }
  cbn [Nat.add copyinstr_bytes strpage]. unfold user_load, user_addr. rewrite Hpa. simpl.
  destruct (load8 m (pa + va `mod` PGSIZE) =? 0); [done|].
  destruct (page_split va) as (Hpd & Hb & _ & Hnext); [lia|].
  set (m1 := store8 m dst (load8 m (pa + va `mod` PGSIZE))).
  destruct (user_ok_buffer m m1 root lo hi) as (Hok1 & Hup & _); [done| |].
  { intros x Hx. unfold m1. rewrite load8_store8. by case_decide; [lia|]. }
  destruct n as [|n']; [done|].
  destruct (Hnext 1) as [Hn1 Hn2]; [lia..|].
  rewrite (IH m1 (va + 1) (dst + 1)); [|done|lia..| |].
  - rewrite Hn2. replace (pa + (va `mod` PGSIZE + 1)) with (pa + va `mod` PGSIZE + 1) by lia.
    destruct (strpage _ _ _ _) as [b m']. destruct b; [done|]. f_equal; lia.
  - rewrite Hn2. lia.
  - by rewrite Hn1, Hup.
Qed.

Definition copyinstr_body (pagetable : Z) : Z * Z * Z → M kmem (Z * Z * Z + Z) :=
  λ '(dst, srcva, max),
    if 0 <? max then
      let va0 := PGROUNDDOWN srcva in
      let* pa0 := walkaddr pagetable va0 in
      if pa0 =? 0 then ret (inr (-1))
      else
        let n := PGSIZE - (srcva - va0) in
        let n := if max <? n then max else n in
        let* r := copyinstr_page dst (pa0 + (srcva - va0)) n max in
        match r with
        | None => ret (inr 0)
        | Some (dst, max) => ret (inl (dst, u64 (va0 + PGSIZE), max))
        end
    else ret (inr (-1)).

Lemma copyinstr_body_step k root lo hi dst va max :
  user_ok (km_mem k) root lo hi → 0 ≤ va < 2^64 → 0 < max →
  copyinstr_body root (dst, va, max) k =
    match user_page false (km_mem k) root (PGROUNDDOWN va) with
    | None => Done (inr (-1)) k
    | Some pa =>
        let n := Z.min max (PGSIZE - va `mod` PGSIZE) in
        let '(b, m') := strpage (km_mem k) dst (pa + va `mod` PGSIZE) (Z.to_nat n) in
        Done (if b then inr 0 else inl (dst + n, u64 (PGROUNDDOWN va + PGSIZE), max - n))
          (Kmem m' (freelist k))
    end.
Proof.
  intros Hok Hva Hlen. destruct (page_split va Hva) as (Hpd & Hb & Hle & _).
  unfold copyinstr_body. rewrite (proj2 (Z.ltb_lt 0 max)) by done. cbv zeta.
  unfold bind at 1. rewrite walkaddr_ok by (apply Hok || lia). cbv beta iota.
  destruct (user_page false (km_mem k) root (PGROUNDDOWN va)) as [pa|] eqn:Hpa; [|done].
  destruct Hok as (_ & Hu & _). destruct (Hu _ _ Hpa) as [Hpos _].
  change (default 0 (Some pa)) with pa. rewrite (proj2 (Z.eqb_neq pa 0)) by lia.
  replace (va - PGROUNDDOWN va) with (va `mod` PGSIZE) by lia.
  assert ((if max <? PGSIZE - va `mod` PGSIZE then max else PGSIZE - va `mod` PGSIZE)
          = Z.min max (PGSIZE - va `mod` PGSIZE)) as -> by (case_match; lia).
  set (n := Z.min max (PGSIZE - va `mod` PGSIZE)). unfold bind, copyinstr_page.
  fold copyinstr_page_body. rewrite <-(Z2Nat.id n) at 2 by lia. rewrite copyinstr_page_ok.
  destruct (strpage _ _ _ _) as [b m']. rewrite Z2Nat.id by lia. by destruct b.
Qed.

Lemma copyinstr_loop lo hi root : ∀ fuel k dst va max,
  user_ok (km_mem k) root lo hi → lo ≤ dst → dst + max ≤ hi → 0 ≤ va < 2^64 → 0 ≤ max →
  (Z.to_nat max < fuel)%nat →
  agrees (loop fuel (copyinstr_body root) (dst, va, max) k) k
    (copyinstr_bytes (km_mem k) root dst va (Z.to_nat max)).
Proof.
  induction fuel as [|fuel IH]; intros k dst va max Hok Hlo Hhi Hva Hmx Hf; [lia|].
  cbn [loop]. unfold bind. destruct (decide (max = 0)) as [->|Hne]; [by exists k|].
  rewrite (copyinstr_body_step _ _ lo hi) by (done || lia).
  destruct (page_split va Hva) as (Hpd & Hb & Hle & _).
  destruct (user_page false (km_mem k) root (PGROUNDDOWN va)) as [pa|] eqn:Hpa.
  2: { exists k. destruct (Z.to_nat max) eqn:E; [lia|]. cbn [copyinstr_bytes].
       unfold user_load, user_addr. by rewrite Hpa. }
  pose proof (user_page_max _ _ _ _ _ Hpa) as Hmax. assert (PGSIZE = 4096) as Hpgs by done.
  cbv zeta. set (n := Z.min max (PGSIZE - va `mod` PGSIZE)).
  replace (Z.to_nat max) with (Z.to_nat n + Z.to_nat (max - n))%nat by lia.
  rewrite (copyinstr_bytes_page _ _ lo hi _ _ _ _ pa); [|done|lia|lia|lia|lia|lia|done].
  pose proof (strpage_frame (km_mem k) dst (pa + va `mod` PGSIZE) (Z.to_nat n)) as Hfr.
  destruct (strpage _ _ _ _) as [b m']. simpl in Hfr.
  destruct b; [by eexists|]. rewrite Z2Nat.id by lia. set (k1 := Kmem m' (freelist k)).
  destruct (user_ok_buffer (km_mem k) m' root lo hi) as (Hok1 & _ & _); [done| |].
  { intros x Hx. apply Hfr. lia. }
  destruct (IH k1 (dst + n) (u64 (PGROUNDDOWN va + PGSIZE)) (max - n)) as (k' & Hrun & Hfl & Hm);
    [done|lia|lia|apply Z.mod_pos_bound; lia|lia|lia|].
  exists k'. rewrite Hrun, Hfl. destruct (decide (max - n = 0)) as [Hz|Hnz].
  { rewrite Hz in Hm |- *. done. }
  assert (u64 (PGROUNDDOWN va + PGSIZE) = va + n) as Hw
    by (unfold u64; rewrite Z.mod_small; lia).
  by rewrite Hw in Hm |- *.
Qed.

(** ** What the copies leave in memory *)

Lemma user_addr_weaken w m root va a :
  user_addr w m root va = Some a → user_addr false m root va = Some a.
Proof.
  unfold user_addr. intros (pa & Hpa & ->)%fmap_Some.
  by rewrite (user_page_weaken w m root _ pa).
Qed.

Lemma user_addr_page w m root va a :
  0 ≤ va < 2^64 → user_addr w m root va = Some a →
  ∃ pa, user_page w m root (PGROUNDDOWN va) = Some pa ∧ in_page pa a.
Proof.
  intros Hva (pa & Hpa & ->)%fmap_Some. exists pa. split; [done|].
  destruct (page_split va Hva) as (_ & Hb & _). unfold in_page. lia.
Qed.

Lemma copyout_bytes_spec m root lo hi va src (n : nat) :
  user_ok m root lo hi → user_inj m root → lo ≤ src → src + n ≤ hi → 0 ≤ va → va + n ≤ 2^64 →
  let m' := (copyout_bytes m root va src n).2 in
  user_ok m' root lo hi ∧ (∀ w va, user_page w m' root va = user_page w m root va) ∧
  (∀ x, (∀ i, 0 ≤ i < n → user_addr true m root (va + i) ≠ Some x) → load8 m' x = load8 m x) ∧
  ((copyout_bytes m root va src n).1 = 0 → ∀ i, 0 ≤ i < n →
     ∃ a, user_addr true m root (va + i) = Some a ∧ load8 m' a = load8 m (src + i)).
Proof.
  revert m va src. induction n as [|n IH]; intros m va src Hok Hinj Hlo Hhi Hva Hmax.
  { simpl. split_and!; try done. intros _ i Hi. lia. }
  cbn [copyout_bytes]. unfold user_store.
  destruct (user_addr true m root va) as [a0|] eqn:Ha0; simpl.
  2: { split_and!; done. }
  destruct (user_addr_page true m root va a0) as (pa & Hpa & Hin); [lia|done|].
  set (m1 := store8 m a0 (load8 m src)).
  destruct (user_ok_store true m m1 root lo hi (PGROUNDDOWN va) pa) as (Hok1 & Hup & _); [done|done| |].
  { intros x Hx. unfold m1. rewrite load8_store8. case_decide; [subst|done].
    exfalso. by apply (Hx pa); [apply list_elem_of_here|]. }
  assert (∀ w va, user_addr w m1 root va = user_addr w m root va) as Hua.
  { intros w v. unfold user_addr. by rewrite Hup. }
  destruct (IH m1 (va + 1) (src + 1)) as (Hok' & Hup' & Hfr & Hget); [done| |lia..|].
  { intros v1 v2 a. rewrite !Hua. apply Hinj. }
  split; [done|]. split; [intros; by rewrite Hup', Hup|]. split.
  - intros x Hx. rewrite Hfr.
    + unfold m1. rewrite load8_store8. case_decide; [|done]. exfalso.
      apply (Hx 0); [lia|]. by rewrite Z.add_0_r, Ha0, H.
    + intros i Hi. rewrite Hua. replace (va + 1 + i) with (va + (i + 1)) by lia. apply Hx. lia.
  - intros Hr i Hi. destruct (decide (i = 0)) as [->|].
    + exists a0. rewrite !Z.add_0_r. split; [done|]. rewrite Hfr.
      * unfold m1. rewrite load8_store8, decide_True by done. apply u8_load8.
      * intros i Hi' Ha. rewrite Hua in Ha.
        assert (va = va + 1 + i); [|lia].
        apply (Hinj _ _ a0); [lia|lia|by eapply user_addr_weaken..].
    + destruct (Hget Hr (i - 1)) as (a & Ha & Hl); [lia|]. exists a.
      rewrite Hua in Ha. replace (va + 1 + (i - 1)) with (va + i) in Ha by lia.
      split; [done|]. rewrite Hl. replace (src + 1 + (i - 1)) with (src + i) by lia.
      unfold m1. rewrite load8_store8, decide_False; [done|]. intros ->.
      destruct Hok as (_ & Hu & _). destruct (Hu (PGROUNDDOWN va) pa) as (_ & _ & Hd);
        [by eapply user_page_weaken|].
      apply (Hd (src + i) Hin). lia.
Qed.

Lemma copyin_bytes_spec m root lo hi dst va (n : nat) :
  user_ok m root lo hi → lo ≤ dst → dst + n ≤ hi → 0 ≤ va → va + n ≤ 2^64 →
  let m' := (copyin_bytes m root dst va n).2 in
  (∀ x, ¬ dst ≤ x < dst + n → load8 m' x = load8 m x) ∧
  ((∀ i, 0 ≤ i < n → is_Some (user_addr false m root (va + i))) →
     (copyin_bytes m root dst va n).1 = 0 ∧
     ∀ i a, 0 ≤ i < n → user_addr false m root (va + i) = Some a →
       load8 m' (dst + i) = load8 m a).
Proof.
  revert m va dst. induction n as [|n IH]; intros m va dst Hok Hlo Hhi Hva Hmax.
  { simpl. split; [done|]. intros _. split; [done|]. intros. lia. }
  cbn [copyin_bytes]. unfold user_load.
  destruct (user_addr false m root va) as [a0|] eqn:Ha0; simpl.
  2: { split; [done|]. intros Hall. destruct (Hall 0) as [? Hx]; [lia|].
       by rewrite Z.add_0_r, Ha0 in Hx. }
  set (m1 := store8 m dst (load8 m a0)).
  destruct (user_ok_buffer m m1 root lo hi) as (Hok1 & Hup & _); [done| |].
  { intros x Hx. unfold m1. rewrite load8_store8. by case_decide; [lia|]. }
  assert (∀ va, user_addr false m1 root va = user_addr false m root va) as Hua.
  { intros v. unfold user_addr. by rewrite Hup. }
  destruct (IH m1 (va + 1) (dst + 1)) as (Hfr & Hget); [done|lia..|].
  split.
  - intros x Hx. rewrite Hfr by lia. unfold m1. rewrite load8_store8. by case_decide; [lia|].
  - intros Hall. destruct Hget as [Hr Hget].
    { intros i Hi. rewrite Hua. replace (va + 1 + i) with (va + (i + 1)) by lia. apply Hall. lia. }
    split; [done|]. intros i a Hi Ha. destruct (decide (i = 0)) as [->|].
    + rewrite Z.add_0_r in Ha |- *. rewrite Ha0 in Ha. simplify_eq. rewrite Hfr by lia.
      unfold m1. rewrite load8_store8, decide_True by done. apply u8_load8.
    + replace (dst + i) with (dst + 1 + (i - 1)) by lia. rewrite (Hget (i - 1) a); [|lia|].
      * unfold m1. rewrite load8_store8, decide_False; [done|]. intros <-.
        destruct (user_addr_page false m root (va + i) dst) as (pa & Hpa & Hin); [lia|done|].
        destruct Hok as (_ & Hu & _). destruct (Hu _ _ Hpa) as (_ & _ & Hd).
        apply (Hd dst Hin). lia.
      * rewrite Hua. by replace (va + 1 + (i - 1)) with (va + i) by lia.
Qed.
End copy.
