(* ===== verification/VmFree.v ===== *)
(** * Freeing page tables, kernel/vm.c

    freewalk, on a table without leaves, gives every page of the table back
    to the free list and touches nothing else. *)

From S2P Require Import Prelude Riscv Mem Kalloc Vm VmTree VmSpec VmUser.

(** A table without leaves. *)
Fixpoint bare (m : mem) (level : nat) (root : Z) : Prop :=
  match level with
  | O => ∀ i, i ∈ idx512 → has (load64 m (root + 8 * i)) PTE_V = false
  | S level' =>
      ∀ i, i ∈ idx512 → let v := load64 m (root + 8 * i) in
        has v PTE_V = true → has v PTE_RWX = false ∧ bare m level' (PTE2PA v)
  end.

Lemma bare_agree m m' level root :
  (∀ q x, q ∈ pt_pages m level root → in_page q x → load8 m' x = load8 m x) →
  bare m level root → bare m' level root.
Proof.
  revert root. induction level as [|level IH]; intros root Hd Hc i Hi; cbv zeta;
    (assert (load64 m' (root + 8 * i) = load64 m (root + 8 * i)) as -> by
      (assert (Hi' := Hi); apply elem_of_idx512 in Hi'; apply load64_ext; intros x Hx;
       apply (Hd root); [apply pt_pages_root|unfold in_page, PGSIZE; lia])).
  - by apply Hc.
  - intros Hv. destruct (Hc i Hi Hv) as (H1 & H2). split; [done|]. apply IH; [|done].
    intros q x Hq. apply Hd, (sub_pages_elem _ _ _ i); [done|]. unfold sub_pages. by rewrite Hv.
Qed.

Lemma bind_const_nil {A B} (l : list A) : l ≫= (λ _, @nil B) = [].
Proof. induction l as [|x l IH]; [done|]. by rewrite bind_cons, IH. Qed.

(** The address with the given indices. *)
Definition va_of (i2 i1 i0 : Z) : Z := i2 * 2^30 + i1 * 2^21 + i0 * 2^12.

Lemma va_of_PX i2 i1 i0 :
  0 ≤ i2 < 256 → 0 ≤ i1 < 512 → 0 ≤ i0 < 512 →
  let va := va_of i2 i1 i0 in
  0 ≤ va < MAXVA ∧ page_aligned va ∧ PX 2 va = i2 ∧ PX 1 va = i1 ∧ PX 0 va = i0.
Proof.
  intros H2 H1 H0. cbv zeta. unfold va_of. change MAXVA with (2^38). unfold page_aligned, PGSIZE.
  rewrite !PX_spec by lia. change (12 + 9 * 2) with 30. change (12 + 9 * 1) with 21. change (12 + 9 * 0) with 12.
  split; [lia|]. split; [apply Z.mod_divide; [lia|]; exists (i2 * 2^18 + i1 * 2^9 + i0); lia|].
  assert ((i2 * 2^30 + i1 * 2^21 + i0 * 2^12) `div` 2^30 = i2) as -> by (symmetry; apply (Z.div_unique_pos _ _ i2 (i1 * 2^21 + i0 * 2^12)); lia).
  assert ((i2 * 2^30 + i1 * 2^21 + i0 * 2^12) `div` 2^21 = i2 * 512 + i1) as -> by (symmetry; apply (Z.div_unique_pos _ _ _ (i0 * 2^12)); lia).
  assert ((i2 * 2^30 + i1 * 2^21 + i0 * 2^12) `div` 2^12 = (i2 * 512 + i1) * 512 + i0) as -> by (symmetry; apply (Z.div_unique_pos _ _ _ 0); lia).
  split; [by rewrite Z.mod_small by lia|]. split; rewrite Z.add_comm, Z_mod_plus_full, Z.mod_small; lia.
Qed.

(** A table in which no address is mapped has no leaves. *)
Lemma clean_bare m root :
  clean m 2 root → (∀ va, 0 ≤ va < MAXVA → page_aligned va → has (pteval m 2 root va) PTE_V = false) → bare m 2 root.
Proof.
  intros Hc Hz i2 Hi2. cbv zeta. intros Hv2. destruct (Hc i2 Hi2 Hv2) as (Hf2 & Hb & Hc2). split; [done|].
  intros i1 Hi1. cbv zeta. intros Hv1. destruct (Hc2 i1 Hi1 Hv1) as (Hf1 & _). split; [done|]. intros i0 Hi0.
  specialize (Hb eq_refl). apply elem_of_idx512 in Hi2, Hi1, Hi0.
  destruct (va_of_PX i2 i1 i0) as (Hva & Hal & E2 & E1 & E0); [lia|lia|lia|]. specialize (Hz _ Hva Hal).
  rewrite pteval_S in Hz. cbv zeta in Hz. change (Z.of_nat 2) with 2 in Hz. rewrite E2, Hv2, pteval_S in Hz. cbv zeta in Hz.
  change (Z.of_nat 1) with 1 in Hz. rewrite E1, Hv1 in Hz. unfold pteval, leaf_addr in Hz. by rewrite E0 in Hz.
Qed.

Section free.
Variable kend : Z.
Hypothesis kend_pos : 0 < kend.

(** The loop of freewalk over the entries [js] of the node [root], [f] being
    the recursive call, which frees the pages [pages i] below entry [i]; [m0]
    is memory before the loop. *)
Section loop.
Context (m0 : mem) (root : Z) (pages : Z → list Z) (f : Z → M kmem unit).
Hypothesis Hroot : page_ok kend root.

Definition free_body (i : Z) : M kmem unit :=
  let* pte := ld64 (root + 8 * i) in
  if has pte PTE_V && negb (has pte (Z.lor (Z.lor PTE_R PTE_W) PTE_X)) then
    f (PTE2PA pte) ;;;
    st64 (root + 8 * i) 0
  else if has pte PTE_V then panic "freewalk: leaf"
  else ret tt.

Definition agrees_on (ps : list Z) (m : mem) : Prop := ∀ q x, q ∈ ps → in_page q x → load8 m x = load8 m0 x.

Lemma agrees_on_frame ps qs m m' :
  agrees_on ps m → same_outside qs m m' → Forall page_aligned ps → Forall page_aligned qs →
  (∀ q, q ∈ ps → q ∉ qs) → agrees_on ps m'.
Proof.
  intros Ha Hs Hp Hq Hd q x Hin Hx. rewrite Hs; [by apply (Ha q)|]. intros p Hpq Hxp. apply (Hd q Hin).
  rewrite Forall_forall in Hp, Hq. rewrite (pages_disjoint q p x); [done|by apply Hp|by apply Hq|done..].
Qed.

Hypothesis Hnone : ∀ i, has (load64 m0 (root + 8 * i)) PTE_V = false → pages i = [].
Hypothesis Hf : ∀ i k l, i ∈ idx512 → has (load64 m0 (root + 8 * i)) PTE_V = true → kmem_ok kend k l →
  agrees_on (pages i) (km_mem k) → (∀ q, q ∈ pages i → q ∉ l) →
  wp (f (PTE2PA (load64 m0 (root + 8 * i)))) k (λ _ k', ∃ l', kmem_ok kend k' l' ∧ l' ≡ₚ pages i ++ l ∧
    same_outside (pages i) (km_mem k) (km_mem k')).
Hypothesis Hplain : ∀ i, i ∈ idx512 → has (load64 m0 (root + 8 * i)) PTE_V = true → has (load64 m0 (root + 8 * i)) PTE_RWX = false.

Lemma free_loop js : ∀ k l,
  kmem_ok kend k l → root ∉ l → NoDup js → (∀ i, i ∈ js → i ∈ idx512) →
  NoDup (root :: (js ≫= pages)) → Forall (page_ok kend) (js ≫= pages) →
  (∀ i, i ∈ js → load64 (km_mem k) (root + 8 * i) = load64 m0 (root + 8 * i)) →
  agrees_on (js ≫= pages) (km_mem k) → (∀ q, q ∈ js ≫= pages → q ∉ l) →
  wp (for_each js free_body) k (λ _ k', ∃ l', kmem_ok kend k' l' ∧ l' ≡ₚ (js ≫= pages) ++ l ∧
    same_outside (root :: (js ≫= pages)) (km_mem k) (km_mem k')).
Proof using All.
  induction js as [|i js IH]; intros k l Hk Hr Hnd Hidx Hndp Hok Hent Hag Hdis.
  { apply wp_ret. by exists l. }
  cbn [for_each]. rewrite bind_cons in Hndp, Hok, Hag, Hdis |- *. apply NoDup_cons in Hnd as [Hi Hnd].
  apply NoDup_cons in Hndp as [Hrp Hndp]. apply NoDup_app in Hndp as (Hnd1 & Hd12 & Hnd2). apply Forall_app in Hok as [Hok1 Hok2].
  apply not_elem_of_app in Hrp as [Hr1 Hr2]. assert (i ∈ idx512) as Hi5 by (apply Hidx; left).
  assert (Hi' := Hi5). apply elem_of_idx512 in Hi'.
  assert (∃ k1 l1, free_body i k = Done tt k1 ∧ kmem_ok kend k1 l1 ∧ l1 ≡ₚ pages i ++ l ∧
    same_outside (root :: pages i) (km_mem k) (km_mem k1) ∧
    (∀ j, j ∈ js → load64 (km_mem k1) (root + 8 * j) = load64 (km_mem k) (root + 8 * j)))
    as (k1 & l1 & Hrun & Hk1 & Hl1 & Hs1 & He1).
  { unfold free_body, bind, ld64, gets. cbv beta iota. rewrite Hent by left.
    destruct (has (load64 m0 (root + 8 * i)) PTE_V) eqn:Hv; cycle 1.
    { exists k, l. rewrite Hnone by done. cbn. by split_and!. }
    fold PTE_RWX. rewrite (Hplain i Hi5 Hv). cbn [negb andb].
    pose proof (Hf i k l Hi5 Hv Hk) as Hwp. apply wp_done in Hwp as ([] & k2 & -> & l2 & Hk2 & Hl2 & Hs2).
    - set (k3 := upd_mem (λ m, store64 m (root + 8 * i) 0) k2).
      assert (same_outside [root] (km_mem k2) (km_mem k3)) as Hs3 by (apply store64_same_outside; unfold PGSIZE; lia).
      assert (root ∉ pages i ++ l) as Hrl by (apply not_elem_of_app; done).
      exists k3, l2. split; [done|]. split_and!; [|done| |].
      + apply (kmem_ok_upd kend [root]); [done..|apply Forall_singleton, Hroot|].
        intros q Hq ->%list_elem_of_singleton. by rewrite Hl2 in Hq.
      + eapply same_outside_trans; eapply same_outside_mono; [|exact Hs2| |exact Hs3]; set_solver.
      + intros j Hj. assert (j ∈ idx512) as Hj5 by (apply Hidx; by right). assert (Hj' := Hj5). apply elem_of_idx512 in Hj'.
        assert (j ≠ i) by (intros ->; done). cbn. rewrite load64_store64_ne by lia.
        eapply entry_frame; [exact Hs2|by apply page_ok_aligned with kend|apply Hroot|done|done].
    - intros q x Hq. apply Hag, elem_of_app. by left.
    - intros q Hq. apply Hdis, elem_of_app. by left. }
  apply wp_bind. unfold wp at 1. rewrite Hrun.
  eapply wp_mono; [apply (IH k1 l1); try done|].
  - rewrite Hl1. by apply not_elem_of_app.
  - intros j Hj. apply Hidx. by right.
  - by apply NoDup_cons.
  - intros j Hj. rewrite He1 by done. apply Hent. by right.
  - eapply agrees_on_frame; [|exact Hs1|by apply page_ok_aligned with kend| |].
    + intros q x Hq. apply Hag, elem_of_app. by right.
    + constructor; [apply Hroot|by apply page_ok_aligned with kend].
    + intros q Hq [->|Hq']%elem_of_cons; [done|]. by apply (Hd12 q).
  - intros q Hq. rewrite Hl1. intros [Hq'|Hq']%elem_of_app; [by apply (Hd12 q)|]. apply (Hdis q); [|done]. apply elem_of_app. by right.
  - intros _ k' (l' & Hk' & Hl' & Hs'). exists l'. split; [done|]. split.
    + rewrite Hl', Hl1. solve_Permutation.
    + eapply same_outside_trans; eapply same_outside_mono; [|exact Hs1| |exact Hs']; set_solver.
Qed.
End loop.

(** One node: its subtrees, then its own page. *)
Lemma freewalk_node root pages k l ps depth :
  let m := km_mem k in
  kmem_ok kend k l → page_ok kend root → root ∉ l → ps = idx512 ≫= pages →
  (∀ i, has (load64 m (root + 8 * i)) PTE_V = false → pages i = []) →
  (∀ i k l, i ∈ idx512 → has (load64 m (root + 8 * i)) PTE_V = true → kmem_ok kend k l →
     agrees_on m (pages i) (km_mem k) → (∀ q, q ∈ pages i → q ∉ l) →
     wp (freewalk kend depth (PTE2PA (load64 m (root + 8 * i)))) k (λ _ k', ∃ l', kmem_ok kend k' l' ∧ l' ≡ₚ pages i ++ l ∧
       same_outside (pages i) (km_mem k) (km_mem k'))) →
  (∀ i, i ∈ idx512 → has (load64 m (root + 8 * i)) PTE_V = true → has (load64 m (root + 8 * i)) PTE_RWX = false) →
  NoDup (root :: ps) → Forall (page_ok kend) ps → (∀ q, q ∈ ps → q ∉ l) →
  wp (freewalk kend (S depth) root) k (λ _ k', ∃ l', kmem_ok kend k' l' ∧ l' ≡ₚ (root :: ps) ++ l ∧
    same_outside (root :: ps) m (km_mem k')).
Proof using kend_pos.
  intros m Hk Hroot Hrl -> Hnone Hf Hplain Hnd Hpg Hd.
  assert (freewalk kend (S depth) root = (for_each idx512 (free_body root (freewalk kend depth)) ;;; kfree kend root)) as ->
    by (rewrite idx512_eq; done).
  apply wp_bind. eapply wp_mono.
  { apply (free_loop m root pages (freewalk kend depth) Hroot Hnone Hf Hplain idx512 k l); try done. apply NoDup_idx512. }
  intros _ k1 (l1 & Hk1 & Hl1 & Hs1). apply NoDup_cons in Hnd as [Hrp _].
  destruct (kfree_ok kend kend_pos k1 root l1) as (k2 & Hrun & Hk2 & Hs2 & _); [done|done| |].
  { rewrite Hl1. by apply not_elem_of_app. }
  unfold wp. rewrite Hrun. exists (root :: l1). split; [done|]. split; [by rewrite Hl1|].
  eapply same_outside_trans; [exact Hs1|]. eapply same_outside_mono; [|exact Hs2]. set_solver.
Qed.

Lemma freewalk_ok level : ∀ root k l,
  node_inv kend k l level root → bare (km_mem k) level root →
  wp (freewalk kend (S level) root) k (λ _ k', ∃ l', kmem_ok kend k' l' ∧
    l' ≡ₚ pt_pages (km_mem k) level root ++ l ∧ same_outside (pt_pages (km_mem k) level root) (km_mem k) (km_mem k')).
Proof using kend_pos.
  induction level as [|level IH]; intros root k l (Hk & Hok & Hd) Hb;
    pose proof (tree_ok_root _ _ _ _ Hok) as Hroot; pose proof Hok as [Hnd Hpg];
    (assert (root ∉ l) as Hrl by (intros Hin; apply (Hd root Hin), pt_pages_root)).
  - assert ([] = idx512 ≫= (λ _, @nil Z)) as E by (by rewrite bind_const_nil).
    apply (freewalk_node root (λ _, []) k l [] 0 Hk Hroot Hrl E); try done.
    + intros i k0 l0 Hi Hv. by rewrite (Hb i Hi) in Hv.
    + intros i Hi Hv. by rewrite (Hb i Hi) in Hv.
    + intros q Hq. by apply not_elem_of_nil in Hq.
  - rewrite pt_pages_S in *. apply (freewalk_node root (sub_pages (km_mem k) level root) k l _ (S level) Hk Hroot Hrl eq_refl); try done.
    + intros i Hv. unfold sub_pages. by rewrite Hv.
    + intros i k0 l0 Hi Hv Hk0 Hag Hd0. destruct (Hb i Hi Hv) as [_ Hbi].
      assert (sub_pages (km_mem k) level root i = pt_pages (km_mem k) level (PTE2PA (load64 (km_mem k) (root + 8 * i)))) as E
        by (unfold sub_pages; by rewrite Hv).
      rewrite E in *. destruct (tree_agree (km_mem k) (km_mem k0) level _ Hag) as (Ep & _).
      eapply wp_mono; [apply (IH _ k0 l0)|].
      * split; [done|]. unfold tree_ok. rewrite Ep. split; [by apply tree_ok_child|]. intros q Hq Hp. by apply (Hd0 q).
      * by eapply bare_agree.
      * intros [] k' H. rewrite Ep in H. exact H.
    + intros i Hi Hv. by apply (Hb i Hi Hv).
    + by inversion Hpg.
    + intros q Hq Hl. apply (Hd q Hl). by right.
Qed.
End free.
