(* ===== verification/VmSpace.v ===== *)
(** * Address spaces of processes

    What the page table of a process looks like from proc_pagetable to
    proc_freepagetable (kernel/proc.c), and that these two and uvmfree
    (kernel/vm.c) lose no page. *)

From S2P Require Import Prelude Riscv Mem Kalloc Vm VmTree VmSpec VmUser VmCopy VmFree.

Section space.
Context (kend trampoline : Z).
Hypothesis kend_pos : 0 < kend.
Hypothesis tramp_ok : 0 ≤ trampoline < 2^56 - PGSIZE ∧ page_aligned trampoline.

Definition tramp_entry : Z := map_entry trampoline (Z.lor PTE_R PTE_X).
Definition frame_entry (tf : Z) : Z := map_entry tf (Z.lor PTE_R PTE_W).

(** The pages of user memory. *)
Definition user_pages (m : mem) (root sz : Z) : list Z := leaves m root 0 (npages 0 sz).

(** The table [root] of a process of size [sz] with its trapframe in the page
    [tf], [l] being the free pages: user memory below [sz], every page of it
    its own, the trampoline, the trapframe and nothing else. *)
Record aspace (k : kmem) (l : list Z) (root sz tf : Z) : Prop := {
  as_inv : node_inv kend k l 2 root;
  as_clean : clean (km_mem k) 2 root;
  as_size : 0 ≤ sz ≤ TRAPFRAME;
  as_user : range_mapped (km_mem k) root 0 (npages 0 sz);
  as_owned : owned kend k l root (user_pages (km_mem k) root sz);
  as_tramp : pteval (km_mem k) 2 root TRAMPOLINE = tramp_entry;
  as_frame : pteval (km_mem k) 2 root TRAPFRAME = frame_entry tf;
  as_tf : page_ok kend tf;
  as_rest va : PGROUNDUP sz ≤ va < MAXVA → page_aligned va → va ≠ TRAMPOLINE → va ≠ TRAPFRAME →
    pteval (km_mem k) 2 root va = 0
}.

Lemma npages_0 sz : 0 ≤ sz ≤ MAXVA → npages 0 sz = PGROUNDUP sz `div` PGSIZE ∧ PGROUNDUP sz = npages 0 sz * PGSIZE ∧ 0 ≤ npages 0 sz.
Proof.
  intros Hsz. destruct (npages_spec 0 sz) as (H1 & _ & H2); [lia..|]. change (PGROUNDUP 0) with 0 in H2.
  unfold npages in *. change (PGROUNDUP 0) with 0 in *. rewrite Z.sub_0_r in *. by split_and!.
Qed.

Lemma uvmfree_ok k l root sz :
  node_inv kend k l 2 root → clean (km_mem k) 2 root → 0 ≤ sz ≤ MAXVA →
  range_mapped (km_mem k) root 0 (npages 0 sz) → owned kend k l root (user_pages (km_mem k) root sz) →
  (∀ va, PGROUNDUP sz ≤ va < MAXVA → page_aligned va → has (pteval (km_mem k) 2 root va) PTE_V = false) →
  let ps := user_pages (km_mem k) root sz ++ pt_pages (km_mem k) 2 root in
  wp (uvmfree kend root sz) k (λ _ k', ∃ l', kmem_ok kend k' l' ∧ l' ≡ₚ ps ++ l ∧ same_outside ps (km_mem k) (km_mem k')).
Proof using kend_pos.
  intros Hinv Hc Hsz Hmap Hown Hrest ps. destruct (npages_0 sz Hsz) as (En & Ep & Hn). unfold uvmfree.
  destruct (PGROUNDUP_bounds sz Hsz) as (Hb1 & Hb2 & Hb3).
  assert (∃ k1, (if 0 <? sz then uvmunmap kend root 0 (PGROUNDUP sz `div` PGSIZE) true else ret tt) k = Done tt k1 ∧
    unmapped_post kend k l root 0 (npages 0 sz) true k1) as (k1 & Hrun & Hpost).
  { destruct (Z.ltb_spec 0 sz).
    - rewrite <-En. apply (uvmunmap_ok kend kend_pos k l root 0 (npages 0 sz) true); try done. lia.
    - exists k. split; [done|]. assert (sz = 0) as -> by lia. change (npages 0 0) with 0. by apply unmapped_post_nil. }
  apply wp_bind. unfold wp at 1. rewrite Hrun. destruct Hpost as (Hinv1 & Hp1 & Hs1 & Hv1 & Hc1).
  fold (user_pages (km_mem k) root sz) in Hinv1, Hs1.
  eapply wp_mono; [apply (freewalk_ok kend kend_pos 2 root k1 _ Hinv1)|].
  - apply clean_bare; [by apply Hc1|]. intros va Hva Hal. rewrite Hv1 by done. case_decide; [done|]. apply Hrest; [lia|done].
  - intros [] k2 (l2 & Hk2 & Hl2 & Hs2). rewrite Hp1 in Hl2, Hs2. exists l2. split; [done|]. split.
    + rewrite Hl2, (reverse_Permutation (user_pages _ _ _)). unfold ps. by rewrite app_assoc, (Permutation_app_comm (pt_pages _ _ _)).
    + eapply same_outside_trans; [exact Hs1|]. eapply same_outside_mono; [|exact Hs2]. intros q Hq. apply elem_of_app. by right.
Qed.

(** Unmapping one page that is not freed. *)
Lemma unmap_page k l root va :
  node_inv kend k l 2 root → 0 ≤ va → va + PGSIZE ≤ MAXVA → page_aligned va →
  has (pteval (km_mem k) 2 root va) PTE_V = true → PTE_FLAGS (pteval (km_mem k) 2 root va) ≠ PTE_V →
  ∃ k', uvmunmap kend root va 1 false k = Done tt k' ∧ node_inv kend k' l 2 root ∧
    pt_pages (km_mem k') 2 root = pt_pages (km_mem k) 2 root ∧
    same_outside (pt_pages (km_mem k) 2 root) (km_mem k) (km_mem k') ∧
    (∀ va', 0 ≤ va' < MAXVA → page_aligned va' →
       pteval (km_mem k') 2 root va' = if decide (va' = va) then 0 else pteval (km_mem k) 2 root va') ∧
    (clean (km_mem k) 2 root → clean (km_mem k') 2 root).
Proof using kend_pos.
  intros Hinv H0 Hmax Hal Hv Hf.
  assert (∀ va', page_aligned va' → va ≤ va' < va + 1 * PGSIZE ↔ va' = va) as Hone.
  { intros va' Hal'. unfold page_aligned, PGSIZE in *. pose proof (Z.div_mod va 4096). pose proof (Z.div_mod va' 4096). lia. }
  destruct (uvmunmap_ok kend kend_pos k l root va 1 false) as (k' & Hrun & Hi & Hp & Hs & Hpt & Hc); try done.
  { intros va' Hr Hal'. by apply Hone in Hr as ->. }
  exists k'. split_and!; try done. intros va' Hr Hal'. rewrite Hpt by done.
  destruct (decide (va' = va)); [rewrite decide_True; [done|by apply Hone]|by rewrite decide_False by (by rewrite Hone)].
Qed.

Lemma fixed_perms : leaf_perm (Z.lor PTE_R PTE_X) ∧ leaf_perm (Z.lor PTE_R PTE_W).
Proof. by split; split. Qed.

Lemma TRAP_bounds : page_aligned TRAMPOLINE ∧ page_aligned TRAPFRAME ∧ TRAPFRAME + PGSIZE = TRAMPOLINE ∧ TRAMPOLINE + PGSIZE = MAXVA ∧ 0 < TRAPFRAME.
Proof. done. Qed.

Lemma size_roundup sz : 0 ≤ sz ≤ TRAPFRAME → PGROUNDUP sz ≤ TRAPFRAME.
Proof.
  intros Hsz. destruct TRAP_bounds as (T1 & T2 & T3 & T4 & T5).
  rewrite <-(PGROUNDUP_aligned TRAPFRAME) by (done || unfold PGSIZE in *; lia). apply PGROUNDUP_mono; unfold PGSIZE in *; lia.
Qed.

Lemma entry_leaf pa perm :
  0 ≤ pa < 2^56 → page_aligned pa → leaf_perm perm →
  has (map_entry pa perm) PTE_V = true ∧ PTE_FLAGS (map_entry pa perm) ≠ PTE_V.
Proof.
  intros Hpa Hal [Hp Hf]. destruct (new_pte_decode pa perm) as [_ E]; [done..|]. split; [apply has_V_lor|]. unfold map_entry. by rewrite E.
Qed.

Lemma tramp_leaf : has tramp_entry PTE_V = true ∧ PTE_FLAGS tramp_entry ≠ PTE_V.
Proof using tramp_ok. destruct tramp_ok as [Ht Ha]. apply (entry_leaf trampoline (Z.lor PTE_R PTE_X)); [unfold PGSIZE in Ht; lia|done|exact (proj1 fixed_perms)]. Qed.

Lemma frame_leaf tf : page_ok kend tf → has (frame_entry tf) PTE_V = true ∧ PTE_FLAGS (frame_entry tf) ≠ PTE_V.
Proof using kend_pos.
  intros Htf. destruct (page_ok_bounds kend kend_pos tf Htf) as [Hb Ha]. apply (entry_leaf tf (Z.lor PTE_R PTE_W)); [lia|done|exact (proj2 fixed_perms)].
Qed.

Lemma leaves_same m m' root sz :
  0 ≤ sz ≤ TRAPFRAME → (∀ va, 0 ≤ va < TRAPFRAME → page_aligned va → pteval m' 2 root va = pteval m 2 root va) →
  user_pages m' root sz = user_pages m root sz.
Proof.
  intros Hsz H. destruct TRAP_bounds as (_ & T2 & T3 & T4 & T5). destruct (npages_0 sz) as (_ & Ep & Hn); [unfold PGSIZE in *; lia|].
  unfold user_pages. apply leaves_ext; [|reflexivity]. intros va Hva Hal. apply H; [|done].
  destruct (PGROUNDUP_bounds sz) as (Hb1 & Hb2 & Hb3); [unfold PGSIZE in *; lia|]. rewrite <-Ep in Hva. split; [lia|].
  unfold page_aligned, PGSIZE in *. pose proof (Z.div_mod (PGROUNDUP sz) 4096). pose proof (Z.div_mod TRAPFRAME 4096). lia.
Qed.

Lemma proc_freepagetable_ok k l root sz tf :
  aspace k l root sz tf →
  let ps := user_pages (km_mem k) root sz ++ pt_pages (km_mem k) 2 root in
  wp (proc_freepagetable kend root sz) k (λ _ k', ∃ l', kmem_ok kend k' l' ∧ l' ≡ₚ ps ++ l ∧ same_outside ps (km_mem k) (km_mem k')).
Proof using kend_pos tramp_ok.
  intros [Hinv Hc Hsz Hmap Hown Htr Hfr Htf Hrest] ps. destruct TRAP_bounds as (T1 & T2 & T3 & T4 & T5).
  destruct (page_ok_bounds kend kend_pos tf Htf) as [Htfb Htfa].
  destruct (unmap_page k l root TRAMPOLINE) as (k1 & Hrun1 & Hinv1 & Hp1 & Hs1 & Hv1 & Hc1); [done|unfold PGSIZE in *; lia|lia|done| | |].
  1,2: rewrite Htr; apply tramp_leaf.
  assert (pteval (km_mem k1) 2 root TRAPFRAME = frame_entry tf) as Hfr1.
  { rewrite Hv1 by (done || unfold PGSIZE in *; lia). rewrite decide_False by (unfold PGSIZE in *; lia). done. }
  destruct (unmap_page k1 l root TRAPFRAME) as (k2 & Hrun2 & Hinv2 & Hp2 & Hs2 & Hv2 & Hc2); [done|lia|unfold PGSIZE in *; lia|done| | |].
  1,2: rewrite Hfr1; by apply frame_leaf.
  assert (∀ va, 0 ≤ va < MAXVA → page_aligned va → pteval (km_mem k2) 2 root va =
    if decide (va = TRAPFRAME) then 0 else if decide (va = TRAMPOLINE) then 0 else pteval (km_mem k) 2 root va) as Hv.
  { intros va Hr Hal. rewrite Hv2 by done. case_decide; [done|]. by apply Hv1. }
  assert (∀ va, 0 ≤ va < TRAPFRAME → page_aligned va → pteval (km_mem k2) 2 root va = pteval (km_mem k) 2 root va) as Hlow.
  { intros va Hr Hal. rewrite Hv by (done || unfold PGSIZE in *; lia). rewrite !decide_False by (unfold PGSIZE in *; lia). done. }
  pose proof (leaves_same (km_mem k) (km_mem k2) root sz Hsz Hlow) as Hus.
  assert (same_outside (pt_pages (km_mem k) 2 root) (km_mem k) (km_mem k2)) as Hs.
  { eapply same_outside_trans; [exact Hs1|]. by rewrite <-Hp1. }
  unfold proc_freepagetable. apply wp_bind. unfold wp at 1. rewrite Hrun1. apply wp_bind. unfold wp at 1. rewrite Hrun2.
  pose proof (size_roundup sz Hsz) as Hup.
  destruct (npages_0 sz) as (_ & Ep & _); [unfold PGSIZE in *; lia|].
  eapply wp_mono; [apply (uvmfree_ok k2 l root sz)|].
  - done.
  - by apply Hc2, Hc1.
  - unfold PGSIZE in *; lia.
  - intros va Hr Hal. rewrite Hlow by (done || lia). by apply Hmap.
  - rewrite Hus. destruct Hown as (? & ? & Hd). split_and!; [done..|]. rewrite Hp2, Hp1. done.
  - intros va Hr Hal. rewrite Hv by (done || destruct (PGROUNDUP_bounds sz); unfold PGSIZE in *; lia).
    repeat case_decide; [done..|]. by rewrite Hrest.
  - intros [] k3 (l3 & Hk3 & Hl3 & Hs3). rewrite Hus, Hp2, Hp1 in Hl3, Hs3. exists l3. split; [done|]. split; [done|].
    eapply same_outside_trans; [|exact Hs3]. eapply same_outside_mono; [|exact Hs]. intros q Hq. apply elem_of_app. by right.
Qed.

(** ** proc_pagetable *)

Lemma uvmcreate_ok k l :
  kmem_ok kend k l →
  (l = [] ∧ uvmcreate k = Done 0 k) ∨
  ∃ root l1 k1, l = root :: l1 ∧ uvmcreate k = Done root k1 ∧ root ≠ 0 ∧ node_inv kend k1 l1 2 root ∧
    zero_page (km_mem k1) root ∧ same_outside [root] (km_mem k) (km_mem k1).
Proof using kend_pos.
  intros Hk. unfold uvmcreate, bind. destruct l as [|root l1].
  { left. rewrite (kalloc_nil kend) by done. done. }
  right. destruct (kalloc_cons kend kend_pos k root l1 Hk) as (k1 & -> & Hk1 & Hs1 & _).
  pose proof (free_pages_ok _ _ _ Hk) as [Hr _]%Forall_cons. destruct Hk as [_ [Hnin Hnd]%NoDup_cons].
  destruct (page_ok_bounds kend kend_pos root Hr) as [Hb _]. rewrite (proj2 (Z.eqb_neq root 0)) by lia.
  set (k2 := upd_mem (λ m, memset m root 0 PGSIZE) k1).
  assert (zero_page (km_mem k2) root) as Hz by apply memset_zero_page.
  exists root, l1, k2. split; [done|]. split; [done|]. split; [lia|]. split; [|split; [done|]].
  - split; [|split].
    + apply (kmem_ok_upd kend [root]); [done|apply memset_same_outside|apply Forall_singleton, Hr|].
      intros q Hq ->%list_elem_of_singleton. done.
    + unfold tree_ok. rewrite (zero_page_pages _ 2 _ Hz). split; [apply NoDup_singleton|by apply Forall_singleton].
    + rewrite (zero_page_pages _ 2 _ Hz). intros q Hq ->%list_elem_of_singleton. done.
  - eapply same_outside_trans; [exact Hs1|apply memset_same_outside].
Qed.

(** mappages of one page. *)
Lemma map_page k l root va pa perm :
  node_inv kend k l 2 root → 0 ≤ va → va + PGSIZE ≤ MAXVA → page_aligned va → 0 ≤ pa → pa + PGSIZE ≤ 2^56 → 0 ≤ perm < 1024 →
  has (pteval (km_mem k) 2 root va) PTE_V = false →
  ∃ r k' used l', mappages root va PGSIZE pa perm k = Done r k' ∧
    mapped_prefix kend k l root va pa perm (1 + r) k' used l' ∧ (r = 0 ∨ r = -1 ∧ l' = []).
Proof using kend_pos.
  intros Hinv H0 Hmax Hal Hpa Hpm Hp Hun.
  destruct (mappages_ok kend kend_pos k l root va 1 pa perm) as (r & j & k' & used & l' & Hrun & Hmp & Hres); try done; try lia.
  { intros va' Hr Hal'. assert (va' = va) as ->; [|done].
    unfold page_aligned, PGSIZE in *. pose proof (Z.div_mod va 4096). pose proof (Z.div_mod va' 4096). lia. }
  rewrite Z.mul_1_l in Hrun. exists r, k', used, l'. split; [done|].
  destruct Hres as [[-> ->]|(-> & Hj & ->)]; [split; [done|by left]|]. assert (j = 0) as -> by lia. split; [done|by right].
Qed.

Lemma user_pages_0 m root : user_pages m root 0 = [].
Proof. done. Qed.

(** A table that maps nothing is freed completely. *)
Lemma uvmfree_empty k l root :
  node_inv kend k l 2 root → clean (km_mem k) 2 root →
  (∀ va, 0 ≤ va < MAXVA → page_aligned va → pteval (km_mem k) 2 root va = 0) →
  wp (uvmfree kend root 0) k (λ _ k', ∃ l', kmem_ok kend k' l' ∧ l' ≡ₚ pt_pages (km_mem k) 2 root ++ l ∧
    same_outside (pt_pages (km_mem k) 2 root) (km_mem k) (km_mem k')).
Proof using kend_pos.
  intros Hinv Hc Hz. apply (uvmfree_ok k l root 0 Hinv Hc); [done| | |].
  - intros va Hva. change (npages 0 0) with 0 in Hva. lia.
  - rewrite user_pages_0. split_and!; [apply NoDup_nil_2|done|]. intros q Hq. by apply not_elem_of_nil in Hq.
  - change (PGROUNDUP 0) with 0. intros va Hva Hal. by rewrite Hz.
Qed.

(** proc_pagetable makes an address space without user memory from free
    pages, or returns 0 with the same pages free; then there are at most 7. *)
Definition made (k : kmem) (l : list Z) (tf r : Z) (k' : kmem) : Prop :=
  ∃ l', kmem_ok kend k' l' ∧ same_outside l (km_mem k) (km_mem k') ∧
    (r = 0 ∧ l' ≡ₚ l ∧ (length l ≤ 7)%nat ∨
     r ≠ 0 ∧ l ≡ₚ pt_pages (km_mem k') 2 r ++ l' ∧ aspace k' l' r 0 tf).

(** The table is given up: its pages are free again. *)
Lemma made_undo k l tf k1 l1 root :
  node_inv kend k1 l1 2 root → clean (km_mem k1) 2 root →
  (∀ va, 0 ≤ va < MAXVA → page_aligned va → pteval (km_mem k1) 2 root va = 0) →
  l ≡ₚ pt_pages (km_mem k1) 2 root ++ l1 → same_outside l (km_mem k) (km_mem k1) → (length l ≤ 7)%nat →
  wp (uvmfree kend root 0 ;;; ret 0) k1 (made k l tf).
Proof using kend_pos.
  intros Hinv Hc Hz Hl Hs Hlen. apply wp_bind. eapply wp_mono; [by apply (uvmfree_empty k1 l1 root)|].
  intros [] k2 (l2 & Hk2 & Hl2 & Hs2). apply wp_ret. exists l2. split; [done|]. split.
  - eapply same_outside_trans; [exact Hs|]. eapply same_outside_mono; [|exact Hs2]. intros q Hq. rewrite Hl. apply elem_of_app. by left.
  - left. split; [done|]. split; [|done]. by rewrite Hl2, Hl.
Qed.

(** The second half: the trapframe is mapped, or everything is undone. *)
Lemma map_trapframe k l tf k2 l2 root (rest := (
    let* r := mappages root TRAPFRAME PGSIZE tf (Z.lor PTE_R PTE_W) in
    if r <? 0 then uvmunmap kend root TRAMPOLINE 1 false ;;; uvmfree kend root 0 ;;; ret 0 else ret root)) :
  page_ok kend tf → root ≠ 0 → node_inv kend k2 l2 2 root → clean (km_mem k2) 2 root →
  (∀ va, 0 ≤ va < MAXVA → page_aligned va → pteval (km_mem k2) 2 root va = if decide (va = TRAMPOLINE) then tramp_entry else 0) →
  l ≡ₚ pt_pages (km_mem k2) 2 root ++ l2 → (length (pt_pages (km_mem k2) 2 root) ≤ 5)%nat → same_outside l (km_mem k) (km_mem k2) →
  wp rest k2 (made k l tf).
Proof using kend_pos tramp_ok.
  intros Htf Hr0 Hinv2 Hc2 Hv2 Hl Hlen Hs. destruct TRAP_bounds as (T1 & T2 & T3 & T4 & T5), fixed_perms as [_ [P2 _]].
  destruct (page_ok_bounds kend kend_pos tf Htf) as [Htfb Htfa]. assert (tf + PGSIZE ≤ 2^56) as Htf2.
  { destruct Htf as [_ ?]. change PHYSTOP with 0x88000000 in *. unfold PGSIZE. lia. }
  destruct (map_page k2 l2 root TRAPFRAME tf (Z.lor PTE_R PTE_W))
    as (r & k3 & used3 & l3 & Hrun & (Hl3 & Hinv3 & Hp3 & Hs3 & Hv3 & Hlen3 & Hc3) & Hr);
    [done|lia|unfold PGSIZE in *; lia|done|lia|lia|done| |].
  { rewrite Hv2 by (done || unfold PGSIZE in *; lia). by rewrite decide_False by (unfold PGSIZE in *; lia). }
  apply wp_bind. unfold wp at 1. rewrite Hrun. clear Hrun.
  assert (l ≡ₚ pt_pages (km_mem k3) 2 root ++ l3) as Hl'.
  { rewrite Hl, Hp3, Hl3. by rewrite app_assoc, (Permutation_app_comm _ used3). }
  assert (same_outside l (km_mem k) (km_mem k3)) as Hs3'.
  { eapply same_outside_trans; [exact Hs|]. eapply same_outside_mono; [|exact Hs3]. intros q. rewrite Hl', Hp3, !elem_of_app. tauto. }
  destruct Hr as [->|[-> ->]]; cbn [Z.ltb Z.compare].
  - apply wp_ret. exists l3. split; [apply Hinv3|]. split; [done|]. right. split; [done|]. split; [done|].
    assert (∀ va, 0 ≤ va < MAXVA → page_aligned va → pteval (km_mem k3) 2 root va =
      if decide (va = TRAPFRAME) then frame_entry tf else if decide (va = TRAMPOLINE) then tramp_entry else 0) as Hv.
    { intros va Hva Hal. rewrite Hv3, Hv2 by done. destruct (decide (va = TRAPFRAME)) as [->|Hne].
      - rewrite decide_True by (unfold PGSIZE; lia). by rewrite Z.sub_diag, Z.add_0_r.
      - rewrite decide_False; [done|]. unfold page_aligned, PGSIZE in *. pose proof (Z.div_mod va 4096). pose proof (Z.div_mod TRAPFRAME 4096). lia. }
    split; [done|by apply Hc3|lia| | | | |done|].
    + intros va Hva. change (npages 0 0) with 0 in Hva. lia.
    + rewrite user_pages_0. split_and!; [apply NoDup_nil_2|done|]. intros q Hq. by apply not_elem_of_nil in Hq.
    + rewrite Hv by (done || unfold PGSIZE in *; lia). rewrite decide_False by (unfold PGSIZE in *; lia). by rewrite decide_True.
    + rewrite Hv by (done || unfold PGSIZE in *; lia). by rewrite decide_True.
    + change (PGROUNDUP 0) with 0. intros va Hva Hal H1 H2. rewrite Hv by done. by rewrite !decide_False by done.
  - assert (pteval (km_mem k3) 2 root TRAMPOLINE = tramp_entry) as Htr.
    { rewrite Hv3 by (done || unfold PGSIZE in *; lia). rewrite decide_False by (unfold PGSIZE in *; lia).
      rewrite Hv2 by (done || unfold PGSIZE in *; lia). by rewrite decide_True. }
    destruct (unmap_page k3 [] root TRAMPOLINE) as (k4 & Hrun4 & Hinv4 & Hp4 & Hs4 & Hv4 & Hc4); [done|unfold PGSIZE in *; lia|lia|done| | |].
    1,2: rewrite Htr; apply tramp_leaf.
    apply wp_bind. unfold wp at 1. rewrite Hrun4. apply (made_undo _ _ _ k4 [] root); [done|by apply Hc4, Hc3| | | |].
    + intros va Hva Hal. rewrite Hv4 by done. case_decide; [done|]. rewrite Hv3 by done. rewrite decide_False by lia.
      rewrite Hv2 by done. by rewrite decide_False by done.
    + by rewrite Hp4.
    + eapply same_outside_trans; [exact Hs3'|]. eapply same_outside_mono; [|exact Hs4]. intros q. rewrite Hl', elem_of_app. tauto.
    + rewrite Hl', app_nil_r, Hp3, length_app. lia.
Qed.

Lemma proc_pagetable_ok k l tf :
  kmem_ok kend k l → page_ok kend tf → wp (proc_pagetable kend trampoline tf) k (made k l tf).
Proof using kend_pos tramp_ok.
  intros Hk Htf. destruct TRAP_bounds as (T1 & T2 & T3 & T4 & T5), tramp_ok as [Htr1 Htr2], fixed_perms as [[P1 _] [P2 _]].
  destruct (page_ok_bounds kend kend_pos tf Htf) as [Htfb Htfa]. assert (tf + PGSIZE ≤ 2^56) as Htf2.
  { destruct Htf as [_ ?]. change PHYSTOP with 0x88000000 in *. unfold PGSIZE. lia. }
  unfold proc_pagetable. apply wp_bind.
  destruct (uvmcreate_ok k l Hk) as [[-> Hrun]|(root & l1 & k1 & -> & Hrun & Hr0 & Hinv1 & Hz1 & Hs1)]; unfold wp at 1; rewrite Hrun.
  { apply wp_ret. exists []. split; [done|]. split; [done|]. left. by split_and!; [..|cbn; lia]. }
  rewrite (proj2 (Z.eqb_neq root 0)) by done. clear Hrun.
  pose proof (zero_page_pages _ 2 _ Hz1) as Hp1. pose proof (zero_page_clean _ 2 _ Hz1) as Hc1.
  destruct (map_page k1 l1 root TRAMPOLINE trampoline (Z.lor PTE_R PTE_X))
    as (r & k2 & used2 & l2 & Hrun & (Hl2 & Hinv2 & Hp2 & Hs2 & Hv2 & Hlen2 & Hc2) & Hr);
    [done|unfold PGSIZE in *; lia|lia|done|lia|unfold PGSIZE in *; lia|done|by rewrite (zero_page_pteval _ 2 _ _ Hz1)|].
  rewrite Hp1 in Hp2, Hs2. apply wp_bind. unfold wp at 1. rewrite Hrun. clear Hrun.
  assert (same_outside (root :: l1) (km_mem k) (km_mem k2)) as Hs2'.
  { eapply same_outside_trans; (eapply same_outside_mono; [|done]); subst l1; clear; set_solver. }
  destruct Hr as [->|[-> ->]]; cbn [Z.ltb Z.compare].
  2: { apply (made_undo _ _ _ k2 [] root); [done|by apply Hc2| | |done|].
    - intros va Hva Hal. rewrite Hv2 by done. rewrite decide_False by lia. by apply zero_page_pteval.
    - rewrite Hp2, Hl2, !app_nil_r. by rewrite Permutation_app_comm.
    - rewrite Hl2, app_nil_r. cbn. lia. }
  assert (∀ va, 0 ≤ va < MAXVA → page_aligned va → pteval (km_mem k2) 2 root va = if decide (va = TRAMPOLINE) then tramp_entry else 0) as Hv2'.
  { intros va Hva Hal. rewrite Hv2, (zero_page_pteval _ 2 _ _ Hz1) by done. destruct (decide (va = TRAMPOLINE)) as [->|Hne].
    - rewrite decide_True by (unfold PGSIZE; lia). by rewrite Z.sub_diag, Z.add_0_r.
    - rewrite decide_False; [done|]. unfold PGSIZE in *. unfold page_aligned, PGSIZE in *. pose proof (Z.div_mod va 4096). pose proof (Z.div_mod TRAMPOLINE 4096). lia. }
  apply (map_trapframe k (root :: l1) tf k2 l2 root); [done|done|done|by apply Hc2|done| | |done].
  - rewrite Hp2, Hl2. solve_Permutation.
  - rewrite Hp2, length_app. cbn. lia.
Qed.

(** ** User accesses *)

(** Every entry is the entry of an aligned address below MAXVA. *)
Lemma clean_pteval m root va :
  clean m 2 root → has (pteval m 2 root va) PTE_V = true →
  ∃ va', 0 ≤ va' < MAXVA ∧ page_aligned va' ∧ pteval m 2 root va' = pteval m 2 root va.
Proof.
  intros Hc Hv. pose proof (PX_range 2 va ltac:(lia)) as R2. pose proof (PX_range 1 va ltac:(lia)) as R1.
  pose proof (PX_range 0 va ltac:(lia)) as R0. assert (PX 2 va < 256) as Hb.
  { rewrite pteval_S in Hv. cbv zeta in Hv. change (Z.of_nat 2) with 2 in Hv.
    destruct (has (load64 m (root + 8 * PX 2 va)) PTE_V) eqn:Hv2; [|done]. destruct (Hc (PX 2 va)) as (_ & Hb & _); [by apply elem_of_idx512|done|]. by apply Hb. }
  destruct (va_of_PX (PX 2 va) (PX 1 va) (PX 0 va)) as (Ha & Hal & E2 & E1 & E0); [lia|lia|lia|]. exists (va_of (PX 2 va) (PX 1 va) (PX 0 va)).
  split; [done|]. split; [done|]. unfold pteval, leaf_addr. change (Z.of_nat 2) with 2. change (Z.of_nat 1) with 1.
  by rewrite E2, E1, E0.
Qed.

Lemma fixed_no_user : has tramp_entry PTE_U = false ∧ ∀ tf, page_ok kend tf → has (frame_entry tf) PTE_U = false.
Proof using kend_pos tramp_ok.
  assert (∀ pa perm, 0 ≤ pa < 2^56 → page_aligned pa → 0 ≤ perm < 1024 → Z.land (Z.lor perm PTE_V) PTE_U = 0 →
    has (map_entry pa perm) PTE_U = false) as H.
  { intros pa perm Hpa Hal Hp Hz. destruct (new_pte_decode pa perm) as [_ E]; [done..|].
    assert (Z.land (map_entry pa perm) PTE_U = Z.land (PTE_FLAGS (map_entry pa perm)) PTE_U) as E'.
    { unfold PTE_FLAGS. by rewrite <-Z.land_assoc. }
    unfold has. unfold map_entry in *. rewrite E', E, Hz. done. }
  split; [destruct tramp_ok; apply (H trampoline (Z.lor PTE_R PTE_X)); [unfold PGSIZE in *; lia|done..]|].
  intros tf Htf. destruct (page_ok_bounds kend kend_pos tf Htf). apply (H tf (Z.lor PTE_R PTE_W)); [lia|done..].
Qed.

Lemma aspace_no_user k l root sz tf va :
  aspace k l root sz tf → PGROUNDUP sz ≤ va < MAXVA → page_aligned va → has (pteval (km_mem k) 2 root va) PTE_U = false.
Proof using kend_pos tramp_ok.
  intros [Hinv Hc Hsz Hmap Hown Htr Hfr Htf Hrest] Hva Hal. destruct fixed_no_user as [F1 F2].
  destruct (decide (va = TRAMPOLINE)) as [->|H1]; [by rewrite Htr|]. destruct (decide (va = TRAPFRAME)) as [->|H2]; [by rewrite Hfr, F2|].
  by rewrite Hrest.
Qed.

(** What a user program can reach is user memory. *)
Lemma aspace_user_page k l root sz tf w va pa :
  aspace k l root sz tf → user_page w (km_mem k) root va = Some pa →
  pa ∈ user_pages (km_mem k) root sz.
Proof using kend_pos tramp_ok.
  intros Has Hu. pose proof Has as [_ Hc Hsz _ _ _ _ _ _]. unfold user_page in Hu.
  destruct (has (pteval (km_mem k) 2 root va) PTE_V) eqn:Hv; [|by rewrite andb_false_r in Hu].
  destruct (has (pteval (km_mem k) 2 root va) PTE_U) eqn:HU; [|by rewrite andb_false_r in Hu].
  destruct (clean_pteval _ _ _ Hc Hv) as (va' & Hva' & Hal & E). rewrite <-E in Hv, HU, Hu.
  assert (PTE2PA (pteval (km_mem k) 2 root va') = pa) as <- by (destruct ((va <? MAXVA) && true && true && _); congruence).
  assert (va' < PGROUNDUP sz) as Hlt.
  { destruct (decide (va' < PGROUNDUP sz)) as [|Hge]; [done|]. exfalso.
    rewrite (aspace_no_user _ _ _ _ _ va' Has) in HU; [done|lia|done]. }
  destruct TRAP_bounds as (T1 & T2 & T3 & T4 & T5). destruct (npages_0 sz) as (_ & Ep & _); [unfold PGSIZE in *; lia|].
  unfold user_pages, leaves. apply list_elem_of_fmap. exists (va' `div` PGSIZE). split.
  - rewrite Z.add_0_l. f_equal. f_equal. unfold page_aligned, PGSIZE in *. pose proof (Z.div_mod va' 4096). lia.
  - apply elem_of_seqZ. unfold page_aligned, PGSIZE in *. pose proof (Z.div_mod va' 4096). lia.
Qed.

Lemma aspace_user_ok k l root sz tf lo hi :
  aspace k l root sz tf →
  (∀ q x, q ∈ user_pages (km_mem k) root sz ++ pt_pages (km_mem k) 2 root → in_page q x → ¬ lo ≤ x < hi) →
  user_ok kend (km_mem k) root lo hi.
Proof using kend_pos tramp_ok.
  intros Has Hd. pose proof Has as [(_ & Hok & _) _ _ _ (_ & Hus & Hfr) _ _ _ _]. split; [done|]. split.
  - intros va pa Hpa. pose proof (aspace_user_page _ _ _ _ _ _ _ _ Has Hpa) as Hin. rewrite Forall_forall in Hus.
    destruct (page_ok_bounds kend kend_pos pa (Hus pa Hin)) as [? _]. split; [lia|]. split; [apply (Hfr pa Hin)|].
    intros x Hx. apply (Hd pa); [|done]. exact (proj2 (elem_of_app _ _ _) (or_introl Hin)).
  - intros q x Hq. apply Hd. exact (proj2 (elem_of_app _ _ _) (or_intror Hq)).
Qed.

(** ** Growing an address space *)

Lemma leaves_app m root va a b : 0 ≤ a → 0 ≤ b → leaves m root va (a + b) = leaves m root va a ++ leaves m root (va + a * PGSIZE) b.
Proof.
  intros Ha Hb. unfold leaves. rewrite seqZ_app, fmap_app by lia. f_equal.
  rewrite Z.add_0_l, <-(Z.add_0_r a) at 1. rewrite <-(fmap_add_seqZ a), <-list_fmap_compose. apply list_fmap_ext.
  intros i x _. cbn. do 2 f_equal. lia.
Qed.

Lemma unchanged_aspace k l root sz tf k' used l' :
  aspace k l root sz tf → unchanged kend k l root k' used l' →
  aspace k' l' root sz tf ∧ user_pages (km_mem k') root sz = user_pages (km_mem k) root sz.
Proof.
  intros [Hinv Hc Hsz Hmap Hown Htr Hfr Htf Hrest] (Hl & Hinv' & Hp & Hs & Hv & Hc'). destruct TRAP_bounds as (T1 & T2 & T3 & T4 & T5).
  pose proof (size_roundup sz Hsz) as Hup. destruct (npages_0 sz) as (_ & Ep & _); [unfold PGSIZE in *; lia|].
  destruct (PGROUNDUP_bounds sz) as (Hb & _ & _); [unfold PGSIZE in *; lia|].
  assert (user_pages (km_mem k') root sz = user_pages (km_mem k) root sz) as Hus.
  { apply leaves_same; [done|]. intros va Hva. apply Hv. unfold PGSIZE in *; lia. }
  split; [|done]. split; try done.
  - by apply Hc'.
  - intros va Hva Hal. rewrite Hv; [by apply Hmap|unfold PGSIZE in *; lia|done].
  - rewrite Hus. destruct Hown as (H1 & H2 & H3). split; [done|]. split; [done|]. intros q Hq. destruct (H3 q Hq) as [Hq1 Hq2].
    rewrite Hl in Hq1. apply not_elem_of_app in Hq1 as [Hq1 Hq3]. split; [done|]. rewrite Hp. by apply not_elem_of_app.
  - rewrite Hv; [done|unfold PGSIZE in *; lia|done].
  - rewrite Hv; [done|unfold PGSIZE in *; lia|done].
  - intros va Hva Hal H1 H2. rewrite Hv; [by apply Hrest|unfold PGSIZE in *; lia|done].
Qed.

Lemma grown_aspace k l root sz tf perm bytes us k' used l' newsz :
  aspace k l root sz tf → grown kend k l root (PGROUNDUP sz) perm bytes us k' used l' → (∀ i, 0 ≤ i → leaf_perm (perm i)) →
  0 ≤ newsz ≤ TRAPFRAME → PGROUNDUP newsz = PGROUNDUP sz + length us * PGSIZE →
  aspace k' l' root newsz tf ∧ user_pages (km_mem k') root newsz = user_pages (km_mem k) root sz ++ us.
Proof using kend_pos.
  clear tramp_ok. intros [Hinv Hc Hsz Hmap Hown Htr Hfr Htf Hrest] Hg Hperm Hns Hnew. pose proof Hg as (Hl & Hinv' & Hp & Hs & Hv & _ & Hc').
  destruct TRAP_bounds as (T1 & T2 & T3 & T4 & T5). pose proof (size_roundup sz Hsz) as Hup. pose proof (size_roundup newsz Hns) as Hup'.
  destruct (npages_0 sz) as (_ & Ep & Hn0); [unfold PGSIZE in *; lia|]. destruct (npages_0 newsz) as (_ & Ep' & _); [unfold PGSIZE in *; lia|].
  destruct (PGROUNDUP_bounds sz) as (Hb & Hba & _); [unfold PGSIZE in *; lia|].
  destruct (grown_owned kend kend_pos k l root (PGROUNDUP sz) perm bytes Hinv ltac:(lia) Hba (λ i H _, Hperm i H) us k' used l' Hg)
    as (Hown' & Hmap' & Hlv); [unfold PGSIZE in *; lia|].
  assert (npages 0 newsz = npages 0 sz + length us) as En by (unfold PGSIZE in *; lia).
  assert (∀ va, 0 ≤ va < PGROUNDUP sz → page_aligned va → pteval (km_mem k') 2 root va = pteval (km_mem k) 2 root va) as Hlow.
  { intros va Hva Hal. rewrite Hv; [by rewrite decide_False by lia|unfold PGSIZE in *; lia|done]. }
  assert (user_pages (km_mem k') root newsz = user_pages (km_mem k) root sz ++ us) as Hus.
  { unfold user_pages. rewrite En, leaves_app by lia. rewrite Z.add_0_l, <-Ep, Hlv. f_equal. apply leaves_ext; [|done].
    intros va Hva. apply Hlow. lia. }
  split; [|done]. split; try done.
  - by apply Hc'.
  - intros va Hva Hal. destruct (decide (va < PGROUNDUP sz)); [rewrite Hlow by (done || lia); apply Hmap; (done || lia)|].
    apply Hmap'; [unfold PGSIZE in *; lia|done].
  - rewrite Hus. destruct Hown as (H1 & H2 & H3), Hown' as (H4 & H5 & H6). split; [|split; [by apply Forall_app|]].
    + apply NoDup_app. split; [done|]. split; [|done]. intros q Hq Hq'. destruct (H3 q Hq) as [Hql _]. apply Hql.
      rewrite Hl, !elem_of_app. tauto.
    + intros q [Hq|Hq]%elem_of_app; [|by apply H6]. destruct (H3 q Hq) as [Hq1 Hq2]. rewrite Hl in Hq1.
      rewrite !not_elem_of_app in Hq1. destruct Hq1 as (Hq1 & _ & Hq3). split; [done|]. rewrite Hp. by apply not_elem_of_app.
  - rewrite Hv; [|unfold PGSIZE in *; lia|done]. by rewrite decide_False by (unfold PGSIZE in *; lia).
  - rewrite Hv; [|unfold PGSIZE in *; lia|done]. by rewrite decide_False by (unfold PGSIZE in *; lia).
  - intros va Hva Hal H1 H2. rewrite Hv; [|unfold PGSIZE in *; lia|done]. rewrite decide_False by (unfold PGSIZE in *; lia). apply Hrest; (done || unfold PGSIZE in *; lia).
Qed.
End space.
