(* ===== verification/VmFork.v ===== *)
(** * Copying an address space, uvmcopy of kernel/vm.c *)

From S2P Require Import Prelude Riscv Mem Kalloc Vm VmTree VmSpec VmUser VmCopy VmFree VmSpace.

(** An address space whose table is not written to, with a new free list. *)
Lemma aspace_frame kend trampoline k l root sz tf k' l' ps :
  aspace kend trampoline k l root sz tf → kmem_ok kend k' l' →
  same_outside ps (km_mem k) (km_mem k') → Forall page_aligned ps →
  (∀ q, q ∈ pt_pages (km_mem k) 2 root → q ∉ ps) →
  (∀ q, q ∈ l' → q ∉ user_pages (km_mem k) root sz ++ pt_pages (km_mem k) 2 root) →
  aspace kend trampoline k' l' root sz tf ∧
  pt_pages (km_mem k') 2 root = pt_pages (km_mem k) 2 root ∧
  user_pages (km_mem k') root sz = user_pages (km_mem k) root sz.
Proof.
  intros [Hinv Hc Hsz Hmap Hown Htr Hfr Htf Hrest] Hk' Hs Hal Hps Hl.
  destruct (node_inv_frame kend k l 2 root k' l' ps) as (Hinv' & Hp & _ & Hv & Hc'); [done..| |].
  { intros q Hq. specialize (Hl q Hq). by apply not_elem_of_app in Hl as [_ ?]. }
  assert (user_pages (km_mem k') root sz = user_pages (km_mem k) root sz) as Hus by (by apply leaves_same).
  split; [|done]. split; try done.
  - by apply Hc'.
  - intros va Hva Hala. rewrite Hv. by apply Hmap.
  - rewrite Hus. destruct Hown as (H1 & H2 & H3). split; [done|]. split; [done|]. intros q Hq. split.
    + intros Hin. apply (Hl q Hin), elem_of_app. by left.
    + rewrite Hp. by apply H3.
  - by rewrite Hv.
  - by rewrite Hv.
  - intros va. rewrite Hv. apply Hrest.
Qed.

Section copy.
Context (kend trampoline : Z).
Hypothesis kend_pos : 0 < kend.

Section old.
Context (k : kmem) (l : list Z) (old new sz tf tf' : Z).
Hypothesis Hold : aspace kend trampoline k l old sz tf.
Hypothesis Hnew : aspace kend trampoline k l new 0 tf'.
Hypothesis Hdis : ∀ q, q ∈ user_pages (km_mem k) old sz ++ pt_pages (km_mem k) 2 old → q ∉ pt_pages (km_mem k) 2 new.

Let n : Z := npages 0 sz.
Let leaf (i : Z) : Z := PTE2PA (pteval (km_mem k) 2 old (i * PGSIZE)).

(** The flags and the contents of page [i] of the parent. *)
Definition old_perm (i : Z) : Z := if decide (i < n) then PTE_FLAGS (pteval (km_mem k) 2 old (i * PGSIZE)) else PTE_R.
Definition old_bytes (i o : Z) : Z := load8 (km_mem k) (leaf i + o).

Lemma old_entry i :
  0 ≤ i < n → 0 ≤ i * PGSIZE < MAXVA ∧ page_aligned (i * PGSIZE) ∧
  has (pteval (km_mem k) 2 old (i * PGSIZE)) PTE_V = true ∧ PTE_FLAGS (pteval (km_mem k) 2 old (i * PGSIZE)) ≠ PTE_V ∧
  leaf i ∈ user_pages (km_mem k) old sz.
Proof using Hold.
  intros Hi. destruct Hold as [_ _ Hsz Hmap _ _ _ _ _]. destruct TRAP_bounds as (T1 & T2 & T3 & T4 & T5).
  destruct (npages_0 sz) as (_ & Ep & _); [unfold PGSIZE in *; lia|].
  destruct (PGROUNDUP_bounds sz) as (_ & _ & Hb); [unfold PGSIZE in *; lia|]. fold n in Ep, Hmap.
  assert (page_aligned (i * PGSIZE)) as Hal by (unfold page_aligned; by apply Z_mod_mult).
  destruct (Hmap (i * PGSIZE)) as [H1 H2]; [unfold PGSIZE in *; lia|done|].
  split; [unfold PGSIZE in *; lia|]. split_and!; [done..|]. unfold user_pages, leaves. apply list_elem_of_fmap.
  exists i. split; [done|]. apply elem_of_seqZ. fold n. lia.
Qed.

Lemma flags_V v : has v PTE_V = true → Z.lor (PTE_FLAGS v) PTE_V = PTE_FLAGS v.
Proof.
  unfold PTE_V. rewrite has_bit by lia. intros Hv. apply Z.bits_inj'. intros j Hj. rewrite Z.lor_spec, Z.shiftl_0_r.
  destruct (decide (j = 0)) as [->|Hne].
  - unfold PTE_FLAGS. rewrite Z.land_spec, Hv. done.
  - assert (Z.testbit 1 j = false) as -> by (apply (Z.pow2_bits_false 0); lia). by rewrite orb_false_r.
Qed.

Lemma flags_range v : 0 ≤ PTE_FLAGS v < 1024.
Proof. unfold PTE_FLAGS. change 0x3FF with (Z.ones 10). rewrite Z.land_ones by lia. by apply Z.mod_pos_bound. Qed.

Lemma old_perm_ok i : 0 ≤ i → leaf_perm (old_perm i).
Proof using Hold.
  unfold old_perm. intros H0. destruct (decide (i < n)) as [Hi|]; [|by split].
  destruct (old_entry i) as (_ & _ & Hv & Hf & _); [lia|]. split; [apply flags_range|by rewrite flags_V].
Qed.

Definition copy_body : Z → M kmem (Z + (Z + Z)) :=
  λ i,
    if i <? sz then
      let* pte := walk old i false in
      if pte =? 0 then panic "uvmcopy: pte should exist"
      else
        let* v := ld64 pte in
        if negb (has v PTE_V) then panic "uvmcopy: page not present"
        else
          let pa := PTE2PA v in
          let flags := PTE_FLAGS v in
          let* m := kalloc in
          if m =? 0 then ret (inr (inr i))
          else
            memmove_k m pa PGSIZE ;;;
            let* r := mappages new i PGSIZE m flags in
            if negb (r =? 0) then kfree kend m ;;; ret (inr (inr i))
            else ret (inl (u64 (i + PGSIZE)))
    else ret (inr (inl 0)).

(** After copying the pages [us], with at most four new nodes for each. *)
Definition copied (us : list Z) (k' : kmem) (used l' : list Z) : Prop :=
  grown kend k l new 0 old_perm old_bytes us k' used l'.

(** The parent's table and pages are not touched. *)
Lemma copied_old us k1 used l1 :
  copied us k1 used l1 →
  (∀ va, leaf_addr (km_mem k1) 2 old va = leaf_addr (km_mem k) 2 old va) ∧
  (∀ va, pteval (km_mem k1) 2 old va = pteval (km_mem k) 2 old va) ∧
  (∀ q x, q ∈ user_pages (km_mem k) old sz → in_page q x → load8 (km_mem k1) x = load8 (km_mem k) x).
Proof using Hold Hnew Hdis.
  intros (_ & _ & _ & Hs & _). destruct Hold as [(Hk & Hok & Hd) _ _ _ (_ & Hus & Hfr) _ _ _ _], Hnew as [(_ & Hokn & _) _ _ _ _ _ _ _ _].
  assert (Forall page_aligned (l ++ pt_pages (km_mem k) 2 new)) as Hal.
  { apply Forall_app. split; apply page_ok_aligned with kend; [by apply (free_pages_ok kend k)|apply Hokn]. }
  destruct (tree_frame kend (l ++ pt_pages (km_mem k) 2 new) (km_mem k) (km_mem k1) 2 old Hok Hs Hal) as (_ & H1 & H2).
  { intros q Hq [Hl|Hn]%elem_of_app; [exact (Hd q Hl Hq)|]. exact (Hdis q (proj2 (elem_of_app _ _ _) (or_intror Hq)) Hn). }
  split; [done|]. split; [done|]. intros q x Hq Hx. apply Hs. intros p Hp Hx'. rewrite Forall_forall in Hus, Hal.
  rewrite <-(pages_disjoint q p x) in Hp; [|apply (Hus q Hq)|by apply Hal|done..]. destruct (Hfr q Hq) as [Hql _].
  apply elem_of_app in Hp as [?|Hn]; [done|]. exact (Hdis q (proj2 (elem_of_app _ _ _) (or_introl Hq)) Hn).
Qed.

(** The page that receives the copy of page [i]. *)
Lemma copy_fill us k1 used p l1 :
  copied us k1 used (p :: l1) → length us < n →
  ∃ k2, kalloc k1 = Done p k2 ∧ let k3 := upd_mem (λ m, memmove m p (leaf (length us)) PGSIZE) k2 in
    node_inv kend k3 l1 2 new ∧ page_holds (km_mem k3) p (old_bytes (length us)) ∧
    pt_pages (km_mem k3) 2 new = pt_pages (km_mem k1) 2 new ∧ same_outside [p] (km_mem k1) (km_mem k3) ∧
    (∀ va, pteval (km_mem k3) 2 new va = pteval (km_mem k1) 2 new va) ∧
    (clean (km_mem k1) 2 new → clean (km_mem k3) 2 new).
Proof using All.
  intros Hg Hlt. pose proof (copied_old _ _ _ _ Hg) as (_ & _ & Hpg). pose proof Hg as (Hl & Hinv1 & _).
  destruct (fresh_page kend kend_pos new (λ m, memmove m p (leaf (length us)) PGSIZE) k1 p l1 Hinv1)
    as (k2 & Hka & Hs2 & Hinv3 & Hp3 & Hs3 & Hv3 & Hc3).
  { intros m x Hx. rewrite load8_memmove by done. rewrite decide_False; [done|]. apply (Hx p), list_elem_of_here. }
  exists k2. split; [done|]. split; [done|]. split; [|done].
  intros o Ho. cbn [upd_mem km_mem]. rewrite load8_memmove, decide_True by lia. replace (p + o - p) with o by lia.
  destruct (old_entry (length us)) as (_ & _ & _ & _ & Hin); [lia|]. unfold old_bytes.
  destruct Hold as [_ _ _ _ (_ & Hus & Hfr) _ _ _ _]. rewrite Forall_forall in Hus.
  assert (in_page (leaf (length us)) (leaf (length us) + o)) as Hx by (unfold in_page; lia).
  rewrite <-(Hpg _ _ Hin Hx). apply Hs2. intros q ->%list_elem_of_singleton Hq.
  assert (page_ok kend p) as Hpok by (destruct Hinv1 as [Hk1 _]; apply free_pages_ok in Hk1; by inversion Hk1).
  destruct (Hfr (leaf (length us)) Hin) as [Hnl _]. apply Hnl.
  rewrite (pages_disjoint (leaf (length us)) p _ (proj1 (Hus _ Hin)) (proj1 Hpok) Hx Hq).
  rewrite Hl, !elem_of_app. right. right. left.
Qed.

Lemma copy_step us k1 used l1 :
  copied us k1 used l1 → length us < n →
  let i := length us * PGSIZE in
  (∃ p k' used' l', copy_body i k1 = Done (inl ((1 + length us) * PGSIZE)) k' ∧ copied (us ++ [p]) k' (used' ++ used) l' ∧
     length used' ≤ 4) ∨
  (∃ k' used' l', copy_body i k1 = Done (inr (inr i)) k' ∧ copied us k' (used' ++ used) l' ∧ length used' + length l' ≤ 3).
Proof using All.
  intros Hg Hlt i. destruct (old_entry (length us)) as (Hi1 & Hi2 & Hv & Hf & _); [lia|]. fold i in Hi1, Hi2, Hv, Hf.
  pose proof (copied_old _ _ _ _ Hg) as (Hla & Hpt & _). pose proof Hg as (_ & Hinv1 & _).
  destruct (pteval_present _ _ _ Hv) as (pte & Hleaf & Hld).
  assert (load64 (km_mem k1) pte = pteval (km_mem k) 2 old i) as Hld1.
  { rewrite <-Hpt. unfold pteval. by rewrite Hla, Hleaf. }
  assert (0 < pte) as Hpte by (eapply (leaf_addr_pos kend kend_pos); [|exact Hleaf]; apply (as_inv _ _ _ _ _ _ _ Hold)).
  destruct (PGROUNDUP_bounds sz) as (Hb1 & _ & Hb3); [destruct Hold, TRAP_bounds as (_ & _ & ? & ? & _); unfold PGSIZE in *; lia|].
  destruct (npages_0 sz) as (_ & Ep & _); [destruct Hold, TRAP_bounds as (_ & _ & ? & ? & _); unfold PGSIZE in *; lia|]. fold n in Ep.
  assert (i < sz) as Hisz.
  { unfold i, n in *. unfold PGSIZE in *. lia. }
  unfold copy_body. rewrite (proj2 (Z.ltb_lt i sz)) by done. unfold bind. rewrite walk_read, Hla, Hleaf by done.
  change (default 0 (Some pte)) with pte. cbv beta iota.
  rewrite (proj2 (Z.eqb_neq pte 0)) by lia. unfold ld64, gets. cbv beta iota. rewrite Hld1, Hv. cbn [negb].
  destruct l1 as [|p l1].
  { right. exists k1, [], []. rewrite (kalloc_nil kend) by apply Hinv1. cbn. split_and!; [done..|lia]. }
  destruct (copy_fill us k1 used p l1 Hg Hlt) as (k2 & -> & Hinv3 & Hh3 & Hp3 & Hs3 & Hv3 & Hc3).
  assert (page_ok kend p) as Hpok by (destruct Hinv1 as [Hk1 _]; apply free_pages_ok in Hk1; by inversion Hk1).
  destruct (page_ok_bounds kend kend_pos p Hpok) as [Hpb _]. assert (p + PGSIZE ≤ 2^56) as Hpb2.
  { destruct Hpok as [_ ?]. change PHYSTOP with 0x88000000 in *. unfold PGSIZE. lia. }
  rewrite (proj2 (Z.eqb_neq p 0)) by lia. unfold memmove_k, modify. cbv beta iota.
  change (PTE2PA (pteval (km_mem k) 2 old i)) with (leaf (length us)).
  set (k3 := upd_mem _ k2) in *. clearbody k3.
  assert (PTE_FLAGS (pteval (km_mem k) 2 old i) = old_perm (length us)) as -> by (unfold old_perm; by rewrite decide_True).
  destruct (map_page kend kend_pos k3 l1 new i p (old_perm (length us))) as (r & k4 & used4 & l4 & -> & Hmp & Hr);
    [done|lia|unfold i, PGSIZE in *; lia|done|lia|done|apply old_perm_ok; lia| |].
  { rewrite Hv3. destruct Hg as (_ & _ & _ & _ & Hv' & _). rewrite Hv' by done. rewrite decide_False by (unfold i; lia).
    rewrite (as_rest _ _ _ _ _ _ _ Hnew); [done|change (PGROUNDUP 0) with 0; lia|done|..];
      destruct Hold, TRAP_bounds as (_ & _ & ? & ? & _); unfold PGSIZE in *; lia. }
  assert (i = 0 + length us * PGSIZE) as Ei by (unfold i; lia). rewrite Ei in Hmp.
  assert (0 + (1 + length us) * PGSIZE ≤ MAXVA) as Hmax by (unfold PGSIZE in *; lia).
  destruct Hr as [->|[-> ->]]; cbn [Z.eqb negb].
  - left. exists p, k4, used4, l4. split; [|split].
    + unfold ret. do 2 f_equal. unfold u64, i. change MAXVA with (2^38) in Hmax. rewrite Z.mod_small; unfold PGSIZE in *; lia.
    + by eapply (grown_snoc kend k l new 0 old_perm old_bytes (as_inv _ _ _ _ _ _ _ Hnew)).
    + destruct Hmp as (_ & _ & _ & _ & _ & Hlen & _). lia.
  - right. destruct (grown_fail kend kend_pos k l new 0 old_perm old_bytes (as_inv _ _ _ _ _ _ _ Hnew) us k1 used l1 p k3 k4 used4)
      as (k5 & -> & Hg5); [done..|].
    exists k5, used4, [p]. split; [done|]. split; [done|]. destruct Hmp as (_ & _ & _ & _ & _ & Hlen & _). cbn. lia.
Qed.

Lemma copy_loop (j : nat) : ∀ us k1 used l1,
  copied us k1 used l1 → length used ≤ 4 * length us → Z.of_nat (length us + j) = n →
  (∃ us' k' used' l', loop (S j) copy_body (length us * PGSIZE) k1 = Done (inl 0) k' ∧ copied us' k' used' l' ∧ Z.of_nat (length us') = n) ∨
  (∃ us' k' used' l', loop (S j) copy_body (length us * PGSIZE) k1 = Done (inr (length us' * PGSIZE)) k' ∧
     copied us' k' used' l' ∧ length us' < n ∧ length used' + length us' + length l' < 5 * n).
Proof using All.
  destruct (npages_0 sz) as (_ & Ep & _); [destruct Hold, TRAP_bounds as (_ & _ & ? & ? & _); unfold PGSIZE in *; lia|]. fold n in Ep.
  destruct (PGROUNDUP_bounds sz) as (Hb1 & _ & Hb3); [destruct Hold, TRAP_bounds as (_ & _ & ? & ? & _); unfold PGSIZE in *; lia|].
  induction j as [|j IH]; intros us k1 used l1 Hg Hlen Hn.
  { left. exists us, k1, used, l1. split; [|split; [done|lia]]. cbn [loop]. unfold bind, copy_body.
    rewrite (proj2 (Z.ltb_ge _ _)); [done|]. unfold PGSIZE in *; lia. }
  destruct (copy_step us k1 used l1 Hg) as [(p & k2 & used2 & l2 & Hrun & Hg2 & Hl2)|(k2 & used2 & l2 & Hrun & Hg2 & Hl2)]; [lia| |].
  - destruct (IH (us ++ [p]) k2 (used2 ++ used) l2 Hg2) as [(us' & k' & used' & l' & Hrun' & H)|(us' & k' & used' & l' & Hrun' & H)].
    { rewrite !length_app. cbn. lia. } { rewrite length_app. cbn. lia. }
    all: rewrite length_app in Hrun'; cbn [length] in Hrun'; replace (Z.of_nat (length us + 1)) with (1 + length us) in Hrun' by lia.
    1: left. 2: right. all: exists us', k', used', l'; split; [|done]; cbn [loop] in Hrun' |- *; unfold bind in Hrun' |- *; by rewrite Hrun.
  - right. exists us, k2, (used2 ++ used), l2. split; [|split; [done|]].
    + cbn [loop]. unfold bind. by rewrite Hrun.
    + rewrite length_app. lia.
Qed.

(** uvmcopy maps a copy of every page, or undoes what it did; then fewer
    than 5 pages for each to copy were free. *)
Lemma uvmcopy_ok :
  wp (uvmcopy kend old new sz) k (λ r k', ∃ used l',
    (r = 0 ∧ ∃ us, copied us k' used l' ∧ Z.of_nat (length us) = n) ∨
    (r = -1 ∧ unchanged kend k l new k' used l' ∧ length l < 5 * n)).
Proof using All.
  pose proof (as_inv _ _ _ _ _ _ _ Hnew) as Hinv. pose proof TRAP_bounds as (_ & _ & T3 & T4 & _).
  pose proof (as_size _ _ _ _ _ _ _ Hold) as Hsz. pose proof (size_roundup sz Hsz) as Hup. assert (sz ≤ MAXVA) as Hszm by (unfold PGSIZE in *; lia).
  destruct (npages_0 sz) as (En & Ep & Hn); [lia|]. destruct (PGROUNDUP_bounds sz) as (_ & _ & Hb3); [lia|]. fold n in En, Ep, Hn.
  assert (uvmcopy kend old new sz = let* r := loop (S (Z.to_nat n)) copy_body 0 in match r with
    | inl status => ret status
    | inr i => uvmunmap kend new 0 (i `div` PGSIZE) true ;;; ret (-1) end) as ->.
  { assert (0 ≤ sz ≤ 2^64 - PGSIZE) as Hs64 by (change MAXVA with 274877906944 in Hszm; unfold PGSIZE; lia).
    unfold uvmcopy. rewrite En, (PGROUNDUP_small sz Hs64).
    rewrite Z.div_mul by done. replace (sz + PGSIZE - 1) with (sz + 4095) by (unfold PGSIZE; lia). done. }
  pose proof (grown_nil kend k l new 0 old_perm old_bytes Hinv) as Hg.
  apply wp_bind. destruct (copy_loop (Z.to_nat n) [] k [] l Hg) as [(us & k' & used & l' & Hrun & Hc & Hl)|(us & k' & used & l' & Hrun & Hc & Hl & Hlen)];
    [cbn; lia|cbn; lia| |]; cbn [length] in Hrun; rewrite Z.mul_0_l in Hrun; unfold wp at 1; rewrite Hrun.
  { apply wp_ret. exists used, l'. left. split; [done|]. by exists us. }
  rewrite Z.div_mul by done. assert (0 + length us * PGSIZE ≤ MAXVA) as Hmax by (unfold PGSIZE in *; lia).
  destruct (grown_owned kend kend_pos k l new 0 old_perm old_bytes Hinv ltac:(lia) eq_refl (λ i H _, old_perm_ok i H) us k' used l' Hc Hmax)
    as (Hown & Hmap & Hlv). pose proof Hc as (Hll & Hinv' & Hp' & Hs' & Hv' & _ & Hc').
  destruct (uvmunmap_ok kend kend_pos k' l' new 0 (length us) true) as (k2 & Hrun2 & Hpost); [done|lia|lia|done|done|done|by rewrite Hlv|].
  unfold unmapped_post in Hpost. cbv zeta in Hpost. rewrite Hlv in Hpost. destruct Hpost as (Hinv2 & Hp2 & Hs2 & Hv2 & Hc2).
  apply wp_bind. unfold wp at 1. rewrite Hrun2. apply wp_ret. exists used, (reverse us ++ l'). right. split; [done|]. split.
  - split_and!; [by rewrite Hll, (reverse_Permutation us)|done|by rewrite Hp2, Hp'| | |by auto].
    + eapply same_outside_trans; [exact Hs'|]. eapply same_outside_mono; [|exact Hs2]. intros q. rewrite Hp', Hll, !elem_of_app. tauto.
    + intros va Hva Hal. rewrite Hv2, Hv' by done. case_decide; [|done]. symmetry.
      apply (as_rest _ _ _ _ _ _ _ Hnew); [change (PGROUNDUP 0) with 0; lia|done|..]; unfold PGSIZE in *; lia.
  - rewrite Hll, !length_app. lia.
Qed.

Lemma has_flags v f : Z.land 0x3FF f = f → has v f = has (PTE_FLAGS v) f.
Proof. intros Hf. unfold has, PTE_FLAGS. by rewrite <-Z.land_assoc, Hf. Qed.

Hypothesis tramp_ok : 0 ≤ trampoline < 2^56 - PGSIZE ∧ page_aligned trampoline.

(** The same entries, but for the page: the same accesses are possible. *)
Lemma copied_user_page us k' used l' va0 :
  copied us k' used l' → Z.of_nat (length us) = n → aspace kend trampoline k' l' new sz tf' →
  0 ≤ va0 → page_aligned va0 →
  (va0 < PGROUNDUP sz ∧ 0 ≤ va0 `div` PGSIZE < n ∧ ∃ p, us !! Z.to_nat (va0 `div` PGSIZE) = Some p ∧
     ∀ w, user_page w (km_mem k') new va0 = (λ _, p) <$> user_page w (km_mem k) old va0) ∨
  (∀ w, user_page w (km_mem k') new va0 = None ∧ user_page w (km_mem k) old va0 = None).
Proof using All.
  intros Hg Hn Has H0 Hal. pose proof Hg as (Hl & _ & _ & _ & Hv & _).
  destruct (Z.ltb_spec va0 MAXVA) as [Hmax|Hmax]; cycle 1.
  { right. intros w. unfold user_page. rewrite (proj2 (Z.ltb_ge _ _)) by done. done. }
  destruct (decide (PGROUNDUP sz ≤ va0)) as [Hge|Hlt].
  { right. intros w. unfold user_page. rewrite (aspace_no_user _ _ kend_pos tramp_ok _ _ _ _ _ va0 Has) by done.
    rewrite (aspace_no_user _ _ kend_pos tramp_ok _ _ _ _ _ va0 Hold) by done. by rewrite !andb_false_r. }
  left. destruct (npages_0 sz) as (_ & Ep & _); [destruct Hold, TRAP_bounds as (_ & _ & ? & ? & _); unfold PGSIZE in *; lia|]. fold n in Ep.
  assert (va0 = va0 `div` PGSIZE * PGSIZE) as Ei by (unfold page_aligned, PGSIZE in *; pose proof (Z.div_mod va0 4096); lia).
  set (i := va0 `div` PGSIZE) in *. assert (0 ≤ i < n) as Hi by (unfold PGSIZE in *; lia). split; [lia|]. split; [done|].
  destruct (lookup_lt_is_Some_2 us (Z.to_nat i)) as [p Hp]; [lia|]. exists p. split; [done|].
  assert (page_ok kend p) as Hpok.
  { pose proof (free_pages_ok _ _ _ (proj1 (as_inv _ _ _ _ _ _ _ Hold))) as Hok. rewrite Hl, !Forall_app in Hok. destruct Hok as (_ & Hok & _).
    by eapply Forall_lookup_1. }
  destruct (page_ok_bounds kend kend_pos p Hpok) as [Hpb Hpa]. destruct (old_entry i Hi) as (_ & _ & Hov & _ & _).
  assert (pteval (km_mem k') 2 new va0 = map_entry p (PTE_FLAGS (pteval (km_mem k) 2 old va0))) as E.
  { rewrite Hv by done. rewrite decide_True by (unfold PGSIZE in *; lia). cbv zeta. rewrite Z.sub_0_r. fold i.
    rewrite (list_lookup_total_correct _ _ _ Hp). unfold old_perm. rewrite decide_True by lia. by rewrite <-Ei. }
  rewrite <-Ei in Hov. destruct (new_pte_decode p (PTE_FLAGS (pteval (km_mem k) 2 old va0))) as [E1 E2]; [lia|done|apply flags_range|].
  intros w. unfold user_page. rewrite E. unfold map_entry. rewrite E1. rewrite flags_V in E2 by done.
  rewrite !(has_flags (Z.lor _ _)) by done. rewrite E2, <-!has_flags by done. by destruct (_ && _ && _ && _).
Qed.

(** The child's memory is a copy of the parent's. *)
Definition same_user_memory (m : mem) (root : Z) (m' : mem) (root' : Z) : Prop :=
  ∀ va, 0 ≤ va < 2^64 → user_load m' root' va = user_load m root va ∧
    (is_Some (user_addr true m' root' va) ↔ is_Some (user_addr true m root va)).

Lemma copied_memory us k' used l' :
  copied us k' used l' → Z.of_nat (length us) = n →
  aspace kend trampoline k' l' new sz tf' ∧ user_pages (km_mem k') new sz = us ∧
  same_user_memory (km_mem k) old (km_mem k') new.
Proof using All.
  intros Hg Hn. destruct (npages_0 sz) as (_ & Ep & _); [destruct Hold, TRAP_bounds as (_ & _ & ? & ? & _); unfold PGSIZE in *; lia|]. fold n in Ep.
  destruct (grown_aspace kend trampoline kend_pos k l new 0 tf' old_perm old_bytes us k' used l' sz Hnew Hg) as [Has Hus];
    [apply old_perm_ok|apply Hold|change (PGROUNDUP 0) with 0; lia|].
  rewrite user_pages_0 in Hus. split; [done|]. split; [done|]. intros va Hva.
  destruct (page_split va Hva) as (Hd & Hb & Hm & _). unfold user_load, user_addr.
  assert (page_aligned (PGROUNDDOWN va)) as Hal.
  { rewrite PGROUNDDOWN_spec by done. unfold page_aligned, PGSIZE. rewrite Zminus_mod, Zmod_mod, Z.sub_diag. done. }
  destruct (copied_user_page us k' used l' (PGROUNDDOWN va) Hg Hn Has) as [(_ & Hi & p & Hp & Hpg)|Hnone];
    [rewrite PGROUNDDOWN_spec by done; pose proof (Z.mod_pos_bound va 4096); pose proof (Z.mod_le va 4096); lia|done| |].
  - rewrite !Hpg. split; [|by destruct (user_page true (km_mem k) old (PGROUNDDOWN va))].
    destruct (user_page false (km_mem k) old (PGROUNDDOWN va)) as [pa|] eqn:Hpa; [|done]. cbn. f_equal.
    destruct Hg as (_ & _ & _ & _ & _ & Hh & _). pose proof (Z.mod_pos_bound va PGSIZE eq_refl) as Hr.
    rewrite (Hh _ _ Hp) by done. unfold old_bytes. f_equal. f_equal. unfold leaf.
    assert (PGROUNDDOWN va = Z.to_nat (PGROUNDDOWN va `div` PGSIZE) * PGSIZE) as <-.
    { unfold page_aligned, PGSIZE in *. pose proof (Z.div_mod (PGROUNDDOWN va) 4096). lia. }
    unfold user_page in Hpa. by destruct (_ && _ && _ && _); simplify_eq.
  - destruct (Hnone false) as [-> ->], (Hnone true) as [-> ->]. done.
Qed.
End old.
End copy.
