(* ===== verification/VmExample.v ===== *)
(** * Checking page-table invariants on concrete memories

    The invariants of the virtual memory proofs are decidable on a given
    memory: the entries of a table can be listed. The checks are used on a
    small concrete machine state with one user page and three free pages. *)

From S2P Require Import Prelude Riscv Mem Kalloc Vm VmTree VmSpec VmUser VmCopy.

#[global] Instance page_ok_dec kend p : Decision (page_ok kend p).
Proof. unfold page_ok, page_aligned. apply _. Defined.

#[global] Instance chain_dec kend m head l : Decision (chain kend m head l).
Proof. revert head. induction l as [|p l IH]; intros head; simpl; apply _. Defined.

#[global] Instance kmem_ok_dec kend k l : Decision (kmem_ok kend k l).
Proof. unfold kmem_ok. apply _. Defined.

#[global] Instance tree_ok_dec kend m level root : Decision (tree_ok kend m level root).
Proof. unfold tree_ok. apply _. Defined.

Definition node_inv_check (kend : Z) (k : kmem) (l : list Z) (root : Z) : bool :=
  bool_decide (kmem_ok kend k l) && bool_decide (tree_ok kend (km_mem k) 2 root) &&
  bool_decide (Forall (.∉ pt_pages (km_mem k) 2 root) l).

Lemma node_inv_check_ok kend k l root :
  node_inv_check kend k l root = true → node_inv kend k l 2 root.
Proof.
  unfold node_inv_check. rewrite !andb_true_iff, !bool_decide_eq_true.
  intros [[Hk Ht] Hd]. split; [done|]. split; [done|]. by apply Forall_forall.
Qed.

(** The level-0 entries of a table, with their addresses. *)
Fixpoint pt_entries (m : mem) (level : nat) (root : Z) : list (Z * Z) :=
  match level with
  | O => (λ i, (root + 8 * i, load64 m (root + 8 * i))) <$> idx512
  | S level =>
      idx512 ≫= λ i,
        let v := load64 m (root + 8 * i) in
        if has v PTE_V then pt_entries m level (PTE2PA v) else []
  end.

Lemma leaf_addr_entry m level root va a :
  leaf_addr m level root va = Some a → (a, load64 m a) ∈ pt_entries m level root.
Proof.
  revert root. induction level as [|level IH]; intros root; cbn [pt_entries].
  - unfold leaf_addr. intros [= <-]. apply list_elem_of_fmap. exists (PX 0 va). split; [done|]. by apply PX_elem.
  - rewrite leaf_addr_S. cbv zeta.
    destruct (has (load64 m (root + 8 * PX (S level) va)) PTE_V) eqn:Hv; [|done].
    intros H. apply list_elem_of_bind.
    exists (PX (S level) va). rewrite Hv. split; [by apply IH|]. apply PX_elem. lia.
Qed.

(** The entries that are present and accessible to the user. *)
Definition user_entries (m : mem) (root : Z) : list (Z * Z) :=
  filter (λ e, has e.2 PTE_V && has e.2 PTE_U = true) (pt_entries m 2 root).

Lemma user_page_entry w m root va pa :
  user_page w m root va = Some pa →
  ∃ a, leaf_addr m 2 root va = Some a ∧ (a, load64 m a) ∈ user_entries m root ∧
       pa = PTE2PA (load64 m a) ∧ va < MAXVA.
Proof.
  unfold user_page, pteval.
  destruct (leaf_addr m 2 root va) as [a|] eqn:Ha.
  2: { simpl. by rewrite andb_false_r. }
  destruct (Z.ltb_spec va MAXVA), (has (load64 m a) PTE_V) eqn:Hv,
    (has (load64 m a) PTE_U) eqn:Hu; simpl; try done.
  case_match; [|done]. intros [= <-]. exists a. split; [done|]. split; [|done].
  apply list_elem_of_filter. cbn [snd]. rewrite Hv, Hu. split; [done|]. by eapply leaf_addr_entry.
Qed.

Definition user_ok_check (kend : Z) (m : mem) (root lo hi : Z) : bool :=
  bool_decide (tree_ok kend m 2 root) &&
  forallb (λ e, let pa := PTE2PA e.2 in
    (0 <? pa) && bool_decide (pa ∉ pt_pages m 2 root) &&
    ((hi <=? pa) || (pa + PGSIZE <=? lo))) (user_entries m root) &&
  forallb (λ q, (hi <=? q) || (q + PGSIZE <=? lo)) (pt_pages m 2 root).

Lemma user_ok_check_ok kend m root lo hi :
  user_ok_check kend m root lo hi = true → user_ok kend m root lo hi.
Proof.
  unfold user_ok_check. rewrite !andb_true_iff, bool_decide_eq_true, !forallb_forall.
  intros [[Ht Hu] Hp]. split; [done|]. split.
  - intros va pa (a & _ & Hin & -> & _)%user_page_entry.
    apply list_elem_of_In in Hin. apply Hu in Hin. simpl in Hin.
    rewrite !andb_true_iff, orb_true_iff, bool_decide_eq_true in Hin.
    destruct Hin as [[Hpos Hn] Hd]. split; [lia|]. split; [done|].
    intros x Hx. unfold in_page in Hx. lia.
  - intros q x Hq%list_elem_of_In Hx. apply Hp in Hq. unfold in_page in Hx. lia.
Qed.

Definition user_inj_check (kend : Z) (m : mem) (root : Z) : bool :=
  bool_decide (tree_ok kend m 2 root) &&
  bool_decide (NoDup ((λ e, PTE2PA e.2) <$> user_entries m root)).

Lemma NoDup_fmap_eq {A B} (f : A → B) (l : list A) x y :
  NoDup (f <$> l) → x ∈ l → y ∈ l → f x = f y → x = y.
Proof.
  intros Hnd Hx Hy Hf. apply list_elem_of_lookup in Hx as [i Hi], Hy as [j Hj].
  assert (i = j) as ->; [|congruence].
  eapply NoDup_lookup; [done| |]; rewrite list_lookup_fmap; [by rewrite Hi|by rewrite Hj, Hf].
Qed.

Lemma user_inj_check_ok kend m root : user_inj_check kend m root = true → user_inj m root.
Proof.
  unfold user_inj_check. rewrite andb_true_iff, !bool_decide_eq_true.
  intros [Ht Hnd] va1 va2 a H1 H2 Ha1 Ha2.
  apply fmap_Some in Ha1 as (p1 & Hp1 & Ha1), Ha2 as (p2 & Hp2 & Ha2).
  destruct (page_split va1 H1) as (Hd1 & Hb1 & Hl1 & _).
  destruct (page_split va2 H2) as (Hd2 & Hb2 & Hl2 & _).
  pose proof (user_page_aligned _ _ _ _ _ Hp1). pose proof (user_page_aligned _ _ _ _ _ Hp2).
  assert (p1 = p2) as <-.
  { apply (pages_disjoint p1 p2 a); [done..| |]; unfold in_page; lia. }
  apply user_page_entry in Hp1 as (a1 & Hla1 & He1 & Hpa1 & Hm1).
  apply user_page_entry in Hp2 as (a2 & Hla2 & He2 & Hpa2 & Hm2).
  assert ((a1, load64 m a1) = (a2, load64 m a2)) as [= <- _].
  { eapply NoDup_fmap_eq; [exact Hnd|done|done|]. simpl. congruence. }
  assert (PGROUNDDOWN va1 = PGROUNDDOWN va2) as Heq; [|lia].
  assert (∀ va, 0 ≤ va < 2^64 → page_aligned (PGROUNDDOWN va)) as Hal.
  { intros va Hva. destruct (page_split va Hva) as (-> & _). unfold page_aligned, PGSIZE.
    pose proof (Z.div_mod va 4096). replace (va - va `mod` 4096) with (va `div` 4096 * 4096) by lia.
    by apply Z_mod_mult. }
  apply PX_inj; [lia|lia|by apply Hal|by apply Hal|].
  intros l Hl. by eapply leaf_addr_inj; [exact Ht| | |].
Qed.

(** ** A concrete machine state

    The root at 0x87000000 leads through two nodes to the user page
    0x87003000, mapped at virtual address 0x1000; three pages are free. *)
Definition ex_end : Z := 0x80021000.
Definition ex_root : Z := 0x87000000.
Definition ex_mem : mem :=
  let m := store64 ∅ 0x87000000 (Z.lor (PA2PTE 0x87001000) PTE_V) in
  let m := store64 m 0x87001000 (Z.lor (PA2PTE 0x87002000) PTE_V) in
  let m := store64 m 0x87002008
    (Z.lor (PA2PTE 0x87003000) (Z.lor (Z.lor PTE_R PTE_W) (Z.lor PTE_U PTE_V))) in
  let m := store64 m 0x87004000 0x87005000 in
  store64 m 0x87005000 0x87006000.
Definition ex_k : kmem := Kmem ex_mem 0x87004000.
Definition ex_free : list Z := [0x87004000; 0x87005000; 0x87006000].

Lemma ex_inv : node_inv ex_end ex_k ex_free 2 ex_root.
Proof. apply node_inv_check_ok. vm_compute. reflexivity. Qed.

Lemma ex_user_ok : user_ok ex_end ex_mem ex_root 0x80001000 0x80002000.
Proof. apply user_ok_check_ok. vm_compute. reflexivity. Qed.

Lemma ex_user_inj : user_inj ex_mem ex_root.
Proof. apply (user_inj_check_ok ex_end). vm_compute. reflexivity. Qed.
