(* ===== verification/VmTheorems.v ===== *)
(** * Theorems about virtual memory, kernel/vm.c

    What callers of vm.c rely on: [mappages] installs the requested
    translations or runs out of memory; [uvmunmap] and [uvmalloc] keep the
    page allocator and the table consistent on every path; the copy routines
    do what byte-wise user accesses would do. *)

From S2P Require Import Prelude Riscv Mem Kalloc Vm VmTree VmSpec VmUser VmCopy VmExample.

(** C9. mappages on an unmapped, page-aligned range of [n] pages either maps all
    of them to consecutive physical pages with the given permissions and
    returns 0, or, when the free list is exhausted on the way, maps a proper
    prefix of them and returns -1. Every other translation is as before, the
    table remains a tree of distinct RAM pages disjoint from the free list,
    its new nodes come from the free list, and no other memory is touched. *)
Theorem mappages_maps_range kend k l root va n pa perm :
  0 < kend → node_inv kend k l 2 root →
  0 < n → 0 ≤ va → va + n * PGSIZE ≤ MAXVA → page_aligned va →
  0 ≤ pa → pa + n * PGSIZE ≤ 2^56 → 0 ≤ perm < 1024 →
  (∀ va', va ≤ va' < va + n * PGSIZE → page_aligned va' →
     has (pteval (km_mem k) 2 root va') PTE_V = false) →
  ∃ r j k' used l', mappages root va (n * PGSIZE) pa perm k = Done r k' ∧
    mapped_prefix kend k l root va pa perm j k' used l' ∧
    ((r = 0 ∧ j = n) ∨ (r = -1 ∧ 0 ≤ j < n ∧ l' = [])).
Proof. intros Hend. by apply mappages_ok. Qed.

Lemma mappages_maps_range_witness :
  ∃ r j k' used l', mappages ex_root 0x2000 (2 * PGSIZE) 0x80100000 3 ex_k = Done r k' ∧
    mapped_prefix ex_end ex_k ex_free ex_root 0x2000 0x80100000 3 j k' used l' ∧
    ((r = 0 ∧ j = 2) ∨ (r = -1 ∧ 0 ≤ j < 2 ∧ l' = [])).
Proof.
  apply (mappages_maps_range ex_end ex_k ex_free ex_root 0x2000 2 0x80100000 3);
    [done|apply ex_inv|done..|].
  intros va' Hva' Hal. unfold page_aligned, PGSIZE in *.
  assert (va' = 0x2000 ∨ va' = 0x3000) as [->| ->].
  { pose proof (Z.div_mod va' 4096). lia. }
  all: vm_compute; reflexivity.
Defined.

(** uvmunmap on a range of present leaf mappings clears exactly the
    entries of that range and, when asked to, returns their pages to the
    free list; the table pages themselves stay, and the allocator's free
    list remains well formed and disjoint from the table. *)
Theorem uvmunmap_clears_range kend k l root va n do_free :
  0 < kend → node_inv kend k l 2 root →
  0 ≤ n → 0 ≤ va → va + n * PGSIZE ≤ MAXVA → page_aligned va →
  range_mapped (km_mem k) root va n →
  (do_free = true → owned kend k l root (leaves (km_mem k) root va n)) →
  ∃ k', uvmunmap kend root va n do_free k = Done tt k' ∧
    unmapped_post kend k l root va n do_free k'.
Proof. intros Hend. by apply uvmunmap_ok. Qed.

Lemma uvmunmap_clears_range_witness :
  ∃ k', uvmunmap ex_end ex_root 0x1000 1 true ex_k = Done tt k' ∧
    unmapped_post ex_end ex_k ex_free ex_root 0x1000 1 true k'.
Proof.
  apply (uvmunmap_clears_range ex_end ex_k ex_free ex_root 0x1000 1 true);
    [done|apply ex_inv|done..| |].
  - intros va' Hva' Hal. unfold page_aligned, PGSIZE in *.
    assert (va' = 0x1000) as -> by (pose proof (Z.div_mod va' 4096); lia).
    split; [vm_compute; reflexivity|]. decide_now.
  - intros _. assert (leaves (km_mem ex_k) ex_root 0x1000 1 = [0x87003000]) as ->
      by (vm_compute; reflexivity).
    split; [apply NoDup_singleton|].
    split; [decide_now|].
    intros q ->%list_elem_of_singleton.
    split; decide_now.
Defined.

(** C10. uvmalloc is all or nothing: growing a process from [oldsz] to [newsz]
    either maps one distinct zero-filled page of the free list at every page
    of the new range, readable, user-accessible and with the extra
    permissions, and returns [newsz]; or it returns 0 with every translation
    as before and every page it had taken for user memory back on the free
    list, which then holds no more pages than were asked for. *)
Theorem uvmalloc_all_or_nothing kend k l root oldsz newsz xperm :
  0 < kend → node_inv kend k l 2 root →
  0 ≤ oldsz → oldsz ≤ newsz → newsz ≤ MAXVA → 0 ≤ xperm < 1024 →
  (∀ va', PGROUNDUP oldsz ≤ va' < PGROUNDUP newsz → page_aligned va' →
     pteval (km_mem k) 2 root va' = 0) →
  alloc_result kend k l root (PGROUNDUP oldsz) (user_perm xperm) newsz
    (Z.to_nat (npages oldsz newsz)) (uvmalloc kend root oldsz newsz xperm k).
Proof. intros Hend. by apply uvmalloc_ok. Qed.

Lemma uvmalloc_all_or_nothing_witness :
  alloc_result ex_end ex_k ex_free ex_root 0x2000 (user_perm PTE_W) 0x3800
    2 (uvmalloc ex_end ex_root 0x1800 0x3800 PTE_W ex_k).
Proof.
  apply (uvmalloc_all_or_nothing ex_end ex_k ex_free ex_root 0x1800 0x3800 PTE_W);
    [done|apply ex_inv|done..|].
  change (PGROUNDUP 0x1800) with 0x2000. change (PGROUNDUP 0x3800) with 0x4000.
  intros va' Hva' Hal. unfold page_aligned, PGSIZE in *.
  assert (va' = 0x2000 ∨ va' = 0x3000) as [->| ->].
  { pose proof (Z.div_mod va' 4096). lia. }
  all: vm_compute; reflexivity.
Defined.

(** C2. copyout behaves as if the kernel stored its buffer into user memory one
    byte at a time through the page table: same return value (-1 at the
    first byte whose page is missing, not user-accessible or not writable)
    and same memory, including the bytes written before a fault. *)
Theorem copyout_refines_bytes kend k root lo hi dstva src len :
  0 < kend → user_ok kend (km_mem k) root lo hi → lo ≤ src → src + len ≤ hi →
  0 ≤ dstva < 2^64 → 0 ≤ len →
  agrees (copyout root dstva src len k) k
    (copyout_bytes (km_mem k) root dstva src (Z.to_nat len)).
Proof. intros Hend Hok Hlo Hhi Hva Hlen. apply (copyout_loop kend Hend lo hi); auto. Qed.

Lemma copyout_refines_bytes_witness :
  agrees (copyout ex_root 0x1ffe 0x80001000 4 ex_k) ex_k
    (copyout_bytes ex_mem ex_root 0x1ffe 0x80001000 4).
Proof.
  apply (copyout_refines_bytes ex_end ex_k ex_root 0x80001000 0x80002000);
    [done|apply ex_user_ok|done..].
Defined.

(** C20. copyin behaves as if each byte were loaded from user memory through the
    page table and stored into the kernel buffer: same return value, same
    memory. *)
Theorem copyin_refines_bytes kend k root lo hi dst srcva len :
  0 < kend → user_ok kend (km_mem k) root lo hi → lo ≤ dst → dst + len ≤ hi →
  0 ≤ srcva < 2^64 → 0 ≤ len →
  agrees (copyin root dst srcva len k) k
    (copyin_bytes (km_mem k) root dst srcva (Z.to_nat len)).
Proof. intros Hend Hok Hlo Hhi Hva Hlen. apply (copyin_loop kend Hend lo hi); auto. Qed.

Lemma copyin_refines_bytes_witness :
  agrees (copyin ex_root 0x80001000 0x1ffe 4 ex_k) ex_k
    (copyin_bytes ex_mem ex_root 0x80001000 0x1ffe 4).
Proof.
  apply (copyin_refines_bytes ex_end ex_k ex_root 0x80001000 0x80002000);
    [done|apply ex_user_ok|done..].
Defined.

(** C21. copyinstr copies the user string up to and including its NUL and
    returns 0; it returns -1 when a page faults first or when no NUL is among
    the first [max] bytes, exactly as the byte-wise copy does. *)
Theorem copyinstr_refines_bytes kend k root lo hi dst srcva max :
  0 < kend → user_ok kend (km_mem k) root lo hi → lo ≤ dst → dst + max ≤ hi →
  0 ≤ srcva < 2^64 → 0 ≤ max →
  agrees (copyinstr root dst srcva max k) k
    (copyinstr_bytes (km_mem k) root dst srcva (Z.to_nat max)).
Proof. intros Hend Hok Hlo Hhi Hva Hlen. apply (copyinstr_loop kend Hend lo hi); auto. Qed.

Lemma copyinstr_refines_bytes_witness :
  agrees (copyinstr ex_root 0x80001000 0x1ffe 16 ex_k) ex_k
    (copyinstr_bytes ex_mem ex_root 0x80001000 0x1ffe 16).
Proof.
  apply (copyinstr_refines_bytes ex_end ex_k ex_root 0x80001000 0x80002000);
    [done|apply ex_user_ok|done..].
Defined.

(** Bytes that copyout delivered to a user address come back unchanged
    through copyin from the same address. *)
Theorem copyout_copyin_roundtrip kend k root lo hi va src dst len k1 :
  0 < kend → user_ok kend (km_mem k) root lo hi → user_inj (km_mem k) root →
  lo ≤ src → src + len ≤ hi → lo ≤ dst → dst + len ≤ hi →
  0 ≤ va → 0 ≤ len → va + len < 2^64 →
  copyout root va src len k = Done 0 k1 →
  ∃ k2, copyin root dst va len k1 = Done 0 k2 ∧
    ∀ i, 0 ≤ i < len → load8 (km_mem k2) (dst + i) = load8 (km_mem k) (src + i).
Proof.
  intros Hend Hok Hinj Hs1 Hs2 Hd1 Hd2 Hva Hlen Hmax Hout.
  destruct (copyout_loop kend Hend lo hi root (S (Z.to_nat len)) k va src len)
    as (k1' & Hrun & _ & Hm); [done..|lia|lia|lia|].
  change (copyout root va src len k = Done (copyout_bytes (km_mem k) root va src (Z.to_nat len)).1 k1')
    in Hrun. rewrite Hout in Hrun. injection Hrun as Hr <-.
  destruct (copyout_bytes_spec kend (km_mem k) root lo hi va src (Z.to_nat len))
    as (Hok' & Hup & _ & Hget); [done|done|lia|lia|lia|lia|]. symmetry in Hm.
  destruct (user_ok_agree kend _ (km_mem k1) root lo hi Hok') as (Hok1 & Hup1 & _).
  { intros q x _ _. by rewrite (Hm x). }
  assert (∀ v, user_addr false (km_mem k1) root v = user_addr false (km_mem k) root v) as Hua.
  { intros v. unfold user_addr. by rewrite Hup1, Hup. }
  destruct (copyin_loop kend Hend lo hi root (S (Z.to_nat len)) k1 dst va len)
    as (k2 & Hrun2 & _ & Hm2); [done..|lia|lia|lia|].
  destruct (copyin_bytes_spec kend (km_mem k1) root lo hi dst va (Z.to_nat len))
    as (_ & Hin); [done|lia|lia|lia|lia|].
  destruct Hin as [Hr2 Hin].
  { intros i Hi. destruct (Hget (eq_sym Hr) i Hi) as (a & Ha & _). rewrite Hua.
    exists a. by eapply user_addr_weaken. }
  exists k2. rewrite Hr2 in Hrun2. split; [exact Hrun2|]. intros i Hi.
  destruct (Hget (eq_sym Hr) i) as (a & Ha & Hl); [lia|].
  rewrite (Hm2 (dst + i)), (Hin i a); [|lia|rewrite Hua; by eapply user_addr_weaken].
  rewrite <-(Hm a). done.
Qed.

Lemma copyout_copyin_roundtrip_witness :
  ∃ k1 k2, copyout ex_root 0x1ff0 0x80001000 8 ex_k = Done 0 k1 ∧
    copyin ex_root 0x80001100 0x1ff0 8 k1 = Done 0 k2 ∧
    ∀ i, 0 ≤ i < 8 → load8 (km_mem k2) (0x80001100 + i) = load8 ex_mem (0x80001000 + i).
Proof.
  destruct (copyout ex_root 0x1ff0 0x80001000 8 ex_k) as [r k1| | |] eqn:Hrun;
    try (vm_compute in Hrun; discriminate Hrun).
  assert (r = 0) as -> by (vm_compute in Hrun; by injection Hrun).
  destruct (copyout_copyin_roundtrip ex_end ex_k ex_root 0x80001000 0x80002000
    0x1ff0 0x80001000 0x80001100 8 k1) as (k2 & H2 & Hb);
    [done|apply ex_user_ok|apply ex_user_inj|done..|].
  exists k1, k2. split; [reflexivity|]. split; [exact H2|exact Hb].
Defined.
