(* ===== verification/Block.v ===== *)
(** * What the buffer cache promises to its clients

    The clients of kernel/bio.c (the log and the file system) rely on this
    interface: the contents of every block as a reader sees them, the
    contents on disk, and which buffers are pinned or held. *)

From S2P Require Import Prelude.

Definition BSIZE : Z := 1024.
Definition MAXOPBLOCKS : Z := 10.
Definition LOGSIZE : Z := MAXOPBLOCKS * 3.
Definition NBUF : Z := MAXOPBLOCKS * 3.

Definition block : Type := list Z.
Definition zero_block : block := replicate (Z.to_nat BSIZE) 0.

(** Bytes of a block are bytes, and there are [BSIZE] of them. *)
Definition block_ok (d : block) : Prop :=
  length d = Z.to_nat BSIZE ∧ Forall (λ b, 0 ≤ b < 256) d.

Lemma zero_block_ok : block_ok zero_block.
Proof. split; [done|]. apply Forall_replicate. lia. Qed.

(** The state of the cache as its clients see it. *)
Record bview := BView {
  v_data : Z → block;        (* contents of a block, cached or not *)
  v_disk : Z → block;        (* contents on disk *)
  v_refs : Z → Z;            (* users and pins of the block's buffer *)
  v_held : Z → option nat;   (* the buffer, while this process has it locked *)
  v_used : Z;                (* number of buffers with users or pins *)
  v_trace : list (Z * block) (* writes issued to the disk, oldest first *)
}.

Definition v_get (bn : Z) (i : nat) (V : bview) : bview :=
  BView (v_data V) (v_disk V) (<[bn := v_refs V bn + 1]> (v_refs V))
    (<[bn := Some i]> (v_held V))
    (if v_refs V bn =? 0 then v_used V + 1 else v_used V) (v_trace V).

Definition v_put (bn : Z) (V : bview) : bview :=
  BView (v_data V) (v_disk V) (<[bn := v_refs V bn - 1]> (v_refs V))
    (<[bn := None]> (v_held V))
    (if v_refs V bn =? 1 then v_used V - 1 else v_used V) (v_trace V).

Definition v_set (bn : Z) (d : block) (V : bview) : bview :=
  BView (<[bn := d]> (v_data V)) (v_disk V) (v_refs V) (v_held V) (v_used V) (v_trace V).

Definition v_write (bn : Z) (V : bview) : bview :=
  BView (v_data V) (<[bn := v_data V bn]> (v_disk V)) (v_refs V) (v_held V) (v_used V)
    (v_trace V ++ [(bn, v_data V bn)]).

Definition v_pin (bn : Z) (n : Z) (V : bview) : bview :=
  BView (v_data V) (v_disk V) (<[bn := v_refs V bn + n]> (v_refs V)) (v_held V) (v_used V)
    (v_trace V).

(** Right after boot: nothing is cached. *)
Definition v_boot (d : Z → block) : bview := BView d d (λ _, 0) (λ _, None) 0 [].

(** Views that agree on every block. *)
Definition view_eq (V V' : bview) : Prop :=
  (∀ bn, v_data V bn = v_data V' bn ∧ v_disk V bn = v_disk V' bn ∧
         v_refs V bn = v_refs V' bn ∧ v_held V bn = v_held V' bn) ∧
  v_used V = v_used V' ∧ v_trace V = v_trace V'.

Class BufCache (St : Type) (dev : Z) := {
  bread : Z → Z → M St nat;
  bwrite : nat → M St unit;
  brelse : nat → M St unit;
  bpin : nat → M St unit;
  bunpin : nat → M St unit;
  bblockno : nat → M St Z;
  bdata : nat → M St block;
  set_bdata : nat → block → M St unit;

  cache_ok : St → bview → Prop;

  cache_ok_ext s V V' : view_eq V V' → cache_ok s V → cache_ok s V';
  cache_ok_blocks s V bn : cache_ok s V → block_ok (v_data V bn) ∧ block_ok (v_disk V bn);
  bread_ok s V bn :
    cache_ok s V → 0 ≤ bn < 2^32 → v_held V bn = None → v_refs V bn < 2^31 →
    0 < v_refs V bn ∨ v_used V < NBUF →
    ∃ i s', bread dev bn s = Done i s' ∧ cache_ok s' (v_get bn i V);
  bwrite_ok s V bn i :
    cache_ok s V → v_held V bn = Some i →
    ∃ s', bwrite i s = Done tt s' ∧ cache_ok s' (v_write bn V);
  brelse_ok s V bn i :
    cache_ok s V → v_held V bn = Some i →
    (v_refs V bn = 1 → v_data V bn = v_disk V bn) →
    ∃ s', brelse i s = Done tt s' ∧ cache_ok s' (v_put bn V);
  bpin_ok s V bn i :
    cache_ok s V → v_held V bn = Some i → v_refs V bn < 2^31 →
    ∃ s', bpin i s = Done tt s' ∧ cache_ok s' (v_pin bn 1 V);
  bunpin_ok s V bn i :
    cache_ok s V → v_held V bn = Some i → 1 < v_refs V bn →
    ∃ s', bunpin i s = Done tt s' ∧ cache_ok s' (v_pin bn (-1) V);
  bblockno_ok s V bn i :
    cache_ok s V → v_held V bn = Some i → bblockno i s = Done bn s;
  bdata_ok s V bn i :
    cache_ok s V → v_held V bn = Some i → bdata i s = Done (v_data V bn) s;
  set_bdata_ok s V bn i d :
    cache_ok s V → v_held V bn = Some i → block_ok d →
    ∃ s', set_bdata i d s = Done tt s' ∧ cache_ok s' (v_set bn d V);
}.
