(* ===== verification/FsFormat.v ===== *)
(** * On-disk formats, kernel/fs.h

    Blocks are byte lists; the C code overlays structs on them. This file has
    the little-endian fields of a block, the super block, the log header,
    disk inodes and directory entries, and where they are on disk. *)

From S2P Require Import Prelude Block.

(** ** Fields of a block *)

(** [n] bytes from offset [off], as an unsigned little-endian number. *)
Definition field (d : block) (off n : Z) : Z :=
  little_endian_to_Z 8 (take (Z.to_nat n) (drop (Z.to_nat off) d)).
Definition put_bytes (d : block) (off : Z) (bs : list Z) : block :=
  take (Z.to_nat off) d ++ bs ++ drop (Z.to_nat off + length bs) d.
Definition put_field (d : block) (off n v : Z) : block :=
  put_bytes d off (Z_to_little_endian n 8 v).

Definition le32 (d : block) (off : Z) : Z := field d off 4.
Definition put32 (d : block) (off v : Z) : block := put_field d off 4 v.
Definition le16 (d : block) (off : Z) : Z := field d off 2.
Definition put16 (d : block) (off v : Z) : block := put_field d off 2 v.

(** ** The super block *)

Record superblock := Superblock {
  sb_magic : Z;
  sb_size : Z;
  sb_nblocks : Z;
  sb_ninodes : Z;
  sb_nlog : Z;
  sb_logstart : Z;
  sb_inodestart : Z;
  sb_bmapstart : Z
}.

Definition FSMAGIC : Z := 0x10203040.

(** [memmove(sb, bp->data, sizeof( *sb))] *)
Definition superblock_of (d : block) : superblock :=
  Superblock (le32 d 0) (le32 d 4) (le32 d 8) (le32 d 12)
             (le32 d 16) (le32 d 20) (le32 d 24) (le32 d 28).

(** ** Reading back what was written *)

Lemma length_put_bytes d off bs :
  0 ≤ off → off + length bs ≤ length d → length (put_bytes d off bs) = length d.
Proof. intros H1 H2. unfold put_bytes. rewrite !length_app, length_take, length_drop. lia. Qed.

Lemma length_put_field d off n v :
  0 ≤ off → 0 ≤ n → off + n ≤ length d → length (put_field d off n v) = length d.
Proof.
  intros. apply length_put_bytes; [done|]. pose proof (length_Z_to_little_endian n 8 v). lia.
Qed.

Lemma put_bytes_block d off bs :
  block_ok d → 0 ≤ off → off + length bs ≤ BSIZE → Forall (λ b, 0 ≤ b < 256) bs →
  block_ok (put_bytes d off bs).
Proof.
  intros [Hl Hb] Ho Hm Hbs. split; [by rewrite length_put_bytes by lia|].
  unfold put_bytes. rewrite !Forall_app. split; [by apply Forall_take|]. split; [done|by apply Forall_drop].
Qed.

Lemma lookup_put_bytes d off bs j :
  0 ≤ off → off + length bs ≤ length d → 0 ≤ j →
  put_bytes d off bs !!! Z.to_nat j =
    if decide (off ≤ j < off + length bs) then bs !!! Z.to_nat (j - off) else d !!! Z.to_nat j.
Proof.
  intros Ho Hl Hj. unfold block in *. unfold put_bytes. rewrite !list_lookup_total_alt.
  destruct (decide (j < off)).
  { rewrite decide_False by lia. rewrite lookup_app_l by (rewrite length_take; lia).
    by rewrite lookup_take_lt by lia. }
  rewrite lookup_app_r by (rewrite length_take; lia). rewrite length_take.
  replace (Z.to_nat j - Z.to_nat off `min` length d)%nat with (Z.to_nat (j - off)) by lia.
  case_decide.
  - by rewrite lookup_app_l by lia.
  - rewrite lookup_app_r by lia. rewrite lookup_drop. do 2 f_equal. lia.
Qed.

Lemma put_field_block d off n v :
  block_ok d → 0 ≤ off → 0 ≤ n → off + n ≤ BSIZE → block_ok (put_field d off n v).
Proof.
  intros [Hl Hb] Ho Hn Hm. split; [by rewrite length_put_field by lia|].
  unfold put_field, put_bytes. rewrite !Forall_app.
  split; [by apply Forall_take|]. split; [|by apply Forall_drop].
  apply (Z_to_little_endian_bound n 8); lia.
Qed.

Lemma drop_put_bytes d off bs :
  0 ≤ off → off + length bs ≤ length d →
  drop (Z.to_nat off) (put_bytes d off bs) = bs ++ drop (Z.to_nat off + length bs) d.
Proof. intros H1 H2. unfold put_bytes. rewrite drop_app_length'; [done|]. rewrite length_take. lia. Qed.

Lemma field_put_eq d off n v :
  0 ≤ off → 0 ≤ n → off + n ≤ length d → field (put_field d off n v) off n = v `mod` 2^(n * 8).
Proof.
  intros Ho Hn Hl. unfold field, put_field.
  pose proof (length_Z_to_little_endian n 8 v Hn) as Hlen.
  rewrite drop_put_bytes by lia. rewrite take_app_length' by lia.
  by rewrite little_endian_to_Z_to_little_endian by lia.
Qed.

Lemma field_put_ne d off n v off' n' :
  0 ≤ off → 0 ≤ n → off + n ≤ length d → 0 ≤ off' → 0 ≤ n' →
  off + n ≤ off' ∨ off' + n' ≤ off →
  field (put_field d off n v) off' n' = field d off' n'.
Proof.
  intros Ho Hn Hl Ho' Hn' Hd. unfold field. f_equal.
  pose proof (length_Z_to_little_endian n 8 v Hn) as Hlen. unfold put_field.
  apply list_eq. intros i.
  destruct (decide (i < Z.to_nat n')%nat) as [Hi|Hi].
  2: { rewrite !lookup_ge_None_2; [done| |]; rewrite length_take; lia. }
  rewrite !lookup_take_lt, !lookup_drop by done. unfold put_bytes.
  destruct Hd as [Hd|Hd].
  - rewrite lookup_app_r by (rewrite length_take; lia).
    rewrite lookup_app_r by (rewrite length_take; lia).
    rewrite lookup_drop, length_take. f_equal. lia.
  - rewrite lookup_app_l by (rewrite length_take; lia).
    by rewrite lookup_take_lt by lia.
Qed.

(** [block_ok] of a block with some fields replaced. *)
Ltac blk := repeat apply put_field_block; unfold BSIZE; (assumption || lia).

Lemma field_set_eq d off n v :
  block_ok d → 0 ≤ off → 0 ≤ n → off + n ≤ BSIZE →
  field (put_field d off n v) off n = v `mod` 2^(n * 8).
Proof. intros [Hl _] ???. apply field_put_eq; lia. Qed.

Lemma field_set_ne d off n v off' n' :
  block_ok d → 0 ≤ off → 0 ≤ n → off + n ≤ BSIZE → 0 ≤ off' → 0 ≤ n' →
  off + n ≤ off' ∨ off' + n' ≤ off →
  field (put_field d off n v) off' n' = field d off' n'.
Proof. intros [Hl _] ??????. apply field_put_ne; lia. Qed.

Lemma field_zero off n : field zero_block off n = 0.
Proof.
  unfold field, zero_block. rewrite drop_replicate, take_replicate.
  induction (_ `min` _)%nat as [|m IH]; [done|]. simpl. by rewrite IH.
Qed.

(** ** Arrays of words *)

Fixpoint put_list (d : block) (off : Z) (bl : list Z) : block :=
  match bl with
  | [] => d
  | b :: bl => put_list (put32 d off b) (off + 4) bl
  end.

Lemma put_list_snoc d off bl b :
  put_list d off (bl ++ [b]) = put32 (put_list d off bl) (off + 4 * length bl) b.
Proof.
  revert d off. induction bl as [|x bl IH]; intros d off; simpl.
  - by rewrite Z.add_0_r.
  - rewrite IH. f_equal. lia.
Qed.

Lemma put_list_block d off bl :
  block_ok d → 0 ≤ off → off + 4 * length bl ≤ BSIZE → block_ok (put_list d off bl).
Proof.
  revert d off. induction bl as [|x bl IH]; intros d off Hd Ho Hm; simpl in *; [done|].
  apply IH; [apply put_field_block; [done|lia..]|lia|lia].
Qed.

Lemma field_put_list_out d off bl o n :
  block_ok d → 0 ≤ o → 0 ≤ n → 0 ≤ off → off + 4 * length bl ≤ BSIZE →
  o + n ≤ off ∨ off + 4 * length bl ≤ o →
  field (put_list d off bl) o n = field d o n.
Proof.
  revert d off. induction bl as [|x bl IH]; intros d off Hd Ho Hn Hoff Hm Hd'; simpl in *; [done|].
  pose proof Hd as [Hlen _].
  rewrite IH; [|apply put_field_block; [done|lia..]|lia..].
  apply field_put_ne; lia.
Qed.

Lemma le32_put_list_before d off bl o :
  block_ok d → 0 ≤ o → o + 4 ≤ off → off + 4 * length bl ≤ BSIZE →
  le32 (put_list d off bl) o = le32 d o.
Proof. intros. apply field_put_list_out; [done|lia..]. Qed.

Lemma le32_put_list d off bl (i : nat) b :
  block_ok d → 0 ≤ off → off + 4 * length bl ≤ BSIZE → bl !! i = Some b →
  le32 (put_list d off bl) (off + 4 * i) = u32 b.
Proof.
  revert d off i. induction bl as [|x bl IH]; intros d off i Hd Ho Hm Hi; simpl in *; [done|].
  pose proof Hd as [Hlen _]. destruct i as [|i]; simpl in Hi.
  - simplify_eq. rewrite Z.add_0_r. unfold le32 at 1. rewrite field_put_list_out;
      [|apply put_field_block; [done|lia..]|lia..].
    unfold put32. rewrite field_put_eq by lia. done.
  - replace (off + 4 * S i) with (off + 4 + 4 * i) by lia.
    apply IH; [apply put_field_block; [done|lia..]|lia|lia|done].
Qed.
