(* ===== verification/Bio.v ===== *)
(** * The buffer cache, kernel/bio.c

    [bcache.buf] and [bcache.head] are one list of [NBUF + 1] buffers, the
    last of which is [head]; a pointer to a buffer is its index. [bcache.lock]
    makes each critical section atomic. [disk_rw] is what [virtio_disk_rw]
    provides: a synchronous transfer of one block, with the writes recorded
    in the order the disk sees them. [pid] is [myproc()->pid]. *)

From S2P Require Import Prelude Block.

Record buf := Buf {
  valid : bool;
  bdev : Z;
  blockno : Z;
  locked : bool;    (* lock.locked *)
  lkpid : Z;        (* lock.pid *)
  refcnt : Z;
  prev : nat;
  next : nat;
  data : block
}.

#[global] Instance buf_inhabited : Inhabited buf :=
  populate (Buf false 0 0 false 0 0 0 0 zero_block).

Definition set_valid (v : bool) (b : buf) : buf :=
  Buf v (bdev b) (blockno b) (locked b) (lkpid b) (refcnt b) (prev b) (next b) (data b).
Definition set_id (dev bn : Z) (b : buf) : buf :=
  Buf (valid b) dev bn (locked b) (lkpid b) (refcnt b) (prev b) (next b) (data b).
Definition set_lock (l : bool) (p : Z) (b : buf) : buf :=
  Buf (valid b) (bdev b) (blockno b) l p (refcnt b) (prev b) (next b) (data b).
Definition set_refcnt (n : Z) (b : buf) : buf :=
  Buf (valid b) (bdev b) (blockno b) (locked b) (lkpid b) n (prev b) (next b) (data b).
Definition set_prev (p : nat) (b : buf) : buf :=
  Buf (valid b) (bdev b) (blockno b) (locked b) (lkpid b) (refcnt b) p (next b) (data b).
Definition set_next (n : nat) (b : buf) : buf :=
  Buf (valid b) (bdev b) (blockno b) (locked b) (lkpid b) (refcnt b) (prev b) n (data b).
Definition set_data (d : block) (b : buf) : buf :=
  Buf (valid b) (bdev b) (blockno b) (locked b) (lkpid b) (refcnt b) (prev b) (next b) d.

Record bst := Bst {
  bufs : list buf;
  bdisk : gmap Z block;
  btrace : list (Z * block)
}.

Definition HEAD : nat := Z.to_nat NBUF.

Definition getb (s : bst) (i : nat) : buf := bufs s !!! i.
Definition updb (i : nat) (f : buf → buf) (s : bst) : bst :=
  Bst (alter f i (bufs s)) (bdisk s) (btrace s).

Definition rd {A} (f : buf → A) (i : nat) : M bst A := gets (λ s, f (getb s i)).
Definition wr (i : nat) (f : buf → buf) : M bst unit := modify (updb i f).

Definition disk_block (s : bst) (bn : Z) : block := default zero_block (bdisk s !! bn).

(** The transfer behind [virtio_disk_rw(b, write)]. *)
Definition disk_rw (b : nat) (write : bool) : M bst unit :=
  let* x := rd id b in
  if write then
    modify (λ s, Bst (bufs s) (<[blockno x := data x]> (bdisk s))
                     (btrace s ++ [(blockno x, data x)]))
  else
    let* d := gets (λ s, disk_block s (blockno x)) in
    wr b (set_data d).

Section bio.
Variable pid : Z.

(** ** Sleep locks of buffers, as in kernel/sleeplock.c *)

Definition initsleeplock (b : nat) : M bst unit := wr b (set_lock false 0).

Definition acquiresleep (b : nat) : M bst unit :=
  let* l := rd locked b in
  if l then sleep_on (Z.of_nat b) else wr b (set_lock true pid).

Definition releasesleep (b : nat) : M bst unit := wr b (set_lock false 0).

Definition holdingsleep (b : nat) : M bst bool :=
  let* x := rd id b in ret (locked x && (lkpid x =? pid)).

(** ** kernel/bio.c *)

Definition binit : M bst unit :=
  wr HEAD (set_prev HEAD) ;;;
  wr HEAD (set_next HEAD) ;;;
  for_each (seq 0 (Z.to_nat NBUF)) (λ b,
    let* n := rd next HEAD in
    wr b (set_next n) ;;;
    wr b (set_prev HEAD) ;;;
    initsleeplock b ;;;
    let* n := rd next HEAD in
    wr n (set_prev b) ;;;
    wr HEAD (set_next b)).

(** [for(b = bcache.head.next; b != &bcache.head; b = b->next)] with the test
    of the cached block; the bound is the number of buffers plus one. *)
Definition bget_cached (dev bn : Z) : M bst (option nat) :=
  let* b := rd next HEAD in
  loop (S HEAD)
    (λ b, if decide (b = HEAD) then ret (inr None)
          else
            let* x := rd id b in
            if (bdev x =? dev) && (blockno x =? bn) then ret (inr (Some b))
            else ret (inl (next x)))
    b.

(** [for(b = bcache.head.prev; b != &bcache.head; b = b->prev)] *)
Definition bget_unused : M bst (option nat) :=
  let* b := rd prev HEAD in
  loop (S HEAD)
    (λ b, if decide (b = HEAD) then ret (inr None)
          else
            let* x := rd id b in
            if refcnt x =? 0 then ret (inr (Some b))
            else ret (inl (prev x)))
    b.

Definition bget (dev bn : Z) : M bst nat :=
  let* r := bget_cached dev bn in
  match r with
  | Some b =>
      let* n := rd refcnt b in
      wr b (set_refcnt (u32 (n + 1))) ;;;
      acquiresleep b ;;;
      ret b
  | None =>
      let* r := bget_unused in
      match r with
      | Some b =>
          wr b (set_id dev bn) ;;;
          wr b (set_valid false) ;;;
          wr b (set_refcnt 1) ;;;
          acquiresleep b ;;;
          ret b
      | None => panic "bget: no buffers"
      end
  end.

Definition bread (dev bn : Z) : M bst nat :=
  let* b := bget dev bn in
  let* v := rd valid b in
  (if negb v then
     disk_rw b false ;;;
     wr b (set_valid true)
   else ret tt) ;;;
  ret b.

Definition bwrite (b : nat) : M bst unit :=
  let* h := holdingsleep b in
  if negb h then panic "bwrite" else disk_rw b true.

Definition brelse (b : nat) : M bst unit :=
  let* h := holdingsleep b in
  if negb h then panic "brelse"
  else
    releasesleep b ;;;
    let* n := rd refcnt b in
    wr b (set_refcnt (u32 (n - 1))) ;;;
    let* n := rd refcnt b in
    if n =? 0 then
      let* nx := rd next b in
      let* pv := rd prev b in
      wr nx (set_prev pv) ;;;
      let* nx := rd next b in
      let* pv := rd prev b in
      wr pv (set_next nx) ;;;
      let* h := rd next HEAD in
      wr b (set_next h) ;;;
      wr b (set_prev HEAD) ;;;
      let* h := rd next HEAD in
      wr h (set_prev b) ;;;
      wr HEAD (set_next b)
    else ret tt.

Definition bpin (b : nat) : M bst unit :=
  let* n := rd refcnt b in wr b (set_refcnt (u32 (n + 1))).

Definition bunpin (b : nat) : M bst unit :=
  let* n := rd refcnt b in wr b (set_refcnt (u32 (n - 1))).
End bio.
