(* ===== verification/BioSpec.v ===== *)
(** * Correctness of the buffer cache

    The linked list of buffers is a ring over all buffers in order of use,
    every cached block has one buffer, and the operations implement the
    interface of Block.v. *)

From S2P Require Import Prelude Block Bio.

(** ** State access *)

Lemma list_alter_alter {A} (f g : A → A) (l : list A) i :
  alter f i (alter g i l) = alter (λ x, f (g x)) i l.
Proof. revert i. induction l as [|x l IH]; intros [|i]; simpl; try done. f_equal. apply IH. Qed.

Lemma updb_updb i f g s : updb i f (updb i g s) = updb i (λ b, f (g b)) s.
Proof. unfold updb. simpl. by rewrite list_alter_alter. Qed.

Lemma getb_updb i f s j :
  (i < length (bufs s))%nat →
  getb (updb i f s) j = if decide (j = i) then f (getb s j) else getb s j.
Proof.
  intros Hi. unfold getb, updb. simpl. case_decide as Hd.
  - subst j. apply list_lookup_total_correct.
    destruct (lookup_lt_is_Some_2 (bufs s) i Hi) as [b Hb].
    rewrite list_lookup_alter, decide_True by done. rewrite Hb. simpl.
    by rewrite (list_lookup_total_correct _ _ _ Hb).
  - by rewrite list_lookup_total_alter_ne by done.
Qed.

Lemma length_updb i f s : length (bufs (updb i f s)) = length (bufs s).
Proof. apply length_alter. Qed.

Lemma disk_block_updb i f s bn : disk_block (updb i f s) bn = disk_block s bn.
Proof. done. Qed.

(** ** The ring of buffers *)

Definition nxt (g : list buf) (i : nat) : nat := next (g !!! i).
Definition prv (g : list buf) (i : nat) : nat := prev (g !!! i).

(** From [head] along [next] the buffers come in the order [o], and along
    [prev] in the reverse order. *)
Definition ring (g : list buf) (o : list nat) : Prop :=
  nxt g <$> HEAD :: o = o ++ [HEAD] ∧ prv g <$> HEAD :: reverse o = reverse o ++ [HEAD].

Definition scan_body (f : buf → nat) (t : buf → bool) : nat → M bst (nat + option nat) :=
  λ b, if decide (b = HEAD) then ret (inr None)
       else
         let* x := rd id b in
         if t x then ret (inr (Some b)) else ret (inl (f x)).

Definition first (s : bst) (t : buf → bool) (l : list nat) : option nat :=
  head (filter (λ i, t (getb s i) = true) l).

Lemma scan_ok s f t l : ∀ i fuel,
  (λ i, f (getb s i)) <$> i :: l = l ++ [HEAD] → HEAD ∉ l → (length l < fuel)%nat →
  loop fuel (scan_body f t) (f (getb s i)) s = Done (first s t l) s.
Proof.
  induction l as [|j l IH]; intros i fuel Hf Hn Hfuel; destruct fuel as [|fuel]; try (simpl in *; lia).
  - simpl in Hf. simplify_eq. simpl. rewrite H. unfold scan_body, bind.
    by rewrite decide_True.
  - simpl in Hf. injection Hf as Hj Hf. simpl loop. unfold bind, scan_body at 1.
    rewrite Hj, decide_False by (intros ->; apply Hn; left).
    unfold bind, rd, gets, first. rewrite filter_cons. simpl. unfold id.
    destruct (t (getb s j)) eqn:Ht.
    + by rewrite decide_True.
    + rewrite decide_False by done. apply IH; [done| |simpl in *; lia].
      intros ?. apply Hn. by right.
Qed.

Lemma first_some s t l i :
  first s t l = Some i → i ∈ l ∧ t (getb s i) = true.
Proof.
  unfold first. intros H. assert (i ∈ filter (λ i, t (getb s i) = true) l) as Hin.
  { destruct (filter _ l); simpl in H; simplify_eq. left. }
  by apply list_elem_of_filter in Hin as [].
Qed.

Lemma first_none s t l : first s t l = None → ∀ i, i ∈ l → t (getb s i) = false.
Proof.
  unfold first. intros H i Hi. destruct (t (getb s i)) eqn:E; [|done]. exfalso.
  assert (i ∈ filter (λ i, t (getb s i) = true) l) as Hin by (by apply list_elem_of_filter).
  destruct (filter _ l); [by apply not_elem_of_nil in Hin|done].
Qed.

Lemma bget_cached_ok s o dev bn :
  ring (bufs s) o → HEAD ∉ o → (length o ≤ HEAD)%nat →
  bget_cached dev bn s = Done (first s (λ x, (bdev x =? dev) && (blockno x =? bn)) o) s.
Proof.
  intros [Hn _] Hh Hlen. unfold bget_cached, bind, rd at 1, gets.
  apply (scan_ok s next); [done..|lia].
Qed.

Lemma bget_unused_ok s o :
  ring (bufs s) o → HEAD ∉ o → (length o ≤ HEAD)%nat →
  bget_unused s = Done (first s (λ x, refcnt x =? 0) (reverse o)) s.
Proof.
  intros [_ Hp] Hh Hlen. unfold bget_unused, bind, rd at 1, gets.
  apply (scan_ok s prev); [done| |rewrite length_reverse; lia].
  by rewrite elem_of_reverse.
Qed.

(** Updates that keep the links. *)
Lemma ring_ext g g' o :
  (∀ i, nxt g' i = nxt g i ∧ prv g' i = prv g i) → ring g o → ring g' o.
Proof.
  intros H [Hn Hp]. split.
  - rewrite <-Hn. apply list_fmap_ext. intros ? i _. apply H.
  - rewrite <-Hp. apply list_fmap_ext. intros ? i _. apply H.
Qed.

Lemma ring_upd s o i f :
  ring (bufs s) o → (i < length (bufs s))%nat →
  next (f (getb s i)) = next (getb s i) ∧ prev (f (getb s i)) = prev (getb s i) →
  ring (bufs (updb i f s)) o.
Proof.
  intros Hr Hi Hf. eapply ring_ext; [|done]. intros j.
  change (nxt (bufs (updb i f s)) j) with (next (getb (updb i f s) j)).
  change (prv (bufs (updb i f s)) j) with (prev (getb (updb i f s) j)).
  rewrite getb_updb by done. case_decide; [subst; apply Hf|done].
Qed.

(** ** Removing a buffer from the ring and putting it in front *)

Definition ringf (n p : nat → nat) (o : list nat) : Prop :=
  n <$> HEAD :: o = o ++ [HEAD] ∧ p <$> HEAD :: reverse o = reverse o ++ [HEAD].

Lemma fn_fmap_notin (f : nat → nat) a v (l : list nat) : a ∉ l → <[a := v]> f <$> l = f <$> l.
Proof.
  intros H. apply list_fmap_ext. intros ? x Hx%list_elem_of_lookup_2.
  rewrite fn_lookup_insert_ne; [done|]. by intros ->.
Qed.

(** The successor of [i] on a path. *)
Lemma path_succ f x a i b :
  f <$> x :: a ++ i :: b = (a ++ i :: b) ++ [HEAD] → f i = default HEAD (head b).
Proof.
  revert x. induction a as [|y a IH]; intros x H; simpl in H; injection H as H1 H.
  - destruct b; simpl in *; by simplify_eq.
  - by apply (IH y).
Qed.

Lemma path_skip f x a i b :
  f <$> x :: a ++ i :: b = (a ++ i :: b) ++ [HEAD] → NoDup (x :: a ++ i :: b) →
  <[default x (last a) := f i]> f <$> x :: a ++ b = (a ++ b) ++ [HEAD].
Proof.
  revert x. induction a as [|y a IH]; intros x H Hnd; apply NoDup_cons in Hnd as [Hx Hnd].
  - simpl in H |- *. injection H as H1 H2. rewrite fn_lookup_insert, fn_fmap_notin; [done|].
    intros ?. apply Hx. by right.
  - simpl in H. injection H as H1 H.
    assert (default x (last (y :: a)) = default y (last a)) as -> by (rewrite last_cons; by destruct (last a)).
    assert (default y (last a) ∈ y :: a) as Hin.
    { destruct (last a) as [z|] eqn:E; simpl; [|left]. right. by apply last_Some_elem_of. }
    rewrite <-app_comm_cons. rewrite fmap_cons, (IH y) by done.
    rewrite fn_lookup_insert_ne; [by rewrite H1|]. intros <-. apply Hx.
    apply elem_of_app. by left.
Qed.

Lemma ringf_unlink n p l1 i l2 :
  NoDup (HEAD :: l1 ++ i :: l2) → ringf n p (l1 ++ i :: l2) →
  ringf (<[p i := n i]> n) (<[n i := p i]> p) (l1 ++ l2).
Proof.
  intros Hnd [Hn Hp].
  assert (reverse (l1 ++ i :: l2) = reverse l2 ++ i :: reverse l1) as Hrev.
  { by rewrite reverse_app, reverse_cons, <-app_assoc. }
  rewrite Hrev in Hp.
  assert (NoDup (HEAD :: reverse l2 ++ i :: reverse l1)) as Hnd'.
  { rewrite <-Hrev. by rewrite (reverse_Permutation (l1 ++ i :: l2)). }
  pose proof (path_succ n _ _ _ _ Hn) as Hni. pose proof (path_succ p _ _ _ _ Hp) as Hpi.
  rewrite head_reverse in Hpi.
  split; [rewrite Hpi; by apply path_skip|].
  rewrite reverse_app. replace (n i) with (default HEAD (last (reverse l2))); [by apply path_skip|].
  by rewrite last_reverse, Hni.
Qed.

Lemma ringf_push n p i o :
  NoDup (HEAD :: i :: o) → ringf n p o →
  ringf (<[HEAD := i]> (<[i := n HEAD]> n)) (<[n HEAD := i]> (<[i := HEAD]> p)) (i :: o).
Proof.
  rewrite !NoDup_cons. intros (Hh & Hi & Hnd) [Hn Hp]. apply not_elem_of_cons in Hh as [Hne Hh].
  split.
  - rewrite !fmap_cons, fn_lookup_insert, fn_fmap_notin, fn_fmap_notin by done.
    rewrite fn_lookup_insert_ne, fn_lookup_insert by done. rewrite fmap_cons in Hn. by rewrite Hn.
  - assert (∃ a, HEAD :: reverse o = a ++ [n HEAD]) as [a Ha].
    { destruct o as [|j o].
      - exists []. simpl in Hn. injection Hn as Hn. by rewrite Hn.
      - exists (HEAD :: reverse o). simpl in Hn. injection Hn as -> _.
        by rewrite reverse_cons. }
    assert (NoDup (a ++ [n HEAD])) as Hnd'.
    { rewrite <-Ha. apply NoDup_cons. split; [by rewrite elem_of_reverse|].
      by rewrite (reverse_Permutation o). }
    assert (i ∉ a ++ [n HEAD]) as Hia.
    { rewrite <-Ha. apply not_elem_of_cons. split; [done|]. by rewrite elem_of_reverse. }
    rewrite Ha, fmap_app in Hp. apply app_inj_tail in Hp as [Hpa Hpf].
    apply NoDup_app in Hnd' as (_ & Hnf & _). apply not_elem_of_app in Hia as [Hia Hif].
    rewrite reverse_cons, app_comm_cons, Ha, !fmap_app.
    rewrite fn_fmap_notin, fn_fmap_notin; [|done|].
    2: { intros Hin. apply (Hnf _ Hin). left. }
    simpl. rewrite fn_lookup_insert, fn_lookup_insert_ne, fn_lookup_insert, Hpa.
    + by rewrite <-app_assoc.
    + intros Heq. apply Hif. rewrite Heq. left.
Qed.

Definition move_front (b : nat) : M bst unit :=
  let* nx := rd next b in
  let* pv := rd prev b in
  wr nx (set_prev pv) ;;;
  let* nx := rd next b in
  let* pv := rd prev b in
  wr pv (set_next nx) ;;;
  let* h := rd next HEAD in
  wr b (set_next h) ;;;
  wr b (set_prev HEAD) ;;;
  let* h := rd next HEAD in
  wr h (set_prev b) ;;;
  wr HEAD (set_next b).

(** Everything but the links. *)
Definition same_core (b b' : buf) : Prop :=
  valid b = valid b' ∧ bdev b = bdev b' ∧ blockno b = blockno b' ∧ locked b = locked b' ∧
  lkpid b = lkpid b' ∧ refcnt b = refcnt b' ∧ data b = data b'.

Definition links_as (s s' : bst) (n p : nat → nat) : Prop :=
  length (bufs s') = length (bufs s) ∧ bdisk s' = bdisk s ∧ btrace s' = btrace s ∧
  (∀ j, same_core (getb s' j) (getb s j)) ∧
  (∀ j, next (getb s' j) = n j) ∧ (∀ j, prev (getb s' j) = p j).

Lemma links_set_next s s' n p i x :
  links_as s s' n p → (i < length (bufs s))%nat →
  links_as s (updb i (set_next x) s') (<[i := x]> n) p.
Proof.
  intros (Hl & Hd & Ht & Hc & Hn & Hp) Hi.
  unfold links_as. rewrite length_updb. split_and!; try done;
    intros j; rewrite getb_updb by lia; case_decide; subst; try apply Hc; try apply Hp.
  - by rewrite fn_lookup_insert.
  - by rewrite fn_lookup_insert_ne.
Qed.

Lemma links_set_prev s s' n p i x :
  links_as s s' n p → (i < length (bufs s))%nat →
  links_as s (updb i (set_prev x) s') n (<[i := x]> p).
Proof.
  intros (Hl & Hd & Ht & Hc & Hn & Hp) Hi.
  unfold links_as. rewrite length_updb. split_and!; try done;
    intros j; rewrite getb_updb by lia; case_decide; subst; try apply Hc; try apply Hn.
  - by rewrite fn_lookup_insert.
  - by rewrite fn_lookup_insert_ne.
Qed.

Lemma ring_links s n p o :
  (∀ j, next (getb s j) = n j) → (∀ j, prev (getb s j) = p j) → ringf n p o → ring (bufs s) o.
Proof.
  intros Hn Hp [H1 H2]. split; [rewrite <-H1|rewrite <-H2]; apply list_fmap_ext;
    intros ? j _; [apply Hn|apply Hp].
Qed.

Lemma move_front_ok s o i :
  length (bufs s) = S HEAD → o ≡ₚ seq 0 HEAD → ring (bufs s) o → (i < HEAD)%nat →
  ∃ l1 l2 s', o = l1 ++ i :: l2 ∧ move_front i s = Done tt s' ∧
    length (bufs s') = S HEAD ∧ ring (bufs s') (i :: l1 ++ l2) ∧
    bdisk s' = bdisk s ∧ btrace s' = btrace s ∧ (∀ j, same_core (getb s' j) (getb s j)).
Proof.
  intros Hlen Ho Hr Hi.
  assert (i ∈ o) as (l1 & l2 & ->)%list_elem_of_split.
  { rewrite Ho. apply elem_of_seq. lia. }
  assert (NoDup (HEAD :: l1 ++ i :: l2)) as Hnd.
  { rewrite Ho. apply NoDup_cons. split; [rewrite elem_of_seq; lia|apply NoDup_seq]. }
  assert (∀ j, j ∈ HEAD :: l1 ++ i :: l2 → (j < length (bufs s))%nat) as Hin.
  { intros j. rewrite Ho, elem_of_cons, elem_of_seq. lia. }
  set (n := nxt (bufs s)). set (p := prv (bufs s)).
  change (ringf n p (l1 ++ i :: l2)) in Hr. pose proof Hr as [Hn Hp].
  assert (n i ∈ HEAD :: l2) as Hni.
  { rewrite (path_succ n HEAD l1 i l2 Hn). destruct l2; simpl; [left|right; left]. }
  assert (p i ∈ HEAD :: l1) as Hpi.
  { rewrite reverse_app, reverse_cons, <-app_assoc in Hp.
    rewrite (path_succ p HEAD (reverse l2) i (reverse l1) Hp), head_reverse.
    destruct (last l1) eqn:E; simpl; [right; by apply last_Some_elem_of|left]. }
  assert ((i ∉ HEAD :: l1) ∧ (i ∉ HEAD :: l2)) as [Hi1 Hi2].
  { clear -Hnd. rewrite NoDup_cons, NoDup_app, NoDup_cons in Hnd. set_solver. }
  assert (n i ≠ i ∧ p i ≠ i) as [Hne1 Hne2] by (split; congruence).
  assert (n i < length (bufs s) ∧ p i < length (bufs s))%nat as [Hb1 Hb2].
  { split; apply Hin; clear -Hni Hpi; set_solver. }
  pose proof (ringf_unlink n p l1 i l2 Hnd Hr) as Hr1.
  set (n1 := <[p i := n i]> n) in *. set (p1 := <[n i := p i]> p) in *.
  assert (n1 HEAD ∈ HEAD :: l1 ++ l2) as Hh1.
  { destruct Hr1 as [Hn1 _]. destruct (l1 ++ l2) as [|f r]; simpl in Hn1; injection Hn1 as ->; [left|].
    by right; left. }
  pose proof (ringf_push n1 p1 i (l1 ++ l2)) as Hr2.
  assert (links_as s s n p) as L0 by done.
  eapply (links_set_prev _ _ _ _ (n i) (p i)) in L0 as L1; [|done].
  eapply (links_set_next _ _ _ _ (p i) (n i)) in L1 as L2; [|done].
  eapply (links_set_next _ _ _ _ i (n1 HEAD)) in L2 as L3; [|lia].
  eapply (links_set_prev _ _ _ _ i HEAD) in L3 as L4; [|lia].
  eapply (links_set_prev _ _ _ _ (n1 HEAD) i) in L4 as L5; [|by apply Hin; clear -Hh1; set_solver].
  eapply (links_set_next _ _ _ _ HEAD i) in L5 as L6; [|lia].
  destruct L6 as (Hl6 & Hd6 & Ht6 & Hc6 & Hn6 & Hp6).
  eexists l1, l2, _. split; [done|]. split; [|split_and!; [by rewrite Hl6| |exact Hd6|exact Ht6|exact Hc6]].
  2: { eapply ring_links; [exact Hn6|exact Hp6|]. apply Hr2; [|done].
       clear -Hnd. rewrite !NoDup_cons, NoDup_app, NoDup_cons in Hnd.
       rewrite !NoDup_cons, NoDup_app. set_solver. }
  unfold move_front, bind, rd, wr, gets, modify. cbv beta iota.
  change (next (getb s i)) with (n i). change (prev (getb s i)) with (p i).
  destruct L1 as (_ & _ & _ & _ & Hn1 & Hp1). rewrite Hn1, Hp1.
  rewrite fn_lookup_insert_ne by done.
  destruct L2 as (_ & _ & _ & _ & Hn2 & Hp2). rewrite Hn2. fold n1.
  destruct L4 as (_ & _ & _ & _ & Hn4 & Hp4). rewrite Hn4.
  rewrite fn_lookup_insert_ne; [done|]. intros ->. apply Hi1. left.
Qed.

(** ** The cache as a map from blocks to buffers *)

Section spec.
Variable dev pid : Z.

(** Buffer [i] holds block [bn] of the device. *)
Definition caches (s : bst) (bn : Z) (i : nat) : Prop :=
  (i < HEAD)%nat ∧ bdev (getb s i) = dev ∧ blockno (getb s i) = bn.

(** What a buffer of the device says about its block. *)
Definition buf_agrees (V : bview) (i : nat) (b : buf) : Prop :=
  refcnt b = v_refs V (blockno b) ∧
  (if valid b then data b = v_data V (blockno b)
   else v_data V (blockno b) = v_disk V (blockno b)) ∧
  (if locked b then v_held V (blockno b) = Some i ∧ lkpid b = pid ∧ valid b = true
   else v_held V (blockno b) = None).

Definition in_use (s : bst) : list nat :=
  filter (λ i, refcnt (getb s i) ≠ 0) (seq 0 HEAD).

Record cache_inv (s : bst) (V : bview) : Prop := {
  ci_len : length (bufs s) = S HEAD;
  ci_ring : ∃ o, o ≡ₚ seq 0 HEAD ∧ ring (bufs s) o;
  ci_uniq bn i j : caches s bn i → caches s bn j → i = j;
  ci_buf bn i : caches s bn i → buf_agrees V i (getb s i);
  ci_other i : (i < HEAD)%nat → bdev (getb s i) ≠ dev →
    refcnt (getb s i) = 0 ∧ locked (getb s i) = false;
  ci_uncached bn : (∀ i, ¬ caches s bn i) →
    v_refs V bn = 0 ∧ v_held V bn = None;
  ci_refs bn : 0 ≤ v_refs V bn < 2^32 ∧
    (v_refs V bn = 0 → v_held V bn = None ∧ v_data V bn = v_disk V bn);
  ci_used : v_used V = length (in_use s);
  ci_disk bn : disk_block s bn = v_disk V bn;
  ci_blocks bn : block_ok (v_data V bn) ∧ block_ok (v_disk V bn);
  ci_trace : btrace s = v_trace V
}.

Lemma order_elems (o : list nat) :
  o ≡ₚ seq 0 HEAD → (HEAD ∉ o) ∧ length o = HEAD ∧ (∀ i, i ∈ o ↔ (i < HEAD)%nat).
Proof.
  intros Ho. split; [rewrite Ho, elem_of_seq; lia|]. split; [by rewrite Ho, length_seq|].
  intros i. rewrite Ho, elem_of_seq. lia.
Qed.

Lemma filter_ext_in {A} (P P' : A → Prop) `{∀ x, Decision (P x)} `{∀ x, Decision (P' x)} (l : list A) :
  (∀ x, x ∈ l → P x ↔ P' x) → filter P l = filter P' l.
Proof.
  induction l as [|x l IH]; intros Heq; [done|]. rewrite !filter_cons.
  assert (P x ↔ P' x) by (apply Heq; left).
  rewrite IH by (intros; apply Heq; by right). repeat case_decide; tauto.
Qed.

Lemma filter_all {A} (P : A → Prop) `{∀ x, Decision (P x)} (l : list A) :
  (∀ x, x ∈ l → P x) → filter P l = l.
Proof.
  induction l as [|x l IH]; intros HP; [done|].
  rewrite filter_cons, decide_True by (apply HP; left). f_equal. apply IH.
  intros. apply HP. by right.
Qed.

Lemma filter_none {A} (P : A → Prop) `{∀ x, Decision (P x)} (l : list A) :
  (∀ x, x ∈ l → ¬ P x) → filter P l = [].
Proof.
  induction l as [|x l IH]; intros HP; [done|].
  rewrite filter_cons, decide_False by (apply HP; left). apply IH. intros. apply HP. by right.
Qed.

(** Changing whether one index satisfies a predicate changes a count by one. *)
Lemma filter_flip (P P' : nat → Prop) `{∀ x, Decision (P x)} `{∀ x, Decision (P' x)} l i :
  NoDup l → i ∈ l → ¬ P i → P' i → (∀ j, j ≠ i → P j ↔ P' j) →
  length (filter P' l) = S (length (filter P l)).
Proof.
  intros Hnd Hi HP HP' Heq. apply list_elem_of_split in Hi as (l1 & l2 & ->).
  assert ((i ∉ l1) ∧ (i ∉ l2)) as [H1 H2].
  { rewrite NoDup_app, NoDup_cons in Hnd. set_solver. }
  assert (∀ l' : list nat, i ∉ l' → filter P l' = filter P' l') as Hf.
  { intros l' Hn. apply filter_ext_in. intros j Hj. apply Heq. by intros ->. }
  rewrite !filter_app, !filter_cons, (decide_False (P := P i)), (decide_True (P := P' i)) by done.
  rewrite (Hf l1), (Hf l2) by done. rewrite !length_app. simpl. lia.
Qed.

Lemma in_use_le s : (length (in_use s) ≤ HEAD)%nat.
Proof.
  unfold in_use. etrans; [apply length_filter|]. by rewrite length_seq.
Qed.

(** Fewer than [NBUF] buffers in use: some buffer is free. *)
Lemma in_use_free s : (length (in_use s) < HEAD)%nat → ∃ i, (i < HEAD)%nat ∧ refcnt (getb s i) = 0.
Proof.
  intros H. destruct (decide (Exists (λ i, refcnt (getb s i) = 0) (seq 0 HEAD))) as [He|He].
  - apply Exists_exists in He as (i & Hi & H0). apply elem_of_seq in Hi. exists i. lia.
  - exfalso. apply not_Exists_Forall in He; [|apply _]. unfold in_use in H.
    rewrite filter_all, length_seq in H; [lia|].
    intros i Hi. rewrite Forall_forall in He. by apply He.
Qed.

Lemma inv_ext s V V' : view_eq V V' → cache_inv s V → cache_inv s V'.
Proof.
  intros (He & Hu & Ht) [].
  split; try done; try congruence.
  - intros bn i Hc. specialize (ci_buf0 _ _ Hc). unfold buf_agrees in *.
    by destruct (He (blockno (getb s i))) as (<- & <- & <- & <-).
  - intros bn Hn. destruct (He bn) as (_ & _ & <- & <-). auto.
  - intros bn. destruct (He bn) as (<- & <- & <- & <-). auto.
  - intros bn. destruct (He bn) as (_ & <- & _ & _). auto.
  - intros bn. destruct (He bn) as (<- & <- & _ & _). auto.
Qed.

(** The number of buffers in use after an update of one buffer. *)
Lemma in_use_upd s i f :
  length (bufs s) = S HEAD → (i < HEAD)%nat →
  Z.of_nat (length (in_use (updb i f s))) =
    length (in_use s) + (if refcnt (f (getb s i)) =? 0 then 0 else 1)
                      - (if refcnt (getb s i) =? 0 then 0 else 1).
Proof.
  intros Hlen Hi. unfold in_use.
  assert (i ∈ seq 0 HEAD) as Hin by (apply elem_of_seq; lia).
  assert (∀ j, j ≠ i → getb (updb i f s) j = getb s j) as Hne.
  { intros j Hj. rewrite getb_updb by lia. by rewrite decide_False. }
  assert (getb (updb i f s) i = f (getb s i)) as Heq.
  { rewrite getb_updb by lia. by rewrite decide_True. }
  destruct (Z.eqb_spec (refcnt (f (getb s i))) 0); destruct (Z.eqb_spec (refcnt (getb s i)) 0).
  - rewrite (filter_ext_in (λ j, refcnt (getb (updb i f s) j) ≠ 0)
      (λ j, refcnt (getb s j) ≠ 0)); [lia|].
    intros j _. destruct (decide (j = i)) as [->|]; [rewrite Heq; lia|by rewrite Hne].
  - rewrite (filter_flip (λ j, refcnt (getb (updb i f s) j) ≠ 0)
      (λ j, refcnt (getb s j) ≠ 0) _ i); [lia|apply NoDup_seq|done|rewrite Heq; lia|done|].
    intros j Hj. by rewrite Hne.
  - rewrite (filter_flip (λ j, refcnt (getb s j) ≠ 0)
      (λ j, refcnt (getb (updb i f s) j) ≠ 0) _ i); [lia|apply NoDup_seq|done|lia|by rewrite Heq|].
    intros j Hj. by rewrite Hne.
  - rewrite (filter_ext_in (λ j, refcnt (getb (updb i f s) j) ≠ 0)
      (λ j, refcnt (getb s j) ≠ 0)); [lia|].
    intros j _. destruct (decide (j = i)) as [->|]; [rewrite Heq; tauto|by rewrite Hne].
Qed.

(** [V'] differs from [V] only in what it says about block [bn]. *)
Definition same_but (bn : Z) (V V' : bview) : Prop :=
  ∀ bn', bn' ≠ bn → v_refs V' bn' = v_refs V bn' ∧ v_held V' bn' = v_held V bn' ∧
    v_data V' bn' = v_data V bn' ∧ v_disk V' bn' = v_disk V bn'.

Definition view_ok (bn : Z) (V : bview) : Prop :=
  (0 ≤ v_refs V bn < 2^32 ∧
   (v_refs V bn = 0 → v_held V bn = None ∧ v_data V bn = v_disk V bn)) ∧
  block_ok (v_data V bn) ∧ block_ok (v_disk V bn).

Lemma buf_agrees_but V V' bn i b :
  same_but bn V V' → blockno b ≠ bn → buf_agrees V i b → buf_agrees V' i b.
Proof.
  intros Hs Hne. unfold buf_agrees. by destruct (Hs (blockno b) Hne) as (-> & -> & -> & ->).
Qed.

Lemma view_ok_but s V V' bn bn' :
  cache_inv s V → same_but bn V V' → view_ok bn V' → view_ok bn' V'.
Proof.
  intros Hi Hs Hok. destruct (decide (bn' = bn)) as [->|Hne]; [done|].
  unfold view_ok. destruct (Hs bn' Hne) as (-> & -> & -> & ->).
  split; [by apply (ci_refs _ _ Hi)|by apply (ci_blocks _ _ Hi)].
Qed.

(** An update of the buffer of block [bn] that keeps its identity. *)
Lemma inv_upd s V bn i f V' dk :
  cache_inv s V → caches s bn i →
  (next (f (getb s i)) = next (getb s i) ∧ prev (f (getb s i)) = prev (getb s i)) ∧
    bdev (f (getb s i)) = bdev (getb s i) ∧ blockno (f (getb s i)) = blockno (getb s i) →
  same_but bn V V' → buf_agrees V' i (f (getb s i)) → view_ok bn V' →
  v_used V' = length (in_use (updb i f s)) →
  (∀ bn', default zero_block (dk !! bn') = v_disk V' bn') →
  cache_inv (Bst (bufs (updb i f s)) dk (v_trace V')) V'.
Proof.
  intros Hi Hc Hf Hs Hb Hok Hu Hd. pose proof (ci_len _ _ Hi) as Hlen.
  destruct Hc as (Hlt & Hdev & Hbn).
  assert (∀ j, getb (updb i f s) j = if decide (j = i) then f (getb s j) else getb s j) as Hg.
  { intros j. by rewrite getb_updb by lia. }
  assert (∀ bn' j, caches (updb i f s) bn' j ↔ caches s bn' j) as Hca.
  { intros bn' j. unfold caches. rewrite Hg. case_decide; [|done]. subst.
    destruct Hf as (_ & -> & ->). done. }
  split.
  - change (length (bufs (updb i f s)) = S HEAD). by rewrite length_updb.
  - destruct (ci_ring _ _ Hi) as (o & Ho & Hr). exists o. split; [done|].
    apply ring_upd; [done|lia|]. apply Hf.
  - intros bn' j1 j2. change (caches (updb i f s) bn' j1 → caches (updb i f s) bn' j2 → j1 = j2).
    rewrite !Hca. apply (ci_uniq _ _ Hi).
  - intros bn' j. change (caches (updb i f s) bn' j → buf_agrees V' j (getb (updb i f s) j)).
    rewrite Hca, Hg. intros Hj. case_decide; [by subst|].
    eapply buf_agrees_but; [done| |by apply (ci_buf _ _ Hi bn')].
    intros Hbj. assert (j = i); [|done]. apply (ci_uniq _ _ Hi bn); [|done].
    destruct Hj as (? & ? & ?). done.
  - intros j Hj. change (bdev (getb (updb i f s) j) ≠ dev →
      refcnt (getb (updb i f s) j) = 0 ∧ locked (getb (updb i f s) j) = false).
    rewrite Hg. case_decide; [|by apply (ci_other _ _ Hi)]. subst.
    destruct Hf as (_ & -> & _). done.
  - intros bn' Hj. assert (bn' ≠ bn) as Hne.
    { intros ->. apply (Hj i). apply (Hca bn i). done. }
    destruct (Hs bn' Hne) as (-> & -> & _ & _). apply (ci_uncached _ _ Hi).
    intros j Hc. apply (Hj j). by apply (Hca bn' j).
  - intros bn'. eapply view_ok_but; done.
  - done.
  - done.
  - intros bn'. eapply view_ok_but; done.
  - done.
Qed.

Lemma caches_dec s bn : (∃ i, caches s bn i) ∨ (∀ i, ¬ caches s bn i).
Proof.
  destruct (decide (Exists (λ i, bdev (getb s i) = dev ∧ blockno (getb s i) = bn) (seq 0 HEAD)))
    as [He|He].
  - left. apply Exists_exists in He as (i & Hi & ? & ?). exists i.
    apply elem_of_seq in Hi. split; [lia|done].
  - right. intros i (Hi & ? & ?). apply He, Exists_exists. exists i.
    split; [apply elem_of_seq; lia|done].
Qed.

Lemma caches_refs s V bn i : cache_inv s V → caches s bn i → refcnt (getb s i) = v_refs V bn.
Proof. intros Hi Hc. destruct (ci_buf _ _ Hi _ _ Hc) as [H _]. by destruct Hc as (_ & _ & <-). Qed.

(** The buffer a process holds. *)
Lemma held_buf s V bn i :
  cache_inv s V → v_held V bn = Some i →
  caches s bn i ∧ locked (getb s i) = true ∧ lkpid (getb s i) = pid ∧
  valid (getb s i) = true ∧ data (getb s i) = v_data V bn ∧ 0 < v_refs V bn < 2^32.
Proof.
  intros Hi Hh. destruct (caches_dec s bn) as [[j Hj]|Hn].
  - destruct (ci_buf _ _ Hi _ _ Hj) as (Hr & Hd & Hl). destruct (ci_refs _ _ Hi bn) as [Hb H0].
    pose proof Hj as (_ & _ & Hbn). rewrite Hbn in *.
    destruct (locked (getb s j)) eqn:El; [|congruence].
    destruct Hl as (Hl & Hp & Hv). rewrite Hv in Hd. assert (j = i) as -> by congruence.
    split_and!; try done; [|lia].
    destruct (decide (v_refs V bn = 0)) as [E|]; [|lia]. destruct (H0 E). congruence.
  - destruct (ci_uncached _ _ Hi bn Hn) as [_ H]. congruence.
Qed.

Lemma holdingsleep_held s V bn i :
  cache_inv s V → v_held V bn = Some i → holdingsleep pid i s = Done true s.
Proof.
  intros Hi Hh. destruct (held_buf _ _ _ _ Hi Hh) as (_ & Hl & Hp & _).
  unfold holdingsleep, bind, rd, gets, ret, id. by rewrite Hl, Hp, Z.eqb_refl.
Qed.

Lemma updb_id i s : updb i id s = s.
Proof. unfold updb. rewrite list_alter_id; [by destruct s|done]. Qed.

Lemma held_only bn (V V' : bview) :
  v_refs V' = v_refs V → v_held V' = v_held V →
  (∀ bn', bn' ≠ bn → v_data V' bn' = v_data V bn' ∧ v_disk V' bn' = v_disk V bn') →
  same_but bn V V'.
Proof. intros Hr Hh H bn' Hne. rewrite Hr, Hh. by destruct (H bn' Hne). Qed.

Lemma bwrite_spec s V bn i :
  cache_inv s V → v_held V bn = Some i →
  ∃ s', bwrite pid i s = Done tt s' ∧ cache_inv s' (v_write bn V).
Proof.
  intros Hi Hh. destruct (held_buf _ _ _ _ Hi Hh) as (Hc & Hl & Hp & Hv & Hd & Hr).
  pose proof Hc as (Hlt & _ & Hbn).
  eexists. split.
  - unfold bwrite, bind. rewrite (holdingsleep_held s V bn) by done. simpl.
    unfold disk_rw, bind, rd, gets, modify, id. rewrite Hbn, Hd. reflexivity.
  - rewrite (ci_trace _ _ Hi).
    replace (bufs s) with (bufs (updb i id s)) by (by rewrite updb_id).
    eapply (inv_upd s V bn i id (v_write bn V)); [done..| | | | |].
    + apply held_only; [done..|]. intros bn' Hne. simpl.
      by rewrite fn_lookup_insert_ne.
    + unfold buf_agrees, id. rewrite Hl, Hv, Hp, Hd, Hbn. simpl.
      split; [|done]. by apply caches_refs.
    + destruct (ci_blocks _ _ Hi bn). split; simpl; rewrite fn_lookup_insert; [|done].
      split; [lia|]. intros. lia.
    + simpl. rewrite updb_id. apply (ci_used _ _ Hi).
    + intros bn'. simpl. destruct (decide (bn' = bn)) as [->|].
      * by rewrite lookup_insert_eq, fn_lookup_insert.
      * rewrite lookup_insert_ne, fn_lookup_insert_ne by done. apply (ci_disk _ _ Hi).
Qed.

Lemma disk_of s V bn' : cache_inv s V → default zero_block (bdisk s !! bn') = v_disk V bn'.
Proof. intros Hi. apply (ci_disk _ _ Hi). Qed.

Lemma set_data_spec s V bn i d :
  cache_inv s V → v_held V bn = Some i → block_ok d →
  ∃ s', wr i (set_data d) s = Done tt s' ∧ cache_inv s' (v_set bn d V).
Proof.
  intros Hi Hh Hok. destruct (held_buf _ _ _ _ Hi Hh) as (Hc & Hl & Hp & Hv & Hd & Hr).
  pose proof Hc as (Hlt & _ & Hbn). eexists. split; [done|].
  change (updb i (set_data d) s) with
    (Bst (bufs (updb i (set_data d) s)) (bdisk s) (btrace s)). rewrite (ci_trace _ _ Hi).
  eapply (inv_upd s V bn i (set_data d) (v_set bn d V)); [done..| | | | |].
  - apply held_only; [done..|]. intros bn' Hne. simpl. by rewrite fn_lookup_insert_ne.
  - unfold buf_agrees. simpl. rewrite Hl, Hv, Hp, Hbn, fn_lookup_insert. 
    split; [|done]. by apply caches_refs.
  - split; simpl; rewrite ?fn_lookup_insert; [|by split; [|apply (ci_blocks _ _ Hi)]].
    split; [lia|]. intros. lia.
  - simpl. rewrite in_use_upd by (done || apply (ci_len _ _ Hi)). simpl.
    rewrite (ci_used _ _ Hi). lia.
  - intros bn'. by apply (disk_of s V).
Qed.

(** [refcnt += n] on a held buffer that stays in use. *)
Lemma pin_spec s V bn i n :
  cache_inv s V → v_held V bn = Some i → 0 < v_refs V bn + n < 2^32 →
  cache_inv (updb i (set_refcnt (u32 (refcnt (getb s i) + n))) s) (v_pin bn n V).
Proof.
  intros Hi Hh Hn. destruct (held_buf _ _ _ _ Hi Hh) as (Hc & Hl & Hp & Hv & Hd & Hr).
  pose proof Hc as (Hlt & _ & Hbn). rewrite (caches_refs s V bn) by done.
  assert (u32 (v_refs V bn + n) = v_refs V bn + n) as -> by (apply Z.mod_small; lia).
  set (f := set_refcnt _).
  change (updb i f s) with (Bst (bufs (updb i f s)) (bdisk s) (btrace s)).
  rewrite (ci_trace _ _ Hi).
  eapply (inv_upd s V bn i f (v_pin bn n V)); [done..| | | | |].
  - intros bn' Hne. simpl. by rewrite fn_lookup_insert_ne.
  - unfold buf_agrees. simpl. by rewrite Hl, Hv, Hp, Hbn, fn_lookup_insert.
  - split; simpl; rewrite ?fn_lookup_insert; [|apply (ci_blocks _ _ Hi)].
    split; [lia|]. intros. lia.
  - simpl. rewrite in_use_upd by (done || apply (ci_len _ _ Hi)). simpl.
    rewrite (caches_refs s V bn), (ci_used _ _ Hi) by done.
    destruct (Z.eqb_spec (v_refs V bn + n) 0), (Z.eqb_spec (v_refs V bn) 0); lia.
  - intros bn'. by apply (disk_of s V).
Qed.

(** ** bread and brelse *)

(** A buffer as [bread] returns it. *)
Definition got (bn r : Z) (d : block) (b : buf) : buf :=
  Buf true dev bn true pid r (prev b) (next b) d.

Lemma updb_ext i f g s :
  f (getb s i) = g (getb s i) → updb i f s = updb i g s.
Proof.
  intros H. unfold updb. f_equal. apply list_alter_ext; [|done].
  intros b Hb. unfold getb in H. by rewrite (list_lookup_total_correct _ _ _ Hb) in H.
Qed.

Lemma bread_hit s V bn i :
  cache_inv s V → caches s bn i → v_held V bn = None → v_refs V bn < 2^31 →
  bget_cached dev bn s = Done (Some i) s →
  bread pid dev bn s = Done i (updb i (got bn (v_refs V bn + 1) (v_data V bn)) s).
Proof.
  intros Hi Hc Hh Hr Hg. pose proof Hc as (Hlt & Hdev & Hbn).
  pose proof (ci_len _ _ Hi) as Hlen.
  destruct (ci_buf _ _ Hi _ _ Hc) as (_ & Hd & Hl). rewrite Hbn in Hd, Hl.
  destruct (ci_refs _ _ Hi bn) as [Hb _].
  assert (locked (getb s i) = false) as Hlk.
  { destruct (locked (getb s i)); [|done]. destruct Hl. congruence. }
  unfold bread, bget, bind. rewrite Hg. unfold rd, wr, gets, modify, acquiresleep, ret, bind.
  cbv beta iota. unfold rd, gets. rewrite !getb_updb, !decide_True by (rewrite ?length_updb; lia || done).
  simpl. rewrite Hlk. unfold wr, modify. rewrite (caches_refs s V bn) by done.
  rewrite !getb_updb, !decide_True by (rewrite ?length_updb; lia || done). simpl.
  assert (u32 (v_refs V bn + 1) = v_refs V bn + 1) as Hu by (apply Z.mod_small; lia).
  destruct (valid (getb s i)) eqn:Hv; simpl.
  - rewrite updb_updb. f_equal. apply updb_ext. rewrite Hu, <-Hd.
    unfold got, set_lock, set_refcnt, set_data, set_valid.
    destruct (getb s i). simpl in *. congruence.
  - unfold disk_rw, bind, rd, gets, wr, modify, id.
    rewrite !getb_updb, !decide_True by (rewrite ?length_updb; lia || done). simpl.
    rewrite !disk_block_updb, (ci_disk _ _ Hi), !updb_updb, Hbn, <-Hd. f_equal.
    apply updb_ext. rewrite Hu. unfold got, set_lock, set_refcnt, set_data, set_valid.
    destruct (getb s i). simpl in *. congruence.
Qed.

Lemma bread_miss s V bn i :
  cache_inv s V → (∀ j, ¬ caches s bn j) → (i < HEAD)%nat → refcnt (getb s i) = 0 →
  bget_cached dev bn s = Done None s → bget_unused s = Done (Some i) s →
  bread pid dev bn s = Done i (updb i (got bn 1 (v_disk V bn)) s).
Proof.
  intros Hi Hn Hlt H0 Hg Hg'. pose proof (ci_len _ _ Hi) as Hlen.
  assert (locked (getb s i) = false) as Hlk.
  { destruct (decide (bdev (getb s i) = dev)) as [Hd|Hd]; [|by apply (ci_other _ _ Hi)].
    assert (caches s (blockno (getb s i)) i) as Hc by done.
    destruct (ci_buf _ _ Hi _ _ Hc) as (Hr & _ & Hl). destruct (locked (getb s i)); [|done].
    destruct (ci_refs _ _ Hi (blockno (getb s i))) as [_ Hz].
    destruct Hl as [Hl _]. destruct Hz as [Hz _]; congruence. }
  unfold bread, bget, bind. rewrite Hg, Hg'. unfold rd, wr, gets, modify, acquiresleep, ret, bind.
  cbv beta iota. unfold rd, gets. rewrite !getb_updb, !decide_True by (rewrite ?length_updb; lia || done).
  simpl. rewrite Hlk. unfold wr, modify.
  rewrite !getb_updb, !decide_True by (rewrite ?length_updb; lia || done). simpl.
  unfold disk_rw, bind, rd, gets, wr, modify, id.
  rewrite !getb_updb, !decide_True by (rewrite ?length_updb; lia || done). simpl.
  rewrite !disk_block_updb, (ci_disk _ _ Hi), !updb_updb. done.
Qed.

Lemma inv_hit s V bn i :
  cache_inv s V → caches s bn i → v_held V bn = None → v_refs V bn < 2^31 →
  cache_inv (updb i (got bn (v_refs V bn + 1) (v_data V bn)) s) (v_get bn i V).
Proof.
  intros Hi Hc Hh Hr. pose proof Hc as (Hlt & Hdev & Hbn). destruct (ci_refs _ _ Hi bn) as [Hb _].
  set (f := got _ _ _).
  change (updb i f s) with (Bst (bufs (updb i f s)) (bdisk s) (btrace s)).
  rewrite (ci_trace _ _ Hi).
  eapply (inv_upd s V bn i f (v_get bn i V)); [done..| | | | |].
  - intros bn' Hne. simpl. by rewrite !fn_lookup_insert_ne.
  - unfold buf_agrees. simpl. by rewrite !fn_lookup_insert.
  - split; simpl; rewrite ?fn_lookup_insert; [|apply (ci_blocks _ _ Hi)].
    split; [lia|]. intros. lia.
  - simpl. rewrite in_use_upd by (done || apply (ci_len _ _ Hi)). simpl.
    rewrite (caches_refs s V bn), (ci_used _ _ Hi) by done.
    destruct (Z.eqb_spec (v_refs V bn + 1) 0), (Z.eqb_spec (v_refs V bn) 0); lia.
  - intros bn'. by apply (disk_of s V).
Qed.

(** An unused buffer is recycled for a block that was not cached. *)
Lemma inv_miss s V bn i :
  cache_inv s V → (∀ j, ¬ caches s bn j) → (i < HEAD)%nat → refcnt (getb s i) = 0 →
  cache_inv (updb i (got bn 1 (v_disk V bn)) s) (v_get bn i V).
Proof.
  intros Hi Hn Hlt H0. pose proof (ci_len _ _ Hi) as Hlen.
  destruct (ci_uncached _ _ Hi bn Hn) as [Hr Hh].
  destruct (ci_refs _ _ Hi bn) as [_ Hz]. destruct (Hz Hr) as [_ Hdd].
  assert (same_but bn V (v_get bn i V)) as Hs.
  { intros bn' Hne. simpl. by rewrite !fn_lookup_insert_ne. }
  assert (view_ok bn (v_get bn i V)) as Hok.
  { split; simpl; rewrite ?fn_lookup_insert; [|apply (ci_blocks _ _ Hi)].
    rewrite Hr. split; [lia|]. intros. lia. }
  set (f := got bn 1 (v_disk V bn)).
  assert (∀ j, getb (updb i f s) j = if decide (j = i) then f (getb s j) else getb s j) as Hg.
  { intros j. by rewrite getb_updb by lia. }
  assert (∀ bn' j, caches (updb i f s) bn' j → (j = i ∧ bn' = bn) ∨ (j ≠ i ∧ caches s bn' j)) as Hca.
  { intros bn' j (? & H1 & H2). rewrite Hg in H1, H2. case_decide; [by left|by right]. }
  split.
  - by rewrite length_updb.
  - destruct (ci_ring _ _ Hi) as (o & Ho & Hrg). exists o. split; [done|].
    apply ring_upd; [done|lia|done].
  - intros bn' j1 j2 [[-> ->]|[? H1]]%Hca [[-> ?]|[? H2]]%Hca; try done.
    + by destruct (Hn j2).
    + subst bn'. by destruct (Hn j1).
    + by eapply (ci_uniq _ _ Hi).
  - intros bn' j [[-> ->]|[Hne Hj]]%Hca; rewrite Hg.
    + rewrite decide_True by done. unfold buf_agrees. simpl. rewrite !fn_lookup_insert, Hr, Hdd. done.
    + rewrite decide_False by done. eapply buf_agrees_but; [done| |by apply (ci_buf _ _ Hi bn')].
      intros Heq. apply (Hn j). by destruct Hj as (? & ? & _).
  - intros j Hj. rewrite Hg. case_decide; [done|]. by apply (ci_other _ _ Hi).
  - intros bn' Hj. assert (bn' ≠ bn) as Hne.
    { intros ->. apply (Hj i). unfold caches. by rewrite Hg, decide_True. }
    destruct (Hs bn' Hne) as (-> & -> & _ & _). destruct (caches_dec s bn') as [[j Hc]|Hu].
    + assert (j = i) as ->.
      { destruct (decide (j = i)); [done|]. exfalso. apply (Hj j). unfold caches.
        by rewrite Hg, decide_False. }
      assert (v_refs V bn' = 0) as E by (by rewrite <-(caches_refs s V bn' i)).
      split; [done|]. by apply (ci_refs _ _ Hi bn').
    + by apply (ci_uncached _ _ Hi).
  - intros bn'. by eapply view_ok_but.
  - simpl. rewrite in_use_upd by done. simpl. rewrite Hr, H0, (ci_used _ _ Hi). simpl. lia.
  - apply (ci_disk _ _ Hi).
  - intros bn'. by eapply view_ok_but.
  - apply (ci_trace _ _ Hi).
Qed.

Lemma bread_spec s V bn :
  cache_inv s V → v_held V bn = None → v_refs V bn < 2^31 →
  0 < v_refs V bn ∨ v_used V < NBUF →
  ∃ i s', bread pid dev bn s = Done i s' ∧ cache_inv s' (v_get bn i V).
Proof.
  intros Hi Hh Hr Hfree. destruct (ci_ring _ _ Hi) as (o & Ho & Hrg).
  destruct (order_elems o Ho) as (Hno & Hlo & Hel).
  pose proof (bget_cached_ok s o dev bn Hrg Hno) as Hg. 
  destruct (first s (λ x, (bdev x =? dev) && (blockno x =? bn)) o) as [i|] eqn:E.
  - apply first_some in E as [Hin E]. rewrite andb_true_iff, !Z.eqb_eq in E.
    assert (caches s bn i) as Hc by (split; [by apply Hel|done]).
    exists i. eexists. split; [apply (bread_hit s V); try done; apply Hg; lia|].
    by apply inv_hit.
  - assert (∀ j, ¬ caches s bn j) as Hn.
    { intros j (Hj & H1 & H2). pose proof (first_none _ _ _ E j) as Hx. simpl in Hx.
      rewrite H1, H2, !Z.eqb_refl in Hx. by apply Hel, Hx in Hj. }
    destruct (ci_uncached _ _ Hi bn Hn) as [Hr0 _].
    pose proof (bget_unused_ok s o Hrg Hno) as Hg'.
    destruct (first s (λ x, refcnt x =? 0) (reverse o)) as [i|] eqn:E'.
    + apply first_some in E' as [Hin E']. rewrite elem_of_reverse in Hin. apply Hel in Hin.
      exists i. eexists. split; [|apply inv_miss; [done..|lia]].
      apply (bread_miss s V); [done..|lia| |]; [apply Hg|apply Hg']; lia.
    + exfalso. destruct (in_use_free s) as (i & Hi' & H0).
      { rewrite (ci_used _ _ Hi) in Hfree. unfold HEAD. lia. }
      apply Hel in Hi'. rewrite <-elem_of_reverse in Hi'.
      pose proof (first_none _ _ _ E' i Hi') as Hx. simpl in Hx. lia.
Qed.

(** Moving buffers within the ring. *)
Lemma inv_core s s' V o :
  cache_inv s V → length (bufs s') = S HEAD → o ≡ₚ seq 0 HEAD → ring (bufs s') o →
  bdisk s' = bdisk s → btrace s' = btrace s → (∀ j, same_core (getb s' j) (getb s j)) →
  cache_inv s' V.
Proof.
  intros Hi Hlen Ho Hr Hd Ht Hc.
  assert (∀ bn j, caches s' bn j ↔ caches s bn j) as Hca.
  { intros bn j. unfold caches. by destruct (Hc j) as (_ & -> & -> & _). }
  split.
  - done.
  - by exists o.
  - intros bn i j. rewrite !Hca. apply (ci_uniq _ _ Hi).
  - intros bn i. rewrite Hca. intros Hb%(ci_buf _ _ Hi). revert Hb. unfold buf_agrees.
    by destruct (Hc i) as (-> & _ & -> & -> & -> & -> & ->).
  - intros i Hlt. destruct (Hc i) as (_ & -> & _ & -> & _ & -> & _). by apply (ci_other _ _ Hi).
  - intros bn H. apply (ci_uncached _ _ Hi). intros i. rewrite <-Hca. apply H.
  - apply (ci_refs _ _ Hi).
  - rewrite (ci_used _ _ Hi). do 2 f_equal. unfold in_use. apply filter_ext_in.
    intros j _. by destruct (Hc j) as (_ & _ & _ & _ & _ & -> & _).
  - intros bn. unfold disk_block. rewrite Hd. apply (ci_disk _ _ Hi).
  - apply (ci_blocks _ _ Hi).
  - rewrite Ht. apply (ci_trace _ _ Hi).
Qed.

(** [brelse] up to the point where the buffer may move. *)
Definition released (V : bview) (bn : Z) (b : buf) : buf :=
  set_refcnt (v_refs V bn - 1) (set_lock false 0 b).

Lemma brelse_run s V bn i :
  cache_inv s V → v_held V bn = Some i →
  brelse pid i s =
    (if v_refs V bn - 1 =? 0 then move_front i else ret tt) (updb i (released V bn) s).
Proof.
  intros Hi Hh. destruct (held_buf _ _ _ _ Hi Hh) as (Hc & _ & _ & _ & _ & Hr).
  pose proof Hc as (Hlt & _ & _). pose proof (ci_len _ _ Hi) as Hlen.
  unfold brelse, bind at 1. rewrite (holdingsleep_held s V bn) by done. simpl.
  unfold releasesleep. unfold bind at 1, wr at 1, modify. unfold bind at 1, rd at 1, gets.
  unfold bind at 1, wr at 1, modify. unfold bind at 1, rd at 1, gets.
  rewrite updb_updb, !getb_updb, !decide_True by (rewrite ?length_updb; lia || done). simpl.
  rewrite (caches_refs s V bn) by done.
  assert (u32 (v_refs V bn - 1) = v_refs V bn - 1) as -> by (apply Z.mod_small; lia). done.
Qed.

Lemma inv_released s V bn i :
  cache_inv s V → v_held V bn = Some i → (v_refs V bn = 1 → v_data V bn = v_disk V bn) →
  cache_inv (updb i (released V bn) s) (v_put bn V).
Proof.
  intros Hi Hh Hcl. destruct (held_buf _ _ _ _ Hi Hh) as (Hc & Hl & Hp & Hv & Hd & Hr).
  pose proof Hc as (Hlt & _ & Hbn). pose proof (ci_len _ _ Hi) as Hlen. set (f := released V bn).
  change (updb i f s) with (Bst (bufs (updb i f s)) (bdisk s) (btrace s)).
  rewrite (ci_trace _ _ Hi).
  eapply (inv_upd s V bn i f (v_put bn V)); [done..| | | | |].
  - intros bn' Hne. simpl. by rewrite !fn_lookup_insert_ne.
  - unfold buf_agrees. simpl. rewrite Hv, Hbn, !fn_lookup_insert. done.
  - split; simpl; rewrite ?fn_lookup_insert; [|apply (ci_blocks _ _ Hi)].
    split; [lia|]. intros. split; [done|]. apply Hcl. lia.
  - simpl. rewrite in_use_upd by done. simpl.
    rewrite (caches_refs s V bn), (ci_used _ _ Hi) by done.
    destruct (Z.eqb_spec (v_refs V bn - 1) 0), (Z.eqb_spec (v_refs V bn) 0),
      (Z.eqb_spec (v_refs V bn) 1); lia.
  - intros bn'. by apply (disk_of s V).
Qed.

Lemma brelse_spec s V bn i :
  cache_inv s V → v_held V bn = Some i →
  (v_refs V bn = 1 → v_data V bn = v_disk V bn) →
  ∃ s', brelse pid i s = Done tt s' ∧ cache_inv s' (v_put bn V).
Proof.
  intros Hi Hh Hcl. pose proof (inv_released s V bn i Hi Hh Hcl) as Hi'.
  rewrite (brelse_run s V bn i Hi Hh).
  destruct (Z.eqb_spec (v_refs V bn - 1) 0); [|by eexists].
  destruct (ci_ring _ _ Hi') as (o & Ho & Hrg).
  destruct (held_buf _ _ _ _ Hi Hh) as ((Hlt & _) & _).
  destruct (move_front_ok (updb i (released V bn) s) o i)
    as (l1 & l2 & s' & -> & Hrun & Hl' & Hr' & Hd' & Ht' & Hc');
    [by rewrite length_updb, (ci_len _ _ Hi)|done..|].
  exists s'. split; [done|]. eapply (inv_core _ _ _ (i :: l1 ++ l2)); [exact Hi'|done| |done..].
  by rewrite Permutation_middle.
Qed.

Lemma brelse_ring s V bn i o :
  cache_inv s V → v_held V bn = Some i → v_refs V bn = 1 → o ≡ₚ seq 0 HEAD → ring (bufs s) o →
  ∃ l1 l2 s', o = l1 ++ i :: l2 ∧ brelse pid i s = Done tt s' ∧ ring (bufs s') (i :: l1 ++ l2).
Proof.
  intros Hi Hh H1 Ho Hr. destruct (held_buf _ _ _ _ Hi Hh) as ((Hlt & _) & _).
  pose proof (ci_len _ _ Hi) as Hlen.
  rewrite (brelse_run s V bn i Hi Hh), H1. simpl.
  destruct (move_front_ok (updb i (released V bn) s) o i)
    as (l1 & l2 & s' & -> & Hrun & _ & Hr' & _); [by rewrite length_updb|done| |done|].
  - apply ring_upd; [done|lia|done].
  - by exists l1, l2, s'.
Qed.
End spec.

(** ** Boot *)

Definition boot_step (b : nat) : M bst unit :=
  let* n := rd next HEAD in
  wr b (set_next n) ;;;
  wr b (set_prev HEAD) ;;;
  initsleeplock b ;;;
  let* n := rd next HEAD in
  wr n (set_prev b) ;;;
  wr HEAD (set_next b).

(** After buffers [o] have been put into the ring: they are unlocked, and no
    buffer is in use or belongs to a device. *)
Definition booting (s s' : bst) (o : list nat) : Prop :=
  length (bufs s') = S HEAD ∧ bdisk s' = bdisk s ∧ btrace s' = btrace s ∧
  ring (bufs s') o ∧ (∀ j, refcnt (getb s' j) = 0 ∧ bdev (getb s' j) = 0) ∧
  (∀ j, j ∈ o → locked (getb s' j) = false).

Lemma boot_step_ok s s1 i o :
  booting s s1 o → (i < HEAD)%nat → NoDup (HEAD :: i :: o) → (∀ j, j ∈ o → (j < HEAD)%nat) →
  ∃ s2, boot_step i s1 = Done tt s2 ∧ booting s s2 (i :: o).
Proof.
  intros (Hlen & Hd & Ht & Hr & Hz & Hlk) Hi Hnd Hlt.
  set (n := nxt (bufs s1)). set (p := prv (bufs s1)).
  change (ringf n p o) in Hr. pose proof (ringf_push n p i o Hnd Hr) as Hr'.
  assert (n HEAD < S HEAD)%nat as Hh.
  { destruct Hr as [Hn _]. destruct o as [|j o]; simpl in Hn; injection Hn as ->; [lia|].
    assert (j < HEAD)%nat by (apply Hlt; left). lia. }
  assert (i ≠ HEAD ∧ n HEAD ≠ i) as [Hne Hne'].
  { split; [lia|]. intros E. rewrite !NoDup_cons in Hnd. destruct Hnd as (_ & Hio & _).
    destruct Hr as [Hn _]. destruct o as [|j o]; simpl in Hn; [injection Hn as Hn; lia|].
    injection Hn as Hn _. apply Hio. rewrite <-E, Hn. left. }
  set (s' := updb HEAD (set_next i) (updb (n HEAD) (set_prev i)
    (updb i (set_lock false 0) (updb i (set_prev HEAD) (updb i (set_next (n HEAD)) s1))))).
  assert (∀ j, getb s' j =
    (if decide (j = HEAD) then set_next i else id)
      ((if decide (j = n HEAD) then set_prev i else id)
        ((if decide (j = i) then λ b, set_lock false 0 (set_prev HEAD (set_next (n HEAD) b)) else id)
          (getb s1 j)))) as Hg.
  { intros j. unfold s'. rewrite !getb_updb by (rewrite ?length_updb; lia).
    repeat case_decide; done. }
  exists s'. split.
  - unfold boot_step, bind, rd, wr, gets, modify, initsleeplock, wr, modify. cbv beta iota.
    change (next (getb s1 HEAD)) with (n HEAD).
    rewrite !getb_updb by (rewrite ?length_updb; lia). rewrite !(decide_False (P := HEAD = i)) by lia.
    done.
  - split; [unfold s'; by rewrite !length_updb|]. split; [done|]. split; [done|]. split; [|split].
    + eapply ring_links; [| |exact Hr']; intros j; rewrite Hg.
      * destruct (decide (j = HEAD)) as [->|]; [by rewrite fn_lookup_insert|].
        rewrite fn_lookup_insert_ne by done.
        destruct (decide (j = i)) as [->|]; [rewrite fn_lookup_insert|rewrite fn_lookup_insert_ne by done];
          by case_decide.
      * destruct (decide (j = n HEAD)) as [->|]; [rewrite fn_lookup_insert|rewrite fn_lookup_insert_ne by done].
        { by case_decide. }
        destruct (decide (j = i)) as [->|]; [rewrite fn_lookup_insert|rewrite fn_lookup_insert_ne by done];
          by case_decide.
    + intros j. rewrite Hg. repeat case_decide; apply Hz.
    + intros j Hj. rewrite Hg.
      apply elem_of_cons in Hj as [->|Hj]; [rewrite (decide_True (P := i = i)) by done|].
      * repeat case_decide; done.
      * repeat case_decide; simpl; auto.
Qed.

Lemma boot_steps s (n : nat) :
  length (bufs s) = S HEAD → booting s s [] → (n ≤ HEAD)%nat →
  ∃ s', for_each (seq 0 n) boot_step s = Done tt s' ∧ booting s s' (reverse (seq 0 n)).
Proof.
  intros Hlen Hb Hn.
  assert (∀ m k s1, (k + m = n)%nat → booting s s1 (reverse (seq 0 k)) →
    ∃ s', for_each (seq k m) boot_step s1 = Done tt s' ∧ booting s s' (reverse (seq 0 n))) as Hgen.
  { intros m. induction m as [|m IH]; intros k s1 Hk Hb1.
    - exists s1. replace n with k by lia. done.
    - destruct (boot_step_ok s s1 k (reverse (seq 0 k))) as (s2 & Hrun & Hb2); [done|lia| | |].
      + apply NoDup_cons. rewrite not_elem_of_cons, elem_of_reverse, elem_of_seq.
        split; [lia|]. apply NoDup_cons. rewrite elem_of_reverse, elem_of_seq. split; [lia|].
        rewrite (reverse_Permutation (seq 0 k)). apply NoDup_seq.
      + intros j. rewrite elem_of_reverse, elem_of_seq. lia.
      + destruct (IH (S k) s2) as (s' & Hrun' & Hb'); [lia| |].
        { rewrite seq_S, reverse_app. done. }
        exists s'. split; [|done]. simpl. unfold bind. by rewrite Hrun. }
  apply (Hgen n 0%nat s); [lia|done].
Qed.

(** From the zeroed memory of a fresh kernel, [binit] leaves an empty cache. *)
Lemma binit_spec dev pid s :
  dev ≠ 0 → length (bufs s) = S HEAD → (∀ j, refcnt (getb s j) = 0 ∧ bdev (getb s j) = 0) →
  btrace s = [] → (∀ bn, block_ok (disk_block s bn)) →
  ∃ s', binit s = Done tt s' ∧ cache_inv dev pid s' (v_boot (disk_block s)) ∧
    (∀ j, bdev (getb s' j) = 0).
Proof.
  intros Hdev Hlen Hz Ht Hok.
  set (s1 := updb HEAD (set_next HEAD) (updb HEAD (set_prev HEAD) s)).
  assert (∀ j, getb s1 j = if decide (j = HEAD) then set_next HEAD (set_prev HEAD (getb s j)) else getb s j) as Hg.
  { intros j. unfold s1. rewrite !getb_updb by (rewrite ?length_updb; lia). by case_decide. }
  assert (length (bufs s1) = S HEAD) as Hlen1 by (unfold s1; by rewrite !length_updb).
  destruct (boot_steps s1 HEAD) as (s' & Hrun & (Hl' & Hd' & Ht' & Hr' & Hz' & Hk')); [done| |done|].
  { split_and!; try done.
    - split; [change ([next (getb s1 HEAD)] = [HEAD])|change ([prev (getb s1 HEAD)] = [HEAD])];
        by rewrite Hg, decide_True.
    - intros j. rewrite Hg. case_decide; simpl; apply Hz.
    - intros j Hj. by apply not_elem_of_nil in Hj. }
  exists s'. split; [done|]. split; [|intros j; apply Hz']. split; simpl.
  - done.
  - exists (reverse (seq 0 HEAD)). split; [apply reverse_Permutation|done].
  - intros bn i j (_ & H & _). destruct (Hz' i) as [_ H']. congruence.
  - intros bn i (_ & H & _). destruct (Hz' i) as [_ H']. congruence.
  - intros i Hi _. split; [apply Hz'|]. apply Hk'. rewrite elem_of_reverse, elem_of_seq. lia.
  - done.
  - intros bn. split; [lia|done].
  - unfold in_use. rewrite filter_none; [done|]. intros j _. destruct (Hz' j) as [-> _]. tauto.
  - intros bn. unfold disk_block. rewrite Hd'. done.
  - intros bn. by split.
  - by rewrite Ht'.
Qed.

#[export, refine] Instance bio_cache (pid dev : Z) : BufCache bst dev := {|
  Block.bread := Bio.bread pid;
  Block.bwrite := Bio.bwrite pid;
  Block.brelse := Bio.brelse pid;
  Block.bpin := Bio.bpin;
  Block.bunpin := Bio.bunpin;
  Block.bblockno := rd blockno;
  Block.bdata := rd data;
  Block.set_bdata := λ i d, wr i (set_data d);
  cache_ok := cache_inv dev pid
|}.
Proof.
  - apply inv_ext.
  - intros s V bn Hi. apply (ci_blocks _ _ _ _ Hi).
  - intros s V bn Hi _. by apply bread_spec.
  - apply bwrite_spec.
  - apply brelse_spec.
  - intros s V bn i Hi Hh Hr. eexists. split; [done|].
    destruct (held_buf _ _ _ _ _ _ Hi Hh) as (_ & _ & _ & _ & _ & Hb).
    apply (pin_spec dev pid s V bn i 1); [done..|lia].
  - intros s V bn i Hi Hh Hr. eexists. split; [done|].
    destruct (held_buf _ _ _ _ _ _ Hi Hh) as (_ & _ & _ & _ & _ & Hb).
    apply (pin_spec dev pid s V bn i (-1)); [done..|lia].
  - intros s V bn i Hi Hh. destruct (held_buf _ _ _ _ _ _ Hi Hh) as ((_ & _ & Hb) & _).
    unfold rd, gets. by rewrite Hb.
  - intros s V bn i Hi Hh. destruct (held_buf _ _ _ _ _ _ Hi Hh) as (_ & _ & _ & _ & Hd & _).
    unfold rd, gets. by rewrite Hd.
  - apply set_data_spec.
Defined.
