(* ===== verification/BioTheorems.v ===== *)
(** * Theorems about the buffer cache, kernel/bio.c *)

From S2P Require Import Prelude Block Bio BioSpec.

(** ** A freshly booted cache, for the examples *)

Definition ex_pid : Z := 3.
Definition ex_dev : Z := 1.
Definition ex_bss : bst := Bst (replicate (S HEAD) inhabitant) ∅ [].

Lemma ex_bss_zero d j :
  let s := Bst (replicate (S HEAD) inhabitant) d [] in
  refcnt (getb s j) = 0 ∧ bdev (getb s j) = 0.
Proof.
  unfold getb. cbn [bufs]. destruct (decide (j < S HEAD)%nat).
  - by rewrite lookup_total_replicate_2.
  - rewrite list_lookup_total_alt, lookup_ge_None_2; [done|]. rewrite length_replicate. lia.
Qed.

Lemma ex_boot_inv d :
  (∀ bn, block_ok (default zero_block (d !! bn))) →
  ∃ c, binit (Bst (replicate (S HEAD) inhabitant) d []) = Done tt c ∧
    cache_inv ex_dev ex_pid c (v_boot (λ bn, default zero_block (d !! bn))) ∧
    (∀ j, bdev (getb c j) = 0).
Proof. intros Hd. apply binit_spec; [done|done|apply ex_bss_zero|done|done]. Qed.

(** C13. bread returns a locked, valid buffer with the current contents of the
    block: what was last stored in its buffer, even if the buffer was evicted
    and read back since. The contents of all other blocks, including the one
    whose buffer is recycled, are unchanged. *)
Theorem bread_returns_current dev pid s V bn :
  cache_inv dev pid s V → v_held V bn = None → v_refs V bn < 2^31 →
  0 < v_refs V bn ∨ v_used V < NBUF →
  ∃ i s', bread pid dev bn s = Done i s' ∧ cache_inv dev pid s' (v_get bn i V) ∧
    blockno (getb s' i) = bn ∧ valid (getb s' i) = true ∧ locked (getb s' i) = true ∧
    data (getb s' i) = v_data V bn.
Proof.
  intros Hi Hh Hr Hf. destruct (bread_spec dev pid s V bn) as (i & s' & Hrun & Hi'); [done..|].
  exists i, s'. destruct (held_buf dev pid s' _ bn i Hi') as ((_ & _ & ?) & ? & _ & ? & ? & _).
  { simpl. by rewrite fn_lookup_insert. }
  done.
Qed.

Lemma bread_returns_current_witness :
  ∃ c i c', bread ex_pid ex_dev 40 c = Done i c' ∧ data (getb c' i) = zero_block.
Proof.
  destruct (ex_boot_inv ∅) as (c & _ & Hc & Hdev); [intros; apply zero_block_ok|].
  destruct (bread_returns_current ex_dev ex_pid c _ 40 Hc) as (i & c' & Hrun & _ & _ & _ & _ & Hd);
    [done|done|by right|].
  exists c, i, c'. split; [exact Hrun|exact Hd].
Defined.

(** When the block is not cached, bread recycles the least recently
    released buffer that nobody uses: the last one in the ring order [o] with
    a zero reference count. If every buffer is in use it panics. *)
Theorem bread_recycles_lru dev pid s V bn o :
  cache_inv dev pid s V → o ≡ₚ seq 0 HEAD → ring (bufs s) o → (∀ i, ¬ caches dev s bn i) →
  match first s (λ b, refcnt b =? 0) (reverse o) with
  | Some i => ∃ s', bread pid dev bn s = Done i s' ∧ caches dev s' bn i
  | None => bread pid dev bn s = Panic "bget: no buffers"
  end.
Proof.
  intros Hi Ho Hr Hn. destruct (order_elems o Ho) as (Hno & Hlo & Hel).
  pose proof (bget_cached_ok s o dev bn Hr Hno ltac:(lia)) as Hg.
  pose proof (bget_unused_ok s o Hr Hno ltac:(lia)) as Hg'.
  assert (first s (λ x, (bdev x =? dev) && (blockno x =? bn)) o = None) as Hnone.
  { destruct (first s _ o) as [j|] eqn:E; [|done]. apply first_some in E as [Hj E].
    rewrite andb_true_iff, !Z.eqb_eq in E. destruct (Hn j). split; [by apply Hel|done]. }
  rewrite Hnone in Hg.
  destruct (first s (λ b, refcnt b =? 0) (reverse o)) as [i|] eqn:E.
  - apply first_some in E as [Hin E]. rewrite elem_of_reverse in Hin. apply Hel in Hin.
    eexists. split; [apply (bread_miss dev pid s V); [done|done|done|lia|done|done]|].
    split; [done|]. rewrite getb_updb by (rewrite (ci_len _ _ _ _ Hi); lia).
    by rewrite decide_True.
  - unfold bread, bget, bind. by rewrite Hg, Hg'.
Qed.

Lemma bread_recycles_lru_witness :
  ∃ c o, match first c (λ b, refcnt b =? 0) (reverse o) with
  | Some i => ∃ s', bread ex_pid ex_dev 40 c = Done i s' ∧ caches ex_dev s' 40 i
  | None => bread ex_pid ex_dev 40 c = Panic "bget: no buffers"
  end.
Proof.
  destruct (ex_boot_inv ∅) as (c & _ & Hc & Hdev); [intros; apply zero_block_ok|].
  destruct (ci_ring _ _ _ _ Hc) as (o & Ho & Hr). exists c, o.
  apply (bread_recycles_lru ex_dev ex_pid c _ 40 o Hc Ho Hr).
  intros i (_ & Hi & _). by rewrite Hdev in Hi.
Defined.

(** Releasing the last reference to a buffer makes it the most recently
    used one: it moves to the front of the ring, and the order of the others
    does not change. *)
Theorem brelse_makes_most_recent dev pid s V bn i o :
  cache_inv dev pid s V → v_held V bn = Some i → v_refs V bn = 1 →
  v_data V bn = v_disk V bn → o ≡ₚ seq 0 HEAD → ring (bufs s) o →
  ∃ l1 l2 s', o = l1 ++ i :: l2 ∧ brelse pid i s = Done tt s' ∧
    ring (bufs s') (i :: l1 ++ l2) ∧ cache_inv dev pid s' (v_put bn V).
Proof.
  intros Hi Hh H1 Hcl Ho Hr. destruct (held_buf _ _ _ _ _ _ Hi Hh) as ((Hlt & _) & _).
  destruct (brelse_ring dev pid s V bn i o) as (l1 & l2 & s' & Ho' & Hrun & Hr'); [done..|].
  destruct (brelse_spec dev pid s V bn i) as (s2 & Hrun2 & Hi2); [done..|].
  rewrite Hrun in Hrun2. injection Hrun2 as <-. by exists l1, l2, s'.
Qed.

Lemma brelse_makes_most_recent_witness :
  ∃ i o l1 l2 c s', o = l1 ++ i :: l2 ∧ brelse ex_pid i c = Done tt s' ∧
    ring (bufs s') (i :: l1 ++ l2).
Proof.
  destruct (ex_boot_inv ∅) as (c & _ & Hc & _); [intros; apply zero_block_ok|].
  destruct (bread_spec ex_dev ex_pid c _ 40 Hc) as (i & c1 & _ & Hc1); [done|done|by right|].
  destruct (ci_ring _ _ _ _ Hc1) as (o & Ho & Hr).
  destruct (brelse_makes_most_recent ex_dev ex_pid c1 _ 40 i o Hc1)
    as (l1 & l2 & s' & Hl & Hrun & Hr' & _);
    [simpl; by rewrite fn_lookup_insert|simpl; by rewrite fn_lookup_insert|done|done|done|].
  exists i, o, l1, l2, c1, s'. split; [exact Hl|]. split; [exact Hrun|exact Hr'].
Defined.
