(* ===== verification/Log.v ===== *)
(** * The log, kernel/log.c

    The log over any buffer cache that implements Block.v. [sleep] is the
    [Sleep] outcome; [wakeup(&log)] changes no state of the log and is not
    part of these definitions. *)

From S2P Require Import Prelude Block FsFormat.

(** [struct log] with the in-memory header [lh]. *)
Record log := Log {
  start : Z;
  lsize : Z;
  outstanding : Z;
  committing : bool;
  ldev : Z;
  lh_n : Z;
  lh_block : list Z
}.

Definition set_outstanding (n : Z) (l : log) : log :=
  Log (start l) (lsize l) n (committing l) (ldev l) (lh_n l) (lh_block l).
Definition set_committing (c : bool) (l : log) : log :=
  Log (start l) (lsize l) (outstanding l) c (ldev l) (lh_n l) (lh_block l).
Definition set_lh (n : Z) (bl : list Z) (l : log) : log :=
  Log (start l) (lsize l) (outstanding l) (committing l) (ldev l) n bl.

(** The zeroed [log] of a fresh kernel. *)
Definition log_bss : log := Log 0 0 0 false 0 0 (replicate (Z.to_nat LOGSIZE) 0).

(** The channel processes sleep on: the address of [log]. *)
Definition LOGCHAN : Z := 1.

Section log.
Context {St : Type} {dev : Z} `{!BufCache St dev}.

Record lst := Lst { lcache : St; llog : log }.

Definition on_cache {A} (m : M St A) : M lst A := λ s,
  match m (lcache s) with
  | Done a c => Done a (Lst c (llog s))
  | Panic msg => Panic msg
  | Sleep ch c => Sleep ch (Lst c (llog s))
  | OutOfFuel => OutOfFuel
  end.

Definition get_log {A} (f : log → A) : M lst A := gets (λ s, f (llog s)).
Definition upd_log (f : log → log) : M lst unit := modify (λ s, Lst (lcache s) (f (llog s))).

Definition install_trans (recovering : bool) : M lst unit :=
  let* n := get_log lh_n in
  for_each (seqZ 0 n) (λ tail,
    let* l := get_log id in
    let* lbuf := on_cache (bread (ldev l) (u32 (start l + tail + 1))) in
    let* dbuf := on_cache (bread (ldev l) (u32 (lh_block l !!! Z.to_nat tail))) in
    let* d := on_cache (bdata lbuf) in
    on_cache (set_bdata dbuf d) ;;;
    on_cache (bwrite dbuf) ;;;
    (if recovering then ret tt else on_cache (bunpin dbuf)) ;;;
    on_cache (brelse lbuf) ;;;
    on_cache (brelse dbuf)).

Definition read_head : M lst unit :=
  let* l := get_log id in
  let* buf := on_cache (bread (ldev l) (u32 (start l))) in
  let* d := on_cache (bdata buf) in
  upd_log (λ l, set_lh (i32 (le32 d 0)) (lh_block l) l) ;;;
  let* n := get_log lh_n in
  for_each (seqZ 0 n) (λ i,
    upd_log (λ l, set_lh (lh_n l) (<[Z.to_nat i := i32 (le32 d (4 + 4 * i))]> (lh_block l)) l)) ;;;
  on_cache (brelse buf).

Definition write_head : M lst unit :=
  let* l := get_log id in
  let* buf := on_cache (bread (ldev l) (u32 (start l))) in
  let* d := on_cache (bdata buf) in
  on_cache (set_bdata buf (put32 d 0 (lh_n l))) ;;;
  for_each (seqZ 0 (lh_n l)) (λ i,
    let* d := on_cache (bdata buf) in
    on_cache (set_bdata buf (put32 d (4 + 4 * i) (lh_block l !!! Z.to_nat i)))) ;;;
  on_cache (bwrite buf) ;;;
  on_cache (brelse buf).

Definition recover_from_log : M lst unit :=
  read_head ;;;
  install_trans true ;;;
  upd_log (λ l, set_lh 0 (lh_block l) l) ;;;
  write_head.

(** [sizeof(struct logheader)] is [4 + 4 * LOGSIZE]. *)
Definition initlog (d : Z) (sb : superblock) : M lst unit :=
  if BSIZE <=? 4 + 4 * LOGSIZE then panic "initlog: too big logheader"
  else
    upd_log (λ l, Log (i32 (sb_logstart sb)) (i32 (sb_nlog sb)) (outstanding l) (committing l)
                      d (lh_n l) (lh_block l)) ;;;
    recover_from_log.

(** One turn of the [while(1)] loop: sleep, or enter. *)
Definition begin_op : M lst unit :=
  let* l := get_log id in
  if committing l then sleep_on LOGCHAN
  else if LOGSIZE <? lh_n l + (outstanding l + 1) * MAXOPBLOCKS then sleep_on LOGCHAN
  else upd_log (λ l, set_outstanding (outstanding l + 1) l).

Definition write_log : M lst unit :=
  let* n := get_log lh_n in
  for_each (seqZ 0 n) (λ tail,
    let* l := get_log id in
    let* to := on_cache (bread (ldev l) (u32 (start l + tail + 1))) in
    let* from := on_cache (bread (ldev l) (u32 (lh_block l !!! Z.to_nat tail))) in
    let* d := on_cache (bdata from) in
    on_cache (set_bdata to d) ;;;
    on_cache (bwrite to) ;;;
    on_cache (brelse from) ;;;
    on_cache (brelse to)).

Definition commit : M lst unit :=
  let* n := get_log lh_n in
  if 0 <? n then
    write_log ;;;
    write_head ;;;
    install_trans false ;;;
    upd_log (λ l, set_lh 0 (lh_block l) l) ;;;
    write_head
  else ret tt.

Definition end_op : M lst unit :=
  upd_log (λ l, set_outstanding (outstanding l - 1) l) ;;;
  let* l := get_log id in
  if committing l then panic "log.committing"
  else if outstanding l =? 0 then
    upd_log (set_committing true) ;;;
    commit ;;;
    upd_log (set_committing false)
  else ret tt.

(** [for (i = 0; i < log.lh.n; i++) if (log.lh.block[i] == b->blockno) break;] *)
Fixpoint absorb (bl : list Z) (bn : Z) (i n : nat) : nat :=
  match n with
  | O => i
  | S n => if u32 (bl !!! i) =? bn then i else absorb bl bn (S i) n
  end.

Definition log_write (b : nat) : M lst unit :=
  let* l := get_log id in
  if (LOGSIZE <=? lh_n l) || (lsize l - 1 <=? lh_n l) then panic "too big a transaction"
  else if outstanding l <? 1 then panic "log_write outside of trans"
  else
    let* bn := on_cache (bblockno b) in
    let i := absorb (lh_block l) bn 0 (Z.to_nat (lh_n l)) in
    upd_log (λ l, set_lh (lh_n l) (<[i := i32 bn]> (lh_block l)) l) ;;;
    if Z.of_nat i =? lh_n l then
      on_cache (bpin b) ;;;
      upd_log (λ l, set_lh (lh_n l + 1) (lh_block l) l)
    else ret tt.
End log.
Arguments lst : clear implicits.
