(* ===== verification/LogSpec.v ===== *)
(** * Correctness of the log

    Each function of kernel/log.c against the view of the buffer cache, the
    writes a commit issues, and what recovery makes of every prefix of them. *)

From S2P Require Import Prelude Block FsFormat Log.

Section wp.
Context {St : Type} {dev : Z} `{!BufCache St dev}.
Implicit Types (c : St) (V : bview) (l : log).

(** ** Rules for the operations of the cache *)

Lemma wp_bread c l V bn Q :
  cache_ok c V → 0 ≤ bn < 2^32 → v_held V bn = None → v_refs V bn < 2^31 →
  0 < v_refs V bn ∨ v_used V < NBUF →
  (∀ i c', cache_ok c' (v_get bn i V) → Q i (Lst c' l)) →
  wp (on_cache (bread dev bn)) (Lst c l) Q.
Proof.
  intros Hc Hb Hh Hr Hu HQ. destruct (bread_ok c V bn) as (i & c' & Hrun & Hc'); [done..|].
  unfold wp, on_cache. simpl. rewrite Hrun. by apply HQ.
Qed.

Lemma wp_bwrite c l V bn i Q :
  cache_ok c V → v_held V bn = Some i →
  (∀ c', cache_ok c' (v_write bn V) → Q tt (Lst c' l)) →
  wp (on_cache (bwrite i)) (Lst c l) Q.
Proof.
  intros Hc Hh HQ. destruct (bwrite_ok c V bn i) as (c' & Hrun & Hc'); [done..|].
  unfold wp, on_cache. simpl. rewrite Hrun. by apply HQ.
Qed.

Lemma wp_brelse c l V bn i Q :
  cache_ok c V → v_held V bn = Some i →
  (v_refs V bn = 1 → v_data V bn = v_disk V bn) →
  (∀ c', cache_ok c' (v_put bn V) → Q tt (Lst c' l)) →
  wp (on_cache (brelse i)) (Lst c l) Q.
Proof.
  intros Hc Hh Hcl HQ. destruct (brelse_ok c V bn i) as (c' & Hrun & Hc'); [done..|].
  unfold wp, on_cache. simpl. rewrite Hrun. by apply HQ.
Qed.

Lemma wp_bpin c l V bn i Q :
  cache_ok c V → v_held V bn = Some i → v_refs V bn < 2^31 →
  (∀ c', cache_ok c' (v_pin bn 1 V) → Q tt (Lst c' l)) →
  wp (on_cache (bpin i)) (Lst c l) Q.
Proof.
  intros Hc Hh Hr HQ. destruct (bpin_ok c V bn i) as (c' & Hrun & Hc'); [done..|].
  unfold wp, on_cache. simpl. rewrite Hrun. by apply HQ.
Qed.

Lemma wp_bunpin c l V bn i Q :
  cache_ok c V → v_held V bn = Some i → 1 < v_refs V bn →
  (∀ c', cache_ok c' (v_pin bn (-1) V) → Q tt (Lst c' l)) →
  wp (on_cache (bunpin i)) (Lst c l) Q.
Proof.
  intros Hc Hh Hr HQ. destruct (bunpin_ok c V bn i) as (c' & Hrun & Hc'); [done..|].
  unfold wp, on_cache. simpl. rewrite Hrun. by apply HQ.
Qed.

Lemma wp_bdata c l V bn i Q :
  cache_ok c V → v_held V bn = Some i →
  Q (v_data V bn) (Lst c l) → wp (on_cache (bdata i)) (Lst c l) Q.
Proof.
  intros Hc Hh HQ. unfold wp, on_cache. simpl. by rewrite (bdata_ok c V bn i).
Qed.

Lemma wp_bblockno c l V bn i Q :
  cache_ok c V → v_held V bn = Some i →
  Q bn (Lst c l) → wp (on_cache (bblockno i)) (Lst c l) Q.
Proof.
  intros Hc Hh HQ. unfold wp, on_cache. simpl. by rewrite (bblockno_ok c V bn i).
Qed.

Lemma wp_get_log {A} (f : log → A) c l Q :
  Q (f l) (Lst c l) → wp (get_log f) (Lst c l) Q.
Proof. done. Qed.

Lemma wp_upd_log (f : log → log) c l Q :
  Q tt (Lst c (f l)) → wp (upd_log f) (Lst c l) Q.
Proof. done. Qed.

Lemma wp_set_bdata c l V bn i d Q :
  cache_ok c V → v_held V bn = Some i → block_ok d →
  (∀ c', cache_ok c' (v_set bn d V) → Q tt (Lst c' l)) →
  wp (on_cache (set_bdata i d)) (Lst c l) Q.
Proof.
  intros Hc Hh Hd HQ. destruct (set_bdata_ok c V bn i d) as (c' & Hrun & Hc'); [done..|].
  unfold wp, on_cache. simpl. rewrite Hrun. by apply HQ.
Qed.
End wp.

Lemma wp_for_each {S A} (P : nat → S → Prop) (l : list A) (body : A → M S unit) s :
  (∀ (t : nat) a s, l !! t = Some a → P t s → wp (body a) s (λ _ s', P (Datatypes.S t) s')) →
  P 0%nat s → wp (for_each l body) s (λ _ s', P (length l) s').
Proof.
  revert P s. induction l as [|a l IH]; intros P s Hb H0; [done|].
  simpl. apply wp_bind. eapply wp_mono; [by apply (Hb 0%nat)|]. intros [] s' H'.
  apply (IH (λ t, P (Datatypes.S t))); [|done]. intros t x s1 Hx. by apply (Hb (Datatypes.S t)).
Qed.

(** ** Sequences of disk writes *)

Definition apply_writes (d : Z → block) (ws : list (Z * block)) : Z → block :=
  foldl (λ d w, <[w.1 := w.2]> d) d ws.

Lemma apply_writes_app d ws ws' :
  apply_writes d (ws ++ ws') = apply_writes (apply_writes d ws) ws'.
Proof. apply foldl_app. Qed.

Lemma apply_writes_notin d ws bn : bn ∉ ws.*1 → apply_writes d ws bn = d bn.
Proof.
  revert d. induction ws as [|[b x] ws IH]; intros d Hn; [done|].
  simpl in *. apply not_elem_of_cons in Hn as [Hne Hn].
  etrans; [by apply IH|]. by rewrite fn_lookup_insert_ne.
Qed.

Lemma apply_writes_in d ws bn x :
  NoDup ws.*1 → (bn, x) ∈ ws → apply_writes d ws bn = x.
Proof.
  revert d. induction ws as [|[b y] ws IH]; intros d Hnd Hin; [by apply not_elem_of_nil in Hin|].
  simpl in *. apply NoDup_cons in Hnd as [Hn Hnd].
  apply elem_of_cons in Hin as [[= -> ->]|Hin]; [|by apply IH].
  etrans; [by apply apply_writes_notin|]. by rewrite fn_lookup_insert.
Qed.

Lemma apply_writes_ext d d' ws bn :
  (bn ∉ ws.*1 → d bn = d' bn) → apply_writes d ws bn = apply_writes d' ws bn.
Proof.
  revert d d'. induction ws as [|[b x] ws IH]; intros d d' Heq; [apply Heq, not_elem_of_nil|].
  simpl. apply IH. intros Hn. destruct (decide (bn = b)) as [->|Hne].
  - by rewrite !fn_lookup_insert.
  - rewrite !fn_lookup_insert_ne by done. apply Heq. simpl. by apply not_elem_of_cons.
Qed.

(** A block written through the cache. *)
Definition v_store (bn : Z) (d : block) (V : bview) : bview :=
  BView (<[bn := d]> (v_data V)) (<[bn := d]> (v_disk V)) (v_refs V) (v_held V) (v_used V)
    (v_trace V ++ [(bn, d)]).

(** Writes [ws] through the cache, and one pin less on the blocks [us]. *)
Definition v_run (ws : list (Z * block)) (us : list Z) (V : bview) : bview :=
  BView (apply_writes (v_data V) ws) (apply_writes (v_disk V) ws)
    (λ x, v_refs V x - if decide (x ∈ us) then 1 else 0) (v_held V)
    (v_used V - length us) (v_trace V ++ ws).

(** Evaluates lookups in updated views; [fn_cases x a b] first compares [x]. *)
Ltac fn_simp := repeat (rewrite fn_lookup_insert || rewrite fn_lookup_insert_ne by congruence).
Ltac fn_cases x a b :=
  destruct (decide (x = a)) as [->|];
  [|destruct (decide (x = b)) as [->|]]; fn_simp; split_and!; try done; try lia.

(** ** The log header *)

(** The header block for the list [bl], over the old contents [d]. *)
Definition hdr_put (d : block) (bl : list Z) : block :=
  put_list (put32 d 0 (length bl)) 4 bl.

(** The list a header block stands for. *)
Definition hdr_get (d : block) : list Z :=
  (λ i, i32 (le32 d (4 + 4 * i))) <$> seqZ 0 (i32 (le32 d 0)).

Lemma i32_u32_small b : 0 ≤ b < 2^31 → i32 (u32 b) = b.
Proof. intros H. unfold i32, u32. rewrite (Z.mod_small b) by lia. rewrite Z.mod_small; lia. Qed.

(** What [write_head] wrote is what [read_head] reads. *)
Lemma hdr_get_put d bl :
  block_ok d → length bl ≤ LOGSIZE → Forall (λ b, 0 ≤ b < 2^31) bl →
  hdr_get (hdr_put d bl) = bl.
Proof.
  intros Hd Hlen Hb. unfold LOGSIZE, MAXOPBLOCKS in Hlen.
  assert (block_ok (put32 d 0 (length bl))) as Hd' by (apply put_field_block; [done|unfold BSIZE; lia..]).
  assert (i32 (le32 (hdr_put d bl) 0) = length bl) as Hn.
  { unfold hdr_put. pose proof Hd as [Hl _]. unfold BSIZE in Hl. rewrite le32_put_list_before; [|done|lia|lia|unfold BSIZE; lia].
    unfold le32, put32. rewrite field_put_eq by lia. apply i32_u32_small. lia. }
  apply list_eq. intros i. unfold hdr_get. rewrite Hn.
  destruct (decide (i < length bl)%nat) as [Hi|Hi].
  - destruct (lookup_lt_is_Some_2 bl i Hi) as [b Hbi].
    rewrite list_lookup_fmap, lookup_seqZ_lt by lia. simpl. rewrite Hbi. f_equal.
    unfold hdr_put. rewrite Z.add_0_l, (le32_put_list _ _ _ i b); [|done|lia|unfold BSIZE; lia|done].
    apply i32_u32_small. by eapply Forall_lookup_1 in Hb.
  - rewrite !lookup_ge_None_2; [done|lia|]. rewrite length_fmap, length_seqZ. lia.
Qed.

Section log.
Context {St : Type} {dev : Z} `{!BufCache St dev}.
Implicit Types (c : St) (V : bview) (l : log).

Definition write_log_body (tail : Z) : M (lst St) unit :=
  let* l := get_log id in
  let* to := on_cache (bread (ldev l) (u32 (start l + tail + 1))) in
  let* from := on_cache (bread (ldev l) (u32 (lh_block l !!! Z.to_nat tail))) in
  let* d := on_cache (bdata from) in
  on_cache (set_bdata to d) ;;;
  on_cache (bwrite to) ;;;
  on_cache (brelse from) ;;;
  on_cache (brelse to).

Lemma write_log_step c l V tail lb b :
  cache_ok c V → ldev l = dev → u32 (start l + tail + 1) = lb →
  u32 (lh_block l !!! Z.to_nat tail) = b → 0 ≤ lb < 2^32 → 0 ≤ b < 2^32 → b ≠ lb →
  v_held V lb = None → v_held V b = None → v_refs V lb = 0 → 0 < v_refs V b < 2^30 →
  v_used V < NBUF →
  wp (write_log_body tail) (Lst c l)
    (λ _ s', ∃ c', s' = Lst c' l ∧ cache_ok c' (v_store lb (v_data V b) V)).
Proof.
  intros Hc Hd Hlb Hb Hrl Hrb Hne Hhl Hhb H0 Hr Hu. unfold write_log_body.
  apply wp_bind, wp_get_log. unfold id. rewrite Hd, Hlb, Hb.
  apply wp_bind. apply (wp_bread _ _ V); [done..|lia|lia|]. intros i c1 Hc1.
  apply wp_bind. eapply (wp_bread _ _ (v_get lb i V)); [done..| | | |]; simpl; fn_simp; [done|lia|lia|].
  intros j c2 Hc2.
  apply wp_bind. eapply (wp_bdata _ _ _ b); [done|simpl; by fn_simp|].
  apply wp_bind. eapply (wp_set_bdata _ _ _ lb); [done|simpl; by fn_simp| |].
  { by apply (cache_ok_blocks c V). }
  intros c3 Hc3.
  apply wp_bind. eapply (wp_bwrite _ _ _ lb); [done|simpl; by fn_simp|]. intros c4 Hc4.
  apply wp_bind. eapply (wp_brelse _ _ _ b); [done|simpl; by fn_simp| |].
  { simpl. fn_simp. intros. lia. }
  intros c5 Hc5.
  eapply (wp_brelse _ _ _ lb); [done|simpl; by fn_simp| |].
  { simpl. by fn_simp. }
  intros c6 Hc6. exists c6. split; [done|].
  eapply cache_ok_ext; [|done]. unfold view_eq. simpl. split; [|split].
  - intros x. fn_cases x lb b.
  - fn_simp. rewrite H0. simpl.
    destruct (Z.eqb_spec (v_refs V b) 0), (Z.eqb_spec (v_refs V b + 1) 1); simpl; lia.
  - by fn_simp.
Qed.

Definition install_body (recovering : bool) (tail : Z) : M (lst St) unit :=
  let* l := get_log id in
  let* lbuf := on_cache (bread (ldev l) (u32 (start l + tail + 1))) in
  let* dbuf := on_cache (bread (ldev l) (u32 (lh_block l !!! Z.to_nat tail))) in
  let* d := on_cache (bdata lbuf) in
  on_cache (set_bdata dbuf d) ;;;
  on_cache (bwrite dbuf) ;;;
  (if recovering then ret tt else on_cache (bunpin dbuf)) ;;;
  on_cache (brelse lbuf) ;;;
  on_cache (brelse dbuf).

Definition v_unpin (b : Z) (V : bview) : bview :=
  BView (v_data V) (v_disk V) (<[b := v_refs V b - 1]> (v_refs V)) (v_held V)
    (v_used V - 1) (v_trace V).

(** During recovery no buffer is pinned; after a commit every home block has
    one pin, which goes away. *)
Lemma install_step c l V (recovering : bool) tail lb b :
  cache_ok c V → ldev l = dev → u32 (start l + tail + 1) = lb →
  u32 (lh_block l !!! Z.to_nat tail) = b → 0 ≤ lb < 2^32 → 0 ≤ b < 2^32 → b ≠ lb →
  v_held V lb = None → v_held V b = None → v_refs V lb = 0 → v_data V lb = v_disk V lb →
  v_refs V b = (if recovering then 0 else 1) →
  v_used V + 1 < (if recovering then NBUF else NBUF + 1) →
  wp (install_body recovering tail) (Lst c l)
    (λ _ s', ∃ c', s' = Lst c' l ∧
      cache_ok c' ((if recovering then id else v_unpin b) (v_store b (v_data V lb) V))).
Proof.
  intros Hc Hd Hlb Hb Hrl Hrb Hne Hhl Hhb H0 Hcl Hr Hu. unfold install_body.
  apply wp_bind, wp_get_log. unfold id. rewrite Hd, Hlb, Hb.
  apply wp_bind. apply (wp_bread _ _ V); [done..|lia|right; destruct recovering; lia|].
  intros i c1 Hc1.
  apply wp_bind. eapply (wp_bread _ _ (v_get lb i V)); [done..| | | |]; simpl; fn_simp.
  { done. } { destruct recovering; lia. }
  { rewrite H0. simpl. destruct recovering; lia. }
  intros j c2 Hc2.
  apply wp_bind. eapply (wp_bdata _ _ _ lb); [done|simpl; by fn_simp|].
  apply wp_bind. eapply (wp_set_bdata _ _ _ b); [done|simpl; by fn_simp| |].
  { by apply (cache_ok_blocks c V). }
  intros c3 Hc3.
  apply wp_bind. eapply (wp_bwrite _ _ _ b); [done|simpl; by fn_simp|]. intros c4 Hc4.
  apply wp_bind. eapply (wp_mono _ _ (λ _ s', ∃ c5, s' = Lst c5 l ∧ cache_ok c5
    ((if recovering then id else v_pin b (-1))
      (v_write b (v_set b (v_data V lb) (v_get b j (v_get lb i V))))))).
  { destruct recovering; [by exists c4|].
    eapply (wp_bunpin _ _ _ b); [done|simpl; by fn_simp|simpl; fn_simp; lia|]. intros c5 Hc5.
    by exists c5. }
  intros _ ? (c5 & -> & Hc5).
  apply wp_bind. eapply (wp_brelse _ _ _ lb); [done| | |].
  { destruct recovering; simpl; by fn_simp. }
  { destruct recovering; simpl; by fn_simp. }
  intros c6 Hc6.
  eapply (wp_brelse _ _ _ b); [done| | |].
  { destruct recovering; simpl; by fn_simp. }
  { destruct recovering; simpl; by fn_simp. }
  intros c7 Hc7. exists c7. split; [done|].
  eapply cache_ok_ext; [|done]. unfold view_eq. destruct recovering; simpl.
  - split; [|split; [|by fn_simp]].
    + intros x. fn_cases x lb b.
    + fn_simp. rewrite H0, Hr. simpl. lia.
  - split; [|split; [|by fn_simp]].
    + intros x. fn_cases x lb b.
    + fn_simp. rewrite H0, Hr. simpl. lia.
Qed.

Lemma write_head_ok c l V bl :
  cache_ok c V → ldev l = dev → 0 ≤ start l < 2^31 → lh_n l = length bl →
  bl `prefix_of` lh_block l → length bl ≤ LOGSIZE →
  v_held V (start l) = None → v_refs V (start l) = 0 → v_used V < NBUF →
  wp write_head (Lst c l) (λ _ s', ∃ c', s' = Lst c' l ∧
    cache_ok c' (v_store (start l) (hdr_put (v_data V (start l)) bl) V)).
Proof.
  intros Hc Hd Hst Hn Hpre Hlen Hh Hr Hu. unfold LOGSIZE, MAXOPBLOCKS in Hlen.
  assert (block_ok (v_data V (start l))) as Hok by (by apply (cache_ok_blocks c V)).
  unfold write_head. apply wp_bind, wp_get_log. unfold id.
  assert (u32 (start l) = start l) as -> by (apply Z.mod_small; lia). rewrite Hd.
  set (st := start l) in *. set (d := v_data V st) in *.
  apply wp_bind. apply (wp_bread _ _ V); [done|lia|done|lia|lia|]. intros i c1 Hc1.
  apply wp_bind. eapply (wp_bdata _ _ _ st); [done|simpl; by fn_simp|]. simpl.
  apply wp_bind. eapply (wp_set_bdata _ _ _ st); [done|simpl; by fn_simp| |].
  { apply put_field_block; [done|unfold BSIZE; lia..]. }
  intros c2 Hc2. apply wp_bind. rewrite Hn.
  eapply wp_mono. { eapply (wp_for_each (λ t s, ∃ c', s = Lst c' l ∧
    cache_ok c' (v_set st (put_list (put32 d 0 (length bl)) 4 (take t bl)) (v_get st i V)))).
  - intros t a s Ha (c' & -> & Hc'). apply lookup_seqZ in Ha as [-> Hlt].
    apply wp_bind. eapply (wp_bdata _ _ _ st); [done|simpl; by fn_simp|]. simpl. fn_simp.
    destruct (lookup_lt_is_Some_2 bl t) as [b Hb]; [lia|].
    rewrite Z.add_0_l, Nat2Z.id.
    assert (lh_block l !!! t = b) as ->.
    { apply list_lookup_total_correct. by eapply prefix_lookup_Some. }
    eapply (wp_set_bdata _ _ _ st); [done|simpl; by fn_simp| |].
    { apply put_field_block; [|lia|lia|unfold BSIZE; lia].
      apply put_list_block; [|lia|rewrite length_take; unfold BSIZE; lia].
      apply put_field_block; [done|unfold BSIZE; lia..]. }
    intros c3 Hc3. exists c3. split; [done|]. eapply cache_ok_ext; [|done].
    rewrite (take_S_r _ _ b), put_list_snoc, length_take by done.
    replace (Nat.min t (length bl)) with t by lia.
    split; [|done]. intros x. simpl. fn_cases x st st.
  - exists c2. split; [done|]. rewrite Hn in Hc2. by rewrite take_0. }
  intros _ ? (c3 & -> & Hc3). rewrite length_seqZ, Nat2Z.id, firstn_all in Hc3.
  fold (hdr_put d bl) in Hc3.
  apply wp_bind. eapply (wp_bwrite _ _ _ st); [done|simpl; by fn_simp|]. intros c4 Hc4.
  eapply (wp_brelse _ _ _ st); [done|simpl; by fn_simp|simpl; by fn_simp|]. intros c5 Hc5.
  exists c5. split; [done|]. eapply cache_ok_ext; [|done]. unfold view_eq. simpl. split; [|split].
  - intros x. fn_cases x st st.
  - fn_simp. rewrite Hr. simpl. lia.
  - by fn_simp.
Qed.

Lemma set_lh_set_lh n bl n' bl' l : set_lh n bl (set_lh n' bl' l) = set_lh n bl l.
Proof. done. Qed.

Lemma read_head_ok c l V bl :
  cache_ok c V → ldev l = dev → 0 ≤ start l < 2^31 → hdr_get (v_data V (start l)) = bl →
  i32 (le32 (v_data V (start l)) 0) = length bl → length bl ≤ LOGSIZE →
  length (lh_block l) = Z.to_nat LOGSIZE →
  v_held V (start l) = None → v_refs V (start l) = 0 → v_data V (start l) = v_disk V (start l) →
  v_used V < NBUF →
  wp read_head (Lst c l) (λ _ s', ∃ c', s' =
      Lst c' (set_lh (length bl) (bl ++ drop (length bl) (lh_block l)) l) ∧ cache_ok c' V).
Proof.
  intros Hc Hd Hst Hbl Hn Hlen Hll Hh Hr Hcl Hu. unfold read_head.
  apply wp_bind, wp_get_log. unfold id.
  assert (u32 (start l) = start l) as -> by (apply Z.mod_small; lia). rewrite Hd.
  set (st := start l) in *. set (d := v_data V st) in *.
  apply wp_bind. apply (wp_bread _ _ V); [done|lia|done|lia|lia|]. intros i c1 Hc1.
  apply wp_bind. eapply (wp_bdata _ _ _ st); [done|simpl; by fn_simp|]. simpl.
  apply wp_bind, wp_upd_log, wp_bind, wp_get_log. simpl. fold d. rewrite Hn.
  apply wp_bind. eapply wp_mono. { eapply (wp_for_each (λ t s, s = Lst c1
      (set_lh (length bl) (take t bl ++ drop t (lh_block l)) l))).
  - intros t a s Ha ->. apply lookup_seqZ in Ha as [-> Hlt]. apply wp_upd_log.
    simpl. rewrite set_lh_set_lh. do 2 f_equal.
    destruct (lookup_lt_is_Some_2 bl t) as [b Hb]; [lia|].
    destruct (lookup_lt_is_Some_2 (lh_block l) t) as [y Hy]; [lia|].
    rewrite (take_S_r _ _ b) by done. rewrite (drop_S (lh_block l) y) by done.
    replace (i32 (le32 d (4 + 4 * (0 + t)))) with b.
    + rewrite insert_app_r_alt by (rewrite length_take; lia).
      rewrite length_take. replace (Z.to_nat (0 + t) - Nat.min t (length bl))%nat with 0%nat by lia.
      simpl. by rewrite <-app_assoc.
    + rewrite <-Hbl in Hb. unfold hdr_get in Hb. rewrite list_lookup_fmap in Hb.
      apply fmap_Some in Hb as (z & Hz & ->). by apply lookup_seqZ in Hz as [-> _].
  - by rewrite take_0, drop_0. }
  intros _ ? ->. rewrite length_seqZ, Nat2Z.id, firstn_all.
  eapply (wp_brelse _ _ _ st); [done|simpl; by fn_simp|simpl; by fn_simp|]. intros c2 Hc2.
  exists c2. split; [done|]. eapply cache_ok_ext; [|done]. unfold view_eq. simpl. split; [|split].
  - intros x. fn_cases x st st.
  - fn_simp. rewrite Hr. simpl. lia.
  - done.
Qed.

(** ** The loops over the logged blocks *)

(** A block outside the log region. *)
Definition home (l : log) (b : Z) : Prop :=
  0 ≤ b < 2^31 ∧ (b < start l ∨ start l + lsize l ≤ b).

(** The log occupies blocks [start] to [start + lsize - 1] of the device, and
    its in-memory header lists the distinct home blocks [bl]. *)
Record log_ok (l : log) (bl : list Z) : Prop := {
  lo_dev : ldev l = dev;
  lo_start : 0 ≤ start l;
  lo_end : start l + lsize l < 2^31;
  lo_n : lh_n l = length bl;
  lo_pre : bl `prefix_of` lh_block l;
  lo_len : length (lh_block l) = Z.to_nat LOGSIZE;
  lo_nodup : NoDup bl;
  lo_home : Forall (home l) bl;
  lo_size : length bl < lsize l
}.

(** No buffer is locked, and blocks of the log are clean and unused. *)
Definition quiet (l : log) (V : bview) : Prop :=
  (∀ bn, v_held V bn = None) ∧
  (∀ bn, start l ≤ bn < start l + lsize l → v_refs V bn = 0 ∧ v_data V bn = v_disk V bn).

Definition log_writes (l : log) (V : bview) (bl : list Z) : list (Z * block) :=
  imap (λ i b, (start l + i + 1, v_data V b)) bl.
Definition home_writes (l : log) (V : bview) (bl : list Z) : list (Z * block) :=
  imap (λ i b, (b, v_data V (start l + i + 1))) bl.

Lemma log_writes_fst l V bl : (log_writes l V bl).*1 = (λ i, start l + i + 1) <$> seqZ 0 (length bl).
Proof.
  apply list_eq. intros i. unfold log_writes. rewrite !list_lookup_fmap, list_lookup_imap.
  destruct (bl !! i) as [b|] eqn:E; simpl.
  - apply lookup_lt_Some in E. by rewrite lookup_seqZ_lt by lia.
  - apply lookup_ge_None_1 in E. by rewrite lookup_seqZ_ge by lia.
Qed.

Lemma home_writes_fst l V bl : (home_writes l V bl).*1 = bl.
Proof.
  apply list_eq. intros i. unfold home_writes. rewrite list_lookup_fmap, list_lookup_imap.
  by destruct (bl !! i).
Qed.

Lemma log_write_elem l V bl bn : bn ∈ (log_writes l V bl).*1 → start l < bn ≤ start l + length bl.
Proof. rewrite log_writes_fst, list_elem_of_fmap. intros (i & -> & Hi%elem_of_seqZ). lia. Qed.

Lemma logged_lookup l bl (t : nat) b :
  log_ok l bl → bl !! t = Some b →
  u32 (lh_block l !!! t) = b ∧ u32 (start l + t + 1) = start l + t + 1 ∧
  start l < start l + t + 1 < start l + lsize l ∧ home l b.
Proof.
  intros [] Hb. pose proof (lookup_lt_Some _ _ _ Hb).
  assert (home l b) as Hh by (by eapply Forall_lookup_1).
  assert (lh_block l !!! t = b) as ->.
  { apply list_lookup_total_correct. by eapply prefix_lookup_Some. }
  unfold home in *. split_and!; try (apply Z.mod_small); try lia.
Qed.

Lemma v_run_store ws us V bn d :
  view_eq (v_store bn d (v_run ws us V)) (v_run (ws ++ [(bn, d)]) us V).
Proof.
  unfold view_eq, v_run, v_store. simpl. rewrite !apply_writes_app, <-app_assoc. done.
Qed.

Lemma v_run_nil V : view_eq V (v_run [] [] V).
Proof.
  unfold view_eq, v_run. cbn [v_data v_disk v_refs v_held v_used v_trace].
  rewrite app_nil_r. split; [|split; [simpl; lia|done]].
  intros x. rewrite decide_False by apply not_elem_of_nil. split_and!; try done. lia.
Qed.

Lemma write_log_ok c l V bl :
  cache_ok c V → log_ok l bl → quiet l V → (∀ b, b ∈ bl → 0 < v_refs V b < 2^30) →
  v_used V < NBUF →
  wp write_log (Lst c l) (λ _ s', ∃ c', s' = Lst c' l ∧
    cache_ok c' (v_run (log_writes l V bl) [] V)).
Proof.
  intros Hc Hl [Hq1 Hq2] Hpin Hu. unfold write_log. apply wp_bind, wp_get_log.
  rewrite (lo_n _ _ Hl). eapply wp_mono.
  { eapply (wp_for_each (λ t s, ∃ c', s = Lst c' l ∧
      cache_ok c' (v_run (take t (log_writes l V bl)) [] V))).
    - intros t a s Ha (c' & -> & Hc'). apply lookup_seqZ in Ha as [-> Hlt].
      destruct (lookup_lt_is_Some_2 bl t) as [b Hb]; [lia|].
      destruct (logged_lookup l bl t b Hl Hb) as (Hb' & Hlb & Hin & Hh). unfold home in Hh.
      assert (log_writes l V bl !! t = Some (start l + t + 1, v_data V b)) as HW.
      { unfold log_writes. by rewrite list_lookup_imap, Hb. }
      assert (b ∉ (take t (log_writes l V bl)).*1) as Hnb.
      { intros Hx. rewrite fmap_take in Hx. apply elem_of_take in Hx as (? & Hx & _).
        apply list_elem_of_lookup_2, log_write_elem in Hx. pose proof (lo_size _ _ Hl). lia. }
      destruct (Hq2 (start l + t + 1)) as [Hr0 _]; [lia|].
      assert (b ∈ bl) as Hbin by (by eapply list_elem_of_lookup_2).
      pose proof (Hpin b Hbin). pose proof (lo_end _ _ Hl). pose proof (lo_start _ _ Hl).
      fold (write_log_body (0 + t)). rewrite Z.add_0_l.
      eapply wp_mono; [eapply (write_log_step c' l _ t (start l + t + 1) b); [done|..]|].
      + apply (lo_dev _ _ Hl).
      + done.
      + by rewrite Nat2Z.id.
      + lia.
      + lia.
      + lia.
      + apply Hq1.
      + apply Hq1.
      + cbn [v_run v_refs]. rewrite decide_False by apply not_elem_of_nil. lia.
      + cbn [v_run v_refs]. rewrite decide_False by apply not_elem_of_nil. lia.
      + simpl. lia.
      + intros _ s' (c2 & -> & Hc2). exists c2. split; [done|].
        rewrite (take_S_r _ _ _ HW). eapply cache_ok_ext; [apply v_run_store|].
        simpl in Hc2. by rewrite apply_writes_notin in Hc2.
    - exists c. split; [done|]. eapply cache_ok_ext; [apply v_run_nil|done]. }
  intros _ s' (c' & -> & Hc'). exists c'. split; [done|].
  rewrite length_seqZ, Nat2Z.id, <-(length_imap (λ i b, (start l + i + 1, v_data V b)) bl) in Hc'.
  fold (log_writes l V bl) in Hc'. by rewrite firstn_all in Hc'.
Qed.

Lemma v_run_unpin ws us V bn d :
  bn ∉ us →
  view_eq (v_unpin bn (v_store bn d (v_run ws us V))) (v_run (ws ++ [(bn, d)]) (us ++ [bn]) V).
Proof.
  intros Hn. unfold view_eq, v_run, v_store, v_unpin. cbn [v_data v_disk v_refs v_held v_used v_trace].
  rewrite !apply_writes_app, <-app_assoc, length_app. split; [|split; [simpl; lia|done]].
  intros x. split; [done|]. split; [done|]. split; [|done].
  destruct (decide (x = bn)) as [->|Hne].
  - rewrite fn_lookup_insert, (decide_False (P := bn ∈ us)) by done.
    rewrite decide_True; [lia|]. apply elem_of_app. right. by apply list_elem_of_singleton.
  - rewrite fn_lookup_insert_ne by done.
    assert (x ∈ us ++ [bn] ↔ x ∈ us) as Hiff.
    { rewrite elem_of_app, list_elem_of_singleton. tauto. }
    repeat case_decide; tauto.
Qed.

Lemma quiet_run l V ws us :
  quiet l V → Forall (λ b, ¬ (start l ≤ b < start l + lsize l)) us → quiet l (v_run ws us V).
Proof.
  intros [H1 H2] Hus. split; [done|]. intros bn Hbn. destruct (H2 bn Hbn) as [Hr Hd].
  cbn [v_run v_refs v_data v_disk]. split.
  - rewrite decide_False; [lia|]. intros Hx. rewrite Forall_forall in Hus. by apply (Hus bn).
  - apply apply_writes_ext. done.
Qed.

Definition unpins (recovering : bool) (bl : list Z) : list Z := if recovering then [] else bl.

Lemma install_trans_ok c l V (recovering : bool) bl :
  cache_ok c V → log_ok l bl → quiet l V →
  (∀ b, b ∈ bl → v_refs V b = if recovering then 0 else 1) →
  v_used V + 1 < (if recovering then NBUF else NBUF + 1) →
  wp (install_trans recovering) (Lst c l) (λ _ s', ∃ c', s' = Lst c' l ∧
    cache_ok c' (v_run (home_writes l V bl) (unpins recovering bl) V)).
Proof.
  intros Hc Hl [Hq1 Hq2] Hpin Hu. unfold install_trans. apply wp_bind, wp_get_log.
  rewrite (lo_n _ _ Hl). eapply wp_mono.
  { eapply (wp_for_each (λ t s, ∃ c', s = Lst c' l ∧
      cache_ok c' (v_run (take t (home_writes l V bl)) (unpins recovering (take t bl)) V))).
    - intros t a s Ha (c' & -> & Hc'). apply lookup_seqZ in Ha as [-> Hlt].
      destruct (lookup_lt_is_Some_2 bl t) as [b Hb]; [lia|].
      destruct (logged_lookup l bl t b Hl Hb) as (Hb' & Hlb & Hin & Hh).
      assert (home_writes l V bl !! t = Some (b, v_data V (start l + t + 1))) as HW.
      { unfold home_writes. by rewrite list_lookup_imap, Hb. }
      assert (∀ x, x ∈ take t bl → x ≠ b ∧ x ≠ start l + t + 1) as Hnt.
      { intros x (i & Hx & Hi)%elem_of_take. split.
        - intros ->. pose proof (NoDup_lookup _ _ _ _ (lo_nodup _ _ Hl) Hx Hb). lia.
        - pose proof (Forall_lookup_1 _ _ _ _ (lo_home _ _ Hl) Hx) as Hx'.
          unfold home in Hx'. lia. }
      assert (start l + t + 1 ∉ (take t (home_writes l V bl)).*1) as Hnl.
      { rewrite fmap_take, home_writes_fst. intros Hx. by destruct (Hnt _ Hx). }
      destruct (Hq2 (start l + t + 1)) as [Hr0 Hcl]; [lia|].
      assert (b ∈ bl) as Hbin by (by eapply list_elem_of_lookup_2).
      assert (∀ x, x ∈ unpins recovering (take t bl) → x ≠ b ∧ x ≠ start l + t + 1) as Hnu.
      { intros x Hx. destruct recovering; [by apply not_elem_of_nil in Hx|by apply Hnt]. }
      unfold home in Hh. pose proof (lo_end _ _ Hl). pose proof (lo_start _ _ Hl).
      fold (install_body recovering (0 + t)). rewrite Z.add_0_l.
      eapply wp_mono; [eapply (install_step c' l _ recovering t (start l + t + 1) b); [done|..]|].
      + apply (lo_dev _ _ Hl).
      + done.
      + by rewrite Nat2Z.id.
      + lia.
      + lia.
      + lia.
      + apply Hq1.
      + apply Hq1.
      + cbn [v_run v_refs]. rewrite decide_False; [lia|]. intros Hx. by destruct (Hnu _ Hx).
      + cbn [v_run v_data v_disk]. by rewrite !apply_writes_notin.
      + cbn [v_run v_refs]. rewrite decide_False; [rewrite Hpin by done; lia|].
        intros Hx. by destruct (Hnu _ Hx).
      + cbn [v_run v_used]. destruct recovering; simpl; lia.
      + intros _ s' (c2 & -> & Hc2). exists c2. split; [done|]. rewrite (take_S_r _ _ _ HW).
        cbn [v_run v_data] in Hc2. rewrite apply_writes_notin in Hc2 by done.
        eapply cache_ok_ext; [|exact Hc2]. destruct recovering; [apply v_run_store|].
        simpl. rewrite (take_S_r _ _ _ Hb). apply v_run_unpin. intros Hx. by destruct (Hnt _ Hx).
    - exists c. split; [done|]. eapply cache_ok_ext; [|exact Hc]. destruct recovering; apply v_run_nil. }
  intros _ s' (c' & -> & Hc'). exists c'. split; [done|].
  rewrite length_seqZ, Nat2Z.id, firstn_all in Hc'.
  rewrite <-(length_imap (λ i b, (b, v_data V (start l + i + 1))) bl) in Hc'.
  fold (home_writes l V bl) in Hc'. by rewrite firstn_all in Hc'.
Qed.

(** ** commit *)

Lemma v_run_run ws ws' us V : view_eq (v_run ws' us (v_run ws [] V)) (v_run (ws ++ ws') us V).
Proof.
  unfold view_eq, v_run. cbn [v_data v_disk v_refs v_held v_used v_trace].
  rewrite !apply_writes_app, <-app_assoc. split; [|split; [simpl; lia|done]].
  intros x. rewrite (decide_False (P := x ∈ [])) by apply not_elem_of_nil.
  split_and!; try done. lia.
Qed.

(** The disk writes of a commit: the log blocks, the header, the home blocks
    and the cleared header. *)
Definition commit_writes (l : log) (V : bview) (bl : list Z) : list (Z * block) :=
  let h := hdr_put (v_data V (start l)) bl in
  (log_writes l V bl ++ [(start l, h)]) ++
  ((λ b, (b, v_data V b)) <$> bl) ++ [(start l, hdr_put h [])].

Lemma log_writes_nodup l V bl : NoDup (log_writes l V bl).*1.
Proof.
  rewrite log_writes_fst. apply NoDup_fmap_2; [|apply NoDup_seqZ]. intros i j. lia.
Qed.

Lemma home_writes_log l V bl d :
  log_ok l bl →
  home_writes l (v_run (log_writes l V bl ++ [(start l, d)]) [] V) bl = (λ b, (b, v_data V b)) <$> bl.
Proof.
  intros Hl. apply list_eq. intros i. unfold home_writes. rewrite list_lookup_imap, list_lookup_fmap.
  destruct (bl !! i) as [b|] eqn:Hb; simpl; [|done]. do 2 f_equal.
  rewrite apply_writes_app. simpl. rewrite fn_lookup_insert_ne by lia.
  apply apply_writes_in; [apply log_writes_nodup|]. apply list_elem_of_lookup_2 with i.
  unfold log_writes. by rewrite list_lookup_imap, Hb.
Qed.

Lemma start_clean l V bl : log_ok l bl → quiet l V →
  v_refs V (start l) = 0 ∧ v_data V (start l) = v_disk V (start l).
Proof. intros Hl [_ H]. apply H. pose proof (lo_size _ _ Hl). lia. Qed.

Lemma log_ok_head l bl : log_ok l bl → 0 ≤ start l < 2^31 ∧ length bl ≤ LOGSIZE.
Proof.
  intros []. split; [lia|]. apply prefix_length in lo_pre0.
  unfold LOGSIZE, MAXOPBLOCKS in *. lia.
Qed.

Lemma log_ok_clear l bl : log_ok l bl → log_ok (set_lh 0 (lh_block l) l) [].
Proof.
  intros []. split; simpl; try done; try lia.
  - apply prefix_nil.
  - apply NoDup_nil_2.
Qed.

Lemma apply_writes_start l V bl : apply_writes (v_data V) (log_writes l V bl) (start l) = v_data V (start l).
Proof. apply apply_writes_notin. intros H%log_write_elem. lia. Qed.

Lemma commit_ok c l V bl :
  cache_ok c V → log_ok l bl → quiet l V → (∀ b, b ∈ bl → v_refs V b = 1) →
  v_used V < NBUF → bl ≠ [] →
  wp commit (Lst c l) (λ _ s', ∃ c', s' = Lst c' (set_lh 0 (lh_block l) l) ∧
    cache_ok c' (v_run (commit_writes l V bl) bl V)).
Proof.
  intros Hc Hl Hq Hpin Hu Hne. unfold commit. apply wp_bind, wp_get_log.
  assert (length bl ≠ 0%nat) by (by destruct bl).
  rewrite (lo_n _ _ Hl), (proj2 (Z.ltb_lt 0 (length bl))) by lia.
  destruct (log_ok_head l bl Hl) as [Hst Hlen]. destruct (start_clean l V bl Hl Hq) as [Hsr Hsd].
  assert (∀ us : list Z, us `prefix_of` bl → Forall (λ b, ¬ (start l ≤ b < start l + lsize l)) us) as Hus.
  { intros us [r Hr]. pose proof (lo_home _ _ Hl) as Hh. rewrite Hr in Hh.
    apply Forall_app in Hh as [Hh _]. eapply Forall_impl; [done|]. unfold home. intros; lia. }
  set (LW := log_writes l V bl). set (h := hdr_put (v_data V (start l)) bl).
  apply wp_bind. eapply wp_mono; [apply (write_log_ok c l V bl); try done|].
  { intros b Hb. rewrite Hpin by done. lia. }
  intros _ ? (c1 & -> & Hc1). fold LW in Hc1.
  apply wp_bind. eapply wp_mono; [apply (write_head_ok c1 l (v_run LW [] V) bl); try done|].
  { apply (lo_dev _ _ Hl). } { apply (lo_n _ _ Hl). } { apply (lo_pre _ _ Hl). }
  { apply Hq. }
  { cbn [v_run v_refs]. rewrite decide_False by apply not_elem_of_nil. lia. }
  { simpl. lia. }
  intros _ ? (c2 & -> & Hc2). cbn [v_run v_data] in Hc2. unfold LW in Hc2 at 1.
  rewrite apply_writes_start in Hc2. fold h in Hc2.
  apply (cache_ok_ext _ _ _ (v_run_store _ _ _ _ _)) in Hc2.
  apply wp_bind. eapply wp_mono; [eapply (install_trans_ok c2 l _ false bl); [done|done| | |]|].
  { apply quiet_run; [done|]. by apply Hus, prefix_nil. }
  { intros b Hb. cbn [v_run v_refs]. rewrite decide_False by apply not_elem_of_nil.
    rewrite Hpin by done. lia. }
  { simpl. lia. }
  intros _ ? (c3 & -> & Hc3). unfold LW in Hc3. rewrite home_writes_log in Hc3 by done. fold LW in Hc3.
  apply (cache_ok_ext _ _ _ (v_run_run _ _ _ _)) in Hc3. simpl unpins in Hc3.
  apply wp_bind, wp_upd_log.
  eapply wp_mono; [eapply (write_head_ok c3 _ _ []); [exact Hc3|..]|].
  { apply (lo_dev _ _ Hl). } { done. } { done. } { apply prefix_nil. } { done. }
  { apply Hq. }
  { cbn [v_run v_refs]. simpl start. rewrite decide_False; [lia|]. intros Hx.
    specialize (Hus bl). rewrite Forall_forall in Hus. apply (Hus (reflexivity bl) _ Hx).
    pose proof (lo_size _ _ Hl). lia. }
  { cbn [v_run v_used]. lia. }
  intros _ ? (c4 & -> & Hc4). exists c4. split; [done|].
  apply (cache_ok_ext _ _ _ (v_run_store _ _ _ _ _)) in Hc4.
  unfold commit_writes. cbv zeta. fold LW h. rewrite app_assoc.
  replace h with (v_data (v_run ((LW ++ [(start l, h)]) ++ ((λ b, (b, v_data V b)) <$> bl)) bl V) (start l)) at 2;
    [exact Hc4|].
  cbn [v_run v_data]. rewrite apply_writes_app, apply_writes_notin.
  - rewrite apply_writes_app. simpl. by rewrite fn_lookup_insert.
  - rewrite <-list_fmap_compose. simpl. rewrite list_elem_of_fmap. intros (b & Hb & Hin).
    simpl in Hb. subst b. pose proof (Forall_forall (home l) bl) as [Hf _].
    destruct (Hf (lo_home _ _ Hl) _ Hin) as [_ ?]. pose proof (lo_size _ _ Hl). lia.
Qed.

(** ** Recovery *)

(** The disk [d] holds a log whose header lists the home blocks [bl]. *)
Record disk_log (l : log) (d : Z → block) (bl : list Z) : Prop := {
  dl_dev : ldev l = dev;
  dl_start : 0 ≤ start l;
  dl_end : start l + lsize l < 2^31;
  dl_len : length (lh_block l) = Z.to_nat LOGSIZE;
  dl_get : hdr_get (d (start l)) = bl;
  dl_n : i32 (le32 (d (start l)) 0) = length bl;
  dl_nodup : NoDup bl;
  dl_home : Forall (home l) bl;
  dl_max : length bl ≤ LOGSIZE;
  dl_size : length bl < lsize l
}.

Definition recover_writes (l : log) (d : Z → block) : list (Z * block) :=
  imap (λ i b, (b, d (start l + i + 1))) (hdr_get (d (start l))) ++
  [(start l, hdr_put (d (start l)) [])].

(** The disk after recovery. *)
Definition recovered (l : log) (d : Z → block) : Z → block := apply_writes d (recover_writes l d).

Lemma disk_log_ok l d bl :
  disk_log l d bl → log_ok (set_lh (length bl) (bl ++ drop (length bl) (lh_block l)) l) bl.
Proof.
  intros []. unfold LOGSIZE, MAXOPBLOCKS in *. split; simpl; try done.
  - by apply prefix_app_r.
  - rewrite length_app, length_drop. unfold LOGSIZE, MAXOPBLOCKS. lia.
Qed.

Lemma recover_ok c l d bl :
  cache_ok c (v_boot d) → disk_log l d bl →
  wp recover_from_log (Lst c l) (λ _ s', ∃ c' l', s' = Lst c' l' ∧ log_ok l' [] ∧
    start l' = start l ∧ lsize l' = lsize l ∧
    cache_ok c' (v_run (recover_writes l d) [] (v_boot d))).
Proof.
  intros Hc Hd. pose proof (disk_log_ok l d bl Hd) as Hl. set (l1 := set_lh _ _ _) in Hl.
  assert (quiet l1 (v_boot d)) as Hq by done.
  destruct (log_ok_head l1 bl Hl) as [Hst Hlen].
  unfold recover_from_log.
  apply wp_bind. eapply wp_mono; [apply (read_head_ok c l (v_boot d) bl); try done; try apply Hd|].
  intros _ ? (c1 & -> & Hc1). fold l1.
  apply wp_bind. eapply wp_mono; [apply (install_trans_ok c1 l1 (v_boot d) true bl); done|].
  intros _ ? (c2 & -> & Hc2). simpl unpins in Hc2.
  apply wp_bind, wp_upd_log.
  eapply wp_mono; [eapply (write_head_ok c2 _ _ []); [exact Hc2|..]|].
  { apply (lo_dev _ _ Hl). } { done. } { done. } { apply prefix_nil. } { done. }
  { done. }
  { cbn [v_run v_refs]. rewrite decide_False by apply not_elem_of_nil. done. }
  { done. }
  intros _ ? (c3 & -> & Hc3). eexists c3, _. split; [done|].
  split; [by eapply log_ok_clear|]. split; [done|]. split; [done|].
  apply (cache_ok_ext _ _ _ (v_run_store _ _ _ _ _)) in Hc3.
  unfold recover_writes. rewrite (dl_get _ _ _ Hd).
  replace (d (start l)) with (v_data (v_run (home_writes l1 (v_boot d) bl) [] (v_boot d)) (start l));
    [exact Hc3|].
  cbn [v_run v_data]. apply apply_writes_notin. rewrite home_writes_fst. intros Hin.
  pose proof (lo_home _ _ Hl) as Hh. rewrite Forall_forall in Hh. destruct (Hh _ Hin) as [_ ?].
  pose proof (lo_size _ _ Hl). simpl in *. lia.
Qed.

(** What recovery leaves in a home block. *)
Lemma recovered_home l d bl b :
  disk_log l d bl → home l b →
  (∀ i : nat, bl !! i = Some b → recovered l d b = d (start l + i + 1)) ∧
  (b ∉ bl → recovered l d b = d b).
Proof.
  intros Hd Hb. unfold recovered, recover_writes. rewrite (dl_get _ _ _ Hd), apply_writes_app.
  assert (b ≠ start l) as Hne by (destruct Hb as [_ ?]; pose proof (dl_size _ _ _ Hd); lia).
  simpl. rewrite fn_lookup_insert_ne by done.
  change (imap (λ i b, (b, d (start l + i + 1))) bl) with (home_writes l (v_boot d) bl).
  split.
  - intros i Hi. apply apply_writes_in; [rewrite home_writes_fst; apply (dl_nodup _ _ _ Hd)|].
    apply list_elem_of_lookup_2 with i. unfold home_writes. by rewrite list_lookup_imap, Hi.
  - intros Hn. apply apply_writes_notin. by rewrite home_writes_fst.
Qed.

(** Same header and same log blocks: same recovered contents, whatever
    happened to the blocks that recovery overwrites. *)
Lemma recovered_agree l d d' bl b :
  disk_log l d bl → disk_log l d' bl → home l b →
  (∀ i : nat, (i < length bl)%nat → d' (start l + i + 1) = d (start l + i + 1)) →
  (b ∉ bl → d' b = d b) → recovered l d' b = recovered l d b.
Proof.
  intros Hd Hd' Hb Hlog Hout.
  destruct (recovered_home l d bl b Hd Hb) as [H1 H2].
  destruct (recovered_home l d' bl b Hd' Hb) as [H1' H2'].
  destruct (decide (b ∈ bl)) as [[i Hi]%list_elem_of_lookup|Hn].
  - rewrite (H1 i), (H1' i) by done. apply Hlog. by eapply lookup_lt_Some.
  - rewrite H2, H2' by done. by apply Hout.
Qed.

(** ** Crashes *)

Section crash.
Context (c : St) (l : log) (V : bview) (bl : list Z).
Hypothesis Hc : cache_ok c V.
Hypothesis Hl : log_ok l bl.
Hypothesis Hclear : disk_log l (v_disk V) [].
Hypothesis Hout : ∀ b, b ∉ bl → v_data V b = v_disk V b.

Let n : nat := length bl.
Let h : block := hdr_put (v_data V (start l)) bl.
Let LW : list (Z * block) := log_writes l V bl.
Let HW : list (Z * block) := (λ b, (b, v_data V b)) <$> bl.

Lemma crash_prefix (k : nat) :
  take k (commit_writes l V bl) =
    if decide (k ≤ n)%nat then take k LW
    else if decide (k ≤ 2 * n + 1)%nat then LW ++ (start l, h) :: take (k - n - 1) HW
    else LW ++ (start l, h) :: HW ++ [(start l, hdr_put h [])].
Proof.
  assert (length LW = n) as HnL by apply length_imap.
  assert (length HW = n) as HnH by apply length_fmap.
  unfold commit_writes. cbv zeta. fold h LW HW. rewrite <-app_assoc. simpl.
  case_decide as H1; [|case_decide as H2].
  - rewrite take_app_le by lia. done.
  - rewrite take_app_ge by lia. f_equal. rewrite HnL.
    destruct (k - n)%nat as [|m] eqn:E; [lia|]. simpl. f_equal.
    by rewrite Nat.sub_0_r, take_app_le by lia.
  - rewrite take_app_ge by lia. f_equal. rewrite HnL.
    destruct (k - n)%nat as [|m] eqn:E; [lia|]. simpl. f_equal.
    apply take_ge. rewrite length_app. simpl. lia.
Qed.

Lemma home_ne_log b (i : nat) : home l b → (i < n)%nat → b ≠ start l + i + 1 ∧ b ≠ start l.
Proof. intros [_ Hb] Hi. pose proof (lo_size _ _ Hl). fold n in H. lia. Qed.

Lemma bl_home b : b ∈ bl → home l b.
Proof. intros Hb. pose proof (lo_home _ _ Hl) as Hh. rewrite Forall_forall in Hh. auto. Qed.

Lemma HW_fst (j : nat) b : b ∈ (take j HW).*1 → b ∈ bl.
Proof.
  rewrite fmap_take. unfold HW. rewrite <-list_fmap_compose. simpl.
  intros (i & Hi & _)%elem_of_take. rewrite list_lookup_fmap in Hi.
  apply fmap_Some in Hi as (x & Hx & ->). by eapply list_elem_of_lookup_2.
Qed.

Lemma LW_log d b : home l b → apply_writes d LW b = d b.
Proof.
  intros Hb. apply apply_writes_notin. unfold LW. intros Hin%log_write_elem.
  pose proof (lo_size _ _ Hl). destruct Hb as [_ ?]. lia.
Qed.

Lemma v_data_start_ok : block_ok (v_data V (start l)).
Proof. by apply (cache_ok_blocks c V). Qed.

Lemma hdr_disk_log (d : Z → block) bl' :
  bl' `prefix_of` bl → d (start l) = hdr_put (v_data V (start l)) bl' ∨
    d (start l) = hdr_put h [] ∧ bl' = [] → disk_log l d bl'.
Proof.
  intros Hpre Hd. destruct (log_ok_head l bl Hl) as [_ Hlen].
  pose proof (prefix_length _ _ Hpre) as Hpl. destruct Hpre as [r Hr].
  assert (Forall (λ b, 0 ≤ b < 2^31) bl) as Hb31.
  { eapply Forall_impl; [apply (lo_home _ _ Hl)|]. by intros b []. }
  assert (Forall (λ b, 0 ≤ b < 2^31) bl') as Hb31' by (rewrite Hr, Forall_app in Hb31; apply Hb31).
  assert (block_ok h) as Hh.
  { unfold h, hdr_put. unfold LOGSIZE, MAXOPBLOCKS in Hlen. apply put_list_block; [|lia|unfold BSIZE; lia].
    apply put_field_block; [apply v_data_start_ok|unfold BSIZE; lia..]. }
  assert (∃ d0, block_ok d0 ∧ d (start l) = hdr_put d0 bl') as (d0 & Hd0 & Hd1).
  { destruct Hd as [Hd|[Hd ->]]; [exists (v_data V (start l))|exists h]; (split; [|done]); [|done].
    apply v_data_start_ok. }
  assert (hdr_get (d (start l)) = bl') as Hg by (rewrite Hd1; apply hdr_get_put; [done|lia|done]).
  split; try apply Hclear; try done.
  - rewrite Hd1. unfold hdr_put, LOGSIZE, MAXOPBLOCKS in *. destruct Hd0 as [Hl0 Hb0].
    rewrite le32_put_list_before; [|apply put_field_block; [done|unfold BSIZE; lia..]|lia|lia|unfold BSIZE; lia].
    unfold le32, put32. rewrite field_put_eq by (unfold BSIZE in *; lia).
    apply i32_u32_small. lia.
  - pose proof (lo_nodup _ _ Hl) as Hnd. rewrite Hr in Hnd. by apply NoDup_app in Hnd as [? _].
  - pose proof (lo_home _ _ Hl) as Hh'. rewrite Hr, Forall_app in Hh'. apply Hh'.
  - lia.
  - pose proof (lo_size _ _ Hl). lia.
Qed.

Lemma start_not_bl : start l ∉ bl.
Proof. intros [_ H]%bl_home. pose proof (lo_size _ _ Hl). lia. Qed.

(** The header on disk after the first [k] writes of the commit. *)
Lemma crash_header (k : nat) :
  disk_log l (apply_writes (v_disk V) (take k (commit_writes l V bl)))
    (if decide (n < k ≤ 2 * n + 1)%nat then bl else []).
Proof.
  rewrite crash_prefix. destruct (decide (k ≤ n)%nat); [|destruct (decide (k ≤ 2 * n + 1)%nat)].
  - rewrite decide_False by lia.
    assert (apply_writes (v_disk V) (take k LW) (start l) = v_disk V (start l)) as Heq.
    { apply apply_writes_notin. rewrite fmap_take. intros (i & Hi & _)%elem_of_take.
      apply list_elem_of_lookup_2 in Hi. unfold LW in Hi. apply log_write_elem in Hi. lia. }
    destruct Hclear. split; try done; by rewrite Heq.
  - rewrite decide_True by lia. apply hdr_disk_log; [done|]. left.
    rewrite apply_writes_app. simpl. etrans.
    + apply apply_writes_notin. intros Hx%HW_fst. by apply start_not_bl.
    + by rewrite fn_lookup_insert.
  - rewrite decide_False by lia. apply hdr_disk_log; [apply prefix_nil|]. right.
    rewrite app_comm_cons, app_assoc, apply_writes_app. simpl. by rewrite fn_lookup_insert.
Qed.

(** Old contents before the header write, new contents after it. *)
Lemma crash_home (k : nat) b :
  home l b →
  recovered l (apply_writes (v_disk V) (take k (commit_writes l V bl))) b =
    if decide (k ≤ n)%nat then v_disk V b else v_data V b.
Proof.
  intros Hb. pose proof (crash_header k) as Hh. set (dk := apply_writes _ _) in *.
  destruct (recovered_home l dk _ b Hh Hb) as [H1 H2]. unfold dk in *. clear dk.
  rewrite crash_prefix in *. assert (b ≠ start l) as Hbs.
  { destruct Hb as [_ ?]. pose proof (lo_size _ _ Hl). lia. }
  destruct (decide (k ≤ n)%nat); [|destruct (decide (k ≤ 2 * n + 1)%nat)].
  - rewrite decide_False in H2 by lia. rewrite H2 by apply not_elem_of_nil.
    apply apply_writes_notin. rewrite fmap_take. intros (i & Hi & _)%elem_of_take.
    apply list_elem_of_lookup_2 in Hi. unfold LW in Hi. apply log_write_elem in Hi.
    pose proof (lo_size _ _ Hl). destruct Hb as [_ ?]. lia.
  - rewrite decide_True in H1, H2 by lia. destruct (decide (b ∈ bl)) as [Hin|Hn].
    + apply list_elem_of_lookup in Hin as [i Hi]. rewrite (H1 i Hi).
      pose proof (lookup_lt_Some _ _ _ Hi). rewrite apply_writes_app. simpl. etrans.
      * apply apply_writes_notin. intros Hx%HW_fst%bl_home.
        by destruct (home_ne_log _ i Hx).
      * rewrite fn_lookup_insert_ne by lia. apply apply_writes_in; [apply log_writes_nodup|].
        apply list_elem_of_lookup_2 with i. unfold LW, log_writes. by rewrite list_lookup_imap, Hi.
    + rewrite H2 by done. rewrite apply_writes_app. simpl. etrans.
      * apply apply_writes_notin. by intros Hx%HW_fst.
      * rewrite fn_lookup_insert_ne by done. rewrite LW_log by done. by rewrite Hout.
  - rewrite decide_False in H2 by lia. rewrite H2 by apply not_elem_of_nil.
    rewrite app_comm_cons, app_assoc, apply_writes_app. simpl. rewrite fn_lookup_insert_ne by done.
    rewrite apply_writes_app. simpl.
    destruct (decide (b ∈ bl)) as [Hin|Hn].
    + apply apply_writes_in.
      * unfold HW. rewrite <-list_fmap_compose. simpl. rewrite list_fmap_id. apply (lo_nodup _ _ Hl).
      * unfold HW. apply list_elem_of_fmap. by exists b.
    + etrans; [apply apply_writes_notin|].
      * unfold HW. rewrite <-list_fmap_compose. simpl. by rewrite list_fmap_id.
      * rewrite fn_lookup_insert_ne by done. rewrite LW_log by done. by rewrite Hout.
Qed.
(** Without a crash: home blocks have the new contents, in cache and on disk. *)
Lemma commit_home b :
  home l b →
  apply_writes (v_data V) (commit_writes l V bl) b = v_data V b ∧
  apply_writes (v_disk V) (commit_writes l V bl) b = v_data V b.
Proof.
  intros Hb. assert (b ≠ start l) as Hbs.
  { destruct Hb as [_ ?]. pose proof (lo_size _ _ Hl). lia. }
  assert (∀ d, d b = v_disk V b ∨ d b = v_data V b →
    apply_writes d (commit_writes l V bl) b = v_data V b) as Hgen.
  { intros d Hd. unfold commit_writes. cbv zeta. fold HW.
    rewrite !apply_writes_app. simpl. rewrite fn_lookup_insert_ne by done.
    destruct (decide (b ∈ bl)) as [Hin|Hn].
    - apply apply_writes_in.
      + unfold HW. rewrite <-list_fmap_compose. simpl. rewrite list_fmap_id. apply (lo_nodup _ _ Hl).
      + unfold HW. apply list_elem_of_fmap. by exists b.
    - etrans; [apply apply_writes_notin|].
      + unfold HW. rewrite <-list_fmap_compose. simpl. by rewrite list_fmap_id.
      + rewrite fn_lookup_insert_ne by done. fold LW. rewrite LW_log by done.
        destruct Hd as [->|Hd]; [by rewrite Hout|done]. }
  split; apply Hgen; [by right|by left].
Qed.
End crash.

(** A crash during recovery itself. *)
Lemma recover_prefix l d bl (j : nat) :
  disk_log l d bl → block_ok (d (start l)) →
  disk_log l (apply_writes d (take j (recover_writes l d)))
    (if decide (j ≤ length bl)%nat then bl else []) ∧
  (∀ b, home l b →
     recovered l (apply_writes d (take j (recover_writes l d))) b = recovered l d b).
Proof.
  intros Hd Hok. set (HW := home_writes l (v_boot d) bl).
  assert (recover_writes l d = HW ++ [(start l, hdr_put (d (start l)) [])]) as HR.
  { unfold recover_writes. by rewrite (dl_get _ _ _ Hd). }
  assert (length HW = length bl) as Hlen by apply length_imap.
  assert (HW.*1 = bl) as Hfst by apply home_writes_fst.
  assert (∀ b, b ∈ bl → home l b) as Hh.
  { pose proof (dl_home _ _ _ Hd) as Hh. rewrite Forall_forall in Hh. done. }
  assert (∀ k b, b ∉ bl → apply_writes d (take k HW) b = d b) as Hfr.
  { intros k b Hn. apply apply_writes_notin. rewrite fmap_take, Hfst.
    intros (i & Hi & _)%elem_of_take. by apply Hn, list_elem_of_lookup_2 with i. }
  assert (start l ∉ bl) as Hns.
  { intros Hx. destruct (Hh _ Hx) as [_ ?]. pose proof (dl_size _ _ _ Hd). lia. }
  rewrite HR. destruct (decide (j ≤ length bl)%nat) as [Hj|Hj].
  - rewrite take_app_le by lia.
    assert (disk_log l (apply_writes d (take j HW)) bl) as Hd'.
    { destruct Hd. split; try done; by rewrite Hfr. }
    split; [done|]. intros b Hb. apply (recovered_agree l _ _ bl); try done.
    + intros i Hi. apply Hfr. intros Hx. destruct (Hh _ Hx) as [_ ?].
      pose proof (dl_size _ _ _ Hd). lia.
    + apply Hfr.
  - rewrite take_ge by (rewrite length_app; simpl; lia). rewrite apply_writes_app.
    set (d' := apply_writes (apply_writes d HW) _).
    assert (disk_log l d' []) as Hd'.
    { unfold LOGSIZE, MAXOPBLOCKS in *.
      assert (d' (start l) = hdr_put (d (start l)) []) as Hs by (unfold d'; simpl; by rewrite fn_lookup_insert).
      assert (hdr_get (d' (start l)) = []) as Hg.
      { rewrite Hs. apply hdr_get_put; [done|done|apply Forall_nil_2]. }
      destruct Hd. split; try done.
      - rewrite Hs. unfold hdr_put, le32. simpl. destruct Hok as [Hl0 _].
        unfold put32. rewrite field_put_eq by (unfold BSIZE in *; lia). done.
      - apply NoDup_nil_2.
      - simpl. lia. }
    split; [done|]. intros b Hb. destruct (recovered_home l d' [] b Hd' Hb) as [_ ->].
    + unfold recovered. by rewrite HR, apply_writes_app.
    + apply not_elem_of_nil.
Qed.

(** ** Reboot *)

(** [disk_log] depends on the in-memory log only through its geometry. *)
Lemma disk_log_geom l l' d bl :
  disk_log l d bl → ldev l' = ldev l → start l' = start l → lsize l' = lsize l →
  length (lh_block l') = length (lh_block l) → disk_log l' d bl.
Proof.
  intros [] E1 E2 E3 E4. split; try congruence.
  eapply Forall_impl; [done|]. intros b. unfold home. by rewrite E2, E3.
Qed.

Definition booted_log (l : log) : log :=
  Log (start l) (lsize l) 0 false dev 0 (replicate (Z.to_nat LOGSIZE) 0).

Lemma initlog_ok c0 sb l d bl :
  disk_log l d bl → sb_logstart sb = start l → sb_nlog sb = lsize l →
  cache_ok c0 (v_boot d) →
  ∃ c1 l1, initlog dev sb (Lst c0 log_bss) = Done tt (Lst c1 l1) ∧ log_ok l1 [] ∧
    start l1 = start l ∧ lsize l1 = lsize l ∧
    cache_ok c1 (v_run (recover_writes l d) [] (v_boot d)).
Proof.
  intros Hd Hs Hn Hc. pose proof (dl_size _ _ _ Hd). pose proof (dl_end _ _ _ Hd).
  pose proof (dl_start _ _ _ Hd).
  assert (i32 (start l) = start l ∧ i32 (lsize l) = lsize l) as [E1 E2].
  { unfold i32. rewrite !Z.mod_small by lia. lia. }
  assert (disk_log (booted_log l) d bl) as Hd'.
  { eapply disk_log_geom; [done|symmetry; apply (dl_dev _ _ _ Hd)|done|done|].
    symmetry. apply (dl_len _ _ _ Hd). }
  pose proof (recover_ok c0 (booted_log l) d bl Hc Hd') as Hw. apply wp_done in Hw.
  destruct Hw as ([] & s' & Hrun & c1 & l1 & -> & Hl1 & Hs1 & Hn1 & Hc1).
  exists c1, l1. split; [|done]. rewrite <-Hrun. unfold initlog, upd_log, modify, bind. simpl.
  rewrite Hs, Hn, E1, E2. done.
Qed.
End log.
