(* ===== verification/LogOps.v ===== *)
(** * Transactions of concurrent system calls

    begin_op, log_write and end_op as they interleave between processes:
    every admitted operation has room for its blocks in the log. *)

From S2P Require Import Prelude Block FsFormat Log LogSpec.

(** ** log_write *)

Lemma absorb_spec bl bn (i n : nat) :
  (i ≤ absorb bl bn i n ≤ i + n)%nat ∧
  (∀ j, (i ≤ j < absorb bl bn i n)%nat → u32 (bl !!! j) ≠ bn) ∧
  ((absorb bl bn i n < i + n)%nat → u32 (bl !!! absorb bl bn i n) = bn).
Proof.
  revert i. induction n as [|n IH]; intros i; simpl.
  - split; [lia|]. split; intros; lia.
  - destruct (Z.eqb_spec (u32 (bl !!! i)) bn) as [E|E].
    + split; [lia|]. split; intros; [lia|done].
    + destruct (IH (S i)) as (H1 & H2 & H3). split; [lia|]. split.
      * intros j Hj. destruct (decide (j = i)) as [->|]; [done|]. apply H2. lia.
      * intros Hlt. apply H3. lia.
Qed.

Section ops.
Context {St : Type} {dev : Z} `{!BufCache St dev}.
Implicit Types (c : St) (V : bview) (l : log) (s : lst St).

(** The list of logged blocks after [log_write] of block [bn]. *)
Definition add_block (bl : list Z) (bn : Z) : list Z :=
  if decide (bn ∈ bl) then bl else bl ++ [bn].

Lemma absorb_prefix l bl bn :
  log_ok (dev:=dev) l bl → home l bn →
  absorb (lh_block l) bn 0 (length bl) =
    match list_find (bn =.) bl with Some (i, _) => i | None => length bl end.
Proof.
  intros Hl Hh. destruct (absorb_spec (lh_block l) bn 0 (length bl)) as (H1 & H2 & H3).
  set (a := absorb _ _ _ _) in *.
  assert (∀ i b, bl !! i = Some b → u32 (lh_block l !!! i) = b) as Hlk.
  { intros i b Hb. by destruct (logged_lookup l bl i b Hl Hb). }
  destruct (list_find (bn =.) bl) as [[i x]|] eqn:E.
  - apply list_find_Some in E as (Hi & <- & Hmin). apply Hlk in Hi as Hi'.
    pose proof (lookup_lt_Some _ _ _ Hi).
    destruct (lt_eq_lt_dec a i) as [[Hlt|]|Hlt]; [|done|].
    + exfalso. destruct (lookup_lt_is_Some_2 bl a) as [y Hy]; [lia|].
      apply (Hmin a y Hy Hlt). rewrite <-(Hlk a y Hy). symmetry. apply H3. lia.
    + exfalso. apply (H2 i); [lia|done].
  - apply list_find_None in E. rewrite Forall_forall in E.
    destruct (decide (a = length bl)); [done|]. exfalso.
    destruct (lookup_lt_is_Some_2 bl a) as [y Hy]; [lia|].
    apply (E y); [by eapply list_elem_of_lookup_2|].
    rewrite <-(Hlk a y Hy). symmetry. apply H3. lia.
Qed.

Lemma log_write_ok c l V bl bn i :
  cache_ok c V → log_ok (dev:=dev) l bl → home l bn → v_held V bn = Some i → v_refs V bn < 2^31 →
  1 ≤ outstanding l → length bl < LOGSIZE → length bl < lsize l - 1 →
  ∃ c' l', log_write i (Lst c l) = Done tt (Lst c' l') ∧ log_ok (dev:=dev) l' (add_block bl bn) ∧
    l' = set_lh (lh_n l') (lh_block l') l ∧
    cache_ok c' (if decide (bn ∈ bl) then V else v_pin bn 1 V).
Proof.
  intros Hc Hl Hh Hi Hr Ho Hn Hsz. unfold log_write, bind at 1, get_log, gets. simpl.
  pose proof (lo_n _ _ Hl) as Hln. pose proof Hh as [Hb31 _].
  rewrite Hln, (proj2 (Z.leb_gt LOGSIZE (length bl))), (proj2 (Z.leb_gt (lsize l - 1) (length bl))) by lia.
  rewrite (proj2 (Z.ltb_ge (outstanding l) 1)) by lia. simpl.
  unfold bind at 1, on_cache at 1. simpl. rewrite (bblockno_ok c V bn i) by done.
  rewrite Nat2Z.id, (absorb_prefix l bl bn Hl Hh).
  assert (i32 bn = bn) as -> by (unfold i32; rewrite Z.mod_small; lia).
  pose proof (prefix_length _ _ (lo_pre _ _ Hl)) as Hpl. pose proof (lo_len _ _ Hl) as Hlen.
  unfold bind at 1, upd_log at 1, modify. simpl. unfold add_block.
  destruct (list_find (bn =.) bl) as [[k x]|] eqn:E.
  - apply list_find_Some in E as (Hk & <- & _). pose proof (lookup_lt_Some _ _ _ Hk).
    assert (bn ∈ bl) as Hin by (by eapply list_elem_of_lookup_2).
    rewrite (proj2 (Z.eqb_neq _ _)) by lia. rewrite !decide_True by done.
    eexists _, _. split; [done|]. split; [|done].
    rewrite list_insert_id by (by eapply prefix_lookup_Some; [|apply (lo_pre _ _ Hl)]).
    destruct Hl. by split.
  - apply list_find_None in E.
    assert (bn ∉ bl) as Hnin.
    { intros Hin. rewrite Forall_forall in E. by apply (E bn). }
    rewrite Z.eqb_refl, !decide_False by done. unfold bind, on_cache. simpl.
    destruct (bpin_ok c V bn i) as (c' & Hrun & Hc'); [done..|]. rewrite Hrun.
    eexists c', _. split; [done|]. split; [|done].
    pose proof (lo_pre _ _ Hl) as Hpre.
    destruct Hl. split; simpl; rewrite ?length_app; simpl; try done; try lia.
    + destruct Hpre as [r Hr']. rewrite Hr' in Hlen |- *. unfold LOGSIZE, MAXOPBLOCKS in *.
      rewrite length_app in Hlen. destruct r as [|y r]; [simpl in Hlen; lia|].
      exists r. rewrite insert_app_r_alt, Nat.sub_diag by lia. simpl. by rewrite <-app_assoc.
    + by rewrite length_insert.
    + apply NoDup_app. split; [done|]. split; [|apply NoDup_singleton].
      intros x Hx ->%list_elem_of_singleton. done.
    + apply Forall_app. by rewrite Forall_singleton.
Qed.

(** ** Operations that leave the log structure alone *)

Definition keeps_log {A} (m : M (lst St) A) : Prop :=
  ∀ s a s', m s = Done a s' → llog s' = llog s.

Lemma keeps_ret {A} (a : A) : keeps_log (ret a).
Proof. intros s ? s' [= <- <-]. done. Qed.
Lemma keeps_get {A} (f : log → A) : keeps_log (get_log f).
Proof. intros s ? s' [= <- <-]. done. Qed.
Lemma keeps_cache {A} (m : M St A) : keeps_log (on_cache m).
Proof. intros s a s'. unfold on_cache. destruct (m (lcache s)); intros; by simplify_eq. Qed.
Lemma keeps_bind {A B} (m : M (lst St) A) (k : A → M (lst St) B) :
  keeps_log m → (∀ a, keeps_log (k a)) → keeps_log (bind m k).
Proof.
  intros Hm Hk s b s' (a & s1 & H1 & H2)%bind_inv.
  by rewrite (Hk a s1 b s' H2), (Hm s a s1 H1).
Qed.
Lemma keeps_for_each {A} (xs : list A) (body : A → M (lst St) unit) :
  (∀ a, keeps_log (body a)) → keeps_log (for_each xs body).
Proof.
  intros Hb. induction xs as [|x xs IH]; [apply keeps_ret|]. by apply keeps_bind.
Qed.
#[local] Hint Resolve keeps_ret keeps_get keeps_cache keeps_bind keeps_for_each : xv6.
#[local] Ltac keeps := repeat (apply keeps_bind || apply keeps_cache || apply keeps_get ||
  apply keeps_for_each || apply keeps_ret || case_match || intros ?).

Lemma keeps_write_log : keeps_log write_log.
Proof. unfold write_log. keeps. Qed.
Lemma keeps_write_head : keeps_log write_head.
Proof. unfold write_head. keeps. Qed.
Lemma keeps_install b : keeps_log (install_trans b).
Proof. unfold install_trans. keeps. Qed.

Lemma commit_log s s' :
  0 ≤ lh_n (llog s) → commit s = Done tt s' → llog s' = set_lh 0 (lh_block (llog s)) (llog s).
Proof.
  intros Hn. unfold commit, bind at 1, get_log, gets.
  destruct (Z.ltb_spec 0 (lh_n (llog s))) as [Hlt|Hge].
  - intros ([] & s1 & H1 & H)%bind_inv. apply bind_inv in H as ([] & s2 & H2 & H).
    apply bind_inv in H as ([] & s3 & H3 & H). apply bind_inv in H as ([] & s4 & H4 & H5).
    apply keeps_write_log in H1. apply keeps_write_head in H2. apply keeps_install in H3.
    apply keeps_write_head in H5. injection H4 as <-. simpl in H5. congruence.
  - intros [= <-]. destruct s as [c l]. simpl in *. destruct l as [? ? ? ? ? n bl]. simpl in *.
    by replace n with 0 by lia.
Qed.

Lemma end_op_log s s' :
  0 ≤ lh_n (llog s) → end_op s = Done tt s' →
  committing (llog s) = false ∧
  llog s' = set_outstanding (outstanding (llog s) - 1)
    (if outstanding (llog s) - 1 =? 0
     then set_committing false (set_lh 0 (lh_block (llog s)) (llog s)) else llog s).
Proof.
  intros Hn. unfold end_op, bind at 1, upd_log at 1, modify, bind at 1, get_log, gets, id. simpl.
  destruct (committing (llog s)) eqn:Ec; [done|].
  destruct (outstanding (llog s) - 1 =? 0) eqn:Eo.
  - unfold bind at 1, upd_log at 1, modify. intros ([] & s1 & H1 & H2)%bind_inv.
    split; [done|]. apply commit_log in H1; [|done]. injection H2 as <-. simpl.
    rewrite H1. done.
  - intros [= <-]. done.
Qed.

(** ** Interleavings

    [ws] has one number per admitted operation: how many blocks it has added
    to the log. An operation adds at most [MAXOPBLOCKS] blocks; between these
    calls processes read and modify buffers. *)
Inductive op_step : lst St * list Z → lst St * list Z → Prop :=
| step_begin s s' ws :
    begin_op s = Done tt s' → op_step (s, ws) (s', ws ++ [0])
| step_write s s' b ws1 w ws2 :
    log_write b s = Done tt s' → w < MAXOPBLOCKS →
    op_step (s, ws1 ++ w :: ws2) (s', ws1 ++ (w + (lh_n (llog s') - lh_n (llog s))) :: ws2)
| step_end s s' ws1 w ws2 :
    end_op s = Done tt s' → op_step (s, ws1 ++ w :: ws2) (s', ws1 ++ ws2)
| step_buffers c c' l ws :
    op_step (Lst c l, ws) (Lst c' l, ws).

(** Room that the admitted operations may still need. *)
Definition reserved (ws : list Z) : Z := foldr (λ w r, MAXOPBLOCKS - w + r) 0 ws.

Definition room_inv (st : lst St * list Z) : Prop :=
  let l := llog st.1 in
  outstanding l = length st.2 ∧ committing l = false ∧ 0 ≤ lh_n l ∧
  Forall (λ w, 0 ≤ w ≤ MAXOPBLOCKS) st.2 ∧ lh_n l + reserved st.2 ≤ LOGSIZE.

Lemma reserved_app ws1 ws2 : reserved (ws1 ++ ws2) = reserved ws1 + reserved ws2.
Proof. unfold reserved. induction ws1 as [|w ws1 IH]; simpl; [lia|]. rewrite IH. lia. Qed.

Lemma reserved_range ws :
  Forall (λ w, 0 ≤ w ≤ MAXOPBLOCKS) ws → 0 ≤ reserved ws ≤ MAXOPBLOCKS * length ws.
Proof.
  unfold reserved, MAXOPBLOCKS. induction 1 as [|w ws Hw H IH]; simpl; lia.
Qed.

Lemma log_write_log b s s' :
  0 ≤ lh_n (llog s) → log_write b s = Done tt s' →
  ∃ n bl, llog s' = set_lh n bl (llog s) ∧ lh_n (llog s) ≤ n ≤ lh_n (llog s) + 1.
Proof.
  intros Hn. unfold log_write, bind at 1, get_log, gets, id.
  destruct (_ || _); [done|]. destruct (_ <? 1); [done|].
  intros (bn & s1 & H1 & H)%bind_inv. apply keeps_cache in H1.
  apply bind_inv in H as ([] & s2 & H2 & H). injection H2 as <-.
  case_match.
  - apply bind_inv in H as ([] & s3 & H3 & H4). apply keeps_cache in H3.
    injection H4 as <-. simpl in *. rewrite H3, H1.
    eexists _, _. split; [done|]. simpl. lia.
  - injection H as <-. simpl. rewrite H1. eexists _, _. split; [done|]. simpl. lia.
Qed.

Lemma room_step st st' : op_step st st' → room_inv st → room_inv st'.
Proof.
  unfold room_inv, LOGSIZE, MAXOPBLOCKS. intros [s s' ws Hb|s s' b ws1 w ws2 Hw Hlt|s s' ws1 w ws2 He|];
    intros (Ho & Hc & Hn & Hf & Hr); simpl in *; [| | |done].
  - unfold begin_op, bind, get_log, gets, id in Hb. rewrite Hc in Hb.
    destruct (Z.ltb_spec LOGSIZE (lh_n (llog s) + (outstanding (llog s) + 1) * MAXOPBLOCKS)) as [|Hle]; [done|].
    injection Hb as <-. simpl. unfold LOGSIZE, MAXOPBLOCKS in *.
    pose proof (reserved_range ws Hf) as Hrr. unfold MAXOPBLOCKS in Hrr.
    rewrite length_app, reserved_app. simpl. split_and!; [lia|done|done| |].
    + apply Forall_app. rewrite Forall_singleton. split; [done|]. unfold MAXOPBLOCKS. lia.
    + unfold MAXOPBLOCKS. lia.
  - apply log_write_log in Hw as (n & bl & -> & Hn'); [|done]. simpl.
    apply Forall_app in Hf as [Hf1 [Hw0 Hf2]%Forall_cons].
    rewrite reserved_app, length_app in *. simpl in *. unfold LOGSIZE, MAXOPBLOCKS in *.
    split_and!; [lia|done|lia| |lia].
    apply Forall_app. split; [done|]. apply Forall_cons. split; [lia|done].
  - apply end_op_log in He as [_ ->]; [|done].
    apply Forall_app in Hf as [Hf1 [Hw0 Hf2]%Forall_cons].
    rewrite reserved_app, length_app in *. simpl in *. unfold LOGSIZE, MAXOPBLOCKS in *.
    assert (Forall (λ w, 0 ≤ w ≤ 10) (ws1 ++ ws2)) by (by apply Forall_app).
    assert (ws1 ++ ws2 = [] ∨ 0 < length ws1 + length ws2) as Hcase.
    { destruct ws1; [destruct ws2; [by left|right; simpl; lia]|right; simpl; lia]. }
    destruct (Z.eqb_spec (outstanding (llog s) - 1) 0) as [E|E]; simpl.
    + assert (ws1 = [] ∧ ws2 = []) as [-> ->].
      { destruct ws1, ws2; simpl in *; try lia. done. }
      simpl. split_and!; [lia|done|lia|done|lia].
    + split_and!; [lia|done|lia|done|lia].
Qed.

(** The geometry of the log never changes. *)
Lemma size_step st st' : op_step st st' → 0 ≤ lh_n (llog st.1) → lsize (llog st'.1) = lsize (llog st.1).
Proof.
  intros [s s' ws Hb|s s' b ws1 w ws2 Hw Hlt|s s' ws1 w ws2 He|] Hn; simpl in *; [| | |done].
  - unfold begin_op, bind, get_log, gets, id in Hb.
    destruct (committing (llog s)); [done|]. case_match; [done|]. by injection Hb as <-.
  - by apply log_write_log in Hw as (n & bl & -> & _).
  - apply end_op_log in He as [_ ->]; [|done]. by case_match.
Qed.

Lemma room_steps st st' :
  rtc op_step st st' → room_inv st → room_inv st' ∧ lsize (llog st'.1) = lsize (llog st.1).
Proof.
  induction 1 as [|st1 st2 st3 Hs Hr IH]; intros Hi; [done|].
  apply room_step in Hs as Hi2; [|done]. destruct (IH Hi2) as [Hi3 E]. split; [done|].
  rewrite E. apply size_step; [done|]. apply Hi.
Qed.

Lemma room_left s ws w :
  room_inv (s, ws) → w ∈ ws → w < MAXOPBLOCKS →
  lh_n (llog s) < LOGSIZE ∧ 1 ≤ outstanding (llog s).
Proof.
  intros (Ho & _ & _ & Hf & Hr) Hin Hw. simpl in *.
  apply list_elem_of_split in Hin as (ws1 & ws2 & ->).
  apply Forall_app in Hf as [Hf1 [Hw0 Hf2]%Forall_cons].
  rewrite reserved_app in Hr. simpl in Hr. fold (reserved ws2) in Hr.
  pose proof (reserved_range ws1 Hf1). pose proof (reserved_range ws2 Hf2).
  rewrite length_app in Ho. simpl in Ho. lia.
Qed.
End ops.
