(* ===== verification/LogTheorems.v ===== *)
(** * Theorems about the log and the buffer cache

    Crash safety of commit and recovery, and the room that begin_op reserves.
    The theorems hold for every buffer cache that implements Block.v; the
    examples run on the one of Bio.v. *)

From S2P Require Import Prelude Block FsFormat Bio BioSpec BioTheorems Log LogSpec LogOps.

(** ** A small example: one modified block in the log *)

Definition ex_sb : superblock := Superblock FSMAGIC 2000 1954 200 30 2 32 45.
Definition ex_zero : Z → block := λ _, zero_block.
Definition ex_log : log := Log 2 30 1 false ex_dev 0 (replicate (Z.to_nat LOGSIZE) 0).
Definition ex_block : block := put32 zero_block 0 7.

#[local] Instance ex_cache : BufCache bst ex_dev := bio_cache ex_pid ex_dev.

Lemma ex_boot d :
  (∀ bn, block_ok (default zero_block (d !! bn))) →
  ∃ c, binit (Bst (replicate (S HEAD) inhabitant) d []) = Done tt c ∧
    cache_ok c (v_boot (λ bn, default zero_block (d !! bn))).
Proof. intros Hd. destruct (ex_boot_inv d Hd) as (c & ? & ? & _). by exists c. Qed.

Lemma ex_disk_log : disk_log (dev:=ex_dev) ex_log ex_zero [].
Proof. split; try done; try (vm_compute; reflexivity); try apply NoDup_nil_2. Qed.

(** Block 40 was read, modified, logged and released. *)
Definition ex_view : bview :=
  BView (<[40 := ex_block]> ex_zero) ex_zero (<[40 := 1]> (λ _, 0)) (λ _, None) 1 [].
Definition ex_log1 : log := set_lh 1 (<[0%nat := 40]> (lh_block ex_log)) ex_log.

Lemma ex_logged : ∃ c, cache_ok (dev:=ex_dev) c ex_view.
Proof.
  destruct (ex_boot ∅) as (c0 & _ & Hc0); [intros; apply zero_block_ok|].
  destruct (bread_ok (dev:=ex_dev) c0 _ 40 Hc0) as (i & c1 & _ & Hc1); [done|done|done|by right|].
  assert (block_ok ex_block) as Hok by (apply put_field_block; [apply zero_block_ok|done..]).
  destruct (set_bdata_ok (dev:=ex_dev) c1 _ 40 i ex_block Hc1) as (c2 & _ & Hc2);
    [simpl; by rewrite fn_lookup_insert|done|].
  destruct (bpin_ok (dev:=ex_dev) c2 _ 40 i Hc2) as (c3 & _ & Hc3);
    [simpl; by rewrite fn_lookup_insert..|].
  destruct (brelse_ok (dev:=ex_dev) c3 _ 40 i Hc3) as (c4 & _ & Hc4);
    [simpl; by rewrite fn_lookup_insert|simpl; by rewrite !fn_lookup_insert|].
  exists c4. eapply cache_ok_ext; [|exact Hc4]. unfold view_eq. simpl. split; [|split].
  - intros x. destruct (decide (x = 40)) as [->|]; fn_simp; split_and!; done.
  - fn_simp. done.
  - done.
Qed.

Lemma ex_log1_ok : log_ok (dev:=ex_dev) ex_log1 [40].
Proof.
  split; simpl.
  - reflexivity.
  - lia.
  - lia.
  - reflexivity.
  - exists (replicate 29 0). reflexivity.
  - reflexivity.
  - apply NoDup_singleton.
  - apply Forall_singleton. unfold home. simpl. lia.
  - lia.
Qed.

Lemma ex_quiet : quiet ex_log1 ex_view.
Proof.
  split; [done|]. intros bn Hbn. simpl in *. rewrite !fn_lookup_insert_ne by lia. done.
Qed.

(** ** Crash safety *)

(** C1. A commit is atomic under crashes. Running commit with logged blocks
    [bl] issues a sequence [ws] of block writes, clears the log and leaves
    the new contents of all home blocks on disk. Cut the sequence after any
    number [k] of writes, reboot, and initlog returns with a clean log and a
    disk whose home blocks all have their old contents when at most
    [length bl] writes were done, and all their new contents otherwise. *)
Theorem commit_crash_safe St dev `{!BufCache St dev} c l V bl sb :
  cache_ok c V → log_ok (dev:=dev) l bl → quiet l V → bl ≠ [] →
  (∀ b, b ∈ bl → v_refs V b = 1) → (∀ b, b ∉ bl → v_data V b = v_disk V b) →
  v_used V < NBUF → disk_log (dev:=dev) l (v_disk V) [] →
  sb_logstart sb = start l → sb_nlog sb = lsize l →
  ∃ c' V' ws,
    commit (Lst c l) = Done tt (Lst c' (set_lh 0 (lh_block l) l)) ∧
    cache_ok c' V' ∧ v_trace V' = v_trace V ++ ws ∧
    (∀ b, home l b → v_data V' b = v_data V b ∧ v_disk V' b = v_data V b) ∧
    ∀ (k : nat) c0, cache_ok c0 (v_boot (apply_writes (v_disk V) (take k ws))) →
      ∃ c1 l1 V1, initlog dev sb (Lst c0 log_bss) = Done tt (Lst c1 l1) ∧
        log_ok (dev:=dev) l1 [] ∧ cache_ok c1 V1 ∧
        ∀ b, home l b → v_disk V1 b = if decide (k ≤ length bl)%nat then v_disk V b else v_data V b.
Proof.
  intros Hc Hl Hq Hne Hpin Hout Hu Hclear Hs1 Hs2.
  pose proof (commit_ok c l V bl Hc Hl Hq Hpin Hu Hne) as Hw. apply wp_done in Hw.
  destruct Hw as ([] & s' & Hrun & c' & -> & Hc').
  exists c', (v_run (commit_writes l V bl) bl V), (commit_writes l V bl).
  split; [done|]. split; [done|]. split; [done|]. split.
  - intros b Hb. exact (commit_home l V bl Hl Hout b Hb).
  - intros k c0 Hc0. pose proof (crash_header c l V bl Hc Hl Hclear k) as Hd.
    destruct (initlog_ok c0 sb l _ _ Hd Hs1 Hs2 Hc0) as (c1 & l1 & Hrun1 & Hl1 & _ & _ & Hc1).
    eexists c1, l1, _. split; [done|]. split; [done|]. split; [exact Hc1|].
    intros b Hb. apply (crash_home c l V bl Hc Hl Hclear Hout k b Hb).
Qed.

Lemma commit_crash_safe_witness :
  ∃ c c' V' ws,
    commit (Lst c ex_log1) = Done tt (Lst c' (set_lh 0 (lh_block ex_log1) ex_log1)) ∧
    cache_ok c' V' ∧ v_trace V' = ws ∧ v_disk V' 40 = ex_block ∧
    ∀ (k : nat) c0, cache_ok c0 (v_boot (apply_writes ex_zero (take k ws))) →
      ∃ c1 l1 V1, initlog ex_dev ex_sb (Lst c0 log_bss) = Done tt (Lst c1 l1) ∧
        cache_ok c1 V1 ∧ v_disk V1 40 = if decide (k ≤ 1)%nat then zero_block else ex_block.
Proof.
  destruct ex_logged as [c Hc].
  assert (disk_log (dev:=ex_dev) ex_log1 (v_disk ex_view) []) as Hd.
  { eapply disk_log_geom; [apply ex_disk_log|reflexivity..]. }
  assert (home ex_log1 40) as Hh by (unfold home; simpl; lia).
  destruct (commit_crash_safe bst ex_dev c ex_log1 ex_view [40] ex_sb Hc ex_log1_ok ex_quiet)
    as (c' & V' & ws & Hrun & Hc' & Ht & Hnew & Hcrash); [done| | |done|done|done|done|].
  { intros b ->%list_elem_of_singleton. simpl. by rewrite fn_lookup_insert. }
  { intros b Hb. simpl. rewrite fn_lookup_insert_ne; [done|]. intros E. apply Hb.
    rewrite <-E. by apply list_elem_of_singleton. }
  exists c, c', V', ws. split; [exact Hrun|]. split; [exact Hc'|]. split; [exact Ht|]. split.
  { destruct (Hnew 40 Hh) as [_ ->]. simpl. by rewrite fn_lookup_insert. }
  intros k c0 Hc0. destruct (Hcrash k c0 Hc0) as (c1 & l1 & V1 & Hrun1 & _ & Hc1 & Hdk).
  exists c1, l1, V1. split; [exact Hrun1|]. split; [exact Hc1|].
  rewrite (Hdk 40 Hh). simpl. case_decide; [done|]. by rewrite fn_lookup_insert.
Defined.

(** What a disk with the logged blocks [bl] stands for: block [i] of the log
    is the contents of the [i]th logged block, the others are where they are. *)
Definition installed (l : log) (d : Z → block) (bl : list Z) (b : Z) : block :=
  match list_find (b =.) bl with
  | Some (i, _) => d (start l + i + 1)
  | None => d b
  end.

Lemma recovered_installed {dev} l d bl b :
  disk_log (dev:=dev) l d bl → home l b → recovered l d b = installed l d bl b.
Proof.
  intros Hd Hb. destruct (recovered_home l d bl b Hd Hb) as [H1 H2]. unfold installed.
  destruct (list_find (b =.) bl) as [[i x]|] eqn:E.
  - apply list_find_Some in E as (Hi & <- & _). by apply H1.
  - apply H2. intros Hin. rewrite list_find_None, Forall_forall in E. by apply (E b).
Qed.

(** From a reboot with the disk [d], initlog returns with a clean log and the
    home blocks [res]; and so it does, [n] times over, when it is interrupted
    after any number of the writes it issues. *)
Fixpoint recovers {St dev} `{!BufCache St dev} (sb : superblock) (l : log) (res : Z → block) (n : nat)
    (d : Z → block) : Prop :=
  ∀ c, cache_ok c (v_boot d) →
  ∃ c1 l1 V1, initlog dev sb (Lst c log_bss) = Done tt (Lst c1 l1) ∧ log_ok (dev:=dev) l1 [] ∧
    cache_ok c1 V1 ∧ (∀ b, v_disk V1 b = apply_writes d (v_trace V1) b) ∧
    (∀ b, home l b → v_disk V1 b = res b) ∧
    match n with
    | O => True
    | S n => ∀ j : nat, recovers sb l res n (apply_writes d (take j (v_trace V1)))
    end.

(** C22. Recovery can be interrupted, again and again. From any disk with a
    well-formed log, initlog returns with a clean log and installs the logged
    blocks. If it is interrupted after any number of the writes that this run
    issues, a reboot recovers the same home blocks from the disk that is left,
    and if that recovery is interrupted, so does the next, any number [n] of
    times. *)
Theorem recovery_idempotent St dev `{!BufCache St dev} l d bl sb (n : nat) :
  disk_log (dev:=dev) l d bl → sb_logstart sb = start l → sb_nlog sb = lsize l →
  recovers sb l (installed l d bl) n d.
Proof.
  intros Hd Hs1 Hs2.
  assert (∀ b, home l b → recovered l d b = installed l d bl b) as Hres by (intros; by eapply recovered_installed).
  revert Hd Hres. generalize (installed l d bl) as res. revert d bl. induction n as [|n IH]; intros d bl res Hd Hres c Hc;
    destruct (initlog_ok c sb l d bl Hd Hs1 Hs2 Hc) as (c1 & l1 & Hrun & Hl1 & _ & _ & Hc1);
    eexists c1, l1, _; (split_and!; [done|done|exact Hc1|done|exact Hres|]); [done|].
  intros j. cbn [v_run v_trace v_boot app].
  assert (block_ok (d (start l))) as Hok by apply (cache_ok_blocks c (v_boot d) (start l) Hc).
  destruct (recover_prefix l d bl j Hd Hok) as [Hd' Hrec]. eapply IH; [exact Hd'|].
  intros b Hb. rewrite Hrec by done. by apply Hres.
Qed.

(** A disk on which a commit of block 40 has just written the header. *)
Definition ex_committed : gmap Z block :=
  <[2 := hdr_put zero_block [40]]> (<[3 := ex_block]> ∅).
Definition ex_committed_disk : Z → block := λ bn, default zero_block (ex_committed !! bn).

Lemma ex_committed_log : disk_log (dev:=ex_dev) ex_log ex_committed_disk [40].
Proof.
  split; try reflexivity.
  - simpl. lia.
  - apply NoDup_singleton.
  - apply Forall_singleton. unfold home. simpl. lia.
  - unfold LOGSIZE, MAXOPBLOCKS. simpl. lia.
Qed.

(** What a run writes to the disk. *)
Definition writes_of {A} (o : outcome (lst bst) A) : list (Z * block) :=
  match o with
  | Done _ s => btrace (lcache s)
  | _ => []
  end.

Lemma ex_recovery_writes c :
  binit (Bst (replicate (S HEAD) inhabitant) ex_committed []) = Done tt c →
  writes_of (initlog ex_dev ex_sb (Lst c log_bss)) = [(40, ex_block); (2, hdr_put (hdr_put zero_block [40]) [])].
Proof. intros H. vm_compute in H. injection H as <-. vm_compute. reflexivity. Qed.

Lemma ex_committed_blocks m : (∀ bn x, m !! bn = Some x → block_ok x) → ∀ bn, block_ok (default zero_block ((m ∪ ex_committed) !! bn)).
Proof.
  assert (block_ok (hdr_put zero_block [40])) as Hok1.
  { unfold hdr_put. apply put_list_block; [|done|done]. apply put_field_block; [apply zero_block_ok|done..]. }
  assert (block_ok ex_block) as Hok2 by (apply put_field_block; [apply zero_block_ok|done..]).
  intros Hm bn. rewrite lookup_union. destruct (m !! bn) as [x|] eqn:E; [rewrite union_Some_l; by eapply Hm|].
  rewrite (left_id None _). unfold ex_committed.
  destruct (decide (bn = 2)) as [->|]; [by rewrite lookup_insert_eq|]. rewrite lookup_insert_ne by done.
  destruct (decide (bn = 3)) as [->|]; [by rewrite lookup_insert_eq|]. rewrite lookup_insert_ne by done. apply zero_block_ok.
Qed.

(** Recovery is interrupted after its first write, of block 40 to its home;
    the second recovery finds the header and does it again. *)
Lemma recovery_idempotent_witness :
  ∃ c V1 c2 c3 l3 V3,
    binit (Bst (replicate (S HEAD) inhabitant) ex_committed []) = Done tt c ∧
    v_trace V1 = [(40, ex_block); (2, hdr_put (hdr_put zero_block [40]) [])] ∧
    cache_ok c2 (v_boot (apply_writes ex_committed_disk (take 1 (v_trace V1)))) ∧
    initlog ex_dev ex_sb (Lst c2 log_bss) = Done tt (Lst c3 l3) ∧ cache_ok c3 V3 ∧ v_disk V3 40 = ex_block.
Proof.
  pose proof (recovery_idempotent bst ex_dev ex_log ex_committed_disk [40] ex_sb 1 ex_committed_log eq_refl eq_refl) as H.
  destruct (ex_boot ex_committed) as (c & Hb & Hc).
  { intros bn. rewrite <-(map_empty_union ex_committed). apply ex_committed_blocks. intros ? ? E. by rewrite lookup_empty in E. }
  destruct (H c Hc) as (c1 & l1 & V1 & Hrun & _ & Hc1 & _ & _ & Hj). exists c, V1.
  pose proof (ex_recovery_writes c Hb) as Hw. rewrite Hrun in Hw. cbn [writes_of lcache] in Hw.
  assert (v_trace V1 = [(40, ex_block); (2, hdr_put (hdr_put zero_block [40]) [])]) as Ht by (rewrite <-Hw; symmetry; apply (ci_trace _ _ _ _ Hc1)).
  destruct (ex_boot ({[40 := ex_block]} ∪ ex_committed)) as (c2 & _ & Hc2).
  { apply ex_committed_blocks. intros bn x [_ <-]%lookup_singleton_Some. apply put_field_block; [apply zero_block_ok|done..]. }
  assert (cache_ok (dev:=ex_dev) c2 (v_boot (apply_writes ex_committed_disk (take 1 (v_trace V1))))) as Hc2'.
  { eapply cache_ok_ext; [|exact Hc2]. rewrite Ht. unfold v_boot, view_eq. cbn [v_data v_disk v_refs v_held v_used v_trace].
    split; [|done]. intros bn.
    assert (default zero_block (({[40 := ex_block]} ∪ ex_committed) !! bn) = apply_writes ex_committed_disk [(40, ex_block)] bn) as E; [|by split_and!].
    unfold apply_writes. cbn [foldl fst snd]. rewrite <-insert_union_singleton_l.
    destruct (decide (bn = 40)) as [->|]; [by rewrite lookup_insert_eq, fn_lookup_insert|].
    by rewrite lookup_insert_ne, fn_lookup_insert_ne. }
  destruct (Hj 1%nat c2 Hc2') as (c3 & l3 & V3 & Hrun3 & _ & Hc3 & _ & Hb3 & _). exists c2, c3, l3, V3.
  split; [exact Hb|]. split; [exact Ht|]. split; [exact Hc2'|]. split; [exact Hrun3|]. split; [exact Hc3|].
  rewrite Hb3; [|unfold home; simpl; lia]. unfold installed. reflexivity.
Defined.

(** ** Room in the log *)

(** C23. In every interleaving of file-system operations in which each admitted
    operation adds at most MAXOPBLOCKS blocks to the log, log_write by an
    operation that has not used up its share finds room and returns, provided
    the log has at least LOGSIZE blocks besides its header. *)
Theorem begin_op_reserves_room St dev `{!BufCache St dev} s0 s ws w V bl bn i :
  rtc op_step (s0, []) (s, ws) →
  outstanding (llog s0) = 0 → committing (llog s0) = false → lh_n (llog s0) = 0 →
  LOGSIZE < lsize (llog s0) → w ∈ ws → w < MAXOPBLOCKS →
  cache_ok (lcache s) V → log_ok (dev:=dev) (llog s) bl → home (llog s) bn →
  v_held V bn = Some i → v_refs V bn < 2^31 →
  ∃ s', log_write i s = Done tt s' ∧ log_ok (dev:=dev) (llog s') (add_block bl bn).
Proof.
  intros Hsteps Ho Hcm Hn Hsz Hin Hw Hc Hl Hh Hi Hr.
  destruct (room_steps _ _ Hsteps) as [Hroom Hsize].
  { split_and!; simpl; try done; [lia|]. rewrite Hn. done. }
  destruct (room_left s ws w Hroom Hin Hw) as [Hlt Ho1]. simpl in Hsize.
  destruct s as [c l]. simpl in *. rewrite (lo_n _ _ Hl) in Hlt.
  destruct (log_write_ok c l V bl bn i) as (c' & l' & Hrun & Hl' & _); [done..|lia|].
  by exists (Lst c' l').
Qed.

Lemma begin_op_reserves_room_witness :
  ∃ c i s', log_write i (Lst c (Log 2 31 1 false ex_dev 0 (lh_block ex_log))) = Done tt s' ∧
    log_ok (dev:=ex_dev) (llog s') (add_block [] 40).
Proof.
  destruct (ex_boot ∅) as (c0 & _ & Hc0); [intros; apply zero_block_ok|].
  destruct (bread_ok (dev:=ex_dev) c0 _ 40 Hc0) as (i & c1 & _ & Hc1); [done|done|done|by right|].
  exists c1, i.
  eapply (begin_op_reserves_room bst ex_dev (Lst c1 (Log 2 31 0 false ex_dev 0 (lh_block ex_log)))
    _ [0] 0 _ [] 40 i); 
    [|reflexivity|reflexivity|reflexivity|reflexivity|apply list_elem_of_here|reflexivity
     |exact Hc1| | | |].
  - apply rtc_once. apply (step_begin _ _ []). reflexivity.
  - split; simpl; try reflexivity; try lia; [apply prefix_nil|apply NoDup_nil_2|apply Forall_nil_2].
  - unfold home. simpl. lia.
  - simpl. by rewrite fn_lookup_insert.
  - simpl. by rewrite fn_lookup_insert.
Defined.

(** mkfs makes a log of LOGSIZE blocks including the header
    (mkfs/mkfs.c:25), one less than begin_op counts on: three operations are
    admitted, but the thirtieth block they log panics. *)
Definition ex_log_block (bn : Z) : M (lst bst) unit :=
  let* b := on_cache (Block.bread (BufCache:=ex_cache) ex_dev bn) in
  log_write (BufCache0:=ex_cache) b ;;;
  on_cache (Block.brelse (BufCache:=ex_cache) b).

Example three_operations_overflow_log :
  (begin_op ;;; begin_op ;;; begin_op ;;;
   for_each (seqZ 100 30) ex_log_block)
    (Lst (match binit ex_bss with Done _ c => c | _ => ex_bss end)
       (set_outstanding 0 ex_log)) = Panic "too big a transaction".
Proof. vm_compute. reflexivity. Qed.
