(* ===== verification/Txn.v ===== *)
(** * What the log promises to the file system

    Inside a transaction the file system reads, modifies, logs and releases
    blocks. [TxnLayer] states what it relies on; the log over a buffer cache
    implements it. *)

From S2P Require Import Prelude Block FsFormat Log LogSpec LogOps.

(** A transaction as the file system sees it. *)
Record tview := TView {
  t_data : Z → block;        (* current contents of every block *)
  t_held : gmap Z nat;       (* blocks this process has locked, and their buffers *)
  t_pend : gset Z;           (* held blocks modified but not logged yet *)
  t_logged : gset Z;         (* blocks in the log *)
  t_in : bool                (* between begin_op and end_op *)
}.

Definition t_get (bn : Z) (i : nat) (T : tview) : tview :=
  TView (t_data T) (<[bn := i]> (t_held T)) (t_pend T) (t_logged T) (t_in T).
Definition t_put (bn : Z) (T : tview) : tview :=
  TView (t_data T) (delete bn (t_held T)) (t_pend T) (t_logged T) (t_in T).
Definition t_set (bn : Z) (d : block) (T : tview) : tview :=
  TView (<[bn := d]> (t_data T)) (t_held T) ({[bn]} ∪ t_pend T) (t_logged T) (t_in T).
Definition t_log (bn : Z) (T : tview) : tview :=
  TView (t_data T) (t_held T) (t_pend T ∖ {[bn]}) ({[bn]} ∪ t_logged T) (t_in T).

Class TxnLayer (St : Type) (dev : Z) := {
  tread : Z → Z → M St nat;
  tlog_write : nat → M St unit;
  trelse : nat → M St unit;
  tdata : nat → M St block;
  set_tdata : nat → block → M St unit;

  (** Blocks the file system may log: those outside the log itself. *)
  fs_block : Z → Prop;
  (** How many blocks a transaction can log. *)
  log_cap : Z;
  txn_ok : St → tview → Prop;

  txn_blocks s T bn : txn_ok s T → block_ok (t_data T bn);
  tread_ok s T bn :
    txn_ok s T → 0 ≤ bn < 2^32 → t_held T !! bn = None →
    size (t_logged T) + size (t_held T) < NBUF →
    ∃ i s', tread dev bn s = Done i s' ∧ txn_ok s' (t_get bn i T);
  tdata_ok s T bn i :
    txn_ok s T → t_held T !! bn = Some i → tdata i s = Done (t_data T bn) s;
  set_tdata_ok s T bn i d :
    txn_ok s T → t_held T !! bn = Some i → block_ok d →
    ∃ s', set_tdata i d s = Done tt s' ∧ txn_ok s' (t_set bn d T);
  tlog_write_ok s T bn i :
    txn_ok s T → t_held T !! bn = Some i → fs_block bn → t_in T = true →
    size (t_logged T) < log_cap →
    ∃ s', tlog_write i s = Done tt s' ∧ txn_ok s' (t_log bn T);
  trelse_ok s T bn i :
    txn_ok s T → t_held T !! bn = Some i → bn ∉ t_pend T →
    ∃ s', trelse i s = Done tt s' ∧ txn_ok s' (t_put bn T);
}.

(** ** The log implements it *)

Section txn.
Context {St : Type} {dev : Z} `{!BufCache St dev}.
(** The place of the log on disk, from the super block. *)
Variables logstart nlog : Z.

Definition in_log (bl : list Z) (bn : Z) : Z := if decide (bn ∈ bl) then 1 else 0.
Definition is_held (T : tview) (bn : Z) : Z := if decide (is_Some (t_held T !! bn)) then 1 else 0.

Record txn_inv (s : lst St) (T : tview) (V : bview) (bl : list Z) : Prop := {
  ti_cache : cache_ok (lcache s) V;
  ti_log : log_ok (dev:=dev) (llog s) bl;
  ti_geom : start (llog s) = logstart ∧ lsize (llog s) = nlog;
  ti_open : t_in T = true → 1 ≤ outstanding (llog s);
  ti_logged : t_logged T = list_to_set bl;
  ti_data bn : v_data V bn = t_data T bn;
  ti_held bn : v_held V bn = t_held T !! bn;
  ti_refs bn : v_refs V bn = in_log bl bn + is_held T bn;
  ti_pend bn : bn ∈ t_pend T → is_Some (t_held T !! bn);
  ti_clean bn : bn ∉ bl → bn ∉ t_pend T → v_data V bn = v_disk V bn;
  ti_used : v_used V = Z.of_nat (size (t_logged T ∪ dom (t_held T)))
}.

Definition txn_ok_log (s : lst St) (T : tview) : Prop := ∃ V bl, txn_inv s T V bl.

Lemma size_add_one (X Y : gset Z) x :
  x ∉ X ∪ Y → size (X ∪ ({[x]} ∪ Y)) = S (size (X ∪ Y)).
Proof.
  intros H. replace (X ∪ ({[x]} ∪ Y)) with ({[x]} ∪ (X ∪ Y)) by set_solver.
  rewrite size_union by set_solver. by rewrite size_singleton.
Qed.

Lemma in_log_range bl bn : 0 ≤ in_log bl bn ≤ 1.
Proof. unfold in_log. case_decide; lia. Qed.
Lemma is_held_range T bn : 0 ≤ is_held T bn ≤ 1.
Proof. unfold is_held. case_decide; lia. Qed.

Lemma elem_logged s T V bl bn : txn_inv s T V bl → bn ∈ t_logged T ↔ bn ∈ bl.
Proof. intros H. rewrite (ti_logged _ _ _ _ H). apply elem_of_list_to_set. Qed.

Lemma txn_read_ok s T bn :
  txn_ok_log s T → 0 ≤ bn < 2^32 → t_held T !! bn = None →
  (size (t_logged T) + size (t_held T) < NBUF)%Z →
  ∃ i s', on_cache (bread dev bn) s = Done i s' ∧ txn_ok_log s' (t_get bn i T).
Proof.
  intros (V & bl & H) Hbn Hh Hsz. destruct s as [c l].
  assert (is_held T bn = 0) as Hih.
  { unfold is_held. rewrite decide_False; [done|]. rewrite Hh. by intros [? ?]. }
  pose proof (in_log_range bl bn).
  assert (size (t_logged T ∪ dom (t_held T)) < NBUF) as Hlt.
  { rewrite <-size_dom in Hsz.
    pose proof (size_union_alt (t_logged T) (dom (t_held T))) as E.
    assert (size (dom (t_held T) ∖ t_logged T) ≤ size (dom (t_held T)))%nat
      by (apply subseteq_size; set_solver). lia. }
  destruct (bread_ok c V bn) as (i & c' & Hrun & Hc').
  - apply (ti_cache _ _ _ _ H).
  - done.
  - by rewrite (ti_held _ _ _ _ H).
  - rewrite (ti_refs _ _ _ _ H). lia.
  - right. by rewrite (ti_used _ _ _ _ H).
  - exists i, (Lst c' l). split; [unfold on_cache; simpl; by rewrite Hrun|].
    exists (v_get bn i V), bl. destruct H. split; simpl in *; try done.
    + intros x. destruct (decide (x = bn)) as [->|Hne].
      * by rewrite fn_lookup_insert, lookup_insert_eq.
      * by rewrite fn_lookup_insert_ne, lookup_insert_ne by done.
    + intros x. unfold is_held. simpl. destruct (decide (x = bn)) as [->|Hne].
      * rewrite fn_lookup_insert, lookup_insert_eq, ti_refs0, Hih, decide_True by done. lia.
      * rewrite fn_lookup_insert_ne, lookup_insert_ne by done. apply ti_refs0.
    + intros x Hx%ti_pend0. destruct (decide (x = bn)) as [->|Hne].
      * by rewrite lookup_insert_eq.
      * by rewrite lookup_insert_ne.
    + rewrite ti_refs0, Hih, ti_used0. unfold in_log. rewrite dom_insert_L.
      assert (bn ∉ dom (t_held T)) as Hnd by (by apply not_elem_of_dom).
      case_decide as Hin; simpl.
      * assert (bn ∈ t_logged T) as Hl by (rewrite ti_logged0; by apply elem_of_list_to_set).
        do 2 f_equal. clear -Hl. set_solver.
      * assert (bn ∉ t_logged T) as Hl by (rewrite ti_logged0; by rewrite elem_of_list_to_set).
        rewrite size_add_one; [lia|]. clear -Hl Hnd. set_solver.
Qed.

Lemma txn_data_ok s T bn i :
  txn_ok_log s T → t_held T !! bn = Some i → on_cache (bdata i) s = Done (t_data T bn) s.
Proof.
  intros (V & bl & H) Hh. unfold on_cache. destruct s as [c l]. simpl.
  rewrite (bdata_ok c V bn i); [by rewrite (ti_data _ _ _ _ H)|apply (ti_cache _ _ _ _ H)|].
  by rewrite (ti_held _ _ _ _ H).
Qed.

Lemma txn_set_ok s T bn i d :
  txn_ok_log s T → t_held T !! bn = Some i → block_ok d →
  ∃ s', on_cache (set_bdata i d) s = Done tt s' ∧ txn_ok_log s' (t_set bn d T).
Proof.
  intros (V & bl & H) Hh Hd. destruct s as [c l].
  destruct (set_bdata_ok c V bn i d) as (c' & Hrun & Hc').
  - apply (ti_cache _ _ _ _ H).
  - by rewrite (ti_held _ _ _ _ H).
  - done.
  - exists (Lst c' l). split; [unfold on_cache; simpl; by rewrite Hrun|].
    exists (v_set bn d V), bl. destruct H. split; simpl in *; try done.
    + intros x. destruct (decide (x = bn)) as [->|Hne]; fn_simp; done.
    + intros x [->%elem_of_singleton|Hx]%elem_of_union; [by rewrite Hh|by apply ti_pend0].
    + intros x Hx [Hne Hp]%not_elem_of_union. rewrite not_elem_of_singleton in Hne.
      rewrite fn_lookup_insert_ne by done. by apply ti_clean0.
Qed.

Lemma txn_log_ok s T bn i :
  txn_ok_log s T → t_held T !! bn = Some i →
  0 ≤ bn < 2^31 ∧ (bn < logstart ∨ logstart + nlog ≤ bn) →
  t_in T = true → (size (t_logged T) < Z.min LOGSIZE (nlog - 1))%Z →
  ∃ s', log_write i s = Done tt s' ∧ txn_ok_log s' (t_log bn T).
Proof.
  intros (V & bl & H) Hh Hhome Hin Hsz. destruct s as [c l]. pose proof (ti_geom _ _ _ _ H) as [G1 G2].
  simpl in G1, G2. pose proof (ti_log _ _ _ _ H) as Hl. simpl in Hl.
  assert (size (t_logged T) = length bl) as Hsize.
  { rewrite (ti_logged _ _ _ _ H). apply size_list_to_set, (lo_nodup _ _ Hl). }
  assert (v_refs V bn = in_log bl bn + 1) as Hr.
  { rewrite (ti_refs _ _ _ _ H). unfold is_held. rewrite Hh, decide_True by done. done. }
  pose proof (in_log_range bl bn).
  destruct (log_write_ok c l V bl bn i) as (c' & l' & Hrun & Hl' & El & Hc').
  - apply (ti_cache _ _ _ _ H).
  - done.
  - unfold home. by rewrite G1, G2.
  - by rewrite (ti_held _ _ _ _ H).
  - lia.
  - by apply (ti_open _ _ _ _ H).
  - lia.
  - lia.
  - exists (Lst c' l'). split; [done|].
    assert (start l' = start l ∧ lsize l' = lsize l ∧ outstanding l' = outstanding l) as (E1 & E2 & E3)
      by (by rewrite El).
    exists (if decide (bn ∈ bl) then V else v_pin bn 1 V), (add_block bl bn).
    unfold add_block in *. destruct H. simpl in *.
    assert (bn ∈ dom (t_held T)) as Hdom by (by apply elem_of_dom).
    assert (∀ x, x ∈ (if decide (bn ∈ bl) then bl else bl ++ [bn]) ↔ x = bn ∨ x ∈ bl) as Hmem.
    { intros x. case_decide; [naive_solver|]. rewrite elem_of_app, list_elem_of_singleton. tauto. }
    split; simpl; try done.
    + rewrite E1, E2. done.
    + by rewrite E3.
    + rewrite ti_logged0. clear -Hmem. set_solver.
    + case_decide; apply ti_data0.
    + case_decide; apply ti_held0.
    + intros x. case_decide as Hd.
      * rewrite ti_refs0. done.
      * simpl. destruct (decide (x = bn)) as [->|Hne].
        -- rewrite fn_lookup_insert, Hr. unfold in_log, is_held. simpl.
           rewrite Hh, (decide_False (P := bn ∈ bl)) by done.
           rewrite !decide_True; [lia|done|]. apply elem_of_app. right. by apply list_elem_of_singleton.
        -- rewrite fn_lookup_insert_ne by done. rewrite ti_refs0. unfold in_log, is_held. simpl. f_equal.
           assert (x ∈ bl ++ [bn] ↔ x ∈ bl) by (rewrite elem_of_app, list_elem_of_singleton; tauto).
           repeat case_decide; tauto.
    + intros x [Hx _]%elem_of_difference. by apply ti_pend0.
    + intros x Hx Hp. assert (x ≠ bn ∧ x ∉ bl) as [Hne Hnb].
      { split; intros E; apply Hx, Hmem; [by left|by right]. }
      assert (x ∉ t_pend T) by (clear -Hp Hne; set_solver).
      case_decide; simpl; by apply ti_clean0.
    + transitivity (v_used V); [by case_decide|]. rewrite ti_used0. do 2 f_equal.
      clear -Hdom. set_solver.
Qed.

Lemma txn_put_ok s T bn i :
  txn_ok_log s T → t_held T !! bn = Some i → bn ∉ t_pend T →
  ∃ s', on_cache (brelse i) s = Done tt s' ∧ txn_ok_log s' (t_put bn T).
Proof.
  intros (V & bl & H) Hh Hp. destruct s as [c l].
  assert (v_refs V bn = in_log bl bn + 1) as Hr.
  { rewrite (ti_refs _ _ _ _ H). unfold is_held. rewrite Hh, decide_True by done. done. }
  destruct (brelse_ok c V bn i) as (c' & Hrun & Hc').
  - apply (ti_cache _ _ _ _ H).
  - by rewrite (ti_held _ _ _ _ H).
  - intros E. rewrite Hr in E. apply (ti_clean _ _ _ _ H); [|done].
    unfold in_log in E. case_decide; [lia|done].
  - exists (Lst c' l). split; [unfold on_cache; simpl; by rewrite Hrun|].
    exists (v_put bn V), bl. destruct H. split; simpl in *; try done.
    + intros x. destruct (decide (x = bn)) as [->|Hne].
      * by rewrite fn_lookup_insert, lookup_delete_eq.
      * by rewrite fn_lookup_insert_ne, lookup_delete_ne by done.
    + intros x. unfold is_held. simpl. destruct (decide (x = bn)) as [->|Hne].
      * rewrite fn_lookup_insert, lookup_delete_eq, Hr, decide_False; [lia|]. by intros [? ?].
      * rewrite fn_lookup_insert_ne, lookup_delete_ne by done. apply ti_refs0.
    + intros x Hx. rewrite lookup_delete_ne; [by apply ti_pend0|]. by intros ->.
    + rewrite Hr, ti_used0, dom_delete_L.
      assert (bn ∈ dom (t_held T)) as Hdom by (by apply elem_of_dom).
      unfold in_log. case_decide as Hin; simpl.
      * assert (bn ∈ t_logged T) as Hl by (rewrite ti_logged0; by apply elem_of_list_to_set).
        do 2 f_equal. clear -Hl. apply leibniz_equiv, set_equiv. intros x.
        destruct (decide (x = bn)); set_solver.
      * assert (bn ∉ t_logged T) as Hl by (rewrite ti_logged0; by rewrite elem_of_list_to_set).
        assert (t_logged T ∪ dom (t_held T) = t_logged T ∪ ({[bn]} ∪ dom (t_held T) ∖ {[bn]})) as ->.
        { clear -Hdom. apply leibniz_equiv, set_equiv. intros x. destruct (decide (x = bn)); set_solver. }
        rewrite size_add_one; [lia|]. clear -Hl. set_solver.
Qed.

#[global, refine] Instance log_txn : TxnLayer (lst St) dev := {|
  tread := λ d bn, on_cache (bread d bn);
  tlog_write := log_write;
  trelse := λ i, on_cache (brelse i);
  tdata := λ i, on_cache (bdata i);
  set_tdata := λ i d, on_cache (set_bdata i d);
  fs_block := λ bn, 0 ≤ bn < 2^31 ∧ (bn < logstart ∨ logstart + nlog ≤ bn);
  log_cap := Z.min LOGSIZE (nlog - 1);
  txn_ok := txn_ok_log
|}.
Proof.
  - intros s T bn (V & bl & H). rewrite <-(ti_data _ _ _ _ H).
    apply (cache_ok_blocks (lcache s) V), (ti_cache _ _ _ _ H).
  - apply txn_read_ok.
  - apply txn_data_ok.
  - apply txn_set_ok.
  - apply txn_log_ok.
  - apply txn_put_ok.
Defined.
End txn.
