(* ===== verification/Fs.v ===== *)
(** * The file system, kernel/fs.c

    Over any transaction layer that implements Txn.v. An inode pointer is an
    index into [itable]; [None] is NULL. Kernel memory ([fk]) holds the path
    names, the local [struct dirent] variables and, while bytes are copied to
    or from it, the data of a buffer at its address. [printf] of a diagnostic
    is not part of these definitions. *)

From S2P Require Import Prelude Riscv Mem Kalloc Vm Block FsFormat Txn.

(** ** Constants and layout, kernel/fs.h, param.h and stat.h *)

Definition ROOTDEV : Z := 1.
Definition ROOTINO : Z := 1.
Definition NINODE : Z := 50.
Definition NDIRECT : Z := 12.
Definition NINDIRECT : Z := BSIZE `div` 4.
Definition MAXFILE : Z := NDIRECT + NINDIRECT.
Definition SIZEOF_DINODE : Z := 64.
Definition IPB : Z := BSIZE `div` SIZEOF_DINODE.
Definition IBLOCK (i : Z) (sb : superblock) : Z := u32 (i `div` IPB + sb_inodestart sb).
Definition BPB : Z := BSIZE * 8.
Definition BBLOCK (b : Z) (sb : superblock) : Z := u32 (b `div` BPB + sb_bmapstart sb).
Definition DIRSIZ : Z := 14.
Definition SIZEOF_DIRENT : Z := 16.
Definition T_DIR : Z := 1.
Definition T_FILE : Z := 2.
Definition T_DEVICE : Z := 3.
Definition MAXPATH : Z := 128.

(** [struct dinode]: type, major, minor, nlink, size, addrs. *)
Record dinode := Dinode {
  d_type : Z; d_major : Z; d_minor : Z; d_nlink : Z; d_size : Z; d_addrs : list Z
}.

(** The inode at index [k] of an inode block. *)
Definition get_dinode (d : block) (k : Z) : dinode :=
  let o := k * SIZEOF_DINODE in
  Dinode (i16 (le16 d o)) (i16 (le16 d (o + 2))) (i16 (le16 d (o + 4))) (i16 (le16 d (o + 6)))
    (le32 d (o + 8)) ((λ j, le32 d (o + 12 + 4 * j)) <$> seqZ 0 (NDIRECT + 1)).

Definition put_dinode (d : block) (k : Z) (di : dinode) : block :=
  let o := k * SIZEOF_DINODE in
  let d := put16 d o (d_type di) in
  let d := put16 d (o + 2) (d_major di) in
  let d := put16 d (o + 4) (d_minor di) in
  let d := put16 d (o + 6) (d_nlink di) in
  let d := put32 d (o + 8) (d_size di) in
  put_list d (o + 12) (d_addrs di).

(** [struct inode]; [i_locked] and [i_lpid] are its sleep lock. *)
Record inode := Inode {
  i_dev : Z; i_inum : Z; i_ref : Z;
  i_locked : bool; i_lpid : Z;
  i_valid : bool;
  i_di : dinode    (* type, major, minor, nlink, size, addrs: copy of the disk inode *)
}.
#[global] Instance dinode_inhabited : Inhabited dinode :=
  populate (Dinode 0 0 0 0 0 (replicate (Z.to_nat (NDIRECT + 1)) 0)).
#[global] Instance inode_inhabited : Inhabited inode :=
  populate (Inode 0 0 0 false 0 false inhabitant).

Definition set_ref (n : Z) (ip : inode) : inode :=
  Inode (i_dev ip) (i_inum ip) n (i_locked ip) (i_lpid ip) (i_valid ip) (i_di ip).
Definition set_ilock (l : bool) (p : Z) (ip : inode) : inode :=
  Inode (i_dev ip) (i_inum ip) (i_ref ip) l p (i_valid ip) (i_di ip).
Definition set_ivalid (v : bool) (ip : inode) : inode :=
  Inode (i_dev ip) (i_inum ip) (i_ref ip) (i_locked ip) (i_lpid ip) v (i_di ip).
Definition set_di (di : dinode) (ip : inode) : inode :=
  Inode (i_dev ip) (i_inum ip) (i_ref ip) (i_locked ip) (i_lpid ip) (i_valid ip) di.
Definition set_type (t : Z) (di : dinode) : dinode :=
  Dinode t (d_major di) (d_minor di) (d_nlink di) (d_size di) (d_addrs di).
Definition set_nlink (n : Z) (di : dinode) : dinode :=
  Dinode (d_type di) (d_major di) (d_minor di) n (d_size di) (d_addrs di).
Definition set_size (n : Z) (di : dinode) : dinode :=
  Dinode (d_type di) (d_major di) (d_minor di) (d_nlink di) n (d_addrs di).
Definition set_addr (j a : Z) (di : dinode) : dinode :=
  Dinode (d_type di) (d_major di) (d_minor di) (d_nlink di) (d_size di)
    (<[Z.to_nat j := a]> (d_addrs di)).

Section fs.
Context {St : Type} {dev : Z} `{!TxnLayer St dev}.
(** [myproc()]: its pid, page table and current directory; the addresses of
    the buffers' data and of a local [struct dirent]. *)
Variables (pid pgtbl : Z) (cwd : nat) (bufaddr : nat → Z) (de : Z).

Record fst := Fst { ftx : St; itable : list inode; fsb : superblock; fk : kmem }.

Definition on_tx {A} (m : M St A) : M fst A := λ s,
  match m (ftx s) with
  | Done a t => Done a (Fst t (itable s) (fsb s) (fk s))
  | Panic msg => Panic msg
  | Sleep ch t => Sleep ch (Fst t (itable s) (fsb s) (fk s))
  | OutOfFuel => OutOfFuel
  end.
Definition on_k {A} (m : M kmem A) : M fst A := λ s,
  match m (fk s) with
  | Done a k => Done a (Fst (ftx s) (itable s) (fsb s) k)
  | Panic msg => Panic msg
  | Sleep ch k => Sleep ch (Fst (ftx s) (itable s) (fsb s) k)
  | OutOfFuel => OutOfFuel
  end.

Definition bread (d bn : Z) : M fst nat := on_tx (tread d bn).
Definition log_write (b : nat) : M fst unit := on_tx (tlog_write b).
Definition brelse (b : nat) : M fst unit := on_tx (trelse b).
Definition bdata (b : nat) : M fst block := on_tx (tdata b).
Definition set_bdata (b : nat) (d : block) : M fst unit := on_tx (set_tdata b d).
Definition get_sb {A} (f : superblock → A) : M fst A := gets (λ s, f (fsb s)).
Definition geti (ip : nat) : M fst inode := gets (λ s, itable s !!! ip).
Definition updi (ip : nat) (f : inode → inode) : M fst unit :=
  modify (λ s, Fst (ftx s) (alter f ip (itable s)) (fsb s) (fk s)).
Definition ldmem {A} (f : mem → A) : M fst A := gets (λ s, f (km_mem (fk s))).
Definition stmem (f : mem → mem) : M fst unit :=
  modify (λ s, Fst (ftx s) (itable s) (fsb s) (upd_mem f (fk s))).

(** ** Blocks *)

Definition readsb (d : Z) : M fst unit :=
  let* bp := bread d 1 in
  let* dt := bdata bp in
  modify (λ s, Fst (ftx s) (itable s) (superblock_of dt) (fk s)) ;;;
  brelse bp.

Definition bzero (d bno : Z) : M fst unit :=
  let* bp := bread d bno in
  set_bdata bp zero_block ;;;
  log_write bp ;;;
  brelse bp.

(** [bp->data[bi/8] & (1 << (bi % 8))] *)
Definition bit_set (dt : block) (bi : Z) : bool :=
  negb (Z.land (dt !!! Z.to_nat (bi `div` 8)) (Z.shiftl 1 (bi `mod` 8)) =? 0).
Definition mark_bit (dt : block) (bi : Z) : block :=
  <[Z.to_nat (bi `div` 8) := u8 (Z.lor (dt !!! Z.to_nat (bi `div` 8)) (Z.shiftl 1 (bi `mod` 8)))]> dt.
Definition clear_bit (dt : block) (bi : Z) : block :=
  <[Z.to_nat (bi `div` 8) := u8 (Z.land (dt !!! Z.to_nat (bi `div` 8)) (Z.lnot (Z.shiftl 1 (bi `mod` 8))))]> dt.

(** [for(bi = 0; bi < BPB && b + bi < sb.size; bi++)]: the first clear bit. *)
Fixpoint scan_bits (dt : block) (b size bi : Z) (fuel : nat) : option Z :=
  match fuel with
  | O => None
  | S fuel =>
      if (bi <? BPB) && (b + bi <? size) then
        if bit_set dt bi then scan_bits dt b size (bi + 1) fuel else Some bi
      else None
  end.

Definition balloc (d : Z) : M fst Z :=
  let* size := get_sb sb_size in
  loop (S (Z.to_nat (size `div` BPB + 1)))
    (λ b,
      if b <? size then
        let* sb := get_sb id in
        let* bp := bread d (BBLOCK b sb) in
        let* dt := bdata bp in
        match scan_bits dt b size 0 (S (Z.to_nat BPB)) with
        | Some bi =>
            set_bdata bp (mark_bit dt bi) ;;;
            log_write bp ;;;
            brelse bp ;;;
            bzero d (b + bi) ;;;
            ret (inr (b + bi))
        | None =>
            brelse bp ;;;
            ret (inl (b + BPB))
        end
      else ret (inr 0))
    0.

Definition bfree (d b : Z) : M fst unit :=
  let* sb := get_sb id in
  let* bp := bread d (BBLOCK b sb) in
  let bi := b `mod` BPB in
  let* dt := bdata bp in
  if negb (bit_set dt bi) then panic "freeing free block"
  else
    set_bdata bp (clear_bit dt bi) ;;;
    log_write bp ;;;
    brelse bp.

(** ** Inodes *)

Definition initsleeplock (ip : nat) : M fst unit := updi ip (set_ilock false 0).

Definition iinit : M fst unit :=
  for_each (seq 0 (Z.to_nat NINODE)) initsleeplock.

Definition acquiresleep (ip : nat) : M fst unit :=
  let* x := geti ip in
  if i_locked x then sleep_on (Z.of_nat ip) else updi ip (set_ilock true pid).
Definition releasesleep (ip : nat) : M fst unit := updi ip (set_ilock false 0).
Definition holdingsleep (ip : nat) : M fst bool :=
  let* x := geti ip in ret (i_locked x && (i_lpid x =? pid)).

(** The loop of iget over the table: the entry of the inode if there is one,
    and the first empty entry before it. *)
Fixpoint iget_scan (t : list inode) (d inum : Z) (i : nat) (empty : option nat) :
    option nat * option nat :=
  match t with
  | [] => (None, empty)
  | ip :: t =>
      if (0 <? i_ref ip) && (i_dev ip =? d) && (i_inum ip =? inum) then (Some i, empty)
      else iget_scan t d inum (S i)
             (match empty with
              | None => if i_ref ip =? 0 then Some i else None
              | Some e => Some e
              end)
  end.

Definition iget (d inum : Z) : M fst nat :=
  let* t := gets itable in
  match iget_scan t d inum 0 None with
  | (Some ip, _) =>
      updi ip (λ x, set_ref (i32 (i_ref x + 1)) x) ;;;
      ret ip
  | (None, None) => panic "iget: no inodes"
  | (None, Some ip) =>
      updi ip (λ x, Inode d inum 1 (i_locked x) (i_lpid x) false (i_di x)) ;;;
      ret ip
  end.

Definition idup (ip : nat) : M fst nat :=
  updi ip (λ x, set_ref (i32 (i_ref x + 1)) x) ;;;
  ret ip.

Definition ialloc (d type : Z) : M fst (option nat) :=
  let* n := get_sb sb_ninodes in
  loop (S (Z.to_nat n))
    (λ inum,
      if inum <? n then
        let* sb := get_sb id in
        let* bp := bread d (IBLOCK inum sb) in
        let* dt := bdata bp in
        if d_type (get_dinode dt (inum `mod` IPB)) =? 0 then
          set_bdata bp (put_dinode dt (inum `mod` IPB)
            (Dinode type 0 0 0 0 (replicate (Z.to_nat (NDIRECT + 1)) 0))) ;;;
          log_write bp ;;;
          brelse bp ;;;
          let* ip := iget d inum in
          ret (inr (Some ip))
        else
          brelse bp ;;;
          ret (inl (inum + 1))
      else ret (inr None))
    1.

Definition iupdate (ip : nat) : M fst unit :=
  let* x := geti ip in
  let* sb := get_sb id in
  let* bp := bread (i_dev x) (IBLOCK (i_inum x) sb) in
  let* dt := bdata bp in
  set_bdata bp (put_dinode dt (i_inum x `mod` IPB) (i_di x)) ;;;
  log_write bp ;;;
  brelse bp.

Definition ilock (ip : option nat) : M fst unit :=
  match ip with
  | None => panic "ilock"
  | Some ip =>
      let* x := geti ip in
      if i_ref x <? 1 then panic "ilock"
      else
        acquiresleep ip ;;;
        let* x := geti ip in
        if i_valid x then ret tt
        else
          let* sb := get_sb id in
          let* bp := bread (i_dev x) (IBLOCK (i_inum x) sb) in
          let* dt := bdata bp in
          updi ip (set_di (get_dinode dt (i_inum x `mod` IPB))) ;;;
          brelse bp ;;;
          updi ip (set_ivalid true) ;;;
          let* x := geti ip in
          if d_type (i_di x) =? 0 then panic "ilock: no type" else ret tt
  end.

Definition iunlock (ip : option nat) : M fst unit :=
  match ip with
  | None => panic "iunlock"
  | Some ip =>
      let* h := holdingsleep ip in
      let* x := geti ip in
      if negb h || (i_ref x <? 1) then panic "iunlock"
      else releasesleep ip
  end.

(** ** Contents *)

Definition bmap (ip : nat) (bn : Z) : M fst Z :=
  let* x := geti ip in
  if bn <? NDIRECT then
    let addr := d_addrs (i_di x) !!! Z.to_nat bn in
    if addr =? 0 then
      let* addr := balloc (i_dev x) in
      if addr =? 0 then ret 0
      else
        updi ip (λ x, set_di (set_addr bn addr (i_di x)) x) ;;;
        ret addr
    else ret addr
  else
    let bn := bn - NDIRECT in
    if bn <? NINDIRECT then
      let addr := d_addrs (i_di x) !!! Z.to_nat NDIRECT in
      let* addr :=
        (if addr =? 0 then
           let* addr := balloc (i_dev x) in
           if addr =? 0 then ret 0
           else
             updi ip (λ x, set_di (set_addr NDIRECT addr (i_di x)) x) ;;;
             ret addr
         else ret addr) in
      if addr =? 0 then ret 0
      else
        let* bp := bread (i_dev x) addr in
        let* dt := bdata bp in
        let addr := le32 dt (4 * bn) in
        let* addr :=
          (if addr =? 0 then
             let* addr := balloc (i_dev x) in
             (if negb (addr =? 0) then
                let* dt := bdata bp in
                set_bdata bp (put32 dt (4 * bn) addr) ;;;
                log_write bp
              else ret tt) ;;;
             ret addr
           else ret addr) in
        brelse bp ;;;
        ret addr
    else panic "bmap: out of range".

Definition itrunc (ip : nat) : M fst unit :=
  for_each (seqZ 0 NDIRECT) (λ i,
    let* x := geti ip in
    let a := d_addrs (i_di x) !!! Z.to_nat i in
    if negb (a =? 0) then
      bfree (i_dev x) a ;;;
      updi ip (λ x, set_di (set_addr i 0 (i_di x)) x)
    else ret tt) ;;;
  let* x := geti ip in
  let a := d_addrs (i_di x) !!! Z.to_nat NDIRECT in
  (if negb (a =? 0) then
     let* bp := bread (i_dev x) a in
     let* dt := bdata bp in
     for_each (seqZ 0 NINDIRECT) (λ j,
       if negb (le32 dt (4 * j) =? 0) then bfree (i_dev x) (le32 dt (4 * j)) else ret tt) ;;;
     brelse bp ;;;
     bfree (i_dev x) a ;;;
     updi ip (λ x, set_di (set_addr NDIRECT 0 (i_di x)) x)
   else ret tt) ;;;
  updi ip (λ x, set_di (set_size 0 (i_di x)) x) ;;;
  iupdate ip.

(** The part of iput that frees an inode without links. acquiresleep is called
    with itable.lock held; the rest runs without it. *)
Definition iput_free (ip : nat) : M fst unit :=
  acquiresleep ip ;;;
  itrunc ip ;;;
  updi ip (λ x, set_di (set_type 0 (i_di x)) x) ;;;
  iupdate ip ;;;
  updi ip (set_ivalid false) ;;;
  releasesleep ip.

(** [ip->ref--], under itable.lock again. *)
Definition iput_drop (ip : nat) : M fst unit := updi ip (λ x, set_ref (i32 (i_ref x - 1)) x).

Definition iput (ip : nat) : M fst unit :=
  let* x := geti ip in
  (if (i_ref x =? 1) && i_valid x && (d_nlink (i_di x) =? 0) then iput_free ip else ret tt) ;;;
  iput_drop ip.

Definition iunlockput (ip : nat) : M fst unit :=
  iunlock (Some ip) ;;;
  iput ip.

(** ** Reading and writing, with kernel/proc.c's either_copyout and
    either_copyin on the data of a buffer *)

(** The buffer's bytes [off, off + len) appear at their address in memory. *)
Definition sync_buf (b : nat) (off len : Z) : M fst unit :=
  let* dt := bdata b in
  stmem (λ m, store_bytes m (bufaddr b + off) (take (Z.to_nat len) (drop (Z.to_nat off) dt))).

Definition either_copyout (user_dst : bool) (dst : Z) (b : nat) (off len : Z) : M fst Z :=
  sync_buf b off len ;;;
  if user_dst then on_k (copyout pgtbl dst (bufaddr b + off) len)
  else
    stmem (λ m, memmove m dst (bufaddr b + off) len) ;;;
    ret 0.

Definition either_copyin (b : nat) (off : Z) (user_src : bool) (src len : Z) : M fst Z :=
  sync_buf b off len ;;;
  let* r :=
    (if user_src then on_k (copyin pgtbl (bufaddr b + off) src len)
     else
       stmem (λ m, memmove m (bufaddr b + off) src len) ;;;
       ret 0) in
  let* bs := ldmem (λ m, load_bytes m (bufaddr b + off) len) in
  let* dt := bdata b in
  set_bdata b (put_bytes dt off bs) ;;;
  ret r.

Record stat := Stat { st_dev : Z; st_ino : Z; st_type : Z; st_nlink : Z; st_size : Z }.

Definition stati (ip : nat) : M fst stat :=
  let* x := geti ip in
  ret (Stat (i32 (i_dev x)) (i_inum x) (d_type (i_di x)) (d_nlink (i_di x)) (d_size (i_di x))).

(** The bound on iterations: one per block touched, and one to leave. *)
Definition rw_fuel (n : Z) : nat := S (S (S (Z.to_nat (n `div` BSIZE)))).

Definition readi (ip : nat) (user_dst : bool) (dst off n : Z) : M fst Z :=
  let* x := geti ip in
  let size := d_size (i_di x) in
  if (size <? off) || (u32 (off + n) <? off) then ret 0
  else
    let n := if size <? u32 (off + n) then size - off else n in
    loop (rw_fuel n)
      (λ '(tot, off, dst),
        if tot <? n then
          let* addr := bmap ip (off `div` BSIZE) in
          if addr =? 0 then ret (inr (i32 tot))
          else
            let* bp := bread (i_dev x) addr in
            let m := Z.min (n - tot) (BSIZE - off `mod` BSIZE) in
            let* r := either_copyout user_dst dst bp (off `mod` BSIZE) m in
            if r =? -1 then
              brelse bp ;;;
              ret (inr (-1))
            else
              brelse bp ;;;
              ret (inl (tot + m, u32 (off + m), u64 (dst + m)))
        else ret (inr (i32 tot)))
      (0, off, dst).

Definition writei (ip : nat) (user_src : bool) (src off n : Z) : M fst Z :=
  let* x := geti ip in
  if (d_size (i_di x) <? off) || (u32 (off + n) <? off) then ret (-1)
  else if MAXFILE * BSIZE <? u32 (off + n) then ret (-1)
  else
    let* q :=
      loop (rw_fuel n)
        (λ '(tot, off, src),
          if tot <? n then
            let* addr := bmap ip (off `div` BSIZE) in
            if addr =? 0 then ret (inr (tot, off))
            else
              let* bp := bread (i_dev x) addr in
              let m := Z.min (n - tot) (BSIZE - off `mod` BSIZE) in
              let* r := either_copyin bp (off `mod` BSIZE) user_src src m in
              if r =? -1 then
                brelse bp ;;;
                ret (inr (tot, off))
              else
                log_write bp ;;;
                brelse bp ;;;
                ret (inl (tot + m, u32 (off + m), u64 (src + m)))
          else ret (inr (tot, off)))
        (0, off, src) in
    let '(tot, off) := q in
    let* x := geti ip in
    (if d_size (i_di x) <? off then updi ip (λ x, set_di (set_size off (i_di x)) x) else ret tt) ;;;
    iupdate ip ;;;
    ret (i32 tot).

(** ** Directories *)

Definition namecmp (m : mem) (s t : Z) : Z := strncmp m s t DIRSIZ.

(** The fields of the local [struct dirent] at [de]. *)
Definition de_inum (m : mem) : Z := load8 m de + 2^8 * load8 m (de + 1).
Definition set_de_inum (v : Z) (m : mem) : mem := store8 (store8 m de v) (de + 1) (Z.shiftr v 8).
Definition de_name : Z := de + 2.

(** The inode and [*poff], when the name is there. *)
Definition dirlookup (dp : nat) (name : Z) : M fst (option (nat * Z)) :=
  let* x := geti dp in
  if negb (d_type (i_di x) =? T_DIR) then panic "dirlookup not DIR"
  else
    loop (S (S (Z.to_nat (d_size (i_di x) `div` SIZEOF_DIRENT))))
      (λ off,
        let* x := geti dp in
        if off <? d_size (i_di x) then
          let* r := readi dp false de off SIZEOF_DIRENT in
          if negb (r =? SIZEOF_DIRENT) then panic "dirlookup read"
          else
            let* inum := ldmem de_inum in
            if inum =? 0 then ret (inl (u32 (off + SIZEOF_DIRENT)))
            else
              let* c := ldmem (λ m, namecmp m name de_name) in
              if c =? 0 then
                let* ip := iget (i_dev x) inum in
                ret (inr (Some (ip, off)))
              else ret (inl (u32 (off + SIZEOF_DIRENT)))
        else ret (inr None))
      0.

Definition dirlink (dp : nat) (name inum : Z) : M fst Z :=
  let* r := dirlookup dp name in
  match r with
  | Some (ip, _) =>
      iput ip ;;;
      ret (-1)
  | None =>
      let* x := geti dp in
      let* off :=
        loop (S (S (Z.to_nat (d_size (i_di x) `div` SIZEOF_DIRENT))))
          (λ off,
            let* x := geti dp in
            if off <? d_size (i_di x) then
              let* r := readi dp false de off SIZEOF_DIRENT in
              if negb (r =? SIZEOF_DIRENT) then panic "dirlink read"
              else
                let* i := ldmem de_inum in
                if i =? 0 then ret (inr off) else ret (inl (off + SIZEOF_DIRENT))
            else ret (inr off))
          0 in
      stmem (λ m, strncpy m de_name name DIRSIZ) ;;;
      stmem (set_de_inum inum) ;;;
      let* r := writei dp false de off SIZEOF_DIRENT in
      if negb (r =? SIZEOF_DIRENT) then ret (-1) else ret 0
  end.

(** ** Paths

    A path is read from memory at most [fuel] bytes at a time; every path in
    the kernel is a string of less than MAXPATH bytes. *)

Definition SLASH : Z := 47.

(** [while( *path == '/') path++;] *)
Fixpoint skip_slashes (m : mem) (path : Z) (fuel : nat) : option Z :=
  match fuel with
  | O => None
  | S f => if load8 m path =? SLASH then skip_slashes m (path + 1) f else Some path
  end.
(** [while( *path != '/' && *path != 0) path++;] *)
Fixpoint skip_name (m : mem) (path : Z) (fuel : nat) : option Z :=
  match fuel with
  | O => None
  | S f =>
      if negb (load8 m path =? SLASH) && negb (load8 m path =? 0) then skip_name m (path + 1) f
      else Some path
  end.

(** [Some None] is a NULL result; the memory is the one after [name] is set. *)
Definition skipelem_mem (fuel : nat) (m : mem) (path name : Z) : option (option Z * mem) :=
  s ← skip_slashes m path fuel;
  if load8 m s =? 0 then Some (None, m)
  else
    e ← skip_name m s fuel;
    let len := e - s in
    let m := if DIRSIZ <=? len then memmove m name s DIRSIZ
             else store8 (memmove m name s len) (name + len) 0 in
    p ← skip_slashes m e fuel;
    Some (Some p, m).

Definition skipelem (fuel : nat) (path name : Z) : M fst (option Z) :=
  let* m := ldmem id in
  match skipelem_mem fuel m path name with
  | None => λ _, OutOfFuel
  | Some (r, m) =>
      stmem (λ _, m) ;;;
      ret r
  end.

Definition path_fuel : nat := Z.to_nat MAXPATH.

Definition namex (path : Z) (nameiparent : bool) (name : Z) : M fst (option nat) :=
  let* c := ldmem (λ m, load8 m path) in
  let* ip := (if c =? SLASH then iget ROOTDEV ROOTINO else idup cwd) in
  loop path_fuel
    (λ '(ip, path),
      let* r := skipelem path_fuel path name in
      match r with
      | Some path =>
          ilock (Some ip) ;;;
          let* x := geti ip in
          if negb (d_type (i_di x) =? T_DIR) then
            iunlockput ip ;;;
            ret (inr None)
          else
            let* c := ldmem (λ m, load8 m path) in
            if nameiparent && (c =? 0) then
              iunlock (Some ip) ;;;
              ret (inr (Some ip))
            else
              let* next := dirlookup ip name in
              match next with
              | None =>
                  iunlockput ip ;;;
                  ret (inr None)
              | Some (next, _) =>
                  iunlockput ip ;;;
                  ret (inl (next, path))
              end
      | None =>
          if nameiparent then
            iput ip ;;;
            ret (inr None)
          else ret (inr (Some ip))
      end)
    (ip, path).

(** [name]: the local array of namei. *)
Definition namei (path name : Z) : M fst (option nat) := namex path false name.
Definition nameiparent (path name : Z) : M fst (option nat) := namex path true name.
End fs.
