(* ===== verification/FsBlocks.v ===== *)
(** * Correctness of the block allocator of kernel/fs.c

    Rules for the file system's use of blocks inside a transaction, the
    geometry of the disk, and what balloc and bfree do to the free bit map. *)

From S2P Require Import Prelude Riscv Mem Kalloc Vm Block FsFormat Txn Fs.

(** ** Bits of a bit map block *)

Lemma land_pow2 x k : 0 ≤ k → negb (Z.land x (Z.shiftl 1 k) =? 0) = Z.testbit x k.
Proof.
  intros Hk. rewrite Z.shiftl_1_l. destruct (Z.testbit x k) eqn:E.
  - apply negb_true_iff, Z.eqb_neq. intros H.
    assert (Z.testbit (Z.land x (2^k)) k = false) as H' by (rewrite H; apply Z.bits_0).
    by rewrite Z.land_spec, E, Z.pow2_bits_true in H' by done.
  - apply negb_false_iff, Z.eqb_eq, Z.bits_inj_0. intros n.
    rewrite Z.land_spec, Z.pow2_bits_eqb by done.
    destruct (Z.eqb_spec k n) as [->|]; [by rewrite E|by rewrite andb_false_r].
Qed.

Lemma bit_set_testbit dt bi :
  bit_set dt bi = Z.testbit (dt !!! Z.to_nat (bi `div` 8)) (bi `mod` 8).
Proof. unfold bit_set. apply land_pow2. apply Z.mod_pos_bound. lia. Qed.

Lemma testbit_u8 x k : 0 ≤ k < 8 → Z.testbit (u8 x) k = Z.testbit x k.
Proof. intros Hk. unfold u8. rewrite Z.mod_pow2_bits_low; [done|lia]. Qed.

Lemma bit_index bi : 0 ≤ bi < BPB → (Z.to_nat (bi `div` 8) < Z.to_nat BSIZE)%nat.
Proof. unfold BPB. intros H. pose proof (Z.div_lt_upper_bound bi 8 BSIZE). lia. Qed.

Lemma same_bit bi bj : 0 ≤ bi → 0 ≤ bj → bi `div` 8 = bj `div` 8 → bi `mod` 8 = bj `mod` 8 → bi = bj.
Proof. intros _ _ H1 H2. pose proof (Z.div_mod bi 8). pose proof (Z.div_mod bj 8). lia. Qed.

Section bits.
Context (dt : block) (bi bj : Z) (Hdt : block_ok dt) (Hi : 0 ≤ bi < BPB) (Hj : 0 ≤ bj < BPB).

Lemma bit_set_insert v :
  bit_set (<[Z.to_nat (bi `div` 8) := u8 v]> dt) bj =
    if decide (bi `div` 8 = bj `div` 8) then Z.testbit v (bj `mod` 8) else bit_set dt bj.
Proof.
  rewrite !bit_set_testbit. pose proof (bit_index bi Hi). destruct Hdt as [Hl _]. unfold block in *.
  pose proof (Z.mod_pos_bound bj 8). pose proof (Z.div_pos bi 8). pose proof (Z.div_pos bj 8).
  case_decide as E.
  - rewrite <-E, list_lookup_total_insert_eq by lia. rewrite testbit_u8 by lia. done.
  - rewrite list_lookup_total_insert_ne by lia. done.
Qed.

Lemma bit_mark : bit_set (mark_bit dt bi) bj = bool_decide (bi = bj) || bit_set dt bj.
Proof.
  unfold mark_bit. rewrite bit_set_insert. pose proof (Z.mod_pos_bound bi 8). pose proof (Z.mod_pos_bound bj 8).
  case_decide as E.
  - rewrite Z.lor_spec, Z.shiftl_1_l, Z.pow2_bits_eqb, bit_set_testbit, E, orb_comm by lia. f_equal.
    apply eq_bool_prop_intro. rewrite bool_decide_spec, Is_true_true, Z.eqb_eq. split; [|by intros ->].
    intros. apply same_bit; lia || done.
  - rewrite bool_decide_eq_false_2; [done|]. by intros ->.
Qed.

Lemma bit_clear : bit_set (clear_bit dt bi) bj = negb (bool_decide (bi = bj)) && bit_set dt bj.
Proof.
  unfold clear_bit. rewrite bit_set_insert. pose proof (Z.mod_pos_bound bi 8). pose proof (Z.mod_pos_bound bj 8).
  case_decide as E.
  - rewrite Z.land_spec, Z.lnot_spec, Z.shiftl_1_l, Z.pow2_bits_eqb, bit_set_testbit, E, andb_comm by lia.
    do 2 f_equal.
    apply eq_bool_prop_intro. rewrite bool_decide_spec, Is_true_true, Z.eqb_eq. split; [|by intros ->].
    intros. apply same_bit; lia || done.
  - rewrite bool_decide_eq_false_2; [done|]. by intros ->.
Qed.
End bits.

Lemma insert_block dt j v : block_ok dt → block_ok (<[j := u8 v]> dt).
Proof.
  unfold block in *. intros [Hl Hb]. split; [by rewrite length_insert|]. apply Forall_insert; [done|]. apply u8_range.
Qed.

(** ** Transactions *)

(** Block [bn] now has contents [d] and is in the log. *)
Definition t_upd (bn : Z) (d : block) (T : tview) : tview :=
  TView (<[bn := d]> (t_data T)) (t_held T) (t_pend T) ({[bn]} ∪ t_logged T) (t_in T).

Section rules.
Context {St : Type} {dev : Z} `{!TxnLayer St dev}.
Implicit Types (t : St) (T : tview) (tbl : list inode) (sb : superblock) (k : kmem).

(** There is room to log [n] more blocks while holding [h] more buffers. *)
Definition budget (n h : Z) (T : tview) : Prop :=
  (0 < n → t_in T = true) ∧
  size (t_logged T) + n ≤ log_cap ∧ size (t_logged T) + n + size (t_held T) + h ≤ NBUF.

(** Nobody in this process is in the middle of changing block [bn]. *)
Definition idle (T : tview) (bn : Z) : Prop := t_held T !! bn = None ∧ (bn ∉ t_pend T).

Lemma budget_mono n h n' h' T : budget n h T → n' ≤ n → n' + h' ≤ n + h → budget n' h' T.
Proof. unfold budget. intros (Hin & ? & ?) ??. split; [intros; apply Hin; lia|lia]. Qed.

Lemma budget_get n h bn i T :
  t_held T !! bn = None → budget n (h + 1) T → budget n h (t_get bn i T).
Proof. intros Hh. unfold budget, t_get. simpl. rewrite map_size_insert_None by done.
  intros (Hin & ? & ?). split; [done|lia]. Qed.

Lemma size_logged bn T : (size ({[bn]} ∪ t_logged T) ≤ S (size (t_logged T)))%nat.
Proof. rewrite size_union_alt, size_singleton.
  pose proof (subseteq_size (t_logged T ∖ {[bn]}) (t_logged T)) as H. set_solver by lia. Qed.

Lemma budget_upd n h bn d T : budget (n + 1) h T → budget n h (t_upd bn d T).
Proof. unfold budget, t_upd. simpl. pose proof (size_logged bn T).
  intros (Hin & ? & ?). split; [intros; apply Hin; lia|lia]. Qed.

Lemma idle_upd bn d T b : idle T b → idle (t_upd bn d T) b.
Proof. done. Qed.

Lemma put_get bn i T : t_held T !! bn = None → t_put bn (t_get bn i T) = T.
Proof. intros H. destruct T. unfold t_put, t_get. simpl in *. by rewrite delete_insert_id. Qed.

Lemma put_upd bn d i T :
  idle T bn → t_put bn (t_log bn (t_set bn d (t_get bn i T))) = t_upd bn d T.
Proof.
  intros [H Hp]. destruct T as [D H' P L I]. unfold t_put, t_log, t_set, t_get, t_upd. simpl in *.
  rewrite delete_insert_id by done. f_equal.
  apply leibniz_equiv, set_equiv. intros x. destruct (decide (x = bn)); set_solver.
Qed.

Lemma alter_insert_at {A} (f : A → A) (i : nat) (l : list A) x :
  l !! i = Some x → alter f i l = <[i := f x]> l.
Proof.
  revert i. induction l as [|y l IH]; intros [|i] E; simplify_eq/=; [done|]. f_equal. by apply IH.
Qed.

Lemma wp_geti t tbl sb k ip x Q :
  tbl !! ip = Some x → Q x (Fst t tbl sb k) → wp (geti ip) (Fst t tbl sb k) Q.
Proof. intros Hx HQ. unfold wp, geti, gets. simpl. by rewrite (list_lookup_total_correct _ _ _ Hx). Qed.

Lemma wp_updi t tbl sb k ip x f Q :
  tbl !! ip = Some x → Q tt (Fst t (<[ip := f x]> tbl) sb k) → wp (updi ip f) (Fst t tbl sb k) Q.
Proof. intros Hx HQ. unfold wp, updi, modify. simpl. by rewrite (alter_insert_at f ip tbl x). Qed.

Lemma wp_get_sb {A} (f : superblock → A) t tbl sb k Q :
  Q (f sb) (Fst t tbl sb k) → wp (get_sb f) (Fst t tbl sb k) Q.
Proof. done. Qed.

Lemma wp_ldmem {A} (f : mem → A) t tbl sb k Q :
  Q (f (km_mem k)) (Fst t tbl sb k) → wp (ldmem f) (Fst t tbl sb k) Q.
Proof. done. Qed.

Lemma wp_stmem f t tbl sb k Q :
  Q tt (Fst t tbl sb (upd_mem f k)) → wp (stmem f) (Fst t tbl sb k) Q.
Proof. done. Qed.

Lemma wp_fs_bread t T bn tbl sb k n h Q :
  txn_ok t T → 0 ≤ bn < 2^32 → t_held T !! bn = None → budget n (h + 1) T → 0 ≤ n → 0 ≤ h →
  (∀ i t', txn_ok t' (t_get bn i T) → budget n h (t_get bn i T) → Q i (Fst t' tbl sb k)) →
  wp (bread dev bn) (Fst t tbl sb k) Q.
Proof.
  intros Ht Hbn Hh Hb Hn Hh0 HQ. pose proof Hb as (_ & _ & Hb2).
  destruct (tread_ok t T bn) as (i & t' & Hrun & Ht'); [done..|lia|].
  unfold wp, bread, on_tx. simpl. rewrite Hrun. apply HQ; [done|]. by apply budget_get.
Qed.

Lemma wp_fs_bdata t T bn i tbl sb k Q :
  txn_ok t T → t_held T !! bn = Some i → Q (t_data T bn) (Fst t tbl sb k) →
  wp (bdata i) (Fst t tbl sb k) Q.
Proof. intros Ht Hh HQ. unfold wp, bdata, on_tx. simpl. by rewrite (tdata_ok t T bn i). Qed.

Lemma wp_fs_set_bdata t T bn i d tbl sb k Q :
  txn_ok t T → t_held T !! bn = Some i → block_ok d →
  (∀ t', txn_ok t' (t_set bn d T) → Q tt (Fst t' tbl sb k)) →
  wp (set_bdata i d) (Fst t tbl sb k) Q.
Proof.
  intros Ht Hh Hd HQ. destruct (set_tdata_ok t T bn i d) as (t' & Hrun & Ht'); [done..|].
  unfold wp, set_bdata, on_tx. simpl. rewrite Hrun. by apply HQ.
Qed.

Lemma wp_fs_log_write t T bn i tbl sb k n h Q :
  txn_ok t T → t_held T !! bn = Some i → fs_block bn → budget (n + 1) h T → 0 ≤ n →
  (∀ t', txn_ok t' (t_log bn T) → Q tt (Fst t' tbl sb k)) →
  wp (log_write i) (Fst t tbl sb k) Q.
Proof.
  intros Ht Hh Hf (Hin & Hb & _) Hn HQ.
  destruct (tlog_write_ok t T bn i) as (t' & Hrun & Ht'); [done..|apply Hin; lia|lia|].
  unfold wp, log_write, on_tx. simpl. rewrite Hrun. by apply HQ.
Qed.

Lemma wp_fs_brelse t T bn i tbl sb k Q :
  txn_ok t T → t_held T !! bn = Some i → bn ∉ t_pend T →
  (∀ t', txn_ok t' (t_put bn T) → Q tt (Fst t' tbl sb k)) →
  wp (brelse i) (Fst t tbl sb k) Q.
Proof.
  intros Ht Hh Hp HQ. destruct (trelse_ok t T bn i) as (t' & Hrun & Ht'); [done..|].
  unfold wp, brelse, on_tx. simpl. rewrite Hrun. by apply HQ.
Qed.

(** Storing new contents in a held block, logging and releasing it. *)
Lemma wp_write_back {A} t T bn i d tbl sb k n h (K : M fst A) Q :
  txn_ok t (t_get bn i T) → idle T bn → block_ok d → fs_block bn →
  budget (n + 1) h (t_get bn i T) → 0 ≤ n →
  (∀ t', txn_ok t' (t_upd bn d T) → wp K (Fst t' tbl sb k) Q) →
  wp (set_bdata i d ;;; log_write i ;;; brelse i ;;; K) (Fst t tbl sb k) Q.
Proof.
  intros Ht [Hh Hp] Hd Hf Hb Hn HQ.
  apply wp_bind. eapply wp_fs_set_bdata; [done|apply lookup_insert_eq|done|].
  intros t1 Ht1. apply wp_bind.
  eapply (wp_fs_log_write _ _ _ _ _ _ _ n h); [done|apply lookup_insert_eq|done|done|done|].
  intros t2 Ht2. apply wp_bind. eapply wp_fs_brelse; [done|apply lookup_insert_eq| |].
  { simpl. clear -Hp. set_solver. }
  intros t3 Ht3. apply HQ. by rewrite put_upd in Ht3.
Qed.

Lemma wp_write_back_end t T bn i d tbl sb k n h Q :
  txn_ok t (t_get bn i T) → idle T bn → block_ok d → fs_block bn →
  budget (n + 1) h (t_get bn i T) → 0 ≤ n →
  (∀ t', txn_ok t' (t_upd bn d T) → Q tt (Fst t' tbl sb k)) →
  wp (set_bdata i d ;;; log_write i ;;; brelse i) (Fst t tbl sb k) Q.
Proof.
  intros Ht Hi Hd Hf Hb Hn HQ.
  assert (wp (set_bdata i d ;;; log_write i ;;; brelse i ;;; ret tt) (Fst t tbl sb k) Q) as H.
  { by eapply wp_write_back. }
  revert H. unfold wp, bind. destruct (set_bdata i d _) as [? s1| | |]; [|done..].
  destruct (log_write i s1) as [? s2| | |]; [|done..]. by destruct (brelse i s2) as [[] ?| | |].
Qed.

Lemma bzero_ok t T bno tbl sb k n h Q :
  txn_ok t T → idle T bno → 0 ≤ bno < 2^32 → fs_block bno → budget (n + 1) (h + 1) T →
  0 ≤ n → 0 ≤ h →
  (∀ t', txn_ok t' (t_upd bno zero_block T) → Q tt (Fst t' tbl sb k)) →
  wp (bzero dev bno) (Fst t tbl sb k) Q.
Proof.
  intros Ht Hi Hb Hf Hbud Hn Hh HQ. apply wp_bind.
  eapply wp_fs_bread; [done|done|apply Hi|exact Hbud|lia|lia|]. intros i t1 Ht1 Hb1.
  by apply (wp_write_back_end t1 T bno i _ _ _ _ n h); [|done|apply zero_block_ok|..].
Qed.
End rules.

(** ** The disk and its free bit map *)

(** The blocks before this one hold the boot block, the super block, the log,
    the inodes and the bit map itself. *)
Definition meta (sb : superblock) : Z := sb_bmapstart sb + sb_size sb `div` BPB + 1.

(** Block [b] is in use according to the bit map. *)
Definition used (sb : superblock) (D : Z → block) (b : Z) : bool :=
  bit_set (D (BBLOCK b sb)) (b `mod` BPB).

Lemma scan_bits_spec dt b size bi (fuel : nat) :
  0 ≤ bi ≤ BPB → BPB - bi < fuel →
  match scan_bits dt b size bi fuel with
  | Some bj => bi ≤ bj < BPB ∧ b + bj < size ∧ bit_set dt bj = false ∧
      ∀ x, bi ≤ x < bj → bit_set dt x = true
  | None => ∀ x, bi ≤ x < BPB → b + x < size → bit_set dt x = true
  end.
Proof.
  revert bi. induction fuel as [|fuel IH]; intros bi Hb Hf; [lia|]. cbn [scan_bits].
  destruct (Z.ltb_spec bi BPB); [|simpl; intros; lia].
  destruct (Z.ltb_spec (b + bi) size); [|simpl; intros; lia]. cbn [andb].
  destruct (bit_set dt bi) eqn:E; [|split_and!; [lia..|done|intros; lia]].
  specialize (IH (bi + 1)). destruct (scan_bits dt b size (bi + 1) fuel) as [bj|].
  - destruct IH as (H1 & H2 & H3 & H4); [lia..|]. split_and!; [lia..|done|]. intros x Hx.
    destruct (decide (x = bi)) as [->|]; [done|]. apply H4. lia.
  - intros x Hx Hs. destruct (decide (x = bi)) as [->|]; [done|]. apply IH; lia.
Qed.

Section alloc.
Context {St : Type} {dev : Z} `{!TxnLayer St dev}.
Implicit Types (t : St) (T : tview) (tbl : list inode) (k : kmem).

(** A disk as mkfs lays it out. *)
Record geom (sb : superblock) : Prop := {
  g_size : 0 ≤ sb_size sb ∧ meta sb ≤ sb_size sb < 2^31;
  g_ino : 0 < sb_inodestart sb ∧ sb_inodestart sb + sb_ninodes sb `div` IPB + 1 ≤ sb_bmapstart sb;
  g_ninodes : 0 ≤ sb_ninodes sb;
  g_fs b : sb_inodestart sb ≤ b < sb_size sb → fs_block b
}.

Context (sb : superblock) (G : geom sb).

Lemma BBLOCK_eq b :
  0 ≤ b < sb_size sb →
  BBLOCK b sb = b `div` BPB + sb_bmapstart sb ∧ sb_bmapstart sb ≤ BBLOCK b sb < meta sb.
Proof.
  intros Hb. destruct G as [Hs Hi Hn _]. unfold meta in *.
  assert (0 < BPB) by done. pose proof (Z.div_pos b BPB).
  pose proof (Z.div_le_mono b (sb_size sb) BPB).
  assert (0 ≤ sb_ninodes sb `div` IPB) by (apply Z.div_pos; done).
  unfold BBLOCK, u32. rewrite Z.mod_small by lia. lia.
Qed.

Lemma meta_bounds : 0 < sb_inodestart sb < sb_bmapstart sb ∧ sb_bmapstart sb < meta sb.
Proof.
  destruct G as [Hs Hi Hn _]. unfold meta in *.
  assert (0 ≤ sb_ninodes sb `div` IPB) by (apply Z.div_pos; done).
  assert (0 ≤ sb_size sb `div` BPB); [|lia]. apply Z.div_pos; [lia|done].
Qed.

Lemma BBLOCK_idle T :
  (∀ x, sb_bmapstart sb ≤ x < meta sb → idle T x) →
  ∀ b, 0 ≤ b < sb_size sb → idle T (BBLOCK b sb).
Proof. intros Hi b Hb. apply Hi. destruct (BBLOCK_eq b Hb). lia. Qed.

(** Two blocks with the same bit are the same block. *)
Lemma same_block b b' :
  0 ≤ b < sb_size sb → 0 ≤ b' < sb_size sb →
  BBLOCK b sb = BBLOCK b' sb → b `mod` BPB = b' `mod` BPB → b = b'.
Proof.
  intros Hb Hb' E1 E2. destruct (BBLOCK_eq b Hb) as [E _], (BBLOCK_eq b' Hb') as [E' _].
  assert (b `div` BPB = b' `div` BPB) as E3 by lia.
  pose proof (Z.div_mod b BPB). pose proof (Z.div_mod b' BPB). assert (BPB ≠ 0) by done. nia.
Qed.

Lemma used_set D b b' f :
  (∀ dt bi bj, block_ok dt → 0 ≤ bi < BPB → 0 ≤ bj < BPB → bi ≠ bj → bit_set (f dt bi) bj = bit_set dt bj) →
  (∀ x, block_ok (D x)) → 0 ≤ b < sb_size sb → 0 ≤ b' < sb_size sb → b ≠ b' →
  used sb (<[BBLOCK b sb := f (D (BBLOCK b sb)) (b `mod` BPB)]> D) b' = used sb D b'.
Proof.
  intros Hf HD Hb Hb' Hne. unfold used. destruct (decide (BBLOCK b' sb = BBLOCK b sb)) as [E|E].
  - rewrite E, fn_lookup_insert. apply Hf; [done|apply Z.mod_pos_bound; done..|].
    intros E'. apply Hne, same_block; congruence.
  - by rewrite fn_lookup_insert_ne.
Qed.

(** What balloc and bfree rely on: the metadata is marked in use, and nobody
    is in the middle of changing the bit map or a free block. *)
Record alloc_ok (T : tview) : Prop := {
  ao_meta b : 0 ≤ b < meta sb → used sb (t_data T) b = true;
  ao_bmap b : sb_bmapstart sb ≤ b < meta sb → idle T b;
  ao_free b : meta sb ≤ b < sb_size sb → used sb (t_data T) b = false → idle T b
}.

(** Block [a] is marked in use and zeroed. *)
Definition t_alloc (a : Z) (T : tview) : tview :=
  t_upd a zero_block
    (t_upd (BBLOCK a sb) (mark_bit (t_data T (BBLOCK a sb)) (a `mod` BPB)) T).
(** Block [b] is marked free. *)
Definition t_free (b : Z) (T : tview) : tview :=
  t_upd (BBLOCK b sb) (clear_bit (t_data T (BBLOCK b sb)) (b `mod` BPB)) T.

Lemma used_upd_data T bn d b :
  0 ≤ b < sb_size sb → meta sb ≤ bn → used sb (t_data (t_upd bn d T)) b = used sb (t_data T) b.
Proof.
  intros Hb Hbn. unfold used, t_upd. simpl. destruct (BBLOCK_eq b Hb).
  by rewrite fn_lookup_insert_ne by lia.
Qed.

Lemma used_alloc T a b :
  (∀ x, block_ok (t_data T x)) → meta sb ≤ a < sb_size sb → 0 ≤ b < sb_size sb →
  used sb (t_data (t_alloc a T)) b = bool_decide (a = b) || used sb (t_data T) b.
Proof.
  intros HD Ha Hb. pose proof meta_bounds. unfold t_alloc. rewrite used_upd_data by lia. simpl.
  case_bool_decide as E.
  - subst b. unfold used. rewrite fn_lookup_insert, bit_mark;
      [|done|apply Z.mod_pos_bound; done..]. by rewrite bool_decide_eq_true_2.
  - rewrite (used_set (t_data T) a b mark_bit); [done| |done|lia|done|done].
    intros dt bi bj Hdt Hi Hj Hne. rewrite bit_mark by done. by rewrite bool_decide_eq_false_2.
Qed.

Lemma used_free T a b :
  (∀ x, block_ok (t_data T x)) → 0 ≤ a < sb_size sb → 0 ≤ b < sb_size sb →
  used sb (t_data (t_free a T)) b = negb (bool_decide (a = b)) && used sb (t_data T) b.
Proof.
  intros HD Ha Hb. unfold t_free. simpl. case_bool_decide as E.
  - subst b. unfold used. rewrite fn_lookup_insert, bit_clear;
      [|done|apply Z.mod_pos_bound; done..]. by rewrite bool_decide_eq_true_2.
  - rewrite (used_set (t_data T) a b clear_bit); [done| |done|done|done|done].
    intros dt bi bj Hdt Hi Hj Hne. rewrite bit_clear by done. by rewrite bool_decide_eq_false_2.
Qed.

Lemma alloc_ok_alloc T a :
  (∀ x, block_ok (t_data T x)) → meta sb ≤ a < sb_size sb → alloc_ok T → alloc_ok (t_alloc a T).
Proof.
  intros HD Ha [H1 H2 H3]. pose proof meta_bounds. destruct G as [Hs _ _ _]. split.
  - intros b Hb. rewrite used_alloc, H1, orb_true_r by (done || lia). done.
  - intros b Hb. by apply H2.
  - intros b Hb Hu. rewrite used_alloc in Hu by (done || lia). apply orb_false_iff in Hu as [_ Hu].
    by apply H3.
Qed.

Lemma alloc_ok_upd T bn d : meta sb ≤ bn → alloc_ok T → alloc_ok (t_upd bn d T).
Proof.
  intros Hbn [H1 H2 H3]. pose proof meta_bounds. pose proof (g_size _ G). split; [|done|].
  - intros b Hb. rewrite used_upd_data by lia. by apply H1.
  - intros b Hb. rewrite used_upd_data by lia. intros Hu. by apply H3.
Qed.

Lemma alloc_ok_get T bn i :
  meta sb ≤ bn < sb_size sb → used sb (t_data T) bn = true → alloc_ok T → alloc_ok (t_get bn i T).
Proof.
  intros Hbn Hu [H1 H2 H3]. split; [done| |].
  - intros b Hb. destruct (H2 b Hb) as [? ?]. split; [|done]. simpl. by rewrite lookup_insert_ne by lia.
  - intros b Hb Hf. destruct (H3 b Hb Hf) as [? ?]. split; [|done]. simpl.
    rewrite lookup_insert_ne; [done|]. intros ->. simpl in Hf. congruence.
Qed.

Lemma alloc_ok_free T a :
  (∀ x, block_ok (t_data T x)) → meta sb ≤ a < sb_size sb → idle T a →
  alloc_ok T → alloc_ok (t_free a T).
Proof.
  intros HD Ha Hi [H1 H2 H3]. pose proof meta_bounds. destruct G as [Hs _ _ _]. split.
  - intros b Hb. rewrite used_free, H1, bool_decide_eq_false_2 by (done || lia). done.
  - intros b Hb. by apply H2.
  - intros b Hb Hu. destruct (decide (a = b)) as [<-|Hne]; [done|].
    rewrite used_free, bool_decide_eq_false_2 in Hu by (done || lia). by apply H3.
Qed.

(** The outcome of balloc: the first free block, zeroed, or 0 if there is none. *)
Definition balloc_post T tbl k (a : Z) (s : fst (St:=St)) : Prop :=
  ∃ t' T', s = Fst t' tbl sb k ∧ txn_ok t' T' ∧
    ((a = 0 ∧ T' = T ∧ ∀ b, 0 ≤ b < sb_size sb → used sb (t_data T) b = true) ∨
     (meta sb ≤ a < sb_size sb ∧ used sb (t_data T) a = false ∧ T' = t_alloc a T ∧
      ∀ b, 0 ≤ b < a → used sb (t_data T) b = true)).

Lemma mod_in_group b bi : b `mod` BPB = 0 → 0 ≤ bi < BPB → (b + bi) `mod` BPB = bi.
Proof.
  intros Hb Hi. assert (BPB ≠ 0) by done. rewrite Z.add_mod, Hb, Z.add_0_l, Z.mod_mod by done.
  by apply Z.mod_small.
Qed.

Lemma BBLOCK_group b bi :
  b `mod` BPB = 0 → 0 ≤ bi < BPB → BBLOCK (b + bi) sb = BBLOCK b sb.
Proof.
  intros Hb Hi. unfold BBLOCK. do 2 f_equal. assert (BPB ≠ 0) by done.
  apply Z.mod_divide in Hb as [q ->]; [|done]. rewrite Z.div_add_l, Z.div_mul by done.
  rewrite (Z.div_small bi) by done. lia.
Qed.

Lemma balloc_found t T b bi tbl k n h i (Q : Z + Z → fst → Prop) :
  txn_ok t (t_get (BBLOCK b sb) i T) → alloc_ok T → budget (n + 2) (h + 1) T →
  0 ≤ n → 0 ≤ h → b `mod` BPB = 0 → 0 ≤ b → 0 ≤ bi < BPB → b + bi < sb_size sb →
  used sb (t_data T) (b + bi) = false →
  (∀ t', txn_ok t' (t_alloc (b + bi) T) → Q (inr (b + bi)) (Fst t' tbl sb k)) →
  wp (set_bdata i (mark_bit (t_data T (BBLOCK b sb)) bi) ;;; log_write i ;;; brelse i ;;;
      bzero dev (b + bi) ;;; ret (inr (b + bi))) (Fst t tbl sb k) Q.
Proof.
  intros Ht Ha Hbud Hn Hh Hmod Hb Hbi Hlt Hu HQ. pose proof meta_bounds.
  pose proof (g_size _ G) as (_ & _ & Hs).
  assert (0 ≤ b + bi < sb_size sb) as Hr by lia. destruct (BBLOCK_eq (b + bi) Hr) as [_ Hbb].
  rewrite BBLOCK_group in Hbb by done.
  assert (meta sb ≤ b + bi) as Hm.
  { destruct (decide (b + bi < meta sb)); [|lia]. rewrite (ao_meta _ Ha) in Hu by lia. done. }
  assert (idle T (BBLOCK b sb)) as Hidle by (apply (ao_bmap _ Ha); lia).
  pose proof (txn_blocks t _ (BBLOCK b sb) Ht) as Hok. simpl in Hok.
  apply (wp_write_back t T (BBLOCK b sb) i _ _ _ _ (n + 1) h); [done|done| | | |lia|].
  { by apply insert_block. }
  { apply (g_fs _ G). lia. }
  { apply budget_get; [apply Hidle|]. by replace (n + 1 + 1) with (n + 2) by lia. }
  intros t1 Ht1. apply wp_bind.
  eapply (bzero_ok _ _ _ _ _ _ n h); [exact Ht1| |lia|apply (g_fs _ G); lia| |done|done|].
  { apply idle_upd. apply (ao_free _ Ha); [lia|done]. }
  { apply budget_upd. by replace (n + 1 + 1) with (n + 2) by lia. }
  intros t2 Ht2. apply wp_ret, HQ. unfold t_alloc. by rewrite BBLOCK_group, mod_in_group by done.
Qed.

(** The state of balloc's outer loop with [m] iterations left: the blocks
    before [b] are all in use. *)
Definition balloc_inv T tbl k (m : nat) (b : Z) (s : fst (St:=St)) : Prop :=
  ∃ t, s = Fst t tbl sb k ∧ txn_ok t T ∧ b `mod` BPB = 0 ∧ 0 ≤ b < sb_size sb + BPB ∧
    b `div` BPB + m = sb_size sb `div` BPB + 2 ∧
    ∀ x, 0 ≤ x < b → x < sb_size sb → used sb (t_data T) x = true.

Lemma balloc_group T b :
  b `mod` BPB = 0 → ∀ x, 0 ≤ x < BPB →
  used sb (t_data T) (b + x) = bit_set (t_data T (BBLOCK b sb)) x.
Proof. intros Hb x Hx. unfold used. by rewrite BBLOCK_group, mod_in_group by done. Qed.

Lemma balloc_next T tbl k m b t :
  txn_ok t T → balloc_inv T tbl k (S m) b (Fst t tbl sb k) → b < sb_size sb →
  (∀ x, 0 ≤ x < BPB → b + x < sb_size sb → bit_set (t_data T (BBLOCK b sb)) x = true) →
  balloc_inv T tbl k m (b + BPB) (Fst t tbl sb k).
Proof.
  intros Ht (_ & _ & _ & Hmod & Hb & Hc & Hall) Hlt Hscan. exists t. assert (0 < BPB ∧ BPB ≠ 0) as [??] by done.
  assert ((b + BPB) `mod` BPB = b `mod` BPB ∧ (b + BPB) `div` BPB = b `div` BPB + 1) as [E1 E2].
  { replace (b + BPB) with (b + 1 * BPB) by lia. by rewrite Z.mod_add, Z.div_add by done. }
  split_and!; [done..|lia|lia|lia|lia|].
  intros x Hx Hxs. destruct (decide (x < b)); [apply Hall; lia|].
  replace x with (b + (x - b)) by lia. rewrite balloc_group by (done || lia). apply Hscan; lia.
Qed.

Lemma balloc_ok t T tbl k n h :
  txn_ok t T → alloc_ok T → budget (n + 2) (h + 1) T → 0 ≤ n → 0 ≤ h →
  wp (balloc dev) (Fst t tbl sb k) (balloc_post T tbl k).
Proof.
  intros Ht Ha Hbud Hn Hh. unfold balloc. apply wp_bind. unfold wp at 1, get_sb, gets. cbn [fsb id].
  pose proof (g_size _ G) as (Hs0 & _ & Hs). assert (0 < BPB) as HB by done.
  pose proof (Z.div_pos (sb_size sb) BPB) as Hq. pose proof meta_bounds.
  apply (wp_loop (balloc_inv T tbl k)).
  3: { exists t. split_and!; [done..|lia|lia|rewrite Z.div_0_l by done; lia|intros; lia]. }
  2: { intros b s (t' & _ & _ & Hmod & Hb & Hc & _).
       pose proof (Z.div_le_mono b (sb_size sb + BPB) BPB). 
       replace (sb_size sb + BPB) with (sb_size sb + 1 * BPB) in * by lia.
       rewrite Z.div_add in * by lia. lia. }
  intros m b s (t' & -> & Ht' & Hinv). pose proof Hinv as (Hmod & Hb & Hc & Hall).
  destruct (Z.ltb_spec b (sb_size sb)) as [Hlt|Hge].
  2: { apply wp_ret. exists t', T. split_and!; [done..|]. left. split_and!; [done..|].
       intros x Hx. apply Hall; lia. }
  apply wp_bind. unfold wp at 1, get_sb, gets. cbn [fsb id].
  destruct (BBLOCK_eq b) as [_ Hbb]; [lia|].
  assert (idle T (BBLOCK b sb)) as Hidle by (apply (ao_bmap _ Ha); lia). apply wp_bind.
  pose proof (g_size _ G). 
  apply (wp_fs_bread t' T _ _ _ _ (n + 2) h); [done|lia|apply Hidle|done|lia|done|].
  intros i t1 Ht1 Hb1. apply wp_bind.
  apply (wp_fs_bdata _ (t_get (BBLOCK b sb) i T) (BBLOCK b sb)); [done|apply lookup_insert_eq|].
  pose proof (scan_bits_spec (t_data T (BBLOCK b sb)) b (sb_size sb) 0 (S (Z.to_nat BPB))) as Hscan.
  cbn [t_data t_get]. destruct (scan_bits _ _ _ _ _) as [bi|].
  - destruct Hscan as (Hbi & Hsz & Hfree & Hprev); [lia..|].
    rewrite <-(balloc_group T b) in Hfree by done.
    eapply (balloc_found t1 T b bi _ _ n h); [done..|lia|done|done|done|].
    intros t2 Ht2. exists t2, (t_alloc (b + bi) T). split_and!; [done..|]. right.
    split_and!; [|lia|done|done|].
    + destruct (decide (b + bi < meta sb)); [|lia]. rewrite (ao_meta _ Ha) in Hfree by lia. done.
    + intros x Hx. destruct (decide (x < b)); [apply Hall; lia|].
      replace x with (b + (x - b)) by lia. rewrite balloc_group by (done || lia). apply Hprev. lia.
  - apply wp_bind. eapply wp_fs_brelse; [done|apply lookup_insert_eq|apply Hidle|].
    intros t2 Ht2. rewrite put_get in Ht2 by apply Hidle. apply wp_ret.
    apply balloc_next; [done|by exists t2|done|]. intros x Hx. apply Hscan; lia.
Qed.

Lemma bfree_ok t T b tbl k n h Q :
  txn_ok t T → alloc_ok T → budget (n + 1) (h + 1) T → 0 ≤ n → 0 ≤ h →
  0 ≤ b < sb_size sb → used sb (t_data T) b = true →
  (∀ t', txn_ok t' (t_free b T) → Q tt (Fst t' tbl sb k)) →
  wp (bfree dev b) (Fst t tbl sb k) Q.
Proof.
  intros Ht Ha Hbud Hn Hh Hb Hu HQ. unfold bfree. apply wp_bind. unfold wp at 1, get_sb, gets. cbn [fsb id].
  destruct (BBLOCK_eq b Hb) as [_ Hbb]. pose proof meta_bounds. pose proof (g_size _ G).
  assert (idle T (BBLOCK b sb)) as Hidle by (apply (ao_bmap _ Ha); lia). apply wp_bind.
  apply (wp_fs_bread t T _ _ _ _ (n + 1) h); [done|lia|apply Hidle|done|lia|done|].
  intros i t1 Ht1 Hb1. apply wp_bind.
  apply (wp_fs_bdata _ (t_get (BBLOCK b sb) i T) (BBLOCK b sb)); [done|apply lookup_insert_eq|].
  cbn [t_data t_get]. unfold used in Hu. rewrite Hu. simpl.
  apply (wp_write_back_end t1 T (BBLOCK b sb) i (clear_bit (t_data T (BBLOCK b sb)) (b `mod` BPB)) _ _ _ n h); [done|done| | |done|done|exact HQ].
  - apply insert_block, (txn_blocks t), Ht.
  - apply (g_fs _ G). lia.
Qed.

Lemma bfree_panics t T b tbl k :
  txn_ok t T → alloc_ok T → budget 0 1 T → 0 ≤ b < sb_size sb → used sb (t_data T) b = false →
  bfree dev b (Fst t tbl sb k) = Panic "freeing free block".
Proof.
  intros Ht Ha Hbud Hb Hu. destruct (BBLOCK_eq b Hb) as [_ Hbb]. pose proof meta_bounds. pose proof (g_size _ G).
  destruct (ao_bmap _ Ha (BBLOCK b sb)) as [Hh _]; [lia|]. destruct Hbud as (_ & _ & Hbud).
  destruct (tread_ok t T (BBLOCK b sb)) as (i & t1 & Hrun & Ht1); [done|lia|done|lia|].
  unfold bfree, bind, get_sb, gets, bread, bdata, on_tx. cbn [fsb ftx id]. rewrite Hrun. cbn [ftx].
  rewrite (tdata_ok t1 _ (BBLOCK b sb) i Ht1) by apply lookup_insert_eq. cbn [t_get t_data].
  unfold used in Hu. by rewrite Hu.
Qed.
End alloc.
