(* ===== verification/FsInode.v ===== *)
(** * Inodes of kernel/fs.c

    The encoding of disk inodes, the block map of a file as a set of slots,
    and what bmap does to it. *)

From S2P Require Import Prelude Riscv Mem Kalloc Vm Block FsFormat Txn Fs FsBlocks.

Lemma MAXFILE_eq : NDIRECT = 12 ∧ NINDIRECT = 256 ∧ MAXFILE = 268.
Proof. done. Qed.

(** ** Disk inodes *)

(** The fields are in the range of their C types. *)
Record di_ok (di : dinode) : Prop := {
  dk_type : -2^15 ≤ d_type di < 2^15;
  dk_major : -2^15 ≤ d_major di < 2^15;
  dk_minor : -2^15 ≤ d_minor di < 2^15;
  dk_nlink : -2^15 ≤ d_nlink di < 2^15;
  dk_size : 0 ≤ d_size di < 2^32;
  dk_len : length (d_addrs di) = Z.to_nat (NDIRECT + 1);
  dk_addrs : Forall (λ a, 0 ≤ a < 2^32) (d_addrs di)
}.

Lemma i16_mod x : -2^15 ≤ x < 2^15 → i16 (x `mod` 2^(2 * 8)) = x.
Proof.
  intros Hx. unfold i16. change (2^(2 * 8)) with (2^16). rewrite Z.add_mod_idemp_l by done.
  rewrite Z.mod_small; lia.
Qed.

(** The bytes of a disk inode, in the order put_dinode stores them. *)
Lemma field_put_dinode d k di o n :
  block_ok d → 0 ≤ k < IPB → length (d_addrs di) = Z.to_nat (NDIRECT + 1) → 0 ≤ o → 0 ≤ n →
  o + n ≤ k * SIZEOF_DINODE ∨ (k + 1) * SIZEOF_DINODE ≤ o →
  field (put_dinode d k di) o n = field d o n.
Proof.
  unfold put_dinode, put16, put32, IPB, SIZEOF_DINODE, NDIRECT. change (BSIZE `div` 64) with 16.
  intros Hd Hk Hlen Ho Hn Hout. pose proof Hd as [Hl _]. assert (0 ≤ k * 64 ≤ 960) as Hb by lia.
  replace ((k + 1) * 64) with (k * 64 + 64) in Hout by lia.
  generalize dependent (k * 64). intros b Hout Hb.
  rewrite field_put_list_out by (blk || unfold BSIZE; lia).
  by rewrite !field_set_ne by (blk || unfold BSIZE; lia).
Qed.

Lemma get_put_dinode_ne d k k' di :
  block_ok d → 0 ≤ k < IPB → 0 ≤ k' → k ≠ k' → length (d_addrs di) = Z.to_nat (NDIRECT + 1) →
  get_dinode (put_dinode d k di) k' = get_dinode d k'.
Proof.
  intros Hd Hk Hk' Hne Hlen. unfold get_dinode, le16, le32.
  f_equal; try (f_equal; apply field_put_dinode; unfold SIZEOF_DINODE; done || lia).
  - apply field_put_dinode; unfold SIZEOF_DINODE; done || lia.
  - apply list_fmap_ext. intros i j Hj%list_elem_of_lookup_2. apply elem_of_seqZ in Hj.
    unfold NDIRECT in Hj. apply field_put_dinode; unfold SIZEOF_DINODE; done || lia.
Qed.

Lemma get_put_dinode d k di :
  block_ok d → 0 ≤ k < IPB → di_ok di → get_dinode (put_dinode d k di) k = di.
Proof.
  unfold get_dinode, put_dinode, le16, put16, put32, IPB, SIZEOF_DINODE. change (BSIZE `div` 64) with 16.
  intros Hd Hk [H1 H2 H3 H4 H5 Hlen Ha]. unfold NDIRECT in *.
  assert (0 ≤ k * 64 ≤ 960) as Hb by lia. clear Hk. generalize dependent (k * 64). intros b Hb.
  destruct di as [t ma mi nl sz addrs].
  cbn [d_type d_major d_minor d_nlink d_size d_addrs] in *. f_equal.
  1-4: rewrite field_put_list_out by (blk || unfold BSIZE; lia);
    rewrite ?(field_set_ne (put_field _ _ _ _)) by (blk || unfold BSIZE; lia);
    rewrite field_set_eq by (blk || unfold BSIZE; lia); by apply i16_mod.
  - rewrite le32_put_list_before by (blk || unfold BSIZE; lia). unfold le32.
    rewrite field_set_eq by (blk || unfold BSIZE; lia). by apply Z.mod_small.
  - apply list_eq. intros i. rewrite list_lookup_fmap.
    destruct (decide (i < 13)%nat) as [Hi|Hi].
    + rewrite lookup_seqZ_lt by lia. simpl.
      destruct (lookup_lt_is_Some_2 addrs i) as [a Ea]; [lia|]. rewrite Ea. f_equal.
      replace (0 + i) with (Z.of_nat i) by lia.
      rewrite (le32_put_list _ _ addrs i a) by (blk || unfold BSIZE; lia || done).
      rewrite Forall_lookup in Ha. apply Z.mod_small. by apply (Ha i).
    + rewrite lookup_seqZ_ge by lia. symmetry. apply lookup_ge_None_2. lia.
Qed.

(** ** The block map of a file *)

Definition ind (di : dinode) : Z := d_addrs di !!! Z.to_nat NDIRECT.

(** Slot [j] of an inode: for [0 ≤ j < MAXFILE] the disk block with the
    [j]th block of the file, for [j = MAXFILE] the indirect block; 0 is a slot
    with no block. *)
Definition islot (D : Z → block) (di : dinode) (j : Z) : Z :=
  if j <? NDIRECT then d_addrs di !!! Z.to_nat j
  else if j <? MAXFILE then
    if ind di =? 0 then 0 else le32 (D (ind di)) (4 * (j - NDIRECT))
  else ind di.

Lemma islot_ind D di : islot D di MAXFILE = ind di.
Proof. done. Qed.

Lemma islot_ext D D' di j :
  (ind di ≠ 0 → D' (ind di) = D (ind di)) → islot D' di j = islot D di j.
Proof.
  intros H. unfold islot. destruct (j <? NDIRECT); [done|]. destruct (j <? MAXFILE); [|done].
  destruct (Z.eqb_spec (ind di) 0); [done|]. by rewrite H.
Qed.

Section wf.
Context {St : Type} {dev : Z} `{!TxnLayer St dev}.
Context (sb : superblock) (G : geom sb).

(** Every block of the file is a data block marked in use, and no block is
    used twice. *)
Record inode_wf (D : Z → block) (di : dinode) : Prop := {
  wf_di : di_ok di;
  wf_slot j : 0 ≤ j ≤ MAXFILE → islot D di j ≠ 0 →
    meta sb ≤ islot D di j < sb_size sb ∧ used sb D (islot D di j) = true;
  wf_inj i j : 0 ≤ i ≤ MAXFILE → 0 ≤ j ≤ MAXFILE → islot D di i = islot D di j →
    islot D di i ≠ 0 → i = j
}.

(** Slot [j], empty before, now has block [a], free before. *)
Record slot_set (D : Z → block) (di : dinode) (D' : Z → block) (di' : dinode) (j a : Z) : Prop := {
  ss_di : di_ok di';
  ss_fresh : meta sb ≤ a < sb_size sb ∧ used sb D a = false;
  ss_used b : 0 ≤ b < sb_size sb → used sb D' b = bool_decide (a = b) || used sb D b;
  ss_slot i : 0 ≤ i ≤ MAXFILE → islot D' di' i = if decide (i = j) then a else islot D di i
}.

Lemma slot_set_wf D di D' di' j a : inode_wf D di → slot_set D di D' di' j a → inode_wf D' di'.
Proof.
  intros [H1 H2 H3] [S1 [S2 S3] S4 S5]. pose proof (meta_bounds sb G). split; [done| |].
  - intros i Hi. rewrite S5 by done. case_decide as E; intros Hne.
    + split; [done|]. rewrite S4 by lia. by rewrite bool_decide_eq_true_2.
    + destruct (H2 i Hi Hne) as [? Hu]. split; [done|]. rewrite S4, Hu by lia. apply orb_true_r.
  - intros i i' Hi Hi'. rewrite !S5 by done.
    assert (∀ x, 0 ≤ x ≤ MAXFILE → islot D di x ≠ a) as Hna.
    { intros x Hx E. destruct (H2 x Hx) as [_ Hu]; [lia|]. congruence. }
    repeat case_decide; subst; intros E Hne; [done|by destruct (Hna i')|by destruct (Hna i)|].
    by apply H3.
Qed.

Lemma ind_set_addr j a di :
  length (d_addrs di) = Z.to_nat (NDIRECT + 1) → 0 ≤ j ≤ NDIRECT →
  ind (set_addr j a di) = if decide (j = NDIRECT) then a else ind di.
Proof.
  intros Hl Hj. unfold ind, set_addr. cbn [d_addrs]. unfold NDIRECT in *. case_decide.
  - subst. by rewrite list_lookup_total_insert_eq by lia.
  - rewrite list_lookup_total_insert_ne by lia. done.
Qed.

Lemma di_ok_set_addr j a di : di_ok di → 0 ≤ a < 2^32 → di_ok (set_addr j a di).
Proof.
  intros [H1 H2 H3 H4 H5 H6 H7] Ha. split; try done; cbn [set_addr d_addrs].
  - by rewrite length_insert.
  - by apply Forall_insert.
Qed.

(** ** Adding a block to a file *)

(** The fields of the inode other than the block addresses. *)
Definition same_fields (di di' : dinode) : Prop :=
  di' = Dinode (d_type di) (d_major di) (d_minor di) (d_nlink di) (d_size di) (d_addrs di').

(** The log entries used by a transaction that works on a file, with a reserve
    of two for its indirect block while that is not in the log. *)
Definition charge (T : tview) (di : dinode) : Z :=
  size (t_logged T) + (if decide (ind di ≠ 0 ∧ ind di ∈ t_logged T) then 0 else 2).

(** A block outside the bit map that is not free. *)
Definition stable (T : tview) (b : Z) : Prop :=
  ¬ (sb_bmapstart sb ≤ b < meta sb) ∧ (meta sb ≤ b < sb_size sb → used sb (t_data T) b = true).

(** Block [a] was allocated and put in slot [j]. *)
Record grow (T : tview) (di : dinode) (T' : tview) (di' : dinode) (j a : Z) : Prop := {
  gr_slot : slot_set (t_data T) di (t_data T') di' j a;
  gr_alloc : alloc_ok sb T';
  gr_held : t_held T' = t_held T ∧ t_pend T' = t_pend T ∧ t_in T' = t_in T;
  gr_fields : same_fields di di';
  gr_frame b : stable T b → (ind di ≠ 0 → b ≠ ind di) → t_data T' b = t_data T b;
  gr_zero : t_data T' a = zero_block;
  gr_logged : a ∈ t_logged T';
  gr_charge : charge T' di' ≤ charge T di + (if decide (j = MAXFILE) then 0 else 2)
}.

Lemma alloc_data T a b :
  meta sb ≤ a < sb_size sb → b ≠ a → ¬ (sb_bmapstart sb ≤ b < meta sb) →
  t_data (t_alloc sb a T) b = t_data T b.
Proof.
  intros Ha Hne Hb. pose proof (meta_bounds sb G). destruct (BBLOCK_eq sb G a) as [_ ?]; [lia|].
  unfold t_alloc, t_upd. simpl. rewrite fn_lookup_insert_ne by done.
  rewrite fn_lookup_insert_ne; [done|lia].
Qed.

Lemma alloc_zero T a : t_data (t_alloc sb a T) a = zero_block.
Proof. unfold t_alloc, t_upd. simpl. by rewrite fn_lookup_insert. Qed.

Lemma size_logged2 T a b : (size (t_logged (t_upd a zero_block (t_upd b zero_block T))) ≤ 2 + size (t_logged T))%nat.
Proof.
  pose proof (size_logged a (t_upd b zero_block T)). pose proof (size_logged b T). simpl in *. lia.
Qed.

Lemma size_alloc T a : (size (t_logged (t_alloc sb a T)) ≤ 2 + size (t_logged T))%nat.
Proof. apply size_logged2. Qed.

Section grow.
Context (T : tview) (di : dinode) (a : Z).
Context (HD : ∀ x, block_ok (t_data T x)) (Hwf : inode_wf (t_data T) di) (Hao : alloc_ok sb T).
Context (Ha : meta sb ≤ a < sb_size sb) (Hfree : used sb (t_data T) a = false).

Lemma fresh_slot j : 0 ≤ j ≤ MAXFILE → islot (t_data T) di j ≠ a.
Proof.
  intros Hj E. pose proof (meta_bounds sb G). destruct (wf_slot _ _ Hwf j Hj) as [_ Hu]; [lia|]. congruence.
Qed.

Lemma ind_data : ind di ≠ 0 → t_data (t_alloc sb a T) (ind di) = t_data T (ind di).
Proof.
  intros Hne. apply alloc_data; [done|apply not_eq_sym|].
  - intros E. by apply (fresh_slot MAXFILE).
  - destruct (wf_slot _ _ Hwf MAXFILE) as [? _]; [done|done|]. rewrite islot_ind in *. lia.
Qed.

Lemma stable_fresh b : stable T b → b ≠ a.
Proof. intros [_ H] ->. rewrite H in Hfree; done. Qed.

Lemma a_range : 0 ≤ a < 2^32.
Proof. pose proof (meta_bounds sb G). pose proof (g_size _ G). lia. Qed.

Lemma grow_direct j :
  0 ≤ j < NDIRECT → grow T di (t_alloc sb a T) (set_addr j a di) j a.
Proof.
  intros Hj. pose proof (wf_di _ _ Hwf) as Hdi. pose proof (dk_len _ Hdi) as Hlen.
  assert (ind (set_addr j a di) = ind di) as Ei.
  { rewrite ind_set_addr, decide_False by (done || lia). done. }
  split.
  - split; [apply di_ok_set_addr, a_range; done|done|intros; by apply (used_alloc sb G)|].
    intros i Hi. unfold islot. rewrite Ei. unfold NDIRECT in *. cbn [set_addr d_addrs].
    destruct (Z.ltb_spec i 12).
    + case_decide; [subst; by rewrite list_lookup_total_insert_eq by lia|].
      by rewrite list_lookup_total_insert_ne by lia.
    + rewrite decide_False by lia. destruct (i <? MAXFILE); [|done].
      destruct (Z.eqb_spec (ind di) 0); [done|]. by rewrite ind_data.
  - by apply (alloc_ok_alloc sb G).
  - done.
  - done.
  - intros b Hb Hne. apply alloc_data; [done|by apply stable_fresh|apply Hb].
  - apply alloc_zero.
  - simpl. set_solver.
  - rewrite decide_False by (pose proof MAXFILE_eq; lia).
    unfold charge. rewrite Ei. pose proof (size_alloc T a).
    repeat case_decide; try lia. exfalso. naive_solver set_solver.
Qed.

Lemma grow_ind :
  ind di = 0 → grow T di (t_alloc sb a T) (set_addr NDIRECT a di) MAXFILE a.
Proof.
  intros Hz. pose proof (wf_di _ _ Hwf) as Hdi. pose proof (dk_len _ Hdi) as Hlen.
  assert (ind (set_addr NDIRECT a di) = a) as Ei by (by rewrite ind_set_addr, decide_True).
  pose proof (meta_bounds sb G). split.
  - split; [apply di_ok_set_addr, a_range; done|done|intros; by apply (used_alloc sb G)|].
    intros i Hi. unfold islot. rewrite Ei, Hz, Z.eqb_refl.
    destruct (Z.ltb_spec i NDIRECT).
    + rewrite decide_False by (pose proof MAXFILE_eq; lia).
      unfold NDIRECT in *. cbn [set_addr d_addrs]. by rewrite list_lookup_total_insert_ne by lia.
    + destruct (Z.ltb_spec i MAXFILE).
      * rewrite decide_False by lia. destruct (Z.eqb_spec a 0); [lia|].
        rewrite alloc_zero. apply field_zero.
      * by rewrite decide_True by lia.
  - by apply (alloc_ok_alloc sb G).
  - done.
  - done.
  - intros b Hb Hne. apply alloc_data; [done|by apply stable_fresh|apply Hb].
  - apply alloc_zero.
  - simpl. set_solver.
  - rewrite decide_True by done. unfold charge. rewrite Ei, Hz. pose proof (size_alloc T a).
    rewrite decide_True, decide_False by naive_solver set_solver || naive_solver lia. lia.
Qed.

Lemma grow_data j :
  NDIRECT ≤ j < MAXFILE → ind di ≠ 0 →
  grow T di
    (t_upd (ind di) (put32 (t_data T (ind di)) (4 * (j - NDIRECT)) a) (t_alloc sb a T)) di j a.
Proof.
  intros Hj Hne. pose proof (wf_di _ _ Hwf) as Hdi. pose proof MAXFILE_eq.
  pose proof (wf_slot _ _ Hwf MAXFILE) as [Hi _]; [done|done|]. rewrite islot_ind in Hi.
  pose proof (fresh_slot MAXFILE) as Hia. rewrite islot_ind in Hia. pose proof (meta_bounds sb G).
  split.
  - split; [done|done| |].
    + intros b Hb. rewrite (used_upd_data sb G) by lia. by apply (used_alloc sb G).
    + intros i Hi'. unfold islot. cbn [t_upd t_data]. rewrite fn_lookup_insert.
      destruct (Z.eqb_spec (ind di) 0); [done|]. destruct (Z.ltb_spec i NDIRECT).
      { by rewrite decide_False by lia. }
      destruct (Z.ltb_spec i MAXFILE); [|by rewrite decide_False by lia]. unfold le32, put32.
      case_decide as E.
      * subst. rewrite field_set_eq by (done || unfold BSIZE; lia). apply Z.mod_small, a_range.
      * apply field_set_ne; done || unfold BSIZE; lia.
  - apply (alloc_ok_upd sb G); [lia|]. by apply (alloc_ok_alloc sb G).
  - done.
  - unfold same_fields. by destruct di.
  - intros b Hb Hbi. cbn [t_upd t_data]. rewrite fn_lookup_insert_ne by (by apply not_eq_sym, Hbi).
    apply alloc_data; [done|by apply stable_fresh|apply Hb].
  - cbn [t_upd t_data]. rewrite fn_lookup_insert_ne; [apply alloc_zero|]. by apply Hia.
  - simpl. set_solver.
  - rewrite decide_False by lia. unfold charge. pose proof (size_alloc T a). cbn [t_upd t_logged].
    rewrite decide_True by set_solver. pose proof (size_logged (ind di) (t_alloc sb a T)) as Hs.
    case_decide as E; [|cbn [t_alloc t_upd t_logged] in *; lia]. destruct E as [_ E].
    replace ({[ind di]} ∪ t_logged (t_alloc sb a T)) with (t_logged (t_alloc sb a T)); [lia|].
    simpl. clear -E. set_solver.
Qed.
End grow.

(** ** bmap *)

(** What bmap does for block [bn] of a file, with result [a]. *)
Record bmap_post (T : tview) (di : dinode) (bn a : Z) (T' : tview) (di' : dinode) : Prop := {
  bp_wf : inode_wf (t_data T') di';
  bp_alloc : alloc_ok sb T';
  bp_held : t_held T' = t_held T ∧ t_pend T' = t_pend T ∧ t_in T' = t_in T;
  bp_fields : same_fields di di';
  bp_res : a = islot (t_data T') di' bn;
  bp_slot j : 0 ≤ j < MAXFILE → j ≠ bn → islot (t_data T') di' j = islot (t_data T) di j;
  bp_mapped : islot (t_data T) di bn ≠ 0 → T' = T ∧ di' = di;
  bp_new : islot (t_data T) di bn = 0 → a ≠ 0 →
    t_data T' a = zero_block ∧ a ∈ t_logged T' ∧ used sb (t_data T) a = false;
  bp_frame b : stable T b → (ind di ≠ 0 → b ≠ ind di) → t_data T' b = t_data T b;
  bp_used b : 0 ≤ b < sb_size sb → used sb (t_data T) b = true → used sb (t_data T') b = true;
  bp_charge : charge T' di' ≤ charge T di + 2;
  bp_full : a = 0 → ∀ b, 0 ≤ b < sb_size sb → used sb (t_data T') b = true;
  bp_ind : ind di' = ind di ∨ ind di = 0 ∧ used sb (t_data T) (ind di') = false
}.

Definition pbudget (n h : Z) (T : tview) (di : dinode) : Prop :=
  (0 < n → t_in T = true) ∧
  charge T di + n ≤ log_cap ∧ charge T di + n + size (t_held T) + h ≤ NBUF.

Lemma charge_bounds T di : size (t_logged T) ≤ charge T di ≤ size (t_logged T) + 2.
Proof. unfold charge. case_decide; lia. Qed.

Lemma pbudget_budget n h T di : pbudget n h T di → budget n h T.
Proof. unfold pbudget, budget. pose proof (charge_bounds T di). intros (? & ? & ?). split; [done|lia]. Qed.

Lemma same_fields_refl di : same_fields di di.
Proof. unfold same_fields. by destruct di. Qed.
Lemma same_fields_trans di di1 di2 : same_fields di di1 → same_fields di1 di2 → same_fields di di2.
Proof. unfold same_fields. intros E1 E2. rewrite E1 in E2. exact E2. Qed.

(** The file has the block already, or there is no free one. *)
Lemma bmap_same T di bn a :
  inode_wf (t_data T) di → alloc_ok sb T → a = islot (t_data T) di bn →
  (a = 0 → ∀ b, 0 ≤ b < sb_size sb → used sb (t_data T) b = true) →
  bmap_post T di bn a T di.
Proof.
  intros Hwf Hao -> Hfull. split; try done; [apply same_fields_refl|lia|by left].
Qed.

Lemma grow_used T di T' di' j a b :
  grow T di T' di' j a → 0 ≤ b < sb_size sb → used sb (t_data T) b = true → used sb (t_data T') b = true.
Proof. intros Hg Hb Hu. rewrite (ss_used _ _ _ _ _ _ (gr_slot _ _ _ _ _ _ Hg)), Hu by done. apply orb_true_r. Qed.

(** The file gets a block for slot [bn]. *)
Lemma bmap_grow T di bn a T' di' :
  inode_wf (t_data T) di → 0 ≤ bn < MAXFILE → islot (t_data T) di bn = 0 →
  grow T di T' di' bn a → bmap_post T di bn a T' di'.
Proof.
  intros Hwf Hbn Hz Hg. pose proof Hg as [Hs Hao Hh Hf Hfr Hzero Hl Hc].
  pose proof (ss_slot _ _ _ _ _ _ Hs) as Hslot. pose proof (ss_fresh _ _ _ _ _ _ Hs) as [? ?].
  pose proof (meta_bounds sb G). rewrite decide_False in Hc by lia.
  split; try done.
  - by eapply slot_set_wf.
  - by rewrite Hslot, decide_True by lia.
  - intros j Hj Hne. by rewrite Hslot, decide_False by lia.
  - intros b. by eapply grow_used.
  - lia.
  - left. pose proof (Hslot MAXFILE) as E. rewrite decide_False, !islot_ind in E by lia. apply E. lia.
Qed.

(** It gets an indirect block first. *)
Lemma bmap_grow_ind T di bn a1 a T1 di1 T' di' :
  inode_wf (t_data T) di → NDIRECT ≤ bn < MAXFILE → ind di = 0 →
  grow T di T1 di1 MAXFILE a1 → bmap_post T1 di1 bn a T' di' → ind di1 = a1 →
  islot (t_data T1) di1 bn = 0 → bmap_post T di bn a T' di'.
Proof.
  intros Hwf Hbn Hz Hg Hp Ei Hz1. pose proof Hg as [Hs Hao Hh Hf Hfr Hzero Hl Hc].
  pose proof (ss_slot _ _ _ _ _ _ Hs) as Hslot. pose proof (ss_fresh _ _ _ _ _ _ Hs) as [Hr Hfree].
  pose proof (meta_bounds sb G). pose proof MAXFILE_eq. rewrite decide_True in Hc by done.
  destruct Hp as [P1 P2 P3 P4 P5 P6 P7 P8 P9 P10 P11 P12 P13].
  split; try done.
  - destruct Hh as (? & ? & ?), P3 as (? & ? & ?). split_and!; congruence.
  - by eapply same_fields_trans.
  - intros j Hj Hne. rewrite P6 by done. by rewrite Hslot, decide_False by lia.
  - intros Hb. unfold islot in Hb. destruct (Z.ltb_spec bn NDIRECT); [lia|].
    destruct (Z.ltb_spec bn MAXFILE); [|lia]. by rewrite Hz in Hb.
  - intros _ Hne. destruct (P8 Hz1 Hne) as (H1 & H2 & H3). split_and!; [done..|].
    destruct (used sb (t_data T) a) eqn:Eu; [|done].
    rewrite (grow_used _ _ _ _ _ _ a Hg) in H3; [done| |done].
    destruct (wf_slot _ _ P1 bn) as [? _]; [lia|by rewrite <-P5|]. rewrite <-P5 in *. lia.
  - intros b Hb Hne. assert (b ≠ a1) as Hba by (intros ->; destruct Hb as [_ Hb]; rewrite Hb in Hfree; done).
    rewrite P9; [by apply Hfr| |by rewrite Ei]. destruct Hb as [Hb1 Hb2]. split; [done|].
    intros Hb3. eapply grow_used; [done|lia|]. by apply Hb2.
  - intros b Hb Hu. apply P10; [done|]. by eapply grow_used.
  - lia.
  - right. split; [done|]. destruct P13 as [->|[E _]]; [by rewrite Ei|lia].
Qed.

Lemma insert_same (tbl : list inode) ip x :
  tbl !! ip = Some x → <[ip := set_di (i_di x) x]> tbl = tbl.
Proof. intros Hx. apply list_insert_id. rewrite Hx. by destruct x. Qed.

Section bmap.
Context (t : St) (T : tview) (tbl : list inode) (ip : nat) (x : inode) (k : kmem) (bn : Z).
Context (Ht : txn_ok t T) (Hao : alloc_ok sb T) (Hx : tbl !! ip = Some x) (Hdev : i_dev x = dev).
Context (Hwf : inode_wf (t_data T) (i_di x)).

(** bmap returned [a]; the inode in the table now is [di']. *)
Definition bmap_done (a : Z) (s : fst (St:=St)) : Prop :=
  ∃ t' T' di', s = Fst t' (<[ip := set_di di' x]> tbl) sb k ∧ txn_ok t' T' ∧
    bmap_post T (i_di x) bn a T' di'.

Lemma bmap_done_same t' a :
  txn_ok t' T → bmap_post T (i_di x) bn a T (i_di x) → bmap_done a (Fst t' tbl sb k).
Proof. intros Ht' Hp. exists t', T, (i_di x). by rewrite (insert_same _ _ _ Hx). Qed.

Lemma bmap_direct :
  0 ≤ bn < NDIRECT → pbudget 3 2 T (i_di x) → wp (bmap ip bn) (Fst t tbl sb k) bmap_done.
Proof.
  intros Hbn Hb. pose proof MAXFILE_eq. unfold bmap. apply wp_bind. eapply wp_geti; [done|].
  destruct (Z.ltb_spec bn NDIRECT); [|lia]. rewrite Hdev.
  assert (d_addrs (i_di x) !!! Z.to_nat bn = islot (t_data T) (i_di x) bn) as Es.
  { unfold islot. by destruct (Z.ltb_spec bn NDIRECT); [|lia]. }
  rewrite Es. destruct (Z.eqb_spec (islot (t_data T) (i_di x) bn) 0) as [Hz|Hnz].
  2: { apply wp_ret, bmap_done_same; [done|]. by apply bmap_same. }
  apply wp_bind. eapply wp_mono.
  { apply (balloc_ok sb G t T tbl k 1 1); [done|done| |lia|lia].
    eapply budget_mono; [by eapply pbudget_budget|lia|lia]. }
  intros a s (t' & T' & -> & Ht' & [(-> & -> & Hfull)|(Ha & Hfree & -> & _)]); simpl.
  - apply wp_ret, bmap_done_same; [done|]. by apply bmap_same.
  - pose proof (meta_bounds sb G). destruct (Z.eqb_spec a 0); [lia|]. apply wp_bind.
    eapply wp_updi; [done|]. apply wp_ret. exists t', (t_alloc sb a T), (set_addr bn a (i_di x)).
    split_and!; [done..|]. apply bmap_grow; [done|lia|done|].
    apply grow_direct; [|done..]. intros b. by apply (txn_blocks t).
Qed.

(** The code of bmap after it has the indirect block. *)
Definition bmap_indirect (addr : Z) : M (fst (St:=St)) Z :=
  let* bp := bread dev addr in
  let* dt := bdata bp in
  let addr := le32 dt (4 * (bn - NDIRECT)) in
  let* addr :=
    (if addr =? 0 then
       let* addr := balloc dev in
       (if negb (addr =? 0) then
          let* dt := bdata bp in
          set_bdata bp (put32 dt (4 * (bn - NDIRECT)) addr) ;;;
          log_write bp
        else ret tt) ;;;
       ret addr
     else ret addr) in
  brelse bp ;;;
  ret addr.

Lemma bmap_indirect_ok :
  NDIRECT ≤ bn < MAXFILE → ind (i_di x) ≠ 0 → idle T (ind (i_di x)) → budget 3 2 T →
  wp (bmap_indirect (ind (i_di x))) (Fst t tbl sb k) (λ a s, ∃ t' T',
    s = Fst t' tbl sb k ∧ txn_ok t' T' ∧ bmap_post T (i_di x) bn a T' (i_di x)).
Proof.
  intros Hbn Hne Hidle Hb. set (di := i_di x) in *. set (p := ind di) in *.
  pose proof MAXFILE_eq. pose proof (meta_bounds sb G). pose proof (g_size _ G).
  destruct (wf_slot _ _ Hwf MAXFILE) as [Hp Hpu]; [done|done|]. rewrite islot_ind in Hp, Hpu. fold p in Hp, Hpu.
  assert (islot (t_data T) di bn = le32 (t_data T p) (4 * (bn - NDIRECT))) as Es.
  { unfold islot. destruct (Z.ltb_spec bn NDIRECT); [lia|]. destruct (Z.ltb_spec bn MAXFILE); [|lia].
    fold p. by destruct (Z.eqb_spec p 0). }
  unfold bmap_indirect. apply wp_bind.
  apply (wp_fs_bread t T p _ _ _ 3 1); [done|lia|apply Hidle|done|lia|lia|]. intros i t1 Ht1 Hb1.
  apply wp_bind. eapply (wp_fs_bdata _ _ p); [done|apply lookup_insert_eq|]. cbn [t_get t_data].
  rewrite <-Es. apply wp_bind.
  assert (∀ a t2, txn_ok t2 (t_get p i T) → a = islot (t_data T) di bn →
    (a = 0 → ∀ b, 0 ≤ b < sb_size sb → used sb (t_data T) b = true) →
    wp (brelse i ;;; ret a) (Fst t2 tbl sb k) (λ a s, ∃ t' T',
      s = Fst t' tbl sb k ∧ txn_ok t' T' ∧ bmap_post T di bn a T' di)) as Hsame.
  { intros a t2 Ht2 Ea Hfull. apply wp_bind.
    eapply wp_fs_brelse; [done|apply lookup_insert_eq|apply Hidle|]. intros t3 Ht3.
    rewrite put_get in Ht3 by apply Hidle. apply wp_ret. exists t3, T. split_and!; [done..|].
    by apply bmap_same. }
  destruct (Z.eqb_spec (islot (t_data T) di bn) 0) as [Hz|Hnz]; [|by apply wp_ret, Hsame].
  apply wp_bind. eapply wp_mono.
  { apply (balloc_ok sb G t1 (t_get p i T) tbl k 1 0); [done|by apply (alloc_ok_get sb)|done|lia|lia]. }
  intros a s (t2 & T2 & -> & Ht2 & [(-> & -> & Hfull)|(Ha & Hfree & -> & _)]); simpl.
  { apply wp_bind, wp_ret, wp_ret, Hsame; [done|by rewrite Hz|done]. }
  destruct (Z.eqb_spec a 0); [lia|]. cbn [negb].
  change (t_alloc sb a (t_get p i T)) with (t_get p i (t_alloc sb a T)) in Ht2.
  assert (t_data (t_alloc sb a T) p = t_data T p) as Ed.
  { by apply ind_data. }
  apply wp_bind, wp_bind. eapply (wp_fs_bdata _ _ p); [done|apply lookup_insert_eq|].
  cbn [t_get t_data]. rewrite Ed.
  apply wp_bind. eapply wp_fs_set_bdata; [done|apply lookup_insert_eq| |].
  { apply put_field_block; [by apply (txn_blocks t)|unfold BSIZE; lia..]. }
  intros t3 Ht3. eapply (wp_fs_log_write _ _ _ _ _ _ _ 0 0); [done|apply lookup_insert_eq| | |lia|].
  { apply (g_fs _ G). lia. }
  { destruct Hb as (Hin & ? & ?). pose proof (size_alloc T a). unfold budget. split; [intros; apply Hin; lia|]. cbn [t_set t_get t_logged t_held].
    replace (t_held (t_alloc sb a T)) with (t_held T) by done.
    rewrite map_size_insert_None by apply Hidle. lia. }
  intros t4 Ht4. apply wp_ret, wp_bind. eapply wp_fs_brelse; [done|apply lookup_insert_eq| |].
  { simpl. clear -Hidle. destruct Hidle. set_solver. }
  intros t5 Ht5. rewrite put_upd in Ht5 by exact Hidle. apply wp_ret.
  eexists t5, _. split_and!; [done|exact Ht5|]. apply bmap_grow; [done|lia|done|].
  apply grow_data; [|done..]. intros b. by apply (txn_blocks t).
Qed.
End bmap.

Lemma bmap_ok t T tbl ip x k bn :
  txn_ok t T → alloc_ok sb T → tbl !! ip = Some x → i_dev x = dev →
  inode_wf (t_data T) (i_di x) → 0 ≤ bn < MAXFILE →
  (ind (i_di x) ≠ 0 → idle T (ind (i_di x))) → pbudget 3 2 T (i_di x) →
  wp (bmap ip bn) (Fst t tbl sb k) (bmap_done T tbl ip x k bn).
Proof.
  intros Ht Hao Hx Hdev Hwf Hbn Hidle Hb. pose proof MAXFILE_eq. pose proof (meta_bounds sb G).
  destruct (decide (bn < NDIRECT)); [apply bmap_direct; [done..|lia|done]|].
  unfold bmap. apply wp_bind. eapply wp_geti; [done|]. rewrite Hdev.
  destruct (Z.ltb_spec bn NDIRECT); [lia|]. destruct (Z.ltb_spec (bn - NDIRECT) NINDIRECT); [|lia].
  change (d_addrs (i_di x) !!! Z.to_nat NDIRECT) with (ind (i_di x)). apply wp_bind.
  destruct (Z.eqb_spec (ind (i_di x)) 0) as [Hz|Hnz].
  2: { apply wp_ret. destruct (Z.eqb_spec (ind (i_di x)) 0); [done|]. eapply wp_mono.
       { apply (bmap_indirect_ok t T tbl x k bn); [done..|lia|done|by apply Hidle|by eapply pbudget_budget]. }
       intros a s (t' & T' & -> & Ht' & Hp). exists t', T', (i_di x). by rewrite insert_same. }
  assert (islot (t_data T) (i_di x) bn = 0) as Hsl.
  { unfold islot. destruct (Z.ltb_spec bn NDIRECT); [lia|]. rewrite Hz. by destruct (bn <? MAXFILE). }
  apply wp_bind. eapply wp_mono.
  { apply (balloc_ok sb G t T tbl k 1 1); [done|done| |lia|lia].
    eapply budget_mono; [by eapply pbudget_budget|lia|lia]. }
  intros a s (t1 & T1 & -> & Ht1 & [(-> & -> & Hfull)|(Ha & Hfree & -> & _)]); simpl.
  { apply wp_ret, wp_ret, bmap_done_same; [done|done|]. by apply bmap_same. }
  destruct (Z.eqb_spec a 0); [lia|]. apply wp_bind. eapply wp_updi; [done|]. apply wp_ret.
  destruct (Z.eqb_spec a 0); [lia|].
  set (di1 := set_addr NDIRECT a (i_di x)). set (T1 := t_alloc sb a T) in *.
  assert (grow T (i_di x) T1 di1 MAXFILE a) as Hg.
  { apply grow_ind; try done. intros b. by apply (txn_blocks t). }
  assert (ind di1 = a) as Ei by (unfold di1; by rewrite ind_set_addr, decide_True by
    (done || apply (wf_di _ _ Hwf))).
  eapply wp_mono.
  { rewrite <-Ei at 1. change di1 with (i_di (set_di di1 x)).
    apply (bmap_indirect_ok t1 T1); [done|by apply Hg|by eapply slot_set_wf, Hg|lia|cbn; by rewrite Ei| |].
    - cbn. rewrite Ei. apply idle_upd, idle_upd. by apply (ao_free _ _ Hao).
    - apply (pbudget_budget _ _ _ di1). pose proof (gr_charge _ _ _ _ _ _ Hg) as Hc.
      rewrite decide_True in Hc by done. destruct Hb as (Hin & ? & ?). split_and!; [done|lia|].
      change (t_held T1) with (t_held T). lia. }
  intros b s (t' & T' & -> & Ht' & Hp). exists t', T', di1. split_and!; [done..|].
  eapply (bmap_grow_ind T _ bn a b T1 di1); [done|lia|done|done|done|done|].
  rewrite (ss_slot _ _ _ _ _ _ (gr_slot _ _ _ _ _ _ Hg)), decide_False by lia. done.
Qed.

(** A block that is there is found without changing anything. *)
Lemma bmap_mapped t T tbl ip x k bn Q :
  txn_ok t T → tbl !! ip = Some x → i_dev x = dev → inode_wf (t_data T) (i_di x) →
  0 ≤ bn < MAXFILE → islot (t_data T) (i_di x) bn ≠ 0 →
  (ind (i_di x) ≠ 0 → idle T (ind (i_di x))) → budget 0 1 T →
  (∀ t', txn_ok t' T → Q (islot (t_data T) (i_di x) bn) (Fst t' tbl sb k)) →
  wp (bmap ip bn) (Fst t tbl sb k) Q.
Proof.
  intros Ht Hx Hdev Hwf Hbn Hnz Hidle Hb HQ. pose proof MAXFILE_eq.
  unfold bmap. apply wp_bind. eapply wp_geti; [done|]. rewrite Hdev. revert Hnz HQ. unfold islot.
  destruct (Z.ltb_spec bn NDIRECT).
  { intros Hnz HQ. destruct (Z.eqb_spec (d_addrs (i_di x) !!! Z.to_nat bn) 0); [done|]. by apply wp_ret, HQ. }
  destruct (Z.ltb_spec bn MAXFILE); [|lia]. destruct (Z.ltb_spec (bn - NDIRECT) NINDIRECT); [|lia].
  change (d_addrs (i_di x) !!! Z.to_nat NDIRECT) with (ind (i_di x)).
  destruct (Z.eqb_spec (ind (i_di x)) 0) as [|Hi]; [done|]. intros Hnz HQ.
  apply wp_bind, wp_ret. destruct (Z.eqb_spec (ind (i_di x)) 0); [done|].
  destruct (wf_slot _ _ Hwf MAXFILE) as [Hp _]; [done|done|]. rewrite islot_ind in Hp.
  pose proof (meta_bounds sb G). pose proof (g_size _ G). destruct (Hidle Hi) as [Hh Hpend].
  apply wp_bind. apply (wp_fs_bread t T _ _ _ _ 0 0); [done|lia|done|done|lia|lia|]. intros i t1 Ht1 _.
  apply wp_bind. eapply (wp_fs_bdata _ _ (ind (i_di x))); [done|apply lookup_insert_eq|]. cbn [t_get t_data].
  destruct (Z.eqb_spec (le32 (t_data T (ind (i_di x))) (4 * (bn - NDIRECT))) 0); [done|].
  apply wp_bind, wp_ret, wp_bind. eapply wp_fs_brelse; [done|apply lookup_insert_eq|done|].
  intros t2 Ht2. rewrite put_get in Ht2 by done. by apply wp_ret, HQ.
Qed.
End wf.
