(* ===== verification/FsCopy.v ===== *)
(** * Copies between the buffers and the memory of a process

    either_copyin and either_copyout of kernel/proc.c move bytes between the
    data of a buffer and an address of the kernel or of the current process.
    They are compared with stores and loads of single bytes. *)

From S2P Require Import Prelude Riscv Mem Kalloc Vm VmTree VmSpec VmUser VmCopy Block.

(** ** Single bytes *)

(** The byte at an address of user ([user]) or kernel memory. *)
Definition src_load (pgtbl : Z) (user : bool) (m : mem) (a : Z) : option Z :=
  if user then user_load m pgtbl a else Some (load8 m a).
Definition dst_store (pgtbl : Z) (user : bool) (m : mem) (a b : Z) : option mem :=
  if user then user_store m pgtbl a b else Some (store8 m a b).

(** Bytes stored one after the other, up to the first fault: the status and
    the memory. *)
Fixpoint store_all (pgtbl : Z) (user : bool) (m : mem) (dst : Z) (bs : list Z) : Z * mem :=
  match bs with
  | [] => (0, m)
  | b :: bs =>
      match dst_store pgtbl user m dst b with
      | None => (-1, m)
      | Some m => store_all pgtbl user m (dst + 1) bs
      end
  end.

Lemma store_all_status pgtbl user m dst bs :
  (store_all pgtbl user m dst bs).1 = 0 ∨ (store_all pgtbl user m dst bs).1 = -1.
Proof.
  revert m dst. induction bs as [|b bs IH]; intros m dst; cbn; [by left|].
  destruct (dst_store _ _ _ _ _); [apply IH|by right].
Qed.

Lemma store_all_app pgtbl user m dst bs bs' :
  store_all pgtbl user m dst (bs ++ bs') =
    let r := store_all pgtbl user m dst bs in
    if r.1 =? 0 then store_all pgtbl user r.2 (dst + length bs) bs' else r.
Proof.
  revert m dst. induction bs as [|b bs IH]; intros m dst; cbn [app store_all].
  { cbn. by rewrite Z.add_0_r. }
  destruct (dst_store pgtbl user m dst b) as [m1|]; [|done]. rewrite IH. cbn zeta.
  by replace (dst + length (b :: bs)) with (dst + 1 + length bs) by (cbn; lia).
Qed.

Lemma store_all_kernel pgtbl m dst bs :
  (store_all pgtbl false m dst bs).1 = 0 ∧ (store_all pgtbl false m dst bs).2 = store_bytes m dst bs.
Proof. revert m dst. induction bs as [|b bs IH]; intros m dst; cbn; [done|]. apply IH. Qed.

(** copyout from a buffer that holds [bs]. *)
Lemma copyout_list kend m root lo hi va src bs :
  user_ok kend m root lo hi → lo ≤ src → src + length bs ≤ hi → 0 ≤ va → va + length bs ≤ 2^64 →
  (∀ j : nat, (j < length bs)%nat → load8 m (src + j) = bs !!! j) →
  copyout_bytes m root va src (length bs) = store_all root true m va bs.
Proof.
  revert m va src. induction bs as [|b bs IH]; intros m va src Hok Hlo Hhi Hva Hmax Hbs; [done|].
  cbn [length copyout_bytes store_all dst_store] in *. pose proof (Hbs 0%nat ltac:(lia)) as H0. rewrite Z.add_0_r in H0.
  cbn in H0. rewrite H0. unfold user_store.
  destruct (user_addr true m root va) as [a|] eqn:Ha; cbn; [|done].
  destruct (user_addr_page true m root va a) as (pa & Hpa & Hin); [lia|done|].
  destruct (user_ok_store kend true m (store8 m a b) root lo hi (PGROUNDDOWN va) pa) as (Hok1 & _); [done|done| |].
  { intros x Hx. rewrite load8_store8. case_decide; [subst|done]. exfalso. by apply (Hx pa); [apply list_elem_of_here|]. }
  apply IH; [done|lia|lia|lia|lia|]. intros j Hj. pose proof (Hbs (S j) ltac:(lia)) as H1. change ((b :: bs) !!! S j) with (bs !!! j) in H1. rewrite <-H1.
  rewrite load8_store8, decide_False; [f_equal; lia|]. intros ->. destruct Hok as (_ & Hu & _).
  destruct (Hu (PGROUNDDOWN va) pa) as (_ & _ & Hd); [by eapply user_page_weaken|]. apply (Hd _ Hin). lia.
Qed.

Section copy.
Context (kend : Z) (kend_pos : 0 < kend) (pgtbl : Z) (bufaddr : nat → Z).

(** Memory of the buffers' data. *)
Definition bufmem (y : Z) : Prop := ∃ b, bufaddr b ≤ y < bufaddr b + BSIZE.

(** Memories that differ in the buffers only. *)
Definition agree_but (m m' : mem) : Prop := ∀ y, ¬ bufmem y → load8 m' y = load8 m y.

(** The process's page table is well-formed, and neither it nor the pages that
    it maps for the user are in the buffers. *)
Definition addressable (user : bool) (m : mem) : Prop :=
  user = true → ∀ b, user_ok kend m pgtbl (bufaddr b) (bufaddr b + BSIZE).

#[global] Instance agree_but_refl : Reflexive agree_but.
Proof. done. Qed.
#[global] Instance agree_but_trans : Transitive agree_but.
Proof. intros m1 m2 m3 H1 H2 y Hy. by rewrite H2, H1. Qed.

Lemma addressable_agree m m' :
  addressable true m → agree_but m m' →
  addressable true m' ∧ ∀ w va, user_page w m' pgtbl va = user_page w m pgtbl va.
Proof.
  intros Ha Hm. assert (∀ q x, q ∈ pt_pages m 2 pgtbl → in_page q x → load8 m' x = load8 m x) as Hp.
  { intros q x Hq Hx. apply Hm. intros [b Hb]. destruct (Ha eq_refl b) as (_ & _ & Hd). by apply (Hd q x). }
  split; [intros _ b|]; [by destruct (user_ok_agree kend m m' pgtbl _ _ (Ha eq_refl b) Hp)|].
  by destruct (user_ok_agree kend m m' pgtbl _ _ (Ha eq_refl 0%nat) Hp) as (_ & ? & _).
Qed.

(** The page of a user address is in no buffer. *)
Lemma user_page_buf w m va pa x :
  addressable true m → user_page w m pgtbl va = Some pa → in_page pa x → ¬ bufmem x.
Proof.
  intros Ha Hpa Hx [b Hb]. destruct (Ha eq_refl b) as (_ & Hu & _).
  destruct (Hu va pa) as (_ & _ & Hd); [by eapply user_page_weaken|]. by apply (Hd x).
Qed.

Lemma src_load_agree user m m' a :
  addressable user m → agree_but m m' → 0 ≤ a < 2^64 → (user = false → ¬ bufmem a) →
  src_load pgtbl user m' a = src_load pgtbl user m a.
Proof.
  intros Ha Hm Hr Hb. destruct user; cbn; [|f_equal; auto].
  destruct (addressable_agree m m' Ha Hm) as [_ Hp]. unfold user_load.
  assert (user_addr false m' pgtbl a = user_addr false m pgtbl a) as E by (unfold user_addr; by rewrite Hp).
  rewrite E. destruct (user_addr false m pgtbl a) as [x|] eqn:Ex; [|done]. cbn. f_equal. apply Hm.
  destruct (user_addr_page false m pgtbl a x Hr Ex) as (pa & Hpa & Hin). by eapply user_page_buf.
Qed.

(** A store to user memory. *)
Lemma dst_store_ok user m a b m' :
  addressable user m → 0 ≤ a < 2^64 → dst_store pgtbl user m a b = Some m' →
  addressable user m' ∧ (user = true → ∀ w va, user_page w m' pgtbl va = user_page w m pgtbl va).
Proof.
  intros Ha Hr H. destruct user; [|done]. apply fmap_Some in H as (x & Hx & ->).
  destruct (user_addr_page true m pgtbl a x Hr Hx) as (pa & Hpa & Hin).
  assert (same_outside [pa] m (store8 m x b)) as Hs.
  { intros y Hy. rewrite load8_store8. case_decide; [subst|done]. exfalso. by apply (Hy pa); [apply list_elem_of_here|]. }
  split; [intros _ i|intros _].
  - by destruct (user_ok_store kend true m (store8 m x b) pgtbl _ _ _ pa (Ha eq_refl i) Hpa Hs) as (? & _).
  - by destruct (user_ok_store kend true m (store8 m x b) pgtbl _ _ _ pa (Ha eq_refl 0%nat) Hpa Hs) as (_ & ? & _).
Qed.

Lemma store_all_ok user m dst bs :
  addressable user m → 0 ≤ dst → dst + length bs ≤ 2^64 →
  let r := store_all pgtbl user m dst bs in
  addressable user r.2 ∧ (user = true → ∀ w va, user_page w r.2 pgtbl va = user_page w m pgtbl va) ∧
  ((user = true → ∀ i, 0 ≤ i < length bs → is_Some (user_addr true m pgtbl (dst + i))) → r.1 = 0).
Proof.
  revert m dst. induction bs as [|b bs IH]; intros m dst Ha Hd Hm; cbn [store_all length] in *; [done|].
  destruct (dst_store pgtbl user m dst b) as [m1|] eqn:E; cycle 1.
  { split_and!; [done..|]. intros Hw. destruct user; [|done]. cbn in E. destruct (Hw eq_refl 0) as [x Hx]; [lia|].
    rewrite Z.add_0_r in Hx. unfold user_store in E. by rewrite Hx in E. }
  destruct (dst_store_ok user m dst b m1 Ha ltac:(lia) E) as [Ha1 Hp1].
  destruct (IH m1 (dst + 1) Ha1 ltac:(lia) ltac:(lia)) as (Ha2 & Hp2 & Hr). split_and!; [done| |].
  - intros Hu w va. by rewrite Hp2, Hp1.
  - intros Hw. apply Hr. intros Hu i Hi. unfold user_addr. rewrite Hp1 by done.
    replace (dst + 1 + i) with (dst + (i + 1)) by lia. apply Hw; [done|lia].
Qed.

(** What the buffers hold does not matter for the stores. *)
Lemma store_all_agree user m m' dst bs :
  addressable user m → agree_but m m' → 0 ≤ dst → dst + length bs ≤ 2^64 →
  (store_all pgtbl user m' dst bs).1 = (store_all pgtbl user m dst bs).1 ∧
  agree_but (store_all pgtbl user m dst bs).2 (store_all pgtbl user m' dst bs).2.
Proof.
  revert m m' dst. induction bs as [|b bs IH]; intros m m' dst Ha Hm Hd Hl; cbn [store_all length] in *; [done|].
  assert (∀ x, agree_but (store8 m x b) (store8 m' x b)) as Hs.
  { intros x y Hy. rewrite !load8_store8. case_decide; [done|by apply Hm]. }
  destruct user; cbn [dst_store].
  - destruct (addressable_agree m m' Ha Hm) as [_ Hp]. unfold user_store.
    assert (user_addr true m' pgtbl dst = user_addr true m pgtbl dst) as -> by (unfold user_addr; by rewrite Hp).
    destruct (user_addr true m pgtbl dst) as [x|] eqn:Ex; cbn; [|done]. apply IH; [|done|lia|lia].
    eapply (dst_store_ok true m dst b); [done|lia|]. cbn. unfold user_store. by rewrite Ex.
  - apply IH; [by intros ?|done|lia|lia].
Qed.

(** A byte that is not stored to. *)
Lemma store_all_frame m dst bs x :
  addressable true m → 0 ≤ dst → dst + length bs ≤ 2^64 →
  (∀ i, 0 ≤ i < length bs → user_addr true m pgtbl (dst + i) ≠ Some x) →
  load8 (store_all pgtbl true m dst bs).2 x = load8 m x.
Proof.
  revert m dst. induction bs as [|b bs IH]; intros m dst Ha Hd Hm Hx; cbn [store_all length dst_store] in *; [done|].
  destruct (user_store m pgtbl dst b) as [m1|] eqn:E; [|done].
  destruct (dst_store_ok true m dst b m1 Ha ltac:(lia) E) as [Ha1 Hp1]. rewrite IH; [|done|lia|lia|].
  - apply fmap_Some in E as (y & Hy & ->). rewrite load8_store8, decide_False; [done|]. intros ->.
    apply (Hx 0); [lia|]. by rewrite Z.add_0_r.
  - intros i Hi. unfold user_addr. rewrite Hp1 by done. replace (dst + 1 + i) with (dst + (i + 1)) by lia. apply Hx. lia.
Qed.

(** After stores without a fault, loads give the bytes. *)
Lemma store_all_loads user m dst bs :
  addressable user m → (user = true → user_inj m pgtbl) → 0 ≤ dst → dst + length bs ≤ 2^64 →
  (store_all pgtbl user m dst bs).1 = 0 →
  ∀ i : nat, (i < length bs)%nat → src_load pgtbl user (store_all pgtbl user m dst bs).2 (dst + i) = Some (u8 (bs !!! i)).
Proof.
  destruct user; cycle 1.
  { intros _ _ Hd Hl _ i Hi. destruct (store_all_kernel pgtbl m dst bs) as [_ ->]. cbn. f_equal.
    rewrite load8_store_bytes, decide_True by lia. do 2 f_equal. lia. }
  intros Ha Hinj. specialize (Hinj eq_refl). revert m dst Ha Hinj.
  induction bs as [|b bs IH]; intros m dst Ha Hinj Hd Hm Hr i Hi; cbn [store_all length dst_store] in *; [lia|].
  destruct (user_store m pgtbl dst b) as [m1|] eqn:E; [|done].
  destruct (dst_store_ok true m dst b m1 Ha ltac:(lia) E) as [Ha1 Hp1]. apply fmap_Some in E as (x & Hx & ->).
  set (m1 := store8 m x b) in *.
  assert (∀ w va, user_addr w m1 pgtbl va = user_addr w m pgtbl va) as Hua by (intros; unfold user_addr; by rewrite Hp1).
  destruct i as [|i].
  - rewrite Z.add_0_r. cbn [src_load]. unfold user_load.
    destruct (store_all_ok true m1 (dst + 1) bs Ha1 ltac:(lia) ltac:(lia)) as (_ & Hp2 & _).
    assert (user_addr false (store_all pgtbl true m1 (dst + 1) bs).2 pgtbl dst = Some x) as ->.
    { unfold user_addr. rewrite Hp2, Hp1 by done. fold (user_addr false m pgtbl dst). by eapply user_addr_weaken. }
    cbn. f_equal. rewrite store_all_frame; [|done|lia|lia|].
    + unfold m1. by rewrite load8_store8, decide_True.
    + intros j Hj. rewrite Hua. intros Hj2. assert (dst = dst + 1 + j); [|lia].
      apply (Hinj _ _ x); [lia|lia|by eapply user_addr_weaken..].
  - change ((b :: bs) !!! S i) with (bs !!! i). replace (dst + S i) with (dst + 1 + i) by lia.
    apply IH; [done| |lia|lia|done|lia]. intros v1 v2 a. rewrite !Hua. apply Hinj.
Qed.

(** copyin into a buffer, when every byte can be read. *)
Lemma copyin_buf k i o len src f :
  addressable true (km_mem k) → 0 ≤ o → 0 ≤ len → o + len ≤ BSIZE → 0 ≤ src → src + len < 2^64 →
  (∀ j, 0 ≤ j < len → src_load pgtbl true (km_mem k) (src + j) = Some (f j)) →
  ∃ k', copyin pgtbl (bufaddr i + o) src len k = Done 0 k' ∧ freelist k' = freelist k ∧
    agree_but (km_mem k) (km_mem k') ∧ load_bytes (km_mem k') (bufaddr i + o) len = f <$> seqZ 0 len.
Proof using kend_pos.
  intros Ha Ho Hl Hol Hs Hsl Hf. specialize (Ha eq_refl i).
  destruct (copyin_loop kend kend_pos _ _ pgtbl (S (Z.to_nat len)) k (bufaddr i + o) src len Ha) as (k' & Hrun & Hfl & Hm);
    [lia|lia|lia|lia|lia|].
  destruct (copyin_bytes_spec kend (km_mem k) pgtbl _ _ (bufaddr i + o) src (Z.to_nat len) Ha) as [Hfr Hget]; [lia..|].
  destruct Hget as [Hz Hget].
  { intros j Hj. specialize (Hf j ltac:(lia)). cbn in Hf. apply fmap_Some in Hf as (x & Hx & _). by rewrite Hx. }
  rewrite Hz in Hrun. exists k'. split; [exact Hrun|]. split; [done|]. split.
  - intros y Hy. rewrite (Hm y). apply Hfr. intros Hin. apply Hy. exists i. lia.
  - unfold load_bytes. apply list_fmap_ext. intros j v Hv%list_elem_of_lookup_2. apply elem_of_seqZ in Hv.
    rewrite (Hm (bufaddr i + o + v)). specialize (Hf v ltac:(lia)). cbn in Hf. apply fmap_Some in Hf as (x & Hx & ->).
    apply Hget; [lia|done].
Qed.

(** copyin stops at the first byte that cannot be read; the bytes before it
    have been copied. *)
Lemma copyin_bytes_fault m lo hi dst va (n j : nat) :
  user_ok kend m pgtbl lo hi → lo ≤ dst → dst + n ≤ hi → 0 ≤ va → va + n ≤ 2^64 → (j < n)%nat →
  (∀ i : nat, (i < j)%nat → is_Some (user_load m pgtbl (va + i))) → user_load m pgtbl (va + j) = None →
  let r := copyin_bytes m pgtbl dst va n in
  r.1 = -1 ∧ (∀ x, ¬ dst ≤ x < dst + n → load8 r.2 x = load8 m x) ∧
  ∀ i : nat, (i < j)%nat → Some (load8 r.2 (dst + i)) = user_load m pgtbl (va + i).
Proof.
  revert m va dst j. induction n as [|n IH]; intros m va dst j Hok Hlo Hhi Hva Hmax Hj Hb Hf; [lia|]. cbn [copyin_bytes].
  destruct j as [|j]; [rewrite Z.add_0_r in Hf; rewrite Hf; split_and!; [done|done|lia]|].
  destruct (Hb 0%nat ltac:(lia)) as [b Eb]. rewrite Z.add_0_r in Eb. rewrite Eb. set (m1 := store8 m dst b).
  assert (∀ x, ¬ lo ≤ x < hi → load8 m1 x = load8 m x) as Hm1.
  { intros x Hx. unfold m1. rewrite load8_store8. by case_decide; [lia|]. }
  destruct (user_ok_buffer kend m m1 pgtbl lo hi Hok Hm1) as (Hok1 & Hup & _).
  assert (∀ a, 0 ≤ a < 2^64 → user_load m1 pgtbl a = user_load m pgtbl a) as Hul.
  { intros a Ha. unfold user_load. assert (user_addr false m1 pgtbl a = user_addr false m pgtbl a) as -> by (unfold user_addr; by rewrite Hup).
    destruct (user_addr false m pgtbl a) as [x|] eqn:Ex; [|done]. cbn. f_equal. apply Hm1.
    destruct (user_addr_page false m pgtbl a x Ha Ex) as (pa & Hpa & Hin). destruct Hok as (_ & Hu & _).
    destruct (Hu _ _ Hpa) as (_ & _ & Hd). by apply Hd. }
  destruct (IH m1 (va + 1) (dst + 1) j) as (H1 & H2 & H3); [done|lia..| | |].
  { intros i Hi. rewrite Hul by lia. replace (va + 1 + i) with (va + S i) by lia. apply Hb. lia. }
  { rewrite Hul by lia. by replace (va + 1 + j) with (va + S j) by lia. }
  split; [done|]. split.
  - intros x Hx. rewrite H2 by lia. unfold m1. rewrite load8_store8. by case_decide; [lia|].
  - intros [|i] Hi.
    + rewrite !Z.add_0_r, Eb, H2 by lia. unfold m1. rewrite load8_store8, decide_True by done. f_equal.
      apply fmap_Some in Eb as (a & _ & ->). apply u8_load8.
    + replace (dst + S i) with (dst + 1 + i) by lia. rewrite H3, Hul by lia. f_equal. lia.
Qed.

(** copyout of the bytes [bs] of a buffer. *)
Lemma copyout_buf k i o dst bs :
  addressable true (km_mem k) → 0 ≤ o → o + length bs ≤ BSIZE → 0 ≤ dst → dst + length bs < 2^64 →
  (∀ j : nat, (j < length bs)%nat → load8 (km_mem k) (bufaddr i + o + j) = bs !!! j) →
  ∃ k', copyout pgtbl dst (bufaddr i + o) (length bs) k = Done (store_all pgtbl true (km_mem k) dst bs).1 k' ∧
    freelist k' = freelist k ∧ km_mem k' ≡ₘ (store_all pgtbl true (km_mem k) dst bs).2.
Proof using kend_pos.
  intros Ha Ho Hol Hd Hdl Hbs. specialize (Ha eq_refl i).
  destruct (copyout_loop kend kend_pos _ _ pgtbl (S (Z.to_nat (length bs))) k dst (bufaddr i + o) (length bs) Ha) as (k' & Hrun & Hfl & Hm);
    [lia|lia|lia|lia|lia|].
  rewrite Nat2Z.id in Hrun, Hm. rewrite (copyout_list kend _ _ _ _ _ _ _ Ha) in Hrun, Hm by (done || lia).
  exists k'. split; [|done]. unfold copyout. rewrite Nat2Z.id. exact Hrun.
Qed.

(** A source of [n] bytes [g]: it can be read, and is not in the buffers. *)
Record source (user : bool) (m : mem) (src n : Z) (g : Z → Z) : Prop := {
  so_range : 0 ≤ src ∧ src + n < 2^64;
  so_addr : addressable user m;
  so_buf : user = false → ∀ y, src ≤ y < src + n → ¬ bufmem y;
  so_bytes i : 0 ≤ i < n → src_load pgtbl user m (src + i) = Some (g i)
}.

(** A destination of [n] bytes: it can be written, and is not in the buffers;
    in user memory no page is mapped twice. *)
Record dest (user : bool) (m : mem) (dst n : Z) : Prop := {
  de_range : 0 ≤ dst ∧ dst + n < 2^64;
  de_addr : addressable user m;
  de_buf : user = false → ∀ y, dst ≤ y < dst + n → ¬ bufmem y;
  de_write : user = true → user_inj m pgtbl ∧ ∀ i, 0 ≤ i < n → is_Some (user_addr true m pgtbl (dst + i))
}.

Lemma src_load_u8 user m a b : src_load pgtbl user m a = Some b → u8 b = b.
Proof.
  destruct user; cbn.
  - intros (x & _ & ->)%fmap_Some. apply u8_load8.
  - intros [= <-]. apply u8_load8.
Qed.

Lemma dest_le user m dst n n' : dest user m dst n → n' ≤ n → dest user m dst n'.
Proof.
  intros [Hr Ha Hb Hw] Hn. split; [lia|done| |].
  - intros Hu y Hy. apply Hb; [done|lia].
  - intros Hu. destruct (Hw Hu) as [Hi Hx]. split; [done|]. intros i Hi'. apply Hx. lia.
Qed.

Lemma dest_agree user m m' dst n : dest user m dst n → agree_but m m' → dest user m' dst n.
Proof.
  intros [Hr Ha Hb Hw] Hm. destruct user; [|by split].
  destruct (addressable_agree _ _ Ha Hm) as [Ha' Hp], (Hw eq_refl) as [Hi Hx]. split; [done..|]. intros _.
  assert (∀ w va, user_addr w m' pgtbl va = user_addr w m pgtbl va) as E by (intros; unfold user_addr; by rewrite Hp).
  split.
  - intros v1 v2 a H1 H2. rewrite !E. by apply Hi.
  - intros i Hi'. rewrite E. by apply Hx.
Qed.

(** Bytes stored at a destination can be loaded. *)
Lemma dest_loads user m m' dst bs :
  dest user m dst (length bs) → agree_but (store_all pgtbl user m dst bs).2 m' →
  (store_all pgtbl user m dst bs).1 = 0 ∧
  ∀ i : nat, (i < length bs)%nat → src_load pgtbl user m' (dst + i) = Some (u8 (bs !!! i)).
Proof.
  intros [Hr Ha Hb Hw] Hm. destruct (store_all_ok user m dst bs Ha) as (Ha' & _ & Hs); [lia..|].
  assert ((store_all pgtbl user m dst bs).1 = 0) as E by (apply Hs; intros Hu; by apply Hw).
  split; [done|]. intros i Hi. rewrite <-(store_all_loads user m dst bs); [|done|intros Hu; by apply Hw|lia|lia|done|done].
  apply src_load_agree; [done..|lia|]. intros Hu. apply Hb; [done|lia].
Qed.
End copy.
