(* ===== verification/FsFile.v ===== *)
(** * Contents of files

    readi of kernel/fs.c against the bytes of a file, for an address in the
    kernel or in the memory of the current process. *)

From S2P Require Import Prelude Riscv Mem Kalloc Vm Block FsFormat Txn Fs FsBlocks FsInode FsCopy VmCopy.

(** ** The bytes of a file *)

Definition fbyte (D : Z → block) (di : dinode) (o : Z) : Z :=
  D (islot D di (o `div` BSIZE)) !!! Z.to_nat (o `mod` BSIZE).

(** Every block below the size of the file is there. *)
Definition no_holes (D : Z → block) (di : dinode) : Prop :=
  ∀ bn, 0 ≤ bn → bn * BSIZE < d_size di → islot D di bn ≠ 0.

Lemma mod_bsize o : 0 ≤ o `mod` BSIZE < BSIZE.
Proof. by apply Z.mod_pos_bound. Qed.

Section file.
Context {St : Type} {dev : Z} `{!TxnLayer St dev}.
Context (sb : superblock) (G : geom sb).
Context (kend : Z) (kend_pos : 0 < kend) (pgtbl : Z) (bufaddr : nat → Z).
Abbreviation addressable := (addressable kend pgtbl bufaddr).
Abbreviation agree_but := (agree_but bufaddr).

(** ** either_copyout and either_copyin *)

Lemma wp_on_k {A} (m : M kmem A) (t : St) tbl k a k' Q :
  m k = Done a k' → Q a (Fst t tbl sb k') → wp (on_k m) (Fst t tbl sb k) Q.
Proof. intros Hm HQ. unfold wp, on_k. cbn [fk]. by rewrite Hm. Qed.

Lemma wp_sync_buf t T tbl k bn i o len Q :
  txn_ok t T → t_held T !! bn = Some i → 0 ≤ o → 0 ≤ len → o + len ≤ BSIZE →
  (∀ k', freelist k' = freelist k →
    (∀ y, load8 (km_mem k') y =
      if decide (bufaddr i + o ≤ y < bufaddr i + o + len)
      then t_data T bn !!! Z.to_nat (y - bufaddr i) else load8 (km_mem k) y) →
    Q tt (Fst t tbl sb k')) →
  wp (sync_buf bufaddr i o len) (Fst t tbl sb k) Q.
Proof.
  intros Ht Hh Ho Hl Hm HQ. apply wp_bind. eapply wp_fs_bdata; [done..|].
  apply wp_stmem. pose proof (txn_blocks t T bn Ht) as [Hlen Hb]. apply HQ; [done|].
  intros y. cbn [upd_mem km_mem]. rewrite load8_store_bytes, length_take, length_drop.
  destruct (decide (bufaddr i + o ≤ y < bufaddr i + o + len)).
  - rewrite decide_True by lia. rewrite !list_lookup_total_alt, lookup_take_lt, lookup_drop by lia.
    replace (Z.to_nat o + Z.to_nat (y - (bufaddr i + o)))%nat with (Z.to_nat (y - bufaddr i)) by lia.
    destruct (lookup_lt_is_Some_2 (t_data T bn) (Z.to_nat (y - bufaddr i))) as [v E]; [lia|].
    rewrite E. cbn. rewrite Forall_lookup in Hb. rewrite u8_small by (by eapply Hb).
    symmetry. by apply list_lookup_total_correct.
  - by rewrite decide_False by lia.
Qed.

Lemma sync_agree k k1 i o len (g : Z → Z) :
  0 ≤ o → o + len ≤ BSIZE →
  (∀ y, load8 (km_mem k1) y = if decide (bufaddr i + o ≤ y < bufaddr i + o + len) then g y else load8 (km_mem k) y) →
  agree_but (km_mem k) (km_mem k1).
Proof. intros Ho Hl H1 y Hy. rewrite H1, decide_False; [done|]. intros Hin. apply Hy. exists i. lia. Qed.

(** The bytes of a block that are copied. *)
Definition piece (d : block) (o len : Z) : list Z := take (Z.to_nat len) (drop (Z.to_nat o) d).

Lemma length_piece d o len : block_ok d → 0 ≤ o → 0 ≤ len → o + len ≤ BSIZE → length (piece d o len) = Z.to_nat len.
Proof. intros [Hl _] Ho Hn Hm. unfold piece. rewrite length_take, length_drop, Hl. lia. Qed.

Lemma lookup_piece d o len (j : nat) : 0 ≤ o → j < len → piece d o len !!! j = d !!! Z.to_nat (o + j).
Proof.
  intros Ho Hj. unfold piece. rewrite !list_lookup_total_alt, lookup_take_lt, lookup_drop by lia.
  rewrite <-list_lookup_total_alt. f_equal. lia.
Qed.

Lemma piece_byte d o len (j : nat) : block_ok d → u8 (piece d o len !!! j) = piece d o len !!! j.
Proof.
  intros [_ Hb]. apply u8_small. rewrite list_lookup_total_alt. destruct (piece d o len !! j) as [x|] eqn:E; [|done]. cbn.
  assert (Forall (λ b, 0 ≤ b < 256) (piece d o len)) as Hf by (by apply Forall_take, Forall_drop).
  rewrite Forall_lookup in Hf. by eapply Hf.
Qed.

Lemma wp_copyout user t T tbl k bn i o len dst Q :
  txn_ok t T → t_held T !! bn = Some i → 0 ≤ o → 0 ≤ len → o + len ≤ BSIZE →
  addressable user (km_mem k) → 0 ≤ dst → dst + len < 2^64 →
  (let r := store_all pgtbl user (km_mem k) dst (piece (t_data T bn) o len) in
   ∀ k', freelist k' = freelist k → agree_but r.2 (km_mem k') → Q r.1 (Fst t tbl sb k')) →
  wp (either_copyout pgtbl bufaddr user dst i o len) (Fst t tbl sb k) Q.
Proof using kend_pos.
  intros Ht Hh Ho Hl Hm Ha Hd Hdl HQ. cbv zeta in HQ. apply wp_bind. eapply wp_sync_buf; [done..|].
  intros k1 Hf1 H1. pose proof (txn_blocks t T bn Ht) as Hok.
  pose proof (length_piece (t_data T bn) o len Hok Ho Hl Hm) as Hlen. set (bs := piece (t_data T bn) o len) in *.
  pose proof (sync_agree _ _ _ _ _ _ Ho Hm H1) as Hk1.
  assert (∀ j : nat, (j < length bs)%nat → load8 (km_mem k1) (bufaddr i + o + j) = bs !!! j) as Hbs.
  { intros j Hj. rewrite H1, decide_True by lia. unfold bs. rewrite lookup_piece by lia. f_equal. lia. }
  destruct user.
  - destruct (addressable_agree _ _ _ _ _ Ha Hk1) as [Ha1 _].
    destruct (copyout_buf kend kend_pos pgtbl bufaddr k1 i o dst bs Ha1) as (k' & Hrun & Hfl & Hmem); [lia|lia|lia|lia|done|].
    replace (Z.of_nat (length bs)) with len in Hrun by lia.
    destruct (store_all_agree kend pgtbl bufaddr true (km_mem k) (km_mem k1) dst bs Ha Hk1) as [E1 E2]; [lia|lia|].
    eapply wp_on_k; [exact Hrun|]. rewrite E1. apply HQ; [congruence|]. intros y Hy. by rewrite (Hmem y), E2.
  - apply wp_bind, wp_stmem, wp_ret. destruct (store_all_kernel pgtbl (km_mem k) dst bs) as [E1 E2]. rewrite E1, E2 in HQ.
    apply HQ; [done|]. intros y Hy. cbn [upd_mem km_mem]. rewrite load8_memmove, load8_store_bytes by done.
    destruct (decide (dst ≤ y < dst + len)); [|rewrite decide_False by lia; by apply Hk1].
    rewrite decide_True by lia. replace (bufaddr i + o + (y - dst)) with (bufaddr i + o + Z.to_nat (y - dst)) by lia.
    rewrite Hbs by lia. unfold bs. by rewrite piece_byte.
Qed.

Lemma wp_copyin user t T tbl k bn i o len src f Q :
  txn_ok t T → t_held T !! bn = Some i → 0 ≤ o → 0 ≤ len → o + len ≤ BSIZE →
  addressable user (km_mem k) → 0 ≤ src → src + len < 2^64 →
  (user = false → ∀ y, src ≤ y < src + len → ¬ bufmem bufaddr y) →
  (∀ j, 0 ≤ j < len → src_load pgtbl user (km_mem k) (src + j) = Some (f j)) →
  (∀ k' t', freelist k' = freelist k → agree_but (km_mem k) (km_mem k') →
    txn_ok t' (t_set bn (put_bytes (t_data T bn) o (f <$> seqZ 0 len)) T) → Q 0 (Fst t' tbl sb k')) →
  wp (either_copyin pgtbl bufaddr i o user src len) (Fst t tbl sb k) Q.
Proof using kend_pos.
  intros Ht Hh Ho Hl Hm Ha Hs Hsl Hsrc Hf HQ. apply wp_bind. eapply wp_sync_buf; [done..|].
  intros k1 Hf1 H1. pose proof (sync_agree _ _ _ _ _ _ Ho Hm H1) as Hk1.
  assert (∀ j, 0 ≤ j < len → src_load pgtbl user (km_mem k1) (src + j) = Some (f j)) as Hf'.
  { intros j Hj. rewrite <-(Hf j Hj). eapply src_load_agree; [done|done|lia|]. intros Hu. apply Hsrc; [done|lia]. }
  assert (∃ k2, (if user then on_k (copyin pgtbl (bufaddr i + o) src len)
      else stmem (λ m, memmove m (bufaddr i + o) src len) ;;; ret 0) (Fst t tbl sb k1) = Done 0 (Fst t tbl sb k2) ∧
    freelist k2 = freelist k1 ∧ agree_but (km_mem k1) (km_mem k2) ∧
    load_bytes (km_mem k2) (bufaddr i + o) len = f <$> seqZ 0 len) as (k2 & Hrun & Hfl & Hk2 & Hb).
  { destruct user.
    - destruct (addressable_agree _ _ _ _ _ Ha Hk1) as [Ha1 _].
      destruct (copyin_buf kend kend_pos pgtbl bufaddr k1 i o len src f Ha1) as (k2 & Hrun & ?); [lia..|done|].
      exists k2. split; [|done]. unfold on_k. cbn [fk]. by rewrite Hrun.
    - eexists. split; [reflexivity|]. cbn [upd_mem km_mem freelist fk]. split; [done|]. split.
      + intros y Hy. rewrite load8_memmove by done. rewrite decide_False; [done|]. intros Hin. apply Hy. exists i. lia.
      + unfold load_bytes. apply list_fmap_ext. intros j v Hv%list_elem_of_lookup_2. apply elem_of_seqZ in Hv.
        rewrite load8_memmove, decide_True by lia. specialize (Hf' v ltac:(lia)). injection Hf' as <-. f_equal. lia. }
  apply wp_bind. unfold wp at 1. rewrite Hrun. apply wp_bind, wp_ldmem. rewrite Hb.
  apply wp_bind. eapply wp_fs_bdata; [done..|]. apply wp_bind.
  eapply wp_fs_set_bdata; [done..| |].
  { rewrite <-Hb. apply put_bytes_block; [by apply (txn_blocks t)|done| |apply load_bytes_byte].
    rewrite length_load_bytes. lia. }
  intros t' Ht'. apply wp_ret. eapply HQ; [congruence|by etrans|done].
Qed.

(** When byte [j] of a user source cannot be read, either_copyin fails, but
    the block has been changed and is not logged: writei then releases it. *)
Lemma either_copyin_fault t T tbl k bn i o len src (j : nat) :
  txn_ok t T → t_held T !! bn = Some i → 0 ≤ o → 0 ≤ len → o + len ≤ BSIZE →
  addressable true (km_mem k) → 0 ≤ src → src + len < 2^64 → j < len →
  (∀ l : nat, (l < j)%nat → is_Some (user_load (km_mem k) pgtbl (src + l))) → user_load (km_mem k) pgtbl (src + j) = None →
  ∃ t' k' bs, either_copyin pgtbl bufaddr i o true src len (Fst t tbl sb k) = Done (-1) (Fst t' tbl sb k') ∧
    txn_ok t' (t_set bn (put_bytes (t_data T bn) o bs) T) ∧ length bs = Z.to_nat len ∧
    ∀ l : nat, (l < j)%nat → Some (bs !!! l) = user_load (km_mem k) pgtbl (src + l).
Proof using kend_pos.
  intros Ht Hh Ho Hl Hm Ha Hs Hsl Hj Hb Hf.
  assert (wp (either_copyin pgtbl bufaddr i o true src len) (Fst t tbl sb k) (λ r s, r = -1 ∧ ∃ t' k' bs, s = Fst t' tbl sb k' ∧
    txn_ok t' (t_set bn (put_bytes (t_data T bn) o bs) T) ∧ length bs = Z.to_nat len ∧
    ∀ l : nat, (l < j)%nat → Some (bs !!! l) = user_load (km_mem k) pgtbl (src + l))) as Hw.
  { apply wp_bind. eapply wp_sync_buf; [done..|]. intros k1 Hf1 H1. pose proof (sync_agree _ _ _ _ _ _ Ho Hm H1) as Hk1.
    destruct (addressable_agree _ _ _ _ _ Ha Hk1) as [Ha1 _].
    assert (∀ a, 0 ≤ a < 2^64 → user_load (km_mem k1) pgtbl a = user_load (km_mem k) pgtbl a) as Hul.
    { intros a Hr. by apply (src_load_agree kend pgtbl bufaddr true _ _ a Ha Hk1 Hr). }
    destruct (copyin_loop kend kend_pos _ _ pgtbl (S (Z.to_nat len)) k1 (bufaddr i + o) src len (Ha1 eq_refl i))
      as (k2 & Hrun & Hfl & Hmem); [lia|lia|lia|lia|lia|].
    destruct (copyin_bytes_fault kend pgtbl (km_mem k1) _ _ (bufaddr i + o) src (Z.to_nat len) j (Ha1 eq_refl i))
      as (E1 & _ & E3); [lia|lia|lia|lia|lia| | |].
    { intros l Hl'. rewrite Hul by lia. by apply Hb. }
    { rewrite Hul by lia. done. }
    apply wp_bind. eapply wp_on_k; [exact Hrun|]. rewrite E1. apply wp_bind, wp_ldmem.
    apply wp_bind. eapply wp_fs_bdata; [done..|]. apply wp_bind. eapply wp_fs_set_bdata; [done..| |].
    { apply put_bytes_block; [by apply (txn_blocks t)|done| |apply load_bytes_byte]. rewrite length_load_bytes. lia. }
    intros t' Ht'. apply wp_ret. split; [done|]. eexists t', k2, _. split; [done|]. split; [exact Ht'|].
    split; [apply length_load_bytes|]. intros l Hl'. rewrite <-Hul by lia. rewrite <-E3 by done. f_equal.
    rewrite <-(Hmem (bufaddr i + o + l)). unfold load_bytes.
    rewrite list_lookup_total_alt, list_lookup_fmap, lookup_seqZ_lt by lia. cbn. f_equal. }
  apply wp_done in Hw as (r & s & Hrun & -> & t' & k' & bs & -> & ?). by exists t', k', bs.
Qed.

(** ** readi *)

(** A file that nobody else is using. *)
Record file_ok (T : tview) (di : dinode) : Prop := {
  f_wf : inode_wf sb (t_data T) di;
  f_size : d_size di ≤ MAXFILE * BSIZE;
  f_holes : no_holes (t_data T) di;
  f_idle j : 0 ≤ j ≤ MAXFILE → islot (t_data T) di j ≠ 0 → idle T (islot (t_data T) di j)
}.

(** With [m] iterations left a loop over [r] bytes from offset [o], a block at
    a time, ends. *)
Definition enough (m : nat) (o r : Z) : Prop := 1 ≤ m ∧ (0 < r → o `mod` BSIZE + r ≤ (m - 1) * BSIZE).

Lemma enough_start o n : 0 ≤ n → enough (rw_fuel n) o n.
Proof.
  intros Hn. unfold enough, rw_fuel. split; [lia|]. intros _.
  pose proof (Z.mod_pos_bound o BSIZE). pose proof (Z.div_mod n BSIZE). pose proof (Z.mod_pos_bound n BSIZE).
  pose proof (Z.div_pos n BSIZE). unfold BSIZE in *. lia.
Qed.

Lemma piece_aligned o : (o + (BSIZE - o `mod` BSIZE)) `mod` BSIZE = 0.
Proof.
  pose proof (Z.div_mod o BSIZE).
  replace (o + (BSIZE - o `mod` BSIZE)) with ((o `div` BSIZE + 1) * BSIZE) by (unfold BSIZE in *; lia).
  by apply Z.mod_mul.
Qed.

Lemma enough_step m o r :
  0 < r → enough (S m) o r →
  let l := Z.min r (BSIZE - o `mod` BSIZE) in
  enough m (o + l) (r - l) ∧ 0 < l ≤ r ∧ o `mod` BSIZE + l ≤ BSIZE.
Proof.
  intros Hr [Hm He] l. specialize (He Hr). pose proof (Z.mod_pos_bound o BSIZE) as Hb.
  unfold enough. assert (0 < l) as Hl by (unfold l, BSIZE in *; lia).
  assert (1 ≤ m) as Hm1 by (unfold BSIZE in *; lia). split_and!; [done| |unfold l; lia..].
  intros Hr'. assert (l = BSIZE - o `mod` BSIZE) as E by (unfold l; lia).
  rewrite E, piece_aligned.
  unfold BSIZE in *. lia.
Qed.

(** The bytes of a piece of a file that lies in one block. *)
Lemma fbyte_piece D di o l j :
  0 ≤ o → 0 ≤ j < l → o `mod` BSIZE + l ≤ BSIZE →
  fbyte D di (o + j) = D (islot D di (o `div` BSIZE)) !!! Z.to_nat (o `mod` BSIZE + j).
Proof.
  intros Ho Hj Hl. unfold fbyte. pose proof (mod_bsize o). assert (BSIZE ≠ 0) by done.
  assert (o + j = o `div` BSIZE * BSIZE + (o `mod` BSIZE + j)) as E by (pose proof (Z.div_mod o BSIZE); lia).
  rewrite E. rewrite Z.div_add_l by done.
  rewrite (Z.add_comm (_ * _)), Z.mod_add by done.
  rewrite (Z.mod_small (o `mod` BSIZE + j)), (Z.div_small (o `mod` BSIZE + j)), Z.add_0_r by lia. done.
Qed.

(** How much of a request for [n] bytes at [off] there is to read. *)
Definition avail (di : dinode) (off n : Z) : Z :=
  if d_size di <? off then 0 else Z.min n (d_size di - off).

(** The bytes of the file from [off] on. *)
Definition fbytes (D : Z → block) (di : dinode) (off len : Z) : list Z := (λ j, fbyte D di (off + j)) <$> seqZ 0 len.

Lemma length_fbytes D di off len : length (fbytes D di off len) = Z.to_nat len.
Proof. unfold fbytes. by rewrite length_fmap, length_seqZ. Qed.

Lemma fbytes_step D di off tot l :
  (∀ b, block_ok (D b)) → 0 ≤ off → 0 ≤ tot → 0 ≤ l → (off + tot) `mod` BSIZE + l ≤ BSIZE →
  fbytes D di off (tot + l) =
    fbytes D di off tot ++ piece (D (islot D di ((off + tot) `div` BSIZE))) ((off + tot) `mod` BSIZE) l.
Proof.
  intros HD Ho Ht Hl Hp. unfold fbytes. rewrite seqZ_app, fmap_app by lia. f_equal. rewrite Z.add_0_l.
  pose proof (mod_bsize (off + tot)). apply list_eq_same_length with (Z.to_nat l).
  { apply length_piece; [apply HD|lia..]. }
  { by rewrite length_fmap, length_seqZ. }
  intros j x y Hj Hx Hy. apply list_lookup_fmap_Some in Hx as (v & -> & Hv). apply lookup_seqZ in Hv as [-> _].
  apply list_lookup_total_correct in Hy as <-. rewrite lookup_piece by lia.
  rewrite Z.add_assoc. rewrite (fbyte_piece D di (off + tot) l) by lia. f_equal.
Qed.

(** An offset inside the file is in a block of the file. *)
Lemma file_block T di o :
  file_ok T di → 0 ≤ o < d_size di →
  0 ≤ o `div` BSIZE < MAXFILE ∧ islot (t_data T) di (o `div` BSIZE) ≠ 0.
Proof.
  intros Hf Ho. pose proof (f_size _ _ Hf). pose proof (Z.div_mod o BSIZE). pose proof (mod_bsize o).
  assert (0 < BSIZE) by done. pose proof (Z.div_pos o BSIZE).
  split; [nia|]. apply (f_holes _ _ Hf); [lia|nia].
Qed.

Lemma readi_ok user t T tbl ip x k dst off n :
  txn_ok t T → tbl !! ip = Some x → i_dev x = dev → file_ok T (i_di x) → budget 0 1 T →
  0 ≤ off → 0 ≤ n → off + n < 2^32 → 0 ≤ dst → dst + n < 2^64 → addressable user (km_mem k) →
  wp (readi pgtbl bufaddr ip user dst off n) (Fst t tbl sb k) (λ r s,
    let a := avail (i_di x) off n in
    let res := store_all pgtbl user (km_mem k) dst (fbytes (t_data T) (i_di x) off a) in
    r = (if res.1 =? 0 then a else -1) ∧ ∃ t' k', s = Fst t' tbl sb k' ∧ txn_ok t' T ∧
      freelist k' = freelist k ∧ agree_but res.2 (km_mem k')).
Proof using kend_pos G.
  intros Ht Hx Hdev Hf Hb Ho Hn Hon Hdst Hdn Ha. set (di := i_di x) in *. set (D := t_data T).
  unfold readi. apply wp_bind. eapply wp_geti; [done|]. fold di. unfold avail.
  rewrite u32_small by lia. destruct (Z.ltb_spec (off + n) off); [lia|]. rewrite orb_false_r.
  pose proof (f_size _ _ Hf) as Hsz. change (MAXFILE * BSIZE) with 274432 in Hsz.
  destruct (Z.ltb_spec (d_size di) off) as [|Hle].
  { apply wp_ret. split; [done|]. by exists t, k. }
  replace (if d_size di <? off + n then d_size di - off else n) with (Z.min n (d_size di - off))
    by (destruct (Z.ltb_spec (d_size di) (off + n)); lia).
  set (N := Z.min n (d_size di - off)). cbv zeta.
  set (res tot := store_all pgtbl user (km_mem k) dst (fbytes D di off tot)). fold (res N).
  assert (∀ b, block_ok (D b)) as HD by (intros b; by apply (txn_blocks t)).
  apply (wp_loop (λ m a s, let '(tot, o, d) := a in 0 ≤ tot ≤ N ∧ o = off + tot ∧ d = dst + tot ∧
    enough m (off + tot) (N - tot) ∧ (res tot).1 = 0 ∧ ∃ t' k', s = Fst t' tbl sb k' ∧ txn_ok t' T ∧
    freelist k' = freelist k ∧ agree_but (res tot).2 (km_mem k'))).
  3: { split_and!; [lia..| |done|]; [rewrite Z.add_0_r, Z.sub_0_r; apply enough_start; lia|].
       by exists t, k. }
  2: { intros [[tot o] d] s (_ & _ & _ & [? _] & _). lia. }
  intros m [[tot o] d] s (Htot & -> & -> & He & Hr0 & t1 & k1 & -> & Ht1 & Hf1 & Hk1).
  destruct (Z.ltb_spec tot N) as [Hlt|Hge].
  2: { apply wp_ret. rewrite i32_small by lia. replace N with tot by lia. rewrite Hr0. split; [done|]. by exists t1, k1. }
  destruct (file_block T di (off + tot)) as [Hbn Hnz]; [done|lia|].
  destruct (enough_step m (off + tot) (N - tot)) as (He' & Hl & Hp); [lia|done|].
  pose proof (mod_bsize (off + tot)).
  set (l := Z.min (N - tot) (BSIZE - (off + tot) `mod` BSIZE)) in *.
  apply wp_bind. apply (bmap_mapped sb G t1 T tbl ip x); [done|done|done|apply Hf|done|done| | |].
  { intros Hi. apply (f_idle _ _ Hf MAXFILE); [done|done]. }
  { done. }
  intros t2 Ht2. fold di D. destruct (Z.eqb_spec (islot D di ((off + tot) `div` BSIZE)) 0); [done|].
  destruct (wf_slot _ _ _ (f_wf _ _ Hf) ((off + tot) `div` BSIZE)) as [Hbr _]; [lia|done|].
  pose proof (meta_bounds sb G). pose proof (g_size _ G).
  destruct (f_idle _ _ Hf ((off + tot) `div` BSIZE)) as [Hh Hpd]; [lia|done|]. rewrite Hdev.
  apply wp_bind. apply (wp_fs_bread t2 T _ _ _ _ 0 0); [done|unfold D in *; lia|done|done|lia|lia|].
  intros i t3 Ht3 _. apply wp_bind.
  set (a := islot D di ((off + tot) `div` BSIZE)) in *.
  assert (0 ≤ dst ∧ dst + length (fbytes D di off tot) ≤ 2^64) as [_ Hlen1] by (rewrite length_fbytes; lia).
  destruct (store_all_ok kend pgtbl bufaddr user (km_mem k) dst (fbytes D di off tot) Ha) as (Ha1 & _); [lia|lia|].
  fold (res tot) in Ha1.
  assert (addressable user (km_mem k1)) as Ha2.
  { destruct user; [|done]. by destruct (addressable_agree _ _ _ _ _ Ha1 Hk1). }
  eapply (wp_copyout user t3 _ tbl k1 a i); [done|apply lookup_insert_eq|lia|lia|lia|done|lia|lia|].
  cbn [t_get t_data]. intros k2 Hf2 Hk2. fold D in Hk2 |- *.
  pose proof (length_piece (D a) ((off + tot) `mod` BSIZE) l (HD a) ltac:(lia) ltac:(lia) ltac:(lia)) as Hlp.
  destruct (store_all_agree kend pgtbl bufaddr user (res tot).2 (km_mem k1) (dst + tot) (piece (D a) ((off + tot) `mod` BSIZE) l) Ha1 Hk1)
    as [E1 E2]; [lia|lia|].
  assert (res (tot + l) = store_all pgtbl user (res tot).2 (dst + tot) (piece (D a) ((off + tot) `mod` BSIZE) l)) as Er.
  { unfold res. rewrite fbytes_step, store_all_app by (done || lia). cbv zeta. fold (res tot). rewrite Hr0. cbn [Z.eqb].
    rewrite length_fbytes. by replace (dst + Z.to_nat tot) with (dst + tot) by lia. }
  rewrite E1, <-Er. rewrite <-Er in E2.
  assert (agree_but (res (tot + l)).2 (km_mem k2)) as Hk2' by (by etrans).
  assert (∀ Q, (∀ t4, txn_ok t4 T → Q tt (Fst t4 tbl sb k2)) → wp (brelse i) (Fst t3 tbl sb k2) Q) as Hrel.
  { intros Q HQ. eapply wp_fs_brelse; [done|apply lookup_insert_eq|done|].
    intros t4 Ht4. rewrite put_get in Ht4 by done. by apply HQ. }
  destruct (store_all_status pgtbl user (km_mem k) dst (fbytes D di off (tot + l))) as [Es|Es]; fold (res (tot + l)) in Es.
  - rewrite Es. cbn [Z.eqb Z.opp]. apply wp_bind, Hrel. intros t4 Ht4. apply wp_ret.
    rewrite u32_small, u64_small by lia. split_and!; [lia..| |done|].
    + replace (off + (tot + l)) with (off + tot + l) by lia. replace (N - (tot + l)) with (N - tot - l) by lia. done.
    + exists t4, k2. split_and!; [done|done|congruence|done].
  - rewrite Es. cbn [Z.eqb Pos.eqb]. apply wp_bind, Hrel. intros t4 Ht4. apply wp_ret.
    assert (res N = res (tot + l)) as EN.
    { unfold res. replace (fbytes D di off N) with (fbytes D di off (tot + l) ++ ((λ j, fbyte D di (off + j)) <$> seqZ (tot + l) (N - (tot + l)))).
      - rewrite store_all_app. cbv zeta. fold (res (tot + l)). by rewrite Es.
      - unfold fbytes. rewrite <-fmap_app. f_equal. replace (tot + l) with (0 + (tot + l)) at 2 by lia.
        rewrite <-seqZ_app by lia. f_equal. lia. }
    rewrite EN, Es. cbn [Z.eqb]. split; [done|]. exists t4, k2. split_and!; [done|done|congruence|done].
Qed.
End file.
