(* ===== verification/FsWrite.v ===== *)
(** * Writing files

    writei of kernel/fs.c against the bytes of a file, for an address in the
    kernel or in the memory of the current process from which all bytes can be
    read: what is written, what stays as it was, and how many blocks a write
    adds to the log. *)

From S2P Require Import Prelude Riscv Mem Kalloc Vm Block FsFormat Txn Fs FsBlocks FsInode FsCopy FsFile.

Section write.
Context {St : Type} {dev : Z} `{!TxnLayer St dev}.
Context (sb : superblock) (G : geom sb).
Context (kend : Z) (kend_pos : 0 < kend) (pgtbl : Z) (bufaddr : nat → Z).

(** ** The inode on disk *)

Definition disk_inode (D : Z → block) (inum : Z) : dinode :=
  get_dinode (D (IBLOCK inum sb)) (inum `mod` IPB).

Lemma IBLOCK_range inum :
  0 ≤ inum < sb_ninodes sb → sb_inodestart sb ≤ IBLOCK inum sb < sb_bmapstart sb.
Proof.
  intros Hi. pose proof (g_ino _ G). pose proof (g_size _ G). pose proof (meta_bounds sb G).
  assert (0 < IPB) by done. pose proof (Z.div_pos inum IPB). pose proof (Z.div_le_mono inum (sb_ninodes sb) IPB).
  unfold IBLOCK, u32. rewrite Z.mod_small; lia.
Qed.

Lemma iupdate_ok t T tbl ip x k n h Q :
  txn_ok t T → tbl !! ip = Some x → i_dev x = dev → 0 ≤ i_inum x < sb_ninodes sb →
  length (d_addrs (i_di x)) = Z.to_nat (NDIRECT + 1) →
  idle T (IBLOCK (i_inum x) sb) → budget (n + 1) (h + 1) T → 0 ≤ n → 0 ≤ h →
  (∀ t', txn_ok t' (t_upd (IBLOCK (i_inum x) sb)
      (put_dinode (t_data T (IBLOCK (i_inum x) sb)) (i_inum x `mod` IPB) (i_di x)) T) →
    Q tt (Fst t' tbl sb k)) →
  wp (iupdate ip) (Fst t tbl sb k) Q.
Proof.
  intros Ht Hx Hdev Hi Hlen Hidle Hb Hn Hh HQ. pose proof (IBLOCK_range _ Hi) as Hr.
  pose proof (meta_bounds sb G). pose proof (g_size _ G).
  unfold iupdate. apply wp_bind. eapply wp_geti; [done|]. apply wp_bind, wp_get_sb. cbn [id]. rewrite Hdev.
  apply wp_bind. eapply wp_fs_bread; [done|lia|apply Hidle|exact Hb|lia|done|]. intros i t1 Ht1 Hb1.
  apply wp_bind. eapply wp_fs_bdata; [done|apply lookup_insert_eq|]. cbn [t_get t_data].
  eapply (wp_write_back_end _ _ _ _ _ _ _ _ n h); [done|done| | |done|done|exact HQ].
  - assert (0 ≤ i_inum x `mod` IPB < 16) by (by apply (Z.mod_pos_bound _ 16)).
    unfold put_dinode, put16, put32, SIZEOF_DINODE. unfold NDIRECT in Hlen.
    apply put_list_block; [|lia|unfold BSIZE; lia].
    pose proof (txn_blocks t T (IBLOCK (i_inum x) sb) Ht). blk.
  - apply (g_fs _ G). lia.
Qed.

(** ** Bytes written so far *)

(** A block of the file. *)
Definition owned (D : Z → block) (di : dinode) (b : Z) : Prop :=
  b ≠ 0 ∧ ∃ j, 0 ≤ j ≤ MAXFILE ∧ islot D di j = b.

(** The transaction and the inode after the first [tot] bytes of [g] were
    written at offset [off] of the file. *)
Record wrote (g : Z → Z) (off : Z) (T : tview) (di : dinode) (tot : Z) (T' : tview) (di' : dinode) : Prop := {
  w_wf : inode_wf sb (t_data T') di';
  w_alloc : alloc_ok sb T';
  w_held : t_held T' = t_held T ∧ t_pend T' = t_pend T ∧ t_in T' = t_in T;
  w_fields : same_fields di di';
  w_idle j : 0 ≤ j ≤ MAXFILE → islot (t_data T') di' j ≠ 0 → idle T' (islot (t_data T') di' j);
  w_slot j : 0 ≤ j ≤ MAXFILE → islot (t_data T') di' j ≠ 0 →
    islot (t_data T') di' j = islot (t_data T) di j ∨ used sb (t_data T) (islot (t_data T') di' j) = false;
  w_map bn : 0 ≤ bn → bn * BSIZE < Z.max (d_size di) (off + tot) → islot (t_data T') di' bn ≠ 0;
  w_bytes o : 0 ≤ o < Z.max (d_size di) (off + tot) →
    fbyte (t_data T') di' o =
      if decide (off ≤ o < off + tot) then g (o - off) else fbyte (t_data T) di o;
  w_frame b : stable sb T b → ¬ owned (t_data T) di b → t_data T' b = t_data T b;
  w_used b : 0 ≤ b < sb_size sb → used sb (t_data T) b = true → used sb (t_data T') b = true
}.

Lemma wrote_start g off T di :
  file_ok sb T di → alloc_ok sb T → 0 ≤ off ≤ d_size di → wrote g off T di 0 T di.
Proof.
  intros [F1 F2 F3 F4] Hao Ho. split; try done.
  - apply same_fields_refl.
  - intros. by left.
  - intros bn Hb Hlt. apply F3; [done|lia].
  - intros o Hlt. by rewrite decide_False by lia.
Qed.

(** The state after bmap and the copy of a piece into the block it returned. *)
Section step.
Context (g : Z → Z) (off : Z) (T : tview) (di : dinode) (tot : Z) (T0 : tview) (di0 : dinode).
Context (HW : wrote g off T di tot T0 di0).
Context (Hoff : 0 ≤ off) (Htot : 0 ≤ tot).
Abbreviation o := (off + tot).
Abbreviation bn := (o `div` BSIZE).
Context (a l : Z) (T1 : tview) (di1 : dinode) (HB : bmap_post sb T0 di0 bn a T1 di1) (Ha : a ≠ 0).
Context (Hbn : 0 ≤ bn < MAXFILE) (Hl : 0 < l) (Hp : o `mod` BSIZE + l ≤ BSIZE).
Context (HD : ∀ x, block_ok (t_data T1 x)) (Hmax : Z.max (d_size di) (off + (tot + l)) ≤ MAXFILE * BSIZE).
Let bs := (λ j, g (tot + j)) <$> seqZ 0 l.
Let T2 := t_upd a (put_bytes (t_data T1 a) (o `mod` BSIZE) bs) T1.

Lemma step_a : islot (t_data T1) di1 bn = a.
Proof. symmetry. exact (bp_res _ _ _ _ _ _ _ HB). Qed.

Lemma step_a_range : meta sb ≤ a < sb_size sb ∧ used sb (t_data T1) a = true.
Proof. rewrite <-step_a. apply (wf_slot _ _ _ (bp_wf _ _ _ _ _ _ _ HB)); [lia|by rewrite step_a]. Qed.

Lemma step_islot j : islot (t_data T2) di1 j = islot (t_data T1) di1 j.
Proof.
  apply islot_ext. intros Hi. unfold T2, t_upd. cbn [t_data]. rewrite fn_lookup_insert_ne; [done|].
  intros E. pose proof MAXFILE_eq. assert (bn = MAXFILE); [|lia].
  apply (wf_inj _ _ _ (bp_wf _ _ _ _ _ _ _ HB)); [lia|lia|by rewrite step_a, islot_ind|by rewrite step_a].
Qed.

Lemma step_used b : 0 ≤ b < sb_size sb → used sb (t_data T2) b = used sb (t_data T1) b.
Proof. intros Hb. apply (used_upd_data sb G); [done|apply step_a_range]. Qed.

(** A slot of the inode that bmap returned. *)
Lemma step_slot j :
  0 ≤ j ≤ MAXFILE → islot (t_data T1) di1 j ≠ 0 →
  islot (t_data T1) di1 j = islot (t_data T0) di0 j ∨
  used sb (t_data T0) (islot (t_data T1) di1 j) = false.
Proof.
  intros Hj Hne. destruct (decide (j = MAXFILE)) as [->|].
  { rewrite !islot_ind. destruct (bp_ind _ _ _ _ _ _ _ HB) as [E|[_ E]]; [by left|by right]. }
  destruct (decide (j = bn)) as [->|].
  - destruct (decide (islot (t_data T0) di0 bn = 0)) as [Hz|Hnz].
    + right. rewrite step_a. by apply (bp_new _ _ _ _ _ _ _ HB).
    + left. by destruct (bp_mapped _ _ _ _ _ _ _ HB Hnz) as [-> ->].
  - left. apply (bp_slot _ _ _ _ _ _ _ HB); [lia|done].
Qed.

Lemma step_wf : inode_wf sb (t_data T2) di1.
Proof.
  destruct (bp_wf _ _ _ _ _ _ _ HB) as [H1 H2 H3]. pose proof (meta_bounds sb G). split; [done| |].
  - intros j Hj. rewrite step_islot. intros Hne. destruct (H2 j Hj Hne) as [? ?].
    split; [done|]. rewrite step_used; [done|lia].
  - intros i j Hi Hj. rewrite !step_islot. by apply H3.
Qed.

Lemma step_fresh b : 0 ≤ b < sb_size sb → used sb (t_data T0) b = false → used sb (t_data T) b = false.
Proof.
  intros Hb Hu. destruct (used sb (t_data T) b) eqn:E; [|done].
  rewrite (w_used _ _ _ _ _ _ _ HW) in Hu; done.
Qed.

Lemma step_slot_T j :
  0 ≤ j ≤ MAXFILE → islot (t_data T1) di1 j ≠ 0 →
  islot (t_data T1) di1 j = islot (t_data T) di j ∨
  used sb (t_data T) (islot (t_data T1) di1 j) = false.
Proof.
  intros Hj Hne. pose proof (meta_bounds sb G).
  destruct (wf_slot _ _ _ (bp_wf _ _ _ _ _ _ _ HB) j Hj Hne) as [Hr _].
  destruct (step_slot j Hj Hne) as [E|E].
  - rewrite E. apply (w_slot _ _ _ _ _ _ _ HW); [done|congruence].
  - right. apply step_fresh; [lia|done].
Qed.

Lemma step_idle j :
  0 ≤ j ≤ MAXFILE → islot (t_data T1) di1 j ≠ 0 → idle T1 (islot (t_data T1) di1 j).
Proof.
  intros Hj Hne. destruct (bp_held _ _ _ _ _ _ _ HB) as (E1 & E2 & _). unfold idle. rewrite E1, E2.
  destruct (wf_slot _ _ _ (bp_wf _ _ _ _ _ _ _ HB) j Hj Hne) as [Hr _].
  destruct (step_slot j Hj Hne) as [E|E].
  - rewrite E. apply (w_idle _ _ _ _ _ _ _ HW); [done|congruence].
  - by apply (ao_free _ _ (w_alloc _ _ _ _ _ _ _ HW)).
Qed.

(** Data of a block of the file other than the one written. *)
Lemma step_other j :
  0 ≤ j < MAXFILE → j ≠ bn → islot (t_data T0) di0 j ≠ 0 →
  islot (t_data T2) di1 j = islot (t_data T0) di0 j ∧
  t_data T2 (islot (t_data T0) di0 j) = t_data T0 (islot (t_data T0) di0 j).
Proof.
  intros Hj Hne Hnz. pose proof (bp_slot _ _ _ _ _ _ _ HB j Hj Hne) as Es.
  rewrite step_islot. split; [done|]. pose proof MAXFILE_eq.
  unfold T2, t_upd. cbn [t_data]. rewrite fn_lookup_insert_ne.
  - destruct (wf_slot _ _ _ (w_wf _ _ _ _ _ _ _ HW) j) as [Hr Hu]; [lia|done|].
    apply (bp_frame _ _ _ _ _ _ _ HB); [split; [pose proof (meta_bounds sb G); lia|done]|].
    intros _ E. assert (j = MAXFILE); [|lia].
    apply (wf_inj _ _ _ (w_wf _ _ _ _ _ _ _ HW)); [lia|lia|by rewrite islot_ind|done].
  - rewrite <-Es, <-step_a. intros E. apply Hne.
    apply (wf_inj _ _ _ (bp_wf _ _ _ _ _ _ _ HB)); [lia|lia|done|by rewrite Es].
Qed.

Lemma step_fbyte_in x :
  0 ≤ x → x `div` BSIZE = bn →
  fbyte (t_data T2) di1 x =
    if decide (o ≤ x < o + l) then g (x - off)
    else t_data T1 a !!! Z.to_nat (x `mod` BSIZE).
Proof.
  intros Hx Ex. unfold fbyte. rewrite step_islot, Ex, step_a. unfold T2, t_upd. cbn [t_data].
  rewrite fn_lookup_insert. pose proof (mod_bsize x). pose proof (mod_bsize o).
  pose proof (Z.div_mod x BSIZE). pose proof (Z.div_mod o BSIZE). assert (BSIZE ≠ 0) by done.
  assert (Z.of_nat (length bs) = l) as Hlen by (unfold bs; rewrite length_fmap, length_seqZ; lia).
  pose proof (HD a) as [Hla _]. rewrite lookup_put_bytes by lia. rewrite Hlen.
  assert (x - o = x `mod` BSIZE - o `mod` BSIZE) as Exo by (rewrite Ex in *; lia).
  repeat case_decide; try lia; [|done]. unfold bs.
  rewrite list_lookup_total_alt, list_lookup_fmap, lookup_seqZ_lt by lia. simpl. f_equal. lia.
Qed.

Lemma step_bytes x :
  0 ≤ x < Z.max (d_size di) (off + (tot + l)) →
  fbyte (t_data T2) di1 x =
    if decide (off ≤ x < off + (tot + l)) then g (x - off) else fbyte (t_data T) di x.
Proof.
  intros Hx. pose proof (mod_bsize x). pose proof (mod_bsize o).
  pose proof (Z.div_mod x BSIZE). pose proof (Z.div_mod o BSIZE). assert (0 < BSIZE) by done.
  destruct (decide (x `div` BSIZE = bn)) as [Ex|Hne].
  - rewrite step_fbyte_in by (done || lia). rewrite Ex in *.
    destruct (decide (o ≤ x < o + l)); [by rewrite decide_True by lia|].
    assert (bn * BSIZE < Z.max (d_size di) o) as Hin by lia.
    pose proof (w_map _ _ _ _ _ _ _ HW bn ltac:(lia) Hin) as Hm.
    destruct (bp_mapped _ _ _ _ _ _ _ HB Hm) as [E1 E2].
    transitivity (fbyte (t_data T0) di0 x).
    { unfold fbyte. rewrite Ex, <-E1, <-E2, step_a. done. }
    rewrite (w_bytes _ _ _ _ _ _ _ HW) by lia. repeat case_decide; lia || done.
  - assert (¬ (o ≤ x < o + l)) as Hout.
    { intros ?. apply Hne. symmetry. apply Z.div_unique_pos with (x - bn * BSIZE); lia. }
    assert (x < Z.max (d_size di) o) as Hlt by lia.
    pose proof (w_map _ _ _ _ _ _ _ HW (x `div` BSIZE)) as Hm.
    assert (0 ≤ x `div` BSIZE) by (apply Z.div_pos; lia).
    assert (x `div` BSIZE < MAXFILE) as Hxm.
    { apply Z.div_lt_upper_bound; lia. }
    destruct (step_other (x `div` BSIZE)) as [E1 E2]; [lia|done|apply Hm; lia|].
    transitivity (fbyte (t_data T0) di0 x); [unfold fbyte; by rewrite E1, E2|].
    rewrite (w_bytes _ _ _ _ _ _ _ HW) by lia. repeat case_decide; lia || done.
Qed.

Lemma step_map j :
  0 ≤ j → j * BSIZE < Z.max (d_size di) (off + (tot + l)) → islot (t_data T2) di1 j ≠ 0.
Proof.
  intros Hj Hlt. rewrite step_islot. assert (0 < BSIZE) by done.
  destruct (decide (j = bn)) as [->|Hne]; [by rewrite step_a|].
  assert (j < MAXFILE) by nia. rewrite (bp_slot _ _ _ _ _ _ _ HB) by (done || lia).
  apply (w_map _ _ _ _ _ _ _ HW); [done|]. pose proof (Z.div_mod o BSIZE). pose proof (mod_bsize o). nia.
Qed.

Lemma step_wrote : wrote g off T di (tot + l) T2 di1.
Proof.
  pose proof (meta_bounds sb G). destruct step_a_range as [Har _]. split.
  - apply step_wf.
  - apply (alloc_ok_upd sb G); [lia|]. apply (bp_alloc _ _ _ _ _ _ _ HB).
  - destruct (bp_held _ _ _ _ _ _ _ HB) as (? & ? & ?), (w_held _ _ _ _ _ _ _ HW) as (? & ? & ?).
    unfold T2, t_upd. cbn. split_and!; congruence.
  - eapply same_fields_trans; [apply (w_fields _ _ _ _ _ _ _ HW)|apply (bp_fields _ _ _ _ _ _ _ HB)].
  - intros j Hj. rewrite step_islot. intros Hne. apply idle_upd. by apply step_idle.
  - intros j Hj. rewrite step_islot. by apply step_slot_T.
  - apply step_map.
  - apply step_bytes.
  - intros b Hb Hno. assert (∀ j, 0 ≤ j ≤ MAXFILE → islot (t_data T1) di1 j ≠ 0 → b ≠ islot (t_data T1) di1 j) as Hnj.
    { intros j Hj Hne ->. destruct (step_slot_T j Hj Hne) as [E|E].
      - apply Hno. split; [done|]. by exists j.
      - destruct Hb as [_ Hb]. rewrite Hb in E; [done|].
        apply (wf_slot _ _ _ (bp_wf _ _ _ _ _ _ _ HB)); done. }
    unfold T2, t_upd. cbn [t_data]. rewrite fn_lookup_insert_ne.
    2: { rewrite <-step_a. apply not_eq_sym, Hnj; [lia|by rewrite step_a]. }
    rewrite (bp_frame _ _ _ _ _ _ _ HB); [by apply (w_frame _ _ _ _ _ _ _ HW)| |].
    + destruct Hb as [Hb1 Hb2]. split; [done|]. intros Hr.
      apply (w_used _ _ _ _ _ _ _ HW); [lia|by apply Hb2].
    + intros Hnz E. apply (Hnj MAXFILE); [done| |]; rewrite islot_ind;
        destruct (bp_ind _ _ _ _ _ _ _ HB) as [->|[? _]]; congruence.
  - intros b Hb Hu. rewrite step_used by done. apply (bp_used _ _ _ _ _ _ _ HB); [done|].
    by apply (w_used _ _ _ _ _ _ _ HW).
Qed.
End step.

(** bmap found no free block: nothing that is in the file changed. *)
Lemma wrote_full g off T di tot T0 di0 bn T1 di1 :
  wrote g off T di tot T0 di0 → bmap_post sb T0 di0 bn 0 T1 di1 → 0 ≤ bn < MAXFILE → 0 ≤ off → 0 ≤ tot →
  Z.max (d_size di) (off + tot) ≤ MAXFILE * BSIZE →
  wrote g off T di tot T1 di1.
Proof.
  intros HW HB Hbn Ho Ht Hmax. pose proof (meta_bounds sb G). pose proof MAXFILE_eq.
  assert (∀ j, 0 ≤ j < MAXFILE → islot (t_data T1) di1 j = islot (t_data T0) di0 j) as Hs.
  { intros j Hj. destruct (decide (j = bn)) as [->|]; [|by apply (bp_slot _ _ _ _ _ _ _ HB)].
    destruct (decide (islot (t_data T0) di0 bn = 0)) as [E|E].
    - rewrite E. symmetry. apply (bp_res _ _ _ _ _ _ _ HB).
    - by destruct (bp_mapped _ _ _ _ _ _ _ HB E) as [-> ->]. }
  assert (∀ j, 0 ≤ j ≤ MAXFILE → islot (t_data T1) di1 j ≠ 0 →
    islot (t_data T1) di1 j = islot (t_data T0) di0 j ∨ used sb (t_data T0) (islot (t_data T1) di1 j) = false) as Hs'.
  { intros j Hj Hne. destruct (decide (j = MAXFILE)) as [->|]; [|left; apply Hs; lia].
    rewrite !islot_ind. destruct (bp_ind _ _ _ _ _ _ _ HB) as [E|[_ E]]; [by left|by right]. }
  assert (∀ b, 0 ≤ b < sb_size sb → used sb (t_data T0) b = false → used sb (t_data T) b = false) as Hfr.
  { intros b Hb Hu. destruct (used sb (t_data T) b) eqn:E; [|done]. rewrite (w_used _ _ _ _ _ _ _ HW) in Hu; done. }
  assert (∀ j, 0 ≤ j < MAXFILE → islot (t_data T0) di0 j ≠ 0 →
    t_data T1 (islot (t_data T0) di0 j) = t_data T0 (islot (t_data T0) di0 j)) as Hd.
  { intros j Hj Hne. destruct (wf_slot _ _ _ (w_wf _ _ _ _ _ _ _ HW) j) as [Hr Hu]; [lia|done|].
    apply (bp_frame _ _ _ _ _ _ _ HB); [split; [lia|done]|]. intros _ E. assert (j = MAXFILE); [|lia].
    apply (wf_inj _ _ _ (w_wf _ _ _ _ _ _ _ HW)); [lia|lia|by rewrite islot_ind|done]. }
  destruct (bp_held _ _ _ _ _ _ _ HB) as (E1 & E2 & E3), (w_held _ _ _ _ _ _ _ HW) as (E4 & E5 & E6).
  split.
  - apply (bp_wf _ _ _ _ _ _ _ HB).
  - apply (bp_alloc _ _ _ _ _ _ _ HB).
  - split_and!; congruence.
  - eapply same_fields_trans; [apply (w_fields _ _ _ _ _ _ _ HW)|apply (bp_fields _ _ _ _ _ _ _ HB)].
  - intros j Hj Hne. unfold idle. rewrite E1, E2.
    destruct (wf_slot _ _ _ (bp_wf _ _ _ _ _ _ _ HB) j Hj Hne) as [Hr _]. destruct (Hs' j Hj Hne) as [E|E].
    + rewrite E. apply (w_idle _ _ _ _ _ _ _ HW); [done|congruence].
    + by apply (ao_free _ _ (w_alloc _ _ _ _ _ _ _ HW)).
  - intros j Hj Hne. destruct (wf_slot _ _ _ (bp_wf _ _ _ _ _ _ _ HB) j Hj Hne) as [Hr _].
    destruct (Hs' j Hj Hne) as [E|E]; [|right; apply Hfr; [lia|done]].
    rewrite E. apply (w_slot _ _ _ _ _ _ _ HW); [done|congruence].
  - intros j Hj Hlt. assert (0 < BSIZE) by done. rewrite Hs by nia. by apply (w_map _ _ _ _ _ _ _ HW).
  - intros x Hx. rewrite <-(w_bytes _ _ _ _ _ _ _ HW x Hx). unfold fbyte. assert (0 < BSIZE) by done.
    assert (0 ≤ x `div` BSIZE < MAXFILE) by (split; [apply Z.div_pos|apply Z.div_lt_upper_bound]; lia).
    rewrite Hs by done. rewrite Hd; [done|done|]. apply (w_map _ _ _ _ _ _ _ HW); [lia|].
    pose proof (Z.div_mod x BSIZE). pose proof (mod_bsize x). lia.
  - intros b Hb Hno. rewrite <-(w_frame _ _ _ _ _ _ _ HW b Hb Hno). apply (bp_frame _ _ _ _ _ _ _ HB).
    + destruct Hb as [Hb1 Hb2]. split; [done|]. intros Hr. apply (w_used _ _ _ _ _ _ _ HW); [lia|by apply Hb2].
    + intros Hnz ->. pose proof (w_slot _ _ _ _ _ _ _ HW MAXFILE) as Hw. rewrite !islot_ind in Hw.
      destruct (wf_slot _ _ _ (w_wf _ _ _ _ _ _ _ HW) MAXFILE) as [Hr _]; [done|done|]. rewrite islot_ind in Hr.
      destruct Hw as [E|E]; [done|done| |].
      * apply Hno. split; [done|]. exists MAXFILE. split; [done|]. by rewrite islot_ind.
      * destruct Hb as [_ Hb]. rewrite Hb in E; done.
  - intros b Hb Hu. apply (bp_used _ _ _ _ _ _ _ HB); [done|]. by apply (w_used _ _ _ _ _ _ _ HW).
Qed.

(** ** writei *)

Lemma charge_upd T di a d :
  charge (t_upd a d T) di ≤ charge T di + (if decide (a ∈ t_logged T) then 0 else 1).
Proof.
  unfold charge, t_upd. cbn [t_logged]. pose proof (size_logged a T).
  assert (size ({[a]} ∪ t_logged T) ≤ size (t_logged T) + (if decide (a ∈ t_logged T) then 0 else 1)).
  { case_decide; [|lia]. replace ({[a]} ∪ t_logged T) with (t_logged T); [lia|].
    apply leibniz_equiv. set_solver. }
  destruct (decide (ind di ≠ 0 ∧ ind di ∈ t_logged T)) as [E|E];
    destruct (decide (ind di ≠ 0 ∧ ind di ∈ {[a]} ∪ t_logged T)) as [E'|E']; try lia.
  exfalso. apply E'. set_solver.
Qed.

(** The loop of writei after [tot] bytes, with [c] entries of the log still
    available for data out of a total of [B]. *)
Definition write_inv (k : kmem) (g : Z → Z) (off : Z) (T : tview) (x : inode) (B : Z) (tbl : list inode)
    (ip : nat) (P : tview → Prop) (c tot : Z) (s : fst (St:=St)) : Prop :=
  ∃ t' T' di' k', s = Fst t' (<[ip := set_di di' x]> tbl) sb k' ∧ txn_ok t' T' ∧
    wrote g off T (i_di x) tot T' di' ∧
    agree_but bufaddr (km_mem k) (km_mem k') ∧ freelist k' = freelist k ∧
    charge T' di' + c ≤ B ∧ P T'.

Definition full (T : tview) : Prop := ∀ b, 0 ≤ b < sb_size sb → used sb (t_data T) b = true.

Definition write_body (user : bool) (ip : nat) (n : Z) (a : Z * Z * Z) : M (fst (St:=St)) (Z * Z * Z + Z * Z) :=
  let '(tot, off, src) := a in
  if tot <? n then
    let* addr := bmap ip (off `div` BSIZE) in
    if addr =? 0 then ret (inr (tot, off))
    else
      let* bp := bread dev addr in
      let m := Z.min (n - tot) (BSIZE - off `mod` BSIZE) in
      let* r := either_copyin pgtbl bufaddr bp (off `mod` BSIZE) user src m in
      if r =? -1 then
        brelse bp ;;;
        ret (inr (tot, off))
      else
        log_write bp ;;;
        brelse bp ;;;
        ret (inl (tot + m, u32 (off + m), u64 (src + m)))
  else ret (inr (tot, off)).

Section loop.
Context (k : kmem) (user : bool) (g : Z → Z) (src off n : Z) (T : tview) (x : inode) (B : Z) (tbl : list inode) (ip : nat).
Context (Hx : tbl !! ip = Some x) (Hdev : i_dev x = dev) (Hin : t_in T = true).
Context (HB1 : B + 1 ≤ log_cap) (HB2 : B + 1 + size (t_held T) + 2 ≤ NBUF).
Context (Hoff : 0 ≤ off ≤ d_size (i_di x)) (Hsize : d_size (i_di x) ≤ MAXFILE * BSIZE).
Context (Hn : 0 ≤ n) (Hmax : off + n ≤ MAXFILE * BSIZE).
Context (Hsrc : 0 ≤ src) (Hsrcn : src + n < 2^64).
Context (Haddr : addressable kend pgtbl bufaddr user (km_mem k)).
Context (Hsrcb : user = false → ∀ y, src ≤ y < src + n → ¬ bufmem bufaddr y).
Context (Hg : ∀ j, 0 ≤ j < n → src_load pgtbl user (km_mem k) (src + j) = Some (g j)).
Abbreviation inv := (write_inv k g off T x B tbl ip).

(** What the next block costs. *)
Definition cost (T' : tview) (di' : dinode) (bn : Z) : Z :=
  if decide (islot (t_data T') di' bn = 0) then 2 else 1.

Lemma ip_lt di' : <[ip := set_di di' x]> tbl !! ip = Some (set_di di' x).
Proof. apply list_lookup_insert_eq. by eapply lookup_lt_Some. Qed.

Lemma ip_insert di' di'' :
  <[ip := set_di di'' (set_di di' x)]> (<[ip := set_di di' x]> tbl) = <[ip := set_di di'' x]> tbl.
Proof. by rewrite list_insert_insert_eq. Qed.

(** bmap inside the loop. *)
Lemma write_bmap t T0 di0 k0 c tot :
  txn_ok t T0 → wrote g off T (i_di x) tot T0 di0 → charge T0 di0 + c ≤ B →
  0 ≤ tot < n → cost T0 di0 ((off + tot) `div` BSIZE) ≤ c →
  wp (bmap ip ((off + tot) `div` BSIZE)) (Fst t (<[ip := set_di di0 x]> tbl) sb k0) (λ a s,
    ∃ t1 T1 di1, s = Fst t1 (<[ip := set_di di1 x]> tbl) sb k0 ∧ txn_ok t1 T1 ∧
      bmap_post sb T0 di0 ((off + tot) `div` BSIZE) a T1 di1 ∧
      charge T1 di1 ≤ charge T0 di0 + cost T0 di0 ((off + tot) `div` BSIZE) ∧
      (a ≠ 0 → charge T1 di1 + (if decide (a ∈ t_logged T1) then 0 else 1) ≤
        charge T0 di0 + cost T0 di0 ((off + tot) `div` BSIZE))).
Proof.
  intros Ht HW Hc Htot Hcost. set (bn := (off + tot) `div` BSIZE) in *. assert (0 < BSIZE) by done.
  assert (0 ≤ bn < MAXFILE) as Hbn.
  { split; [apply Z.div_pos; lia|apply Z.div_lt_upper_bound; lia]. }
  destruct (w_held _ _ _ _ _ _ _ HW) as (E1 & E2 & E3).
  assert (ind di0 ≠ 0 → idle T0 (ind di0)) as Hi.
  { intros Hi. by apply (w_idle _ _ _ _ _ _ _ HW MAXFILE). }
  unfold cost in *. pose proof (charge_bounds T0 di0). case_decide as Es.
  - eapply wp_mono; [apply (bmap_ok sb G t T0 _ ip (set_di di0 x)); try done|].
    + apply (w_alloc _ _ _ _ _ _ _ HW).
    + apply ip_lt.
    + apply (w_wf _ _ _ _ _ _ _ HW).
    + split_and!; [by rewrite E3|cbn; lia|cbn; rewrite E1; lia].
    + intros a s (t1 & T1 & di1 & -> & Ht1 & HP). exists t1, T1, di1. rewrite ip_insert.
      pose proof (bp_charge _ _ _ _ _ _ _ HP) as Hch. cbn in Hch. split_and!; [done..|].
      intros Ha. rewrite decide_True by (by apply (bp_new _ _ _ _ _ _ _ HP)). lia.
  - apply (bmap_mapped sb G t T0 _ ip (set_di di0 x)); try done.
    + apply ip_lt.
    + apply (w_wf _ _ _ _ _ _ _ HW).
    + split_and!; [intros; lia|lia|rewrite E1; lia].
    + intros t1 Ht1. exists t1, T0, di0. split_and!; [done..| |lia|].
      * apply (bmap_same sb); [apply (w_wf _ _ _ _ _ _ _ HW)|apply (w_alloc _ _ _ _ _ _ _ HW)|done|done].
      * intros _. case_decide; lia.
Qed.

(** A piece was written, or the disk is full. *)
Definition piece_post (c tot : Z) (r : Z * Z * Z + Z * Z) (s : fst (St:=St)) : Prop :=
  match r with
  | inl (tot', off', src') =>
      let l := Z.min (n - tot) (BSIZE - (off + tot) `mod` BSIZE) in
      tot' = tot + l ∧ off' = off + tot' ∧ src' = src + tot' ∧
      inv (λ _, True) (c - (if decide ((off + tot) `mod` BSIZE = 0) then 2 else 1)) tot' s
  | inr (tot', off') => tot' = tot ∧ off' = off + tot ∧ inv full 0 tot s
  end.

Lemma write_piece c tot s :
  inv (λ _, True) c tot s → 0 ≤ tot < n → (if decide ((off + tot) `mod` BSIZE = 0) then 2 else 1) ≤ c →
  wp (write_body user ip n (tot, off + tot, src + tot)) s (piece_post c tot).
Proof.
  intros (t & T0 & di0 & k0 & -> & Ht & HW & Hk & Hf & Hc & _) Htot Hcost. unfold write_body.
  destruct (Z.ltb_spec tot n); [|lia]. pose proof (mod_bsize (off + tot)) as Hmod. assert (0 < BSIZE) by done.
  set (bn := (off + tot) `div` BSIZE). set (l := Z.min (n - tot) (BSIZE - (off + tot) `mod` BSIZE)).
  assert (0 ≤ bn < MAXFILE) as Hbn by (split; [apply Z.div_pos|apply Z.div_lt_upper_bound]; lia).
  assert (cost T0 di0 bn ≤ (if decide ((off + tot) `mod` BSIZE = 0) then 2 else 1)) as Hcb.
  { unfold cost. do 2 case_decide; try lia. exfalso. eapply (w_map _ _ _ _ _ _ _ HW bn); [lia| |done].
    pose proof (Z.div_mod (off + tot) BSIZE). unfold bn. lia. }
  apply wp_bind. eapply wp_mono; [apply (write_bmap t T0 di0 k0 c tot); [done..|fold bn; lia]|].
  fold bn. intros a s (t1 & T1 & di1 & -> & Ht1 & HP & Hch0 & Hch).
  destruct (Z.eqb_spec a 0) as [->|Ha].
  { apply wp_ret. split_and!; [done..|]. exists t1, T1, di1, k0. split_and!; [done..| |done|done|lia|].
    - eapply wrote_full; [done|exact HP|lia..].
    - intros b Hb. by apply (bp_full _ _ _ _ _ _ _ HP). }
  specialize (Hch Ha). pose proof (bp_held _ _ _ _ _ _ _ HP) as (E1 & E2 & E3).
  destruct (w_held _ _ _ _ _ _ _ HW) as (E4 & E5 & E6). pose proof (meta_bounds sb G). pose proof (g_size _ G).
  assert (islot (t_data T1) di1 bn = a) as Ea by (symmetry; apply (bp_res _ _ _ _ _ _ _ HP)).
  destruct (wf_slot _ _ _ (bp_wf _ _ _ _ _ _ _ HP) bn) as [Har _]; [lia|by rewrite Ea|]. rewrite Ea in Har.
  assert (idle T1 a) as Hidle.
  { rewrite <-Ea. eapply (step_idle g off T (i_di x) tot T0 di0 HW a l T1 di1); try (exact HP || lia || done).
    intros y. by apply (txn_blocks t1). }
  pose proof (charge_bounds T1 di1).
  assert (0 < l ∧ l ≤ n - tot ∧ (off + tot) `mod` BSIZE + l ≤ BSIZE) as (Hl & Hl' & Hl'') by (unfold l; lia).
  apply wp_bind. apply (wp_fs_bread t1 T1 a _ _ _ 1 0); [done|lia|apply Hidle| |lia|lia|].
  { split_and!; [intros; congruence|repeat case_decide; lia|rewrite E1, E4; repeat case_decide; lia]. }
  intros i t2 Ht2 Hb2. apply wp_bind. fold l.
  assert (addressable kend pgtbl bufaddr user (km_mem k0)) as Ha0.
  { destruct user; [|done]. by destruct (addressable_agree _ _ _ _ _ Haddr Hk). }
  eapply (wp_copyin sb kend kend_pos pgtbl bufaddr user _ _ _ _ _ _ _ _ _ (λ j, g (tot + j)));
    [done|apply lookup_insert_eq|lia|lia|lia|done|lia|lia| | |].
  { intros Hu y Hy. apply Hsrcb; [done|lia]. }
  { intros j Hj. rewrite <-Z.add_assoc, <-(Hg (tot + j)) by lia. eapply src_load_agree; [done|done|lia|].
    intros Hu. apply Hsrcb; [done|lia]. }
  intros k1 t3 Hf1 Hk1 Ht3. simpl. apply wp_bind.
  eapply (wp_fs_log_write _ _ _ _ _ _ _ 0 0); [done|apply lookup_insert_eq|apply (g_fs _ G); lia| |lia|].
  { eapply budget_mono; [exact Hb2|lia|lia]. }
  intros t4 Ht4. apply wp_bind. eapply wp_fs_brelse; [done|apply lookup_insert_eq| |].
  { simpl. clear -Hidle. destruct Hidle. set_solver. }
  intros t5 Ht5. rewrite put_upd in Ht5 by exact Hidle. apply wp_ret.
  pose proof Hmax as Hmax'. change (MAXFILE * BSIZE) with 274432 in Hmax'.
  rewrite u32_small, u64_small by lia. fold l. split_and!; [done|lia|lia|].
  eexists t5, _, di1, k1. split_and!; [done|exact Ht5| | |congruence| |done].
  - cbn [t_get t_data]. eapply step_wrote; try exact HW; try exact HP; try lia; try done.
    intros y. by apply (txn_blocks t1).
  - by etrans; [exact Hk|].
  - pose proof (charge_upd T1 di1 a (put_bytes (t_data T1 a) ((off + tot) `mod` BSIZE) ((λ j, g (tot + j)) <$> seqZ 0 l))).
    cbn [t_get t_data]. lia.
Qed.

(** The loop with enough entries of the log for the blocks it touches. *)
Definition loop_inv (m : nat) (a : Z * Z * Z) (s : fst (St:=St)) : Prop :=
  let '(tot, o, d) := a in
  0 ≤ tot ≤ n ∧ o = off + tot ∧ d = src + tot ∧ enough m (off + tot) (n - tot) ∧
  ∃ c, 0 ≤ c ∧ inv (λ _, True) c tot s ∧
    (0 < n - tot → ∃ nb, (off + tot) `mod` BSIZE + (n - tot) ≤ nb * BSIZE ∧
      2 * nb - (if decide ((off + tot) `mod` BSIZE = 0) then 0 else 1) ≤ c).

(** The loop ended after [r] bytes: all of them, or the disk is full. *)
Definition loop_post (q : Z * Z) (s : fst (St:=St)) : Prop :=
  let '(r, o) := q in
  0 ≤ r ≤ n ∧ o = off + r ∧ inv (λ T', r < n → full T') 0 r s.

Lemma write_loop m a s : loop_inv m a s → wp (loop m (write_body user ip n) a) s loop_post.
Proof.
  apply (wp_loop loop_inv); clear m a s.
  2: { intros [[tot o] d] s (_ & _ & _ & [? _] & _). lia. }
  intros m [[tot o] d] s (Htot & -> & -> & He & c & Hc & Hi & Hnb).
  destruct (decide (tot = n)) as [->|Hne].
  { unfold write_body. rewrite Z.ltb_irrefl. apply wp_ret. split_and!; [lia|lia|done|].
    destruct Hi as (t' & T' & di' & k' & ? & ? & ? & ? & ? & ? & _). exists t', T', di', k'.
    split_and!; [done..|lia|lia]. }
  destruct Hnb as (nb & Hnb & Hcn); [lia|]. pose proof (mod_bsize (off + tot)) as Hmod.
  assert (1 ≤ nb) as Hnb1 by (unfold BSIZE in *; lia).
  destruct (enough_step m (off + tot) (n - tot)) as (He' & Hl & Hp); [lia|done|].
  eapply wp_mono; [apply (write_piece c tot s); [done|lia|case_decide; lia]|].
  intros [[[tot' o'] d']|[r o']] s'.
  - intros (-> & -> & -> & Hi').
    set (l := Z.min (n - tot) (BSIZE - (off + tot) `mod` BSIZE)) in *.
    replace (off + tot + l) with (off + (tot + l)) in He' by lia.
    replace (n - tot - l) with (n - (tot + l)) in He' by lia.
    split_and!; [lia|lia|done|done|done|].
    eexists. split_and!; [|exact Hi'|]; [case_decide; lia|].
    intros Hr. assert (l = BSIZE - (off + tot) `mod` BSIZE) as El by (unfold l; lia).
    assert ((off + (tot + l)) `mod` BSIZE = 0) as E0.
    { rewrite Z.add_assoc, El. apply piece_aligned. }
    exists (nb - 1). rewrite E0. rewrite (decide_True (P := 0 = 0)) by done.
    split; [unfold BSIZE in *; lia|]. case_decide; lia.
  - intros (-> & -> & t' & T' & di' & k' & ? & ? & ? & ? & ? & ? & Hfull).
    split_and!; [lia|lia|done|]. exists t', T', di', k'. split_and!; [done..|lia|done].
Qed.
End loop.

(** What writei did: [r] of the [n] bytes [g] written, fewer only if the disk is full. *)
Record write_post (g : Z → Z) (off n inum : Z) (T : tview) (di : dinode) (lim r : Z)
    (T' : tview) (di' : dinode) : Prop := {
  wp_res : 0 ≤ r ≤ n;
  wp_short : r < n → ∀ b, 0 ≤ b < sb_size sb → used sb (t_data T') b = true;
  wp_file : file_ok sb T' di';
  wp_alloc : alloc_ok sb T';
  wp_held : t_held T' = t_held T ∧ t_pend T' = t_pend T ∧ t_in T' = t_in T;
  wp_size : di' = Dinode (d_type di) (d_major di) (d_minor di) (d_nlink di)
                    (Z.max (d_size di) (off + r)) (d_addrs di');
  wp_bytes o : 0 ≤ o < d_size di' → fbyte (t_data T') di' o =
    if decide (off ≤ o < off + r) then g (o - off) else fbyte (t_data T) di o;
  wp_disk : disk_inode (t_data T') inum = di';
  wp_others j : 0 ≤ j < sb_ninodes sb → j ≠ inum → disk_inode (t_data T') j = disk_inode (t_data T) j;
  wp_frame b : stable sb T b → ¬ owned (t_data T) di b → b ≠ IBLOCK inum sb →
    t_data T' b = t_data T b;
  wp_logged : size (t_logged T') ≤ lim
}.

(** Storing the inode does not touch the file's blocks. *)
Lemma islot_upd D di ib d j :
  ib < sb_bmapstart sb → inode_wf sb D di → islot (<[ib := d]> D) di j = islot D di j.
Proof.
  intros Hib Hwf. pose proof (meta_bounds sb G). apply islot_ext. intros Hi. apply fn_lookup_insert_ne. intros E.
  destruct (wf_slot _ _ _ Hwf MAXFILE) as [Hr _]; [done|by rewrite islot_ind|]. rewrite islot_ind in Hr. lia.
Qed.

Lemma fbyte_upd D di ib d o :
  ib < sb_bmapstart sb → inode_wf sb D di → 0 ≤ o `div` BSIZE < MAXFILE → islot D di (o `div` BSIZE) ≠ 0 →
  fbyte (<[ib := d]> D) di o = fbyte D di o.
Proof.
  intros Hib Hwf Ho Hne. pose proof (meta_bounds sb G). pose proof MAXFILE_eq. unfold fbyte.
  assert (islot (<[ib := d]> D) di (o `div` BSIZE) = islot D di (o `div` BSIZE)) as ->.
  { by apply islot_upd. }
  rewrite fn_lookup_insert_ne; [done|].
  intros E. destruct (wf_slot _ _ _ Hwf (o `div` BSIZE)) as [Hr _]; [lia|done|]. lia.
Qed.

Lemma used_low D ib d b :
  ib < sb_bmapstart sb → 0 ≤ b < sb_size sb → used sb (<[ib := d]> D) b = used sb D b.
Proof.
  intros Hib Hb. unfold used. destruct (BBLOCK_eq sb G b Hb). by rewrite fn_lookup_insert_ne by lia.
Qed.

Lemma inode_wf_size D di n : 0 ≤ n < 2^32 → inode_wf sb D di → inode_wf sb D (set_size n di).
Proof. intros Hn [[H1 H2 H3 H4 H5 H6 H7] Hs Hj]. by split. Qed.

Section finish.
Context (g : Z → Z) (off n inum : Z) (T : tview) (di : dinode) (r : Z) (T0 : tview) (di0 : dinode).
Context (HW : wrote g off T di r T0 di0) (Hr : 0 ≤ r ≤ n) (Hoff : 0 ≤ off ≤ d_size di).
Context (Hmax : Z.max (d_size di) (off + r) ≤ MAXFILE * BSIZE) (Hinum : 0 ≤ inum < sb_ninodes sb).
Context (Hwf : inode_wf sb (t_data T) di).
Context (HD : ∀ x, block_ok (t_data T0 x)).
Context (Hshort : r < n → ∀ b, 0 ≤ b < sb_size sb → used sb (t_data T0) b = true).
Let di1 := set_size (Z.max (d_size di) (off + r)) di0.
Let ib := IBLOCK inum sb.
Let T2 := t_upd ib (put_dinode (t_data T0 ib) (inum `mod` IPB) di1) T0.

Lemma finish_wf : inode_wf sb (t_data T0) di1.
Proof.
  apply inode_wf_size; [|apply (w_wf _ _ _ _ _ _ _ HW)].
  pose proof Hmax as Hm. change (MAXFILE * BSIZE) with 274432 in Hm. lia.
Qed.

Lemma finish_ib : sb_inodestart sb ≤ ib < sb_bmapstart sb.
Proof. by apply IBLOCK_range. Qed.

Lemma finish_slot j : islot (t_data T2) di1 j = islot (t_data T0) di0 j.
Proof. pose proof finish_ib. apply (islot_upd (t_data T0) di1); [lia|apply finish_wf]. Qed.

Lemma finish_used b : 0 ≤ b < sb_size sb → used sb (t_data T2) b = used sb (t_data T0) b.
Proof. pose proof finish_ib. intros Hb. apply used_low; [lia|done]. Qed.

Lemma finish_wf2 : inode_wf sb (t_data T2) di1.
Proof.
  destruct finish_wf as [H1 H2 H3]. pose proof (meta_bounds sb G). split; [done| |].
  - intros j Hj. rewrite finish_slot. intros Hne. destruct (H2 j Hj Hne). split; [done|].
    rewrite finish_used; [done|]. change (islot (t_data T0) di1 j) with (islot (t_data T0) di0 j) in *. lia.
  - intros i j Hi Hj. rewrite !finish_slot. by apply H3.
Qed.

Lemma finish_alloc : alloc_ok sb T2.
Proof.
  destruct (w_alloc _ _ _ _ _ _ _ HW) as [H1 H2 H3]. pose proof (meta_bounds sb G). pose proof (g_size _ G).
  split; [|done|].
  - intros b Hb. rewrite finish_used by lia. by apply H1.
  - intros b Hb. rewrite finish_used by lia. by apply H3.
Qed.

Lemma finish_disk j :
  0 ≤ j < sb_ninodes sb → disk_inode (t_data T2) j = if decide (j = inum) then di1 else disk_inode (t_data T0) j.
Proof.
  intros Hj. unfold disk_inode, T2, t_upd. cbn [t_data]. fold ib.
  assert (∀ i, 0 ≤ i `mod` IPB < IPB) as Hmod by (intros; by apply Z.mod_pos_bound).
  pose proof (wf_di _ _ _ finish_wf) as Hok.
  case_decide as E; [subst j; rewrite fn_lookup_insert; by apply get_put_dinode|].
  destruct (decide (IBLOCK j sb = ib)) as [Eb|Hne]; [|by rewrite fn_lookup_insert_ne].
  rewrite Eb, fn_lookup_insert. apply get_put_dinode_ne; [done|done|apply Hmod| |apply Hok].
  intros Em. apply E. pose proof finish_ib. pose proof (IBLOCK_range j Hj). unfold ib, IBLOCK, u32 in Eb.
  pose proof (g_size _ G). pose proof (meta_bounds sb G). pose proof (g_ino _ G).
  assert (0 < IPB) by done. pose proof (Z.div_pos j IPB). pose proof (Z.div_pos inum IPB).
  pose proof (Z.div_le_mono j (sb_ninodes sb) IPB). pose proof (Z.div_le_mono inum (sb_ninodes sb) IPB).
  rewrite !Z.mod_small in Eb by lia. pose proof (Z.div_mod j IPB). pose proof (Z.div_mod inum IPB). nia.
Qed.

Lemma finish_post lim :
  size (t_logged T0) + 1 ≤ lim →
  write_post g off n inum T di lim r T2 di1.
Proof.
  intros Hlim. pose proof finish_ib. pose proof (w_fields _ _ _ _ _ _ _ HW) as Hf.
  assert (∀ b, b ≠ ib → t_data T2 b = t_data T0 b) as Hne.
  { intros b Hb. unfold T2, t_upd. cbn [t_data]. by rewrite fn_lookup_insert_ne. }
  pose proof (meta_bounds sb G). split.
  - done.
  - intros Hlt b Hb. rewrite finish_used by done. by apply Hshort.
  - split; [apply finish_wf2|done| |].
    + intros bn Hb Hlt. rewrite finish_slot. by apply (w_map _ _ _ _ _ _ _ HW).
    + intros j Hj. rewrite finish_slot. intros Hn0. apply idle_upd. by apply (w_idle _ _ _ _ _ _ _ HW).
  - apply finish_alloc.
  - apply (w_held _ _ _ _ _ _ _ HW).
  - unfold di1, set_size. rewrite Hf. done.
  - intros o Ho. cbn [di1 set_size d_size] in Ho. rewrite <-(w_bytes _ _ _ _ _ _ _ HW o Ho).
    assert (0 < BSIZE) by done. unfold T2, t_upd. cbn [t_data].
    apply (fbyte_upd (t_data T0) di1); [lia|apply finish_wf| |].
    + split; [apply Z.div_pos|apply Z.div_lt_upper_bound]; lia.
    + apply (w_map _ _ _ _ _ _ _ HW); [apply Z.div_pos; lia|].
      pose proof (Z.div_mod o BSIZE). pose proof (mod_bsize o). lia.
  - rewrite finish_disk, decide_True by done. done.
  - intros j Hj Hji. rewrite finish_disk, decide_False by done. unfold disk_inode. f_equal.
    pose proof (IBLOCK_range j Hj). apply (w_frame _ _ _ _ _ _ _ HW); [split; lia|].
    intros (Hn0 & i & Hi & E). rewrite <-E in Hn0. destruct (wf_slot _ _ _ Hwf i Hi Hn0) as [? _]. lia.
  - intros b Hb Ho Hbi. rewrite Hne by done. by apply (w_frame _ _ _ _ _ _ _ HW).
  - unfold T2, t_upd. cbn [t_logged]. pose proof (size_logged ib T0). lia.
Qed.
End finish.

(** The entries of the log that a write of [n] bytes at [off] needs: two for
    each block it touches (the block and its bit map block), one less if the
    first is there already, two for the indirect block and one for the inode. *)
Definition write_cost (off nb : Z) : Z :=
  2 * nb - (if decide (off `mod` BSIZE = 0) then 0 else 1) + 3.

Lemma writei_ok user g t T tbl ip x k src off n nb :
  txn_ok t T → alloc_ok sb T → file_ok sb T (i_di x) → tbl !! ip = Some x → i_dev x = dev →
  0 ≤ i_inum x < sb_ninodes sb → idle T (IBLOCK (i_inum x) sb) → t_in T = true →
  0 ≤ off ≤ d_size (i_di x) → 0 ≤ n → off + n ≤ MAXFILE * BSIZE →
  0 ≤ src → src + n < 2^64 → addressable kend pgtbl bufaddr user (km_mem k) →
  (user = false → ∀ y, src ≤ y < src + n → ¬ bufmem bufaddr y) →
  (∀ j, 0 ≤ j < n → src_load pgtbl user (km_mem k) (src + j) = Some (g j)) →
  1 ≤ nb → off `mod` BSIZE + n ≤ nb * BSIZE →
  size (t_logged T) + write_cost off nb ≤ log_cap →
  size (t_logged T) + write_cost off nb + size (t_held T) + 2 ≤ NBUF →
  wp (writei pgtbl bufaddr ip user src off n) (Fst t tbl sb k) (λ r s, ∃ t' T' di' k',
    s = Fst t' (<[ip := set_di di' x]> tbl) sb k' ∧ txn_ok t' T' ∧
    agree_but bufaddr (km_mem k) (km_mem k') ∧ freelist k' = freelist k ∧
    write_post g off n (i_inum x) T (i_di x) (size (t_logged T) + write_cost off nb) r T' di').
Proof.
  intros Ht Hao Hf Hx Hdev Hinum Hidle Hin Hoff Hn Hmax Hsrc Hsrcn Haddr Hsrcb Hg Hnb Hon Hb1 Hb2.
  pose proof (f_size _ _ _ Hf) as Hsz. pose proof Hmax as Hm. pose proof Hsz as Hsz'.
  change (MAXFILE * BSIZE) with 274432 in Hm, Hsz'. unfold write_cost in *.
  set (B := size (t_logged T) + (2 * nb - (if decide (off `mod` BSIZE = 0) then 0 else 1) + 3) - 1).
  pose proof (charge_bounds T (i_di x)) as Hch.
  unfold writei. apply wp_bind. eapply wp_geti; [done|]. rewrite u32_small by lia.
  destruct (Z.ltb_spec (d_size (i_di x)) off); [lia|]. destruct (Z.ltb_spec (off + n) off); [lia|].
  destruct (Z.ltb_spec (MAXFILE * BSIZE) (off + n)); [lia|]. cbn [orb]. rewrite Hdev. apply wp_bind.
  eapply wp_mono.
  { apply (write_loop k user g src off n T x B tbl ip); try done; try (unfold B; case_decide; lia).
    unfold loop_inv. rewrite !Z.add_0_r, Z.sub_0_r. split_and!; [lia..|by apply enough_start|].
    exists (2 * nb - (if decide (off `mod` BSIZE = 0) then 0 else 1)). split_and!; [case_decide; lia| |].
    - exists t, T, (i_di x), k. rewrite (insert_same _ _ _ Hx). split_and!; [done..| |done|done|unfold B; lia|done].
      apply wrote_start; done.
    - intros _. exists nb. split; [lia|done]. }
  intros [r o] s (Hr & -> & (t1 & T1 & di1 & k1 & -> & Ht1 & HW & Hk1 & Hf1 & Hc1 & Hfull)).
  pose proof (w_fields _ _ _ _ _ _ _ HW) as Hfl.
  assert (d_size di1 = d_size (i_di x)) as Es by (by rewrite Hfl).
  apply wp_bind. eapply wp_geti; [by apply ip_lt|]. cbn [set_di i_di]. rewrite Es.
  set (di2 := set_size (Z.max (d_size (i_di x)) (off + r)) di1).
  assert (wp (if d_size (i_di x) <? off + r then updi ip (λ x, set_di (set_size (off + r) (i_di x)) x) else ret tt)
    (Fst t1 (<[ip := set_di di1 x]> tbl) sb k1) (λ _ s, s = Fst t1 (<[ip := set_di di2 x]> tbl) sb k1)) as Hupd.
  { destruct (Z.ltb_spec (d_size (i_di x)) (off + r)).
    - eapply wp_updi; [by apply ip_lt|]. cbn [set_di i_di]. f_equal. rewrite list_insert_insert_eq.
      unfold di2. rewrite Z.max_r by lia. done.
    - apply wp_ret. unfold di2. rewrite Z.max_l, <-Es by lia. by destruct di1. }
  apply wp_bind. eapply wp_mono; [exact Hupd|]. intros [] s ->.
  destruct (w_held _ _ _ _ _ _ _ HW) as (E1 & E2 & E3). pose proof (charge_bounds T1 di1).
  apply wp_bind. eapply (iupdate_ok t1 T1 _ ip (set_di di2 x) k1 0 0); try done.
  - by apply ip_lt.
  - apply (wf_di _ _ _ (w_wf _ _ _ _ _ _ _ HW)).
  - unfold idle. rewrite E1, E2. done.
  - split_and!; [by rewrite E3|unfold B in *; case_decide; lia|rewrite E1; unfold B in *; case_decide; lia].
  - intros t2 Ht2. apply wp_ret. rewrite i32_small by lia. eexists t2, _, di2, k1.
    split_and!; [done|exact Ht2|done|done|].
    apply (finish_post _ _ _ _ T (i_di x)); try done; try (apply Hf).
    + lia.
    + intros y. by apply (txn_blocks t1).
    + unfold B in *. lia.
Qed.
End write.
