(* ===== verification/FsTable.v ===== *)
(** * The inode table of kernel/fs.c

    iget, idup and the steps of iput keep one entry per inode in use; ilock
    loads what iupdate stored. *)

From S2P Require Import Prelude Riscv Mem Kalloc Vm Block FsFormat Txn Fs FsBlocks FsInode FsFile FsWrite.

(** ** One entry per inode *)

Definition same_id (d inum : Z) (x : inode) : Prop := i_dev x = d ∧ i_inum x = inum.

Record itable_ok (tbl : list inode) : Prop := {
  it_ref i x : tbl !! i = Some x → 0 ≤ i_ref x < 2^31;
  it_uniq i j x y : tbl !! i = Some x → tbl !! j = Some y → 0 < i_ref x → 0 < i_ref y →
    same_id (i_dev y) (i_inum y) x → i = j
}.

(** The references to inode [inum] of device [d]. *)
Fixpoint refs (tbl : list inode) (d inum : Z) : Z :=
  match tbl with
  | [] => 0
  | x :: tbl => (if (i_dev x =? d) && (i_inum x =? inum) then i_ref x else 0) + refs tbl d inum
  end.

Lemma refs_insert tbl i x y d inum :
  tbl !! i = Some x →
  refs (<[i := y]> tbl) d inum =
    refs tbl d inum - (if (i_dev x =? d) && (i_inum x =? inum) then i_ref x else 0)
      + (if (i_dev y =? d) && (i_inum y =? inum) then i_ref y else 0).
Proof.
  revert i. induction tbl as [|z tbl IH]; intros [|i] E; simplify_eq/=; [lia|]. rewrite IH by done. lia.
Qed.

Definition is_entry (d inum : Z) (x : inode) : bool :=
  (0 <? i_ref x) && (i_dev x =? d) && (i_inum x =? inum).

Lemma is_entry_spec d inum x : is_entry d inum x = true ↔ 0 < i_ref x ∧ same_id d inum x.
Proof. unfold is_entry, same_id. rewrite !andb_true_iff, Z.ltb_lt, !Z.eqb_eq. tauto. Qed.

Lemma iget_scan_cons x tbl d inum i e :
  iget_scan (x :: tbl) d inum i e =
    if is_entry d inum x then (Some i, e)
    else iget_scan tbl d inum (S i)
           (match e with None => if i_ref x =? 0 then Some i else None | Some e => Some e end).
Proof. done. Qed.

Lemma iget_scan_found tbl d inum i0 e i e' :
  iget_scan tbl d inum i0 e = (Some i, e') →
  ∃ x, (i0 ≤ i)%nat ∧ tbl !! (i - i0)%nat = Some x ∧ 0 < i_ref x ∧ same_id d inum x.
Proof.
  revert i0 e. induction tbl as [|x tbl IH]; intros i0 e E; [done|]. rewrite iget_scan_cons in E.
  destruct (is_entry d inum x) eqn:Ex.
  - simplify_eq. exists x. rewrite Nat.sub_diag. apply is_entry_spec in Ex. split; [lia|]. by split.
  - apply IH in E as (y & ? & Hy & ?). exists y. split; [lia|]. split; [|done].
    by replace (i - i0)%nat with (S (i - S i0)) by lia.
Qed.

Lemma iget_scan_none tbl d inum i0 e e' :
  iget_scan tbl d inum i0 e = (None, e') →
  (∀ i x, tbl !! i = Some x → ¬ (0 < i_ref x ∧ same_id d inum x)) ∧
  match e, e' with
  | Some a, _ => e' = Some a
  | None, Some a => ∃ x, (i0 ≤ a)%nat ∧ tbl !! (a - i0)%nat = Some x ∧ i_ref x = 0
  | None, None => ∀ i x, tbl !! i = Some x → i_ref x ≠ 0
  end.
Proof.
  revert i0 e. induction tbl as [|x tbl IH]; intros i0 e E.
  { simpl in E. simplify_eq. split; [done|]. by destruct e'. }
  rewrite iget_scan_cons in E. destruct (is_entry d inum x) eqn:Ex; [done|].
  apply IH in E as [H1 H2]. split.
  { intros [|i] y Hy; [|by apply (H1 i)]. simplify_eq/=. rewrite <-is_entry_spec, Ex. done. }
  destruct e as [a|]; [done|]. destruct (Z.eqb_spec (i_ref x) 0) as [E0|E0].
  - subst e'. exists x. rewrite Nat.sub_diag. split_and!; [lia|done..].
  - destruct e' as [a|].
    + destruct H2 as (y & ? & Hy & ?). exists y. split_and!; [lia| |done].
      by replace (a - i0)%nat with (S (a - S i0)) by lia.
    + intros [|i] y Hy; [by simplify_eq/=|by apply (H2 i)].
Qed.

Section table.
Context {St : Type} {dev : Z} `{!TxnLayer St dev}.
Implicit Types (t : St) (tbl : list inode) (sb : superblock) (k : kmem).

Lemma itable_ok_insert tbl i x y :
  itable_ok tbl → tbl !! i = Some x → 0 ≤ i_ref y < 2^31 →
  (∀ j z, tbl !! j = Some z → j ≠ i → 0 < i_ref z → 0 < i_ref y → ¬ same_id (i_dev y) (i_inum y) z) →
  itable_ok (<[i := y]> tbl).
Proof.
  intros [Hr Hu] Hx Hy Hn. assert (i < length tbl)%nat as Hi by (by eapply lookup_lt_Some).
  assert (∀ j z, <[i := y]> tbl !! j = Some z → j = i ∧ z = y ∨ j ≠ i ∧ tbl !! j = Some z) as Hl.
  { intros j z. rewrite list_lookup_insert. case_decide as E; [|naive_solver]. destruct E as [-> _]. naive_solver. }
  split.
  - intros j z [[-> ->]|[? Hz]]%Hl; [done|by eapply Hr].
  - intros j1 j2 z1 z2 [[-> ->]|[? H1]]%Hl [[-> ->]|[? H2]]%Hl R1 R2 Hid; [done| | |by eapply Hu].
    + exfalso. eapply (Hn j2); [done..|]. destruct Hid. by split.
    + exfalso. by eapply (Hn j1).
Qed.

(** iget returns the entry of the inode, with one more reference, or takes an
    unused entry; it panics when there is none. *)
Lemma iget_ok t tbl sb k d inum :
  itable_ok tbl → (∀ x, x ∈ tbl → i_ref x < 2^31 - 1) →
  match iget d inum (Fst t tbl sb k) with
  | Done ip s => ∃ x y, s = Fst t (<[ip := y]> tbl) sb k ∧ tbl !! ip = Some x ∧ same_id d inum y ∧
      itable_ok (<[ip := y]> tbl) ∧
      ((0 < i_ref x ∧ same_id d inum x ∧ y = set_ref (i_ref x + 1) x) ∨
       (i_ref x = 0 ∧ y = Inode d inum 1 (i_locked x) (i_lpid x) false (i_di x) ∧
        ∀ j z, tbl !! j = Some z → ¬ (0 < i_ref z ∧ same_id d inum z)))
  | Panic msg => msg = "iget: no inodes" ∧
      (∀ i x, tbl !! i = Some x → i_ref x ≠ 0 ∧ ¬ same_id d inum x)
  | _ => False
  end.
Proof.
  intros Hok Hsm. unfold iget, bind, gets, updi, modify, ret. cbn [itable].
  destruct (iget_scan tbl d inum 0 None) as [[ip|] e] eqn:E.
  - apply iget_scan_found in E as (x & _ & Hx & Hr & Hid). rewrite Nat.sub_0_r in Hx. cbn [ftx itable fsb fk].
    rewrite (alter_insert_at _ ip tbl x Hx). pose proof (it_ref _ Hok _ _ Hx).
    assert (i_ref x < 2^31 - 1) by (eapply Hsm, list_elem_of_lookup_2; done). rewrite i32_small by lia.
    exists x, (set_ref (i_ref x + 1) x). split_and!; [done..| |left; done].
    eapply itable_ok_insert; [done|done|simpl; lia|]. intros j z Hz Hne Rz _ Hidz. apply Hne.
    by eapply (it_uniq _ Hok).
  - apply iget_scan_none in E as [Hn He]. destruct e as [ip|].
    + destruct He as (x & _ & Hx & Hr). rewrite Nat.sub_0_r in Hx. cbn [ftx itable fsb fk].
      rewrite (alter_insert_at _ ip tbl x Hx).
      eexists x, _. split_and!; [done..| |right; done].
      eapply itable_ok_insert; [done|done|simpl; lia|]. simpl. intros j z Hz Hne Rz _ Hidz. by eapply Hn.
    + split; [done|]. intros i x Hx. pose proof (He i x Hx). split; [done|]. intros Hid. apply (Hn i x Hx).
      split; [|done]. pose proof (it_ref _ Hok _ _ Hx). lia.
Qed.

(** ** Counting references *)

Definition bump (d inum n : Z) (c : Z → Z → Z) : Z → Z → Z :=
  λ d' i', c d' i' + (if (d =? d') && (inum =? i') then n else 0).

Variable pid : Z.

(** Calls that take or drop a reference, with the number of references to each
    inode that their callers hold, and the other calls of a holder. iput lets
    go of the table's lock while it frees an inode, so that other calls may
    come between its two steps. The reference counts fit an [int]. *)
Inductive iref_step : fst (St:=St) * (Z → Z → Z) → fst (St:=St) * (Z → Z → Z) → Prop :=
| step_iget s s' c d inum ip :
    (∀ x, x ∈ itable s → i_ref x < 2^31 - 1) → iget d inum s = Done ip s' →
    iref_step (s, c) (s', bump d inum 1 c)
| step_idup s s' c ip x :
    itable s !! ip = Some x → 0 < i_ref x < 2^31 - 1 → idup ip s = Done ip s' →
    iref_step (s, c) (s', bump (i_dev x) (i_inum x) 1 c)
| step_iput_free s s' c ip x :
    itable s !! ip = Some x → 0 < i_ref x → iput_free pid ip s = Done tt s' → iref_step (s, c) (s', c)
| step_iput_drop s s' c ip x :
    itable s !! ip = Some x → 0 < i_ref x → iput_drop ip s = Done tt s' →
    iref_step (s, c) (s', bump (i_dev x) (i_inum x) (-1) c)
| step_ilock s s' c ip : ilock pid ip s = Done tt s' → iref_step (s, c) (s', c)
| step_iunlock s s' c ip : iunlock pid ip s = Done tt s' → iref_step (s, c) (s', c).

Definition counts (st : fst (St:=St) * (Z → Z → Z)) : Prop :=
  itable_ok (itable st.1) ∧ ∀ d inum, refs (itable st.1) d inum = st.2 d inum.

Lemma counts_set_ref tbl ip x n c :
  itable_ok tbl → (∀ d inum, refs tbl d inum = c d inum) → tbl !! ip = Some x → 0 < i_ref x →
  0 ≤ i_ref x + n < 2^31 →
  itable_ok (<[ip := set_ref (i_ref x + n) x]> tbl) ∧
  ∀ d inum, refs (<[ip := set_ref (i_ref x + n) x]> tbl) d inum = bump (i_dev x) (i_inum x) n c d inum.
Proof.
  intros Hok Hc Hx Hr Hn. split.
  - eapply itable_ok_insert; [done|done|done|]. intros j z Hz Hne Rz _ Hid. apply Hne.
    by eapply (it_uniq _ Hok).
  - intros d inum. rewrite (refs_insert tbl ip x) by done. rewrite Hc. unfold bump. cbn [set_ref i_dev i_inum i_ref].
    destruct ((i_dev x =? d) && (i_inum x =? inum)); lia.
Qed.

(** *** Operations that leave the references alone *)

Definition same_ref (x y : inode) : Prop := i_dev y = i_dev x ∧ i_inum y = i_inum x ∧ i_ref y = i_ref x.
Definition keeps_refs {A} (m : M (fst (St:=St)) A) : Prop :=
  ∀ s a s', m s = Done a s' → Forall2 same_ref (itable s) (itable s').

#[global] Instance same_ref_refl : Reflexive same_ref.
Proof. done. Qed.
#[global] Instance same_ref_trans : Transitive same_ref.
Proof. intros x y z (? & ? & ?) (? & ? & ?). split_and!; congruence. Qed.

Lemma keeps_refs_same {A} (m : M (fst (St:=St)) A) :
  (∀ s a s', m s = Done a s' → itable s' = itable s) → keeps_refs m.
Proof. intros H s a s' Hm. by rewrite (H _ _ _ Hm). Qed.
Lemma keeps_refs_ret {A} (a : A) : keeps_refs (ret a).
Proof. apply keeps_refs_same. by intros ??? [= _ <-]. Qed.
Lemma keeps_refs_gets {A} (f : fst (St:=St) → A) : keeps_refs (gets f).
Proof. apply keeps_refs_same. by intros ??? [= _ <-]. Qed.
Lemma keeps_refs_panic {A} msg : keeps_refs (panic (A:=A) msg).
Proof. by intros ???. Qed.
Lemma keeps_refs_sleep {A} ch : keeps_refs (sleep_on (A:=A) ch).
Proof. by intros ???. Qed.
Lemma keeps_refs_on_tx {A} (m : M St A) : keeps_refs (on_tx m).
Proof. apply keeps_refs_same. intros s a s' H. unfold on_tx in H. by destruct (m (ftx s)); simplify_eq. Qed.
Lemma keeps_refs_bind {A B} (m : M (fst (St:=St)) A) (k : A → M (fst (St:=St)) B) :
  keeps_refs m → (∀ a, keeps_refs (k a)) → keeps_refs (bind m k).
Proof. intros Hm Hk s b s'' (a & s' & H1 & H2)%bind_inv. etrans; [by eapply Hm|by eapply Hk]. Qed.
Lemma keeps_refs_for_each {B} (l : list B) (body : B → M (fst (St:=St)) unit) :
  (∀ x, keeps_refs (body x)) → keeps_refs (for_each l body).
Proof. intros Hb. induction l as [|x l IH]; [apply keeps_refs_ret|]. by apply keeps_refs_bind. Qed.
Lemma keeps_refs_updi ip f : (∀ x, same_ref x (f x)) → keeps_refs (updi ip f).
Proof.
  intros Hf s a s' [= _ <-]. cbn. apply Forall2_same_length_lookup_2; [by rewrite length_alter|].
  intros i x y Hx Hy. destruct (decide (i = ip)) as [->|].
  - rewrite list_lookup_alter_eq, Hx in Hy. by injection Hy as <-.
  - rewrite list_lookup_alter_ne, Hx in Hy by done. by injection Hy as <-.
Qed.

Ltac keeps_refs :=
  lazymatch goal with
  | |- keeps_refs (bind _ _) => apply keeps_refs_bind; [keeps_refs|let x := fresh in intros x; keeps_refs]
  | |- keeps_refs (ret _) => apply keeps_refs_ret
  | |- keeps_refs (gets _) => apply keeps_refs_gets
  | |- keeps_refs (geti _) => apply keeps_refs_gets
  | |- keeps_refs (get_sb _) => apply keeps_refs_gets
  | |- keeps_refs (panic _) => apply keeps_refs_panic
  | |- keeps_refs (sleep_on _) => apply keeps_refs_sleep
  | |- keeps_refs (on_tx _) => apply keeps_refs_on_tx
  | |- keeps_refs (Fs.bread _ _) => apply keeps_refs_on_tx
  | |- keeps_refs (Fs.bdata _) => apply keeps_refs_on_tx
  | |- keeps_refs (Fs.set_bdata _ _) => apply keeps_refs_on_tx
  | |- keeps_refs (Fs.log_write _) => apply keeps_refs_on_tx
  | |- keeps_refs (Fs.brelse _) => apply keeps_refs_on_tx
  | |- keeps_refs (for_each _ _) => apply keeps_refs_for_each; let x := fresh in intros x; keeps_refs
  | |- keeps_refs (updi _ _) => apply keeps_refs_updi; done
  | |- keeps_refs (match ?x with _ => _ end) => destruct x; keeps_refs
  | |- keeps_refs (let _ := _ in _) => cbv zeta; keeps_refs
  end.

Lemma bfree_refs d b : keeps_refs (bfree d b).
Proof. unfold bfree. keeps_refs. Qed.
Lemma iupdate_refs ip : keeps_refs (iupdate ip).
Proof. unfold iupdate. keeps_refs. Qed.
Lemma itrunc_refs ip : keeps_refs (itrunc ip).
Proof.
  unfold itrunc. apply keeps_refs_bind; [apply keeps_refs_for_each; intros i|intros []].
  { apply keeps_refs_bind; [keeps_refs|intros x]. cbv zeta. case_match; [|keeps_refs].
    apply keeps_refs_bind; [apply bfree_refs|intros []; keeps_refs]. }
  apply keeps_refs_bind; [keeps_refs|intros x]. cbv zeta. apply keeps_refs_bind; [|intros []; apply keeps_refs_bind; [keeps_refs|intros []; apply iupdate_refs]].
  case_match; [|keeps_refs]. do 2 (apply keeps_refs_bind; [keeps_refs|intros ?]).
  apply keeps_refs_bind; [apply keeps_refs_for_each; intros j; case_match; [apply bfree_refs|keeps_refs]|intros []].
  apply keeps_refs_bind; [keeps_refs|intros []]. apply keeps_refs_bind; [apply bfree_refs|intros []; keeps_refs].
Qed.
Lemma iput_free_refs ip : keeps_refs (iput_free pid ip).
Proof.
  unfold iput_free, acquiresleep, releasesleep. apply keeps_refs_bind; [keeps_refs|intros []].
  apply keeps_refs_bind; [apply itrunc_refs|intros []]. apply keeps_refs_bind; [keeps_refs|intros []].
  apply keeps_refs_bind; [apply iupdate_refs|intros []]. keeps_refs.
Qed.
Lemma ilock_refs ip : keeps_refs (ilock pid ip).
Proof. unfold ilock, acquiresleep. keeps_refs. Qed.
Lemma iunlock_refs ip : keeps_refs (iunlock pid ip).
Proof. unfold iunlock, holdingsleep, releasesleep. keeps_refs. Qed.

Lemma counts_same tbl tbl' (c : Z → Z → Z) :
  Forall2 same_ref tbl tbl' → itable_ok tbl ∧ (∀ d inum, refs tbl d inum = c d inum) →
  itable_ok tbl' ∧ ∀ d inum, refs tbl' d inum = c d inum.
Proof.
  intros HF [[Hr Hu] Hc]. split.
  - split.
    + intros i y Hy. destruct (Forall2_lookup_r _ _ _ _ _ HF Hy) as (x & Hx & _ & _ & ->). by eapply Hr.
    + intros i j y1 y2 H1 H2. destruct (Forall2_lookup_r _ _ _ _ _ HF H1) as (x1 & Hx1 & E1 & E2 & ->).
      destruct (Forall2_lookup_r _ _ _ _ _ HF H2) as (x2 & Hx2 & E3 & E4 & ->). unfold same_id. rewrite E1, E2, E3, E4.
      by apply Hu.
  - intros d inum. rewrite <-Hc. clear Hr Hu Hc. induction HF as [|x y tbl tbl' (E1 & E2 & E3) _ IH]; cbn; [done|].
    by rewrite IH, E1, E2, E3.
Qed.

Lemma counts_step st st' : iref_step st st' → counts st → counts st'.
Proof.
  intros [[t tbl sb k] s' c d inum ip Hsm E|[t tbl sb k] s' c ip x Hx Hr E|s s' c ip x Hx Hr E|[t tbl sb k] s' c ip x Hx Hr E|
    s s' c ip E|s s' c ip E] [Hok Hc]; simpl in *.
  - pose proof (iget_ok t tbl sb k d inum Hok Hsm) as H. rewrite E in H.
    destruct H as (x & y & -> & Hx & Hid & Hok' & [(Rx & Hidx & ->)|(Rx & -> & Hno)]); simpl.
    + pose proof (it_ref _ Hok _ _ Hx). assert (i_ref x < 2^31 - 1) by (eapply Hsm, list_elem_of_lookup_2; done).
      destruct Hidx as [<- <-]. apply counts_set_ref; [done|done|done|lia|lia].
    + split; [done|]. intros d' i'. cbn [Datatypes.fst snd itable]. rewrite (refs_insert tbl ip x) by done. rewrite Hc. unfold bump.
      cbn [i_dev i_inum i_ref]. rewrite Rx. destruct ((i_dev x =? d') && (i_inum x =? i')); lia.
  - unfold idup, bind, updi, modify, ret in E. injection E as <-. cbn [ftx itable fsb fk].
    unfold counts. cbn [Datatypes.fst snd itable]. rewrite (alter_insert_at _ ip tbl x Hx), i32_small by lia.
    apply counts_set_ref; [done|done|done|lia|lia].
  - eapply counts_same; [by eapply iput_free_refs|done].
  - unfold iput_drop, updi, modify in E. cbn [ftx itable fsb fk] in E. injection E as <-.
    pose proof (it_ref _ Hok _ _ Hx). unfold counts. cbn [Datatypes.fst snd itable].
    rewrite (alter_insert_at _ ip tbl x Hx), i32_small by lia. apply counts_set_ref; [done|done|done|lia|lia].
  - eapply counts_same; [by eapply ilock_refs|done].
  - eapply counts_same; [by eapply iunlock_refs|done].
Qed.

(** A call of iput is made of these steps. *)
Lemma iput_steps s s' c ip x :
  itable s !! ip = Some x → 0 < i_ref x → iput pid ip s = Done tt s' →
  rtc iref_step (s, c) (s', bump (i_dev x) (i_inum x) (-1) c).
Proof.
  intros Hx Hr E. unfold iput in E. apply bind_inv in E as (x0 & s0 & [= <- <-] & E). apply bind_inv in E as ([] & s1 & E1 & E2).
  rewrite (list_lookup_total_correct _ _ _ Hx) in E1.
  destruct ((i_ref x =? 1) && i_valid x && (d_nlink (i_di x) =? 0)); cycle 1.
  { injection E1 as <-. eapply rtc_once, step_iput_drop; [done..]. }
  eapply rtc_l; [by eapply step_iput_free|]. pose proof (iput_free_refs ip _ _ _ E1) as HF.
  destruct (Forall2_lookup_l _ _ _ _ _ HF Hx) as (y & Hy & E3 & E4 & E5). rewrite <-E3, <-E4.
  apply rtc_once. eapply step_iput_drop; [done|lia|done].
Qed.

(** ** Loading an inode *)

Lemma ilock_ok t T tbl sb k ip x Q :
  geom sb → txn_ok t T → tbl !! ip = Some x → 0 < i_ref x → i_locked x = false → i_dev x = dev →
  0 ≤ i_inum x < sb_ninodes sb → idle T (IBLOCK (i_inum x) sb) → budget 0 1 T →
  (let di := if i_valid x then i_di x else disk_inode sb (t_data T) (i_inum x) in
   (i_valid x = false → d_type di ≠ 0) ∧
   ∀ t', txn_ok t' T →
     Q tt (Fst t' (<[ip := Inode dev (i_inum x) (i_ref x) true pid true di]> tbl) sb k)) →
  wp (ilock pid (Some ip)) (Fst t tbl sb k) Q.
Proof.
  intros HG Ht Hx Hr Hl Hdev Hi Hidle Hb HQ. pose proof (IBLOCK_range sb HG _ Hi). pose proof (g_size _ HG).
  pose proof (meta_bounds sb HG). assert (ip < length tbl)%nat as Hlt by (by eapply lookup_lt_Some).
  unfold ilock. apply wp_bind. eapply wp_geti; [done|]. destruct (Z.ltb_spec (i_ref x) 1); [lia|].
  apply wp_bind. unfold acquiresleep. apply wp_bind. eapply wp_geti; [done|]. rewrite Hl. eapply wp_updi; [done|].
  set (x1 := set_ilock true pid x). apply wp_bind. eapply wp_geti; [by apply list_lookup_insert_eq|].
  cbn [x1 set_ilock i_valid]. destruct x as [xd xi xr xl xp xv xdi]. cbn in *. subst xd.
  destruct xv; [apply wp_ret, HQ, Ht|]. destruct HQ as [Hty HQ].
  apply wp_bind, wp_get_sb. cbn [id]. apply wp_bind.
  eapply (wp_fs_bread _ _ _ _ _ _ 0 0); [done|lia|apply Hidle|done|lia|lia|]. intros i t1 Ht1 _.
  apply wp_bind. eapply wp_fs_bdata; [done|apply lookup_insert_eq|]. cbn [t_get t_data].
  apply wp_bind. eapply wp_updi; [by apply list_lookup_insert_eq|]. rewrite list_insert_insert_eq.
  apply wp_bind. eapply wp_fs_brelse; [done|apply lookup_insert_eq|apply Hidle|]. intros t2 Ht2.
  rewrite put_get in Ht2 by apply Hidle.
  apply wp_bind. eapply wp_updi; [by apply list_lookup_insert_eq|]. rewrite list_insert_insert_eq.
  apply wp_bind. eapply wp_geti; [by apply list_lookup_insert_eq|].
  cbn [set_ivalid set_di set_ilock i_di d_type x1].
  destruct (Z.eqb_spec (d_type (get_dinode (t_data T (IBLOCK xi sb)) (xi `mod` IPB))) 0); [by destruct Hty|].
  apply wp_ret, HQ. done.
Qed.
End table.
