(* ===== verification/FsPath.v ===== *)
(** * Path names

    skipelem of kernel/fs.c against the elements of a path. *)

From S2P Require Import Prelude Riscv Mem Kalloc Vm Block FsFormat Txn Fs.

(** ** Strings in memory *)

(** A NUL-terminated string. *)
Fixpoint is_str (m : mem) (a : Z) (p : list Z) : Prop :=
  match p with
  | [] => load8 m a = 0
  | c :: p => load8 m a = c ∧ c ≠ 0 ∧ is_str m (a + 1) p
  end.

Lemma is_str_lookup m a p (i : nat) c : is_str m a p → p !! i = Some c → load8 m (a + i) = c ∧ c ≠ 0.
Proof.
  revert a i. induction p as [|c' p IH]; intros a [|i] Hs Hi; simplify_eq/=; destruct Hs as (H1 & H2 & H3).
  - by rewrite Z.add_0_r.
  - replace (a + S i) with (a + 1 + i) by lia. by apply IH.
Qed.

Lemma is_str_ext m m' a p :
  (∀ x, a ≤ x ≤ a + length p → load8 m' x = load8 m x) → is_str m a p → is_str m' a p.
Proof.
  revert a. induction p as [|c p IH]; intros a He; simpl in *.
  - intros Hs. rewrite He; [done|lia].
  - intros (H1 & H2 & H3). split_and!; [rewrite He; [done|lia]|done|].
    apply IH; [|done]. intros x Hx. apply He. lia.
Qed.

(** The string at [a] as far as [n] bytes. *)
Lemma cstrn_take m a (n : nat) bs :
  (∀ (i : nat) c, bs !! i = Some c → (i < n)%nat → load8 m (a + i) = c ∧ c ≠ 0) →
  ((length bs < n)%nat → load8 m (a + length bs) = 0) → cstrn m a n = take n bs.
Proof.
  revert a bs. induction n as [|n IH]; intros a bs Hb Hz; [by rewrite take_0|]. simpl.
  destruct bs as [|c bs]; simpl in *.
  - rewrite Z.add_0_r in Hz. by rewrite Hz by lia.
  - destruct (Hb 0%nat c) as [E Hc]; [done|lia|]. rewrite Z.add_0_r in E. rewrite E.
    destruct (Z.eqb_spec c 0); [done|]. f_equal. apply IH.
    + intros i c' Hi Hlt. replace (a + 1 + i) with (a + S i) by lia. apply Hb; [done|lia].
    + intros Hlt. replace (a + 1 + length bs) with (a + S (length bs)) by lia. apply Hz. lia.
Qed.

(** ** The elements of a path *)

Fixpoint drop_slashes (p : list Z) : list Z :=
  match p with
  | c :: p' => if c =? SLASH then drop_slashes p' else p
  | [] => []
  end.
Fixpoint take_name (p : list Z) : list Z :=
  match p with
  | c :: p' => if c =? SLASH then [] else c :: take_name p'
  | [] => []
  end.
Fixpoint drop_name (p : list Z) : list Z :=
  match p with
  | c :: p' => if c =? SLASH then p else drop_name p'
  | [] => []
  end.

(** The first element of a path and what follows it. *)
Definition next_elem (p : list Z) : option (list Z * list Z) :=
  match drop_slashes p with
  | [] => None
  | q => Some (take_name q, drop_slashes (drop_name q))
  end.

Lemma take_drop_name p : take_name p ++ drop_name p = p.
Proof. induction p as [|c p IH]; simpl; [done|]. case_match; simpl; [done|]. by rewrite IH. Qed.

Lemma drop_slashes_suffix p : ∃ q, p = q ++ drop_slashes p ∧ Forall (λ c, c = SLASH) q.
Proof.
  induction p as [|c p (q & E & Hq)]; [by exists []|]. simpl. destruct (Z.eqb_spec c SLASH) as [->|].
  - exists (SLASH :: q). split; [by rewrite E at 1|by constructor].
  - by exists [].
Qed.

Lemma take_name_no_slash p : SLASH ∉ take_name p.
Proof.
  induction p as [|c p IH]; simpl; [by apply not_elem_of_nil|]. destruct (Z.eqb_spec c SLASH) as [|Hne]; [by apply not_elem_of_nil|].
  apply not_elem_of_cons. by split; [apply not_eq_sym|].
Qed.

Lemma drop_slashes_head p c q : drop_slashes p = c :: q → c ≠ SLASH.
Proof. induction p as [|x p IH]; simpl; [done|]. destruct (Z.eqb_spec x SLASH); [done|]. by intros [= -> _]. Qed.

(** ** The loops of skipelem *)

Lemma skip_slashes_ok m a p (fuel : nat) :
  is_str m a p → (length p < fuel)%nat →
  ∃ q, skip_slashes m a fuel = Some q ∧ q = a + (length p - length (drop_slashes p))%nat ∧
    is_str m q (drop_slashes p) ∧ (length (drop_slashes p) ≤ length p)%nat.
Proof.
  revert a fuel. induction p as [|c p IH]; intros a [|fuel] Hs Hf; simpl in *; try lia.
  - rewrite Hs. exists a. simpl. split_and!; [done|lia|done|lia].
  - destruct Hs as (E & Hc & Hs). rewrite E. destruct (Z.eqb_spec c SLASH) as [->|Hne].
    + destruct (IH (a + 1) fuel) as (q & E1 & E2 & E3 & E4); [done|lia|].
      exists q. split_and!; [done|lia|done|lia].
    + exists a. split; [done|]. split; [simpl; lia|]. split; [done|simpl; lia].
Qed.

Lemma skip_name_ok m a p (fuel : nat) :
  is_str m a p → (length p < fuel)%nat →
  skip_name m a fuel = Some (a + length (take_name p)) ∧ is_str m (a + length (take_name p)) (drop_name p).
Proof.
  revert a fuel. induction p as [|c p IH]; intros a [|fuel] Hs Hf; simpl in *; try lia.
  - rewrite Hs, Z.add_0_r. done.
  - destruct Hs as (E & Hc & Hs). rewrite E. destruct (Z.eqb_spec c SLASH) as [->|Hne]; simpl.
    + rewrite Z.add_0_r. done.
    + destruct (Z.eqb_spec c 0); [done|]. simpl. destruct (IH (a + 1) fuel) as [E1 E2]; [done|lia|].
      replace (a + S (length (take_name p))) with (a + 1 + length (take_name p)) by lia. done.
Qed.

(** ** skipelem *)

(** Memory after [name] was set to element [nm]. *)
Definition name_set (m m' : mem) (name : Z) (nm : list Z) : Prop :=
  cstrn m' name (Z.to_nat DIRSIZ) = take (Z.to_nat DIRSIZ) nm ∧
  ∀ x, ¬ (name ≤ x < name + DIRSIZ) → load8 m' x = load8 m x.

Lemma copy_name m name s nm :
  (∀ (i : nat) c, nm !! i = Some c → load8 m (s + i) = c ∧ c ≠ 0) →
  let len := Z.of_nat (length nm) in
  name_set m (if DIRSIZ <=? len then memmove m name s DIRSIZ
              else store8 (memmove m name s len) (name + len) 0) name nm.
Proof.
  intros Hnm len. unfold name_set, DIRSIZ. destruct (Z.leb_spec 14 len); unfold len in *.
  - split.
    + apply cstrn_take; [|intros; lia]. intros i c Hi Hlt. rewrite load8_memmove, decide_True by lia.
      replace (s + (name + i - name)) with (s + i) by lia. by apply Hnm.
    + intros x Hx. by rewrite load8_memmove, decide_False by lia.
  - split.
    + apply cstrn_take.
      * intros i c Hi Hlt. apply lookup_lt_Some in Hi as Hl. rewrite load8_store8, decide_False by lia.
        rewrite load8_memmove, decide_True by lia. replace (s + (name + i - name)) with (s + i) by lia. by apply Hnm.
      * intros _. rewrite load8_store8, decide_True by done. done.
    + intros x Hx. rewrite load8_store8, decide_False by lia. by rewrite load8_memmove, decide_False by lia.
Qed.

(** What next_elem returns determines the path: leading slashes, an element
    without slashes, then the rest, separated by slashes unless it is empty. *)
Lemma next_elem_some p nm rest :
  next_elem p = Some (nm, rest) →
  ∃ s1 s2, p = s1 ++ nm ++ s2 ++ rest ∧ Forall (λ c, c = SLASH) s1 ∧ Forall (λ c, c = SLASH) s2 ∧
    nm ≠ [] ∧ (SLASH ∉ nm) ∧ (rest ≠ [] → s2 ≠ []) ∧ head rest ≠ Some SLASH.
Proof.
  unfold next_elem. destruct (drop_slashes_suffix p) as (s1 & E1 & H1).
  destruct (drop_slashes p) as [|c q] eqn:Ed; [done|]. intros E. apply (inj Some) in E. apply pair_equal_spec in E as [<- <-].
  pose proof (drop_slashes_head p c q Ed) as Hc.
  destruct (drop_slashes_suffix (drop_name (c :: q))) as (s2 & E2 & H2).
  exists s1, s2. rewrite <-E2, take_drop_name. split_and!; [done..| | | |].
  - cbn [take_name]. by destruct (Z.eqb_spec c SLASH).
  - apply take_name_no_slash.
  - intros Hr ->. rewrite app_nil_l in E2. assert (∀ l, drop_name l = drop_slashes (drop_name l) → drop_name l = []) as Hn.
    { intros l. induction l as [|x l IH]; simpl; [done|]. destruct (Z.eqb_spec x SLASH) as [->|]; [|done].
      simpl. intros Hx. destruct (drop_slashes_suffix l) as (s & El & _). rewrite <-Hx in El.
      apply (f_equal length) in El. rewrite length_app in El. simpl in El. lia. }
    apply Hr. rewrite <-E2. by apply Hn.
  - destruct (drop_slashes (drop_name (c :: q))) as [|x r] eqn:Er; [done|]. simpl. intros [= ->].
    by apply (drop_slashes_head _ _ _ Er).
Qed.

Lemma skipelem_spec (fuel : nat) m path name p :
  is_str m path p → (length p < fuel)%nat →
  name + DIRSIZ ≤ path ∨ path + length p < name →
  match next_elem p with
  | None => skipelem_mem fuel m path name = Some (None, m)
  | Some (nm, rest) => ∃ q m', skipelem_mem fuel m path name = Some (Some q, m') ∧
      is_str m' q rest ∧ path ≤ q ∧ q + length rest = path + length p ∧ name_set m m' name nm
  end.
Proof.
  intros Hs Hf Hd. destruct (skip_slashes_ok m path p fuel Hs Hf) as (s & E1 & Es & Hs1 & Hl1).
  unfold skipelem_mem. rewrite E1. cbn [mbind option_bind]. unfold next_elem.
  destruct (drop_slashes p) as [|c q] eqn:Ed.
  { simpl in Hs1. by rewrite Hs1. }
  assert (load8 m s ≠ 0) as Hne by (simpl in Hs1; destruct Hs1 as (-> & ? & _); done).
  destruct (Z.eqb_spec (load8 m s) 0); [done|].
  destruct (skip_name_ok m s (c :: q) fuel Hs1) as [E2 Hs2]; [lia|]. rewrite E2. cbn [mbind option_bind].
  set (nm := take_name (c :: q)) in *. replace (s + length nm - s) with (Z.of_nat (length nm)) by lia.
  pose proof (copy_name m name s nm) as Hc. cbv zeta in Hc.
  set (m' := if DIRSIZ <=? length nm then _ else _) in *. destruct Hc as [Hc1 Hc2].
  { intros i x Hi. eapply (is_str_lookup m s (c :: q)); [done|]. rewrite <-(take_drop_name (c :: q)).
    by apply lookup_app_l_Some. }
  pose proof (f_equal length (take_drop_name (c :: q))) as Hlen. rewrite length_app in Hlen. fold nm in Hlen.
  assert (is_str m' (s + length nm) (drop_name (c :: q))) as Hs3.
  { eapply is_str_ext; [|exact Hs2]. intros x Hx. apply Hc2. lia. }
  destruct (skip_slashes_ok m' (s + length nm) (drop_name (c :: q)) fuel Hs3) as (r & E3 & Er & Hs4 & Hl4); [lia|].
  rewrite E3. cbn [mbind option_bind]. exists r, m'. split; [done|]. split; [done|]. split_and!; [lia|lia|].
  by split.
Qed.

(** For a path of less than MAXPATH bytes, skipelem returns NULL exactly when
    the path has no element; otherwise the path is some slashes, an element
    without slashes, and a rest that is separated by slashes and does not
    start with one; skipelem returns the address of the rest, sets [name] to
    the element (cut to DIRSIZ bytes, NUL-terminated if shorter) and changes
    nothing else in memory. *)
Theorem skipelem_splits_path {St} (t : St) tbl sb k path name p :
  is_str (km_mem k) path p → length p < MAXPATH →
  name + DIRSIZ ≤ path ∨ path + length p < name →
  match next_elem p with
  | None => skipelem path_fuel path name (Fst t tbl sb k) = Done None (Fst t tbl sb k) ∧ Forall (λ c, c = SLASH) p
  | Some (nm, rest) => ∃ q k' s1 s2,
      skipelem path_fuel path name (Fst t tbl sb k) = Done (Some q) (Fst t tbl sb k') ∧
      is_str (km_mem k') q rest ∧ name_set (km_mem k) (km_mem k') name nm ∧
      p = s1 ++ nm ++ s2 ++ rest ∧ Forall (λ c, c = SLASH) s1 ∧ Forall (λ c, c = SLASH) s2 ∧
      nm ≠ [] ∧ (SLASH ∉ nm) ∧ (rest ≠ [] → s2 ≠ []) ∧ head rest ≠ Some SLASH
  end.
Proof.
  intros Hs Hl Hd. pose proof (skipelem_spec path_fuel (km_mem k) path name p Hs) as H.
  specialize (H ltac:(unfold path_fuel; lia) Hd). pose proof (next_elem_some p) as Hn.
  unfold skipelem, bind, ldmem, gets, stmem, modify, ret. cbn [ftx itable fsb fk id].
  destruct (next_elem p) as [[nm rest]|] eqn:E.
  - destruct H as (q & m' & -> & H1 & _ & _ & H2). destruct (Hn nm rest eq_refl) as (s1 & s2 & Hp).
    exists q, (upd_mem (λ _, m') k), s1, s2. split; [done|]. split; [done|]. by split.
  - rewrite H. split; [by destruct k|]. unfold next_elem in E.
    destruct (drop_slashes_suffix p) as (s & Es & Hf). destruct (drop_slashes p); [|done].
    rewrite app_nil_r in Es. by rewrite Es.
Qed.

(** "//usr/rtm", as in the comment of skipelem. *)
Definition ex_path : list Z := [47; 47; 117; 115; 114; 47; 114; 116; 109].

Lemma skipelem_splits_path_witness :
  ∃ q k', skipelem path_fuel 0x1000 0x2000 (Fst tt [] (superblock_of zero_block) (Kmem (store_bytes ∅ 0x1000 ex_path) 0)) =
      Done (Some q) (Fst tt [] (superblock_of zero_block) k') ∧
    is_str (km_mem k') q [114; 116; 109] ∧ cstrn (km_mem k') 0x2000 14 = [117; 115; 114].
Proof.
  pose proof (skipelem_splits_path tt [] (superblock_of zero_block) (Kmem (store_bytes ∅ 0x1000 ex_path) 0)
    0x1000 0x2000 ex_path) as H.
  destruct H as (q & k' & s1 & s2 & Hrun & Hq & [Hn _] & _).
  - vm_compute. repeat split; done.
  - done.
  - right. done.
  - exists q, k'. split; [exact Hrun|]. split; [exact Hq|exact Hn].
Defined.
