(* ===== verification/FsExample.v ===== *)
(** * A small file system, for the examples

    A disk laid out as mkfs lays it out, with a file of five bytes, inside a
    transaction of the log of Log.v over the buffer cache of Bio.v. *)

From S2P Require Import Prelude Riscv Mem Kalloc Vm Block FsFormat Bio BioSpec BioTheorems.
From S2P Require Import Log LogSpec LogOps LogTheorems Txn Fs FsBlocks FsInode FsFile FsWrite.

#[local] Existing Instance ex_cache.
#[local] Instance ex_layer : TxnLayer (lst bst) ex_dev := log_txn 2 30.

Definition ex_di : dinode := Dinode T_FILE 0 0 1 5 (46 :: replicate 12 0).

(** Blocks 0 to 46 are in use; inode 2 is the file. *)
Definition ex_files : gmap Z block :=
  {[ 45 := foldl mark_bit zero_block (seqZ 0 47);
     32 := put_dinode zero_block 2 ex_di;
     46 := put_bytes zero_block 0 [104; 101; 108; 108; 111] ]}.
Definition ex_data : Z → block := λ bn, default zero_block (ex_files !! bn).

Definition ex_T : tview := TView ex_data ∅ ∅ ∅ true.

#[local] Instance block_ok_dec d : Decision (block_ok d).
Proof. unfold block_ok. apply _. Defined.

Lemma ex_data_ok bn : block_ok (ex_data bn).
Proof.
  unfold ex_data. destruct (ex_files !! bn) as [d|] eqn:E; [|apply zero_block_ok].
  assert (map_Forall (λ _ d, block_ok d) ex_files) as H by decide_now. exact (H bn d E).
Qed.

Lemma ex_txn_ok : ∃ t : lst bst, txn_ok t ex_T.
Proof.
  destruct (ex_boot ex_files ex_data_ok) as (c & _ & Hc).
  exists (Lst c ex_log), (v_boot ex_data), []. split; simpl; try done.
  split; simpl; try done; try apply prefix_nil; try apply NoDup_nil_2.
Qed.

Lemma ex_geom : geom (dev:=ex_dev) ex_sb.
Proof.
  split.
  - change (meta ex_sb) with 46. simpl. lia.
  - change (sb_ninodes ex_sb `div` IPB) with 12. simpl. lia.
  - simpl. lia.
  - intros b Hb. simpl in *. lia.
Qed.

(** Properties of a range of numbers, by evaluation. *)
Lemma forall_range (P : Z → Prop) `{!∀ x, Decision (P x)} lo n :
  bool_decide (Forall P (seqZ lo n)) = true → ∀ x, lo ≤ x < lo + n → P x.
Proof. intros HP%bool_decide_eq_true x Hx. rewrite Forall_forall in HP. apply HP, elem_of_seqZ. lia. Qed.

Lemma ex_idle b : idle ex_T b.
Proof. by split. Qed.

Lemma ex_alloc_ok : alloc_ok ex_sb ex_T.
Proof.
  split; [|intros; apply ex_idle|intros; apply ex_idle].
  intros b Hb. change (meta ex_sb) with 46 in Hb. revert b Hb.
  apply (forall_range (λ b, used ex_sb ex_data b = true) 0 46). vm_compute. reflexivity.
Qed.

Lemma ex_slots j : 0 ≤ j ≤ MAXFILE → islot ex_data ex_di j = if decide (j = 0) then 46 else 0.
Proof.
  intros Hj. change MAXFILE with 268 in Hj. assert (0 ≤ j < 0 + 269) as Hr by lia. revert j Hj Hr.
  intros j _. revert j. apply (forall_range _ 0 269). vm_compute. reflexivity.
Qed.

Lemma ex_file_ok : file_ok ex_sb ex_T ex_di.
Proof.
  split.
  - split.
    + split; decide_now.
    + intros j Hj. simpl. rewrite ex_slots by done. case_decide; [|done]. intros _. split; [|vm_compute; reflexivity].
      change (meta ex_sb) with 46. simpl. lia.
    + intros i j Hi Hj. simpl. rewrite !ex_slots by done. repeat case_decide; subst; done.
  - vm_compute. done.
  - intros bn Hbn Hlt. simpl in Hlt. unfold BSIZE in Hlt. assert (bn = 0) as -> by lia. simpl.
    rewrite ex_slots by done. done.
  - intros; apply ex_idle.
Qed.
