(* ===== verification/FsTheorems.v ===== *)
(** * Theorems about files, kernel/fs.c

    They hold for every transaction layer that implements Txn.v; the examples
    run on the log of Log.v over the buffer cache of Bio.v. *)

From S2P Require Import Prelude Riscv Mem Kalloc Vm Block FsFormat Bio BioSpec BioTheorems.
From S2P Require Import Log LogSpec LogOps LogTheorems Txn Fs FsBlocks FsInode FsCopy FsFile FsWrite FsTable FsExample.
From S2P Require Import VmTree VmSpec VmUser VmCopy VmExample.

(** ** Reading and writing *)

(** The most that filewrite passes to writei in one transaction. *)
Definition chunk : Z := ((MAXOPBLOCKS - 1 - 1 - 2) `div` 2) * BSIZE.

(** The blocks a write of at most [chunk] bytes touches. *)
Definition chunk_blocks (off : Z) : Z := if decide (off `mod` BSIZE = 0) then 3 else 4.

Lemma chunk_cost off : write_cost off (chunk_blocks off) ≤ MAXOPBLOCKS.
Proof. unfold write_cost, chunk_blocks, MAXOPBLOCKS. case_decide; lia. Qed.

Lemma chunk_covers off n : n ≤ chunk → off `mod` BSIZE + n ≤ chunk_blocks off * BSIZE.
Proof.
  change chunk with 3072. intros Hn. pose proof (mod_bsize off). unfold chunk_blocks, BSIZE in *.
  case_decide; lia.
Qed.

Section claims.
Context {St : Type} {dev : Z} `{!TxnLayer St dev}.
Context (sb : superblock) (pgtbl : Z) (bufaddr : nat → Z).

(** The state in which a file operation starts: a transaction with room for
    [n] more blocks, a consistent free map and a consistent file. *)
Record file_pre (t : St) (T : tview) (tbl : list inode) (ip : nat) (x : inode) (n : Z) : Prop := {
  fp_geom : geom sb;
  fp_txn : txn_ok t T;
  fp_alloc : alloc_ok sb T;
  fp_file : file_ok sb T (i_di x);
  fp_ip : tbl !! ip = Some x;
  fp_dev : i_dev x = dev;
  fp_inum : 0 ≤ i_inum x < sb_ninodes sb;
  fp_idle : idle T (IBLOCK (i_inum x) sb);
  fp_in : t_in T = true;
  fp_log : size (t_logged T) + n ≤ log_cap;
  fp_buf : size (t_logged T) + n + size (t_held T) + 2 ≤ NBUF
}.
End claims.

Section proofs.
Context {St : Type} {dev : Z} `{!TxnLayer St dev}.
Context (sb : superblock) (pgtbl : Z) (bufaddr : nat → Z).

Context (kend : Z) (kend_pos : 0 < kend).

Lemma writei_chunk user g t T tbl ip x k src off n :
  file_pre sb t T tbl ip x MAXOPBLOCKS →
  0 ≤ off ≤ d_size (i_di x) → 0 ≤ n ≤ chunk → off + n ≤ MAXFILE * BSIZE →
  source kend pgtbl bufaddr user (km_mem k) src n g →
  ∃ r t' T' di' k', writei pgtbl bufaddr ip user src off n (Fst t tbl sb k) =
      Done r (Fst t' (<[ip := set_di di' x]> tbl) sb k') ∧
    txn_ok t' T' ∧ agree_but bufaddr (km_mem k) (km_mem k') ∧ freelist k' = freelist k ∧
    write_post sb g off n (i_inum x) T (i_di x) (size (t_logged T) + MAXOPBLOCKS) r T' di'.
Proof using kend_pos.
  intros [HG Ht Ha Hf Hip Hdev Hi Hidle Hin Hl Hb] Hoff Hn Hmax [Hs Hsa Hsb Hg].
  pose proof (chunk_cost off) as Hc.
  pose proof (writei_ok sb HG kend kend_pos pgtbl bufaddr user g t T tbl ip x k src off n (chunk_blocks off)) as H.
  apply wp_done in H as (r & s & Hrun & t' & T' & di' & k' & -> & Ht' & Hm & Hfl & [W1 W2 W3 W4 W5 W6 W7 W8 W9 W10 W11]);
    try done; try lia.
  - exists r, t', T', di', k'. split_and!; [done..|]. split; try done. lia.
  - unfold chunk_blocks. case_decide; lia.
  - apply chunk_covers. lia.
Qed.


(** C24. readi, to a user address or to a kernel address: the bytes the file
    has of the [n] bytes at [off] are stored at [dst] one after the other;
    when all of them can be stored it returns how many they are, and at the
    first that cannot it stops and returns -1. It changes no block, even
    outside a transaction: the file has no holes, so it never allocates; nor
    does it change memory elsewhere, but for the buffers. *)
Theorem readi_reads_file user t T tbl ip x k dst off n :
  geom sb → txn_ok t T → tbl !! ip = Some x → i_dev x = dev → file_ok sb T (i_di x) → budget 0 1 T →
  0 ≤ off → 0 ≤ n → off + n < 2^32 → 0 ≤ dst → dst + n < 2^64 →
  addressable kend pgtbl bufaddr user (km_mem k) →
  let a := avail (i_di x) off n in
  let res := store_all pgtbl user (km_mem k) dst (fbytes (t_data T) (i_di x) off a) in
  ∃ t' k', readi pgtbl bufaddr ip user dst off n (Fst t tbl sb k) =
      Done (if res.1 =? 0 then a else -1) (Fst t' tbl sb k') ∧
    txn_ok t' T ∧ freelist k' = freelist k ∧ agree_but bufaddr res.2 (km_mem k').
Proof using kend_pos.
  intros HG Ht Hip Hdev Hf Hb Ho Hn Hon Hd Hdn Ha.
  pose proof (readi_ok sb HG kend kend_pos pgtbl bufaddr user t T tbl ip x k dst off n) as H.
  apply wp_done in H as (r & s & Hrun & -> & t' & k' & -> & ? & ?); try done. by exists t', k'.
Qed.

(** C25. What writei wrote is what readi reads back, byte by byte, from a user
    or kernel source that can be read to a user or kernel destination that
    can be written, each outside the buffers: for at most the bytes filewrite
    passes at once, inside the file or at its end, in a transaction with
    MAXOPBLOCKS free entries of the log, a consistent free map and a
    consistent file. *)
Theorem write_read_roundtrip us ud g t T tbl ip x k src off n dst :
  file_pre sb t T tbl ip x MAXOPBLOCKS →
  0 ≤ off ≤ d_size (i_di x) → 0 ≤ n ≤ chunk → off + n ≤ MAXFILE * BSIZE →
  source kend pgtbl bufaddr us (km_mem k) src n g → dest kend pgtbl bufaddr ud (km_mem k) dst n →
  ∃ r s1 s2, writei pgtbl bufaddr ip us src off n (Fst t tbl sb k) = Done r s1 ∧
    readi pgtbl bufaddr ip ud dst off r s1 = Done r s2 ∧
    ∀ i, 0 ≤ i < r → src_load pgtbl ud (km_mem (fk s2)) (dst + i) = Some (g i).
Proof using kend_pos.
  intros Hp Hoff Hn Hmax Hs Hd. pose proof Hmax as Hm. change (MAXFILE * BSIZE) with 274432 in Hm.
  destruct (writei_chunk us g t T tbl ip x k src off n) as (r & t' & T' & di' & k' & Hrun & Ht' & Hk & _ & W); [done..|].
  destruct Hp as [HG Ht Ha Hf Hip Hdev Hi Hidle Hin Hl Hb], W as [W1 _ W3 _ (E1 & _) W6 W7 _ _ _ W11].
  assert (d_size di' = Z.max (d_size (i_di x)) (off + r)) as Esz by (by rewrite W6).
  assert (avail di' off r = r) as Ea.
  { unfold avail. destruct (Z.ltb_spec (d_size di') off); lia. }
  pose proof (dest_agree kend pgtbl bufaddr _ _ _ _ _ (dest_le kend pgtbl bufaddr ud _ dst n r Hd ltac:(lia)) Hk) as Hd'.
  pose proof (readi_ok sb HG kend kend_pos pgtbl bufaddr ud t' T' (<[ip := set_di di' x]> tbl) ip (set_di di' x) k' dst off r) as H.
  pose proof (de_range _ _ _ _ _ _ _ Hd') as Hr'. pose proof (de_addr _ _ _ _ _ _ _ Hd') as Ha'.
  apply wp_done in H as (r2 & s & Hrun2 & Er & t2 & k2 & -> & _ & _ & Hr2); try done; try lia.
  2: { apply list_lookup_insert_eq. by eapply lookup_lt_Some. }
  2: { split_and!; [intros; lia|lia|rewrite E1; lia]. }
  cbn [set_di i_di] in Er, Hr2. rewrite Ea in Er, Hr2.
  destruct (dest_loads kend pgtbl bufaddr ud (km_mem k') (km_mem k2) dst (fbytes (t_data T') di' off r))
    as [E0 Hl2]; [by rewrite length_fbytes, Z2Nat.id by lia|done|].
  rewrite E0 in Er. cbn in Er. subst r2. eexists r, _, _. split_and!; [done..|].
  intros i Hi'. cbn [fk]. rewrite length_fbytes in Hl2. specialize (Hl2 (Z.to_nat i) ltac:(lia)).
  rewrite Z2Nat.id in Hl2 by lia. rewrite Hl2. f_equal. unfold fbytes.
  rewrite list_lookup_total_alt, list_lookup_fmap, lookup_seqZ_lt by lia. cbn.
  rewrite Z2Nat.id, W7, decide_True by lia. replace (off + (0 + i) - off) with i by lia.
  eapply src_load_u8, (so_bytes _ _ _ _ _ _ _ _ Hs). lia.
Qed.

(** ** The block allocator *)

(** balloc returns the lowest free block, marked in use and zeroed, or 0
    when there is none; no other bit of the bit map and no other block
    changes. *)
Theorem balloc_first_free t T tbl k :
  geom sb → txn_ok t T → alloc_ok sb T → budget 2 1 T →
  ∃ a t' T', balloc dev (Fst t tbl sb k) = Done a (Fst t' tbl sb k) ∧ txn_ok t' T' ∧ alloc_ok sb T' ∧
    ((a = 0 ∧ T' = T ∧ ∀ b, 0 ≤ b < sb_size sb → used sb (t_data T) b = true) ∨
     (meta sb ≤ a < sb_size sb ∧ used sb (t_data T) a = false ∧
      (∀ b, 0 ≤ b < a → used sb (t_data T) b = true) ∧ t_data T' a = zero_block ∧
      (∀ b, 0 ≤ b < sb_size sb → used sb (t_data T') b = bool_decide (a = b) || used sb (t_data T) b) ∧
      (∀ b, b ≠ a → ¬ (sb_bmapstart sb ≤ b < meta sb) → t_data T' b = t_data T b))).
Proof.
  intros HG Ht Ha Hb. pose proof (balloc_ok sb HG t T tbl k 0 0 Ht Ha Hb) as H.
  apply wp_done in H as (a & s & Hrun & t' & T' & -> & Ht' & Hc); [|done..].
  exists a, t', T'. split_and!; [done..| |].
  - destruct Hc as [(_ & -> & _)|(Har & _ & -> & _)]; [done|].
    apply (alloc_ok_alloc sb HG); [|done..]. intros x. by apply (txn_blocks t).
  - destruct Hc as [Hc|(Har & Hu & -> & Hf)]; [by left|right]. split_and!; [lia|lia|done|done|..].
    + apply alloc_zero.
    + intros b Hbr. apply (used_alloc sb HG); [|done..]. intros x. by apply (txn_blocks t).
    + intros b Hne Hbr. by apply (alloc_data sb HG).
Qed.

(** A block that balloc returned can be given back with bfree, after which
    the bit map is as it was before; giving it back twice panics. *)
Theorem balloc_bfree_roundtrip t T tbl k a s1 :
  geom sb → txn_ok t T → alloc_ok sb T → budget 4 1 T →
  balloc dev (Fst t tbl sb k) = Done a s1 → a ≠ 0 →
  ∃ t2 T2, bfree dev a s1 = Done tt (Fst t2 tbl sb k) ∧ txn_ok t2 T2 ∧ alloc_ok sb T2 ∧
    (∀ b, 0 ≤ b < sb_size sb → used sb (t_data T2) b = used sb (t_data T) b) ∧
    bfree dev a (Fst t2 tbl sb k) = Panic "freeing free block".
Proof.
  intros HG Ht Ha Hb Hrun Hne. assert (∀ x, block_ok (t_data T x)) as HD by (intros x; by apply (txn_blocks t)).
  assert (budget (0 + 2) (0 + 1) T) as Hb2 by (eapply budget_mono; [exact Hb|lia|lia]).
  pose proof (balloc_ok sb HG t T tbl k 0 0 Ht Ha Hb2) as H. unfold wp in H. rewrite Hrun in H.
  destruct H as (t1 & T1 & -> & Ht1 & [(-> & _)|(Har & Hu & -> & _)]); [done..|].
  assert (alloc_ok sb (t_alloc sb a T)) as Ha1 by (by apply (alloc_ok_alloc sb HG)).
  pose proof (meta_bounds sb HG). pose proof (g_size _ HG).
  assert (∀ x, block_ok (t_data (t_alloc sb a T) x)) as HD1 by (intros x; by apply (txn_blocks t1)).
  assert (budget (1 + 1) (0 + 1) (t_alloc sb a T)) as Hb3 by (apply budget_upd, budget_upd, Hb).
  assert (wp (bfree dev a) (Fst t1 tbl sb k) (λ _ s, ∃ t2, s = Fst t2 tbl sb k ∧ txn_ok t2 (t_free sb a (t_alloc sb a T)))) as Hf.
  { eapply (bfree_ok sb HG t1 _ a _ _ 1 0); [done|done|exact Hb3|lia|lia|lia| |].
    - rewrite (used_alloc sb HG) by (done || lia). by rewrite bool_decide_eq_true_2.
    - intros t2 Ht2. by exists t2. }
  apply wp_done in Hf as ([] & s & Hrun2 & t2 & -> & Ht2).
  assert (alloc_ok sb (t_free sb a (t_alloc sb a T))) as Ha2.
  { apply (alloc_ok_free sb HG); [done|lia| |done]. apply idle_upd, idle_upd. by apply (ao_free _ _ Ha). }
  assert (∀ b, 0 ≤ b < sb_size sb → used sb (t_data (t_free sb a (t_alloc sb a T))) b = used sb (t_data T) b) as Hus.
  { intros b Hbr. rewrite (used_free sb HG), (used_alloc sb HG) by (done || lia).
    case_bool_decide; [subst b; by rewrite Hu|done]. }
  exists t2, (t_free sb a (t_alloc sb a T)). split_and!; [done..|].
  apply (bfree_panics sb HG t2 (t_free sb a (t_alloc sb a T))); [done|done| |lia|by rewrite Hus by lia].
  apply (budget_mono 1 1); [by apply budget_upd|lia|lia].
Qed.

(** ** The inode table *)

(** C26. In any interleaving of iget, idup, ilock, iunlock and iput calls, the
    table has at most one entry in use per inode, and the reference counts are
    the number of references that callers took and did not drop. iput counts
    as two steps, since it lets go of the table's lock while it truncates and
    frees an inode without links; the counts are assumed to stay below the
    largest [int]. *)
Theorem inode_table_counts_references pid (st st' : fst (St:=St) * (Z → Z → Z)) :
  rtc (iref_step pid) st st' → counts st → counts st'.
Proof. induction 1 as [|st1 st2 st3 Hs _ IH]; [done|]. intros Hc. by apply IH, (counts_step pid st1). Qed.

(** An inode that iupdate wrote is what ilock loads into a fresh table entry
    for the same inode, field by field; other inodes on disk are unchanged. *)
Theorem ilock_loads_iupdate pid t T tbl ip x jp y k :
  geom sb → txn_ok t T → budget 1 1 T → idle T (IBLOCK (i_inum x) sb) →
  tbl !! ip = Some x → i_dev x = dev → 0 ≤ i_inum x < sb_ninodes sb → di_ok (i_di x) → d_type (i_di x) ≠ 0 →
  tbl !! jp = Some y → i_dev y = dev → i_inum y = i_inum x → 0 < i_ref y → i_locked y = false → i_valid y = false →
  ∃ s1 t2, iupdate ip (Fst t tbl sb k) = Done tt s1 ∧
    ilock pid (Some jp) s1 =
      Done tt (Fst t2 (<[jp := Inode dev (i_inum x) (i_ref y) true pid true (i_di x)]> tbl) sb k).
Proof.
  intros HG Ht Hb Hidle Hx Hdx Hi Hok Hty Hy Hdy Hiy Hry Hly Hvy.
  set (T1 := t_upd (IBLOCK (i_inum x) sb)
      (put_dinode (t_data T (IBLOCK (i_inum x) sb)) (i_inum x `mod` IPB) (i_di x)) T).
  assert (wp (iupdate ip) (Fst t tbl sb k) (λ _ s, ∃ t1, s = Fst t1 tbl sb k ∧ txn_ok t1 T1)) as H.
  { eapply (iupdate_ok sb HG t T tbl ip x k 0 0); try done; [apply Hok|]. intros t1 Ht1. by exists t1. }
  apply wp_done in H as ([] & s1 & Hrun & t1 & -> & Ht1).
  assert (disk_inode sb (t_data T1) (i_inum x) = i_di x) as Ed.
  { unfold disk_inode, T1, t_upd. cbn [t_data]. rewrite fn_lookup_insert. apply get_put_dinode; [|by apply Z.mod_pos_bound|done].
    by apply (txn_blocks t). }
  assert (wp (ilock pid (Some jp)) (Fst t1 tbl sb k) (λ _ s, ∃ t2,
    s = Fst t2 (<[jp := Inode dev (i_inum x) (i_ref y) true pid true (i_di x)]> tbl) sb k)) as H2.
  { eapply (ilock_ok pid t1 T1 tbl sb k jp y); try done; try (rewrite Hiy; done).
    - by apply budget_upd.
    - rewrite Hvy, Hiy, Ed. split; [done|]. intros t2 _. by exists t2. }
  apply wp_done in H2 as ([] & s2 & Hrun2 & t2 & ->). by exists (Fst t1 tbl sb k), t2.
Qed.
End proofs.

(** ** Examples *)

#[local] Existing Instance ex_cache.
#[local] Existing Instance ex_layer.

Definition ex_inode : inode := Inode ex_dev 2 1 true ex_pid true ex_di.
Definition ex_bufaddr (b : nat) : Z := 0x80010000 + 2048 * (b `mod` NBUF).

(** "world" at the user address 0x1004. *)
Definition ex_kmem : kmem := Kmem (store_bytes ex_mem 0x87003004 [119; 111; 114; 108; 100]) 0.
Definition ex_source (j : Z) : Z := [119; 111; 114; 108; 100] !!! Z.to_nat j.

Lemma ex_addressable : addressable ex_end ex_root ex_bufaddr true (km_mem ex_kmem).
Proof.
  intros _ b. apply (user_ok_sub ex_end _ _ 0x80010000 0x80020000).
  - apply user_ok_check_ok. vm_compute. reflexivity.
  - unfold ex_bufaddr. pose proof (Z.mod_pos_bound b NBUF eq_refl). change NBUF with 30 in *. unfold BSIZE. lia.
  - unfold ex_bufaddr. pose proof (Z.mod_pos_bound b NBUF eq_refl). change NBUF with 30 in *. unfold BSIZE. lia.
Qed.

Lemma forall_seqZ n (P : Z → Prop) j : Forall P (seqZ 0 n) → 0 ≤ j < n → P j.
Proof. rewrite Forall_forall. intros H Hj. apply H, elem_of_seqZ. lia. Qed.

Lemma ex_is_source : source ex_end ex_root ex_bufaddr true (km_mem ex_kmem) 0x1004 5 ex_source.
Proof.
  split; [done|apply ex_addressable|done|].
  intros j Hj. apply (forall_seqZ 5 (λ j, src_load ex_root true (km_mem ex_kmem) (0x1004 + j) = Some (ex_source j)) j); [|done].
  repeat constructor.
Qed.

Lemma ex_is_dest : dest ex_end ex_root ex_bufaddr true (km_mem ex_kmem) 0x1800 5.
Proof.
  split; [done|apply ex_addressable|done|]. intros _. split; [apply (user_inj_check_ok ex_end); vm_compute; reflexivity|].
  intros j Hj. apply (forall_seqZ 5 (λ j, is_Some (user_addr true (km_mem ex_kmem) ex_root (0x1800 + j))) j); [|done].
  rewrite <-(bool_decide_eq_true (Forall _ _)). vm_compute. reflexivity.
Qed.

Lemma ex_file_pre : ∃ t : lst bst, file_pre ex_sb t ex_T [ex_inode] 0 ex_inode MAXOPBLOCKS.
Proof.
  destruct ex_txn_ok as (t & Ht). exists t.
  split; [apply ex_geom|done|apply ex_alloc_ok|apply ex_file_ok|done|done|done|apply ex_idle|done|done|done].
Qed.


(** Four bytes to a user address that is mapped, and to one that is not. *)
Lemma readi_reads_file_witness :
  (∃ (t t' : lst bst) k', readi ex_root ex_bufaddr 0 true 0x1800 1 100 (Fst t [ex_inode] ex_sb ex_kmem) =
      Done 4 (Fst t' [ex_inode] ex_sb k') ∧
    agree_but ex_bufaddr (store_bytes (km_mem ex_kmem) 0x87003800 [101; 108; 108; 111]) (km_mem k')) ∧
  ∃ (t t' : lst bst) k', readi ex_root ex_bufaddr 0 true 0x1ffe 1 100 (Fst t [ex_inode] ex_sb ex_kmem) =
      Done (-1) (Fst t' [ex_inode] ex_sb k').
Proof.
  destruct ex_txn_ok as (t & Ht). split; exists t.
  - destruct (readi_reads_file ex_sb ex_root ex_bufaddr ex_end eq_refl true t ex_T [ex_inode] 0 ex_inode ex_kmem 0x1800 1 100 ex_geom Ht)
      as (t' & k' & Hrun & _ & _ & Hm);
      [done|done|apply ex_file_ok|split_and!; done|done..|apply ex_addressable|].
    exists t', k'. split; [exact Hrun|exact Hm].
  - destruct (readi_reads_file ex_sb ex_root ex_bufaddr ex_end eq_refl true t ex_T [ex_inode] 0 ex_inode ex_kmem 0x1ffe 1 100 ex_geom Ht)
      as (t' & k' & Hrun & _);
      [done|done|apply ex_file_ok|split_and!; done|done..|apply ex_addressable|].
    by exists t', k'.
Defined.

Lemma write_read_roundtrip_witness :
  ∃ (t : lst bst) r s1 s2,
    writei ex_root ex_bufaddr 0 true 0x1004 5 5 (Fst t [ex_inode] ex_sb ex_kmem) = Done r s1 ∧
    readi ex_root ex_bufaddr 0 true 0x1800 5 r s1 = Done r s2 ∧
    ∀ i, 0 ≤ i < r → src_load ex_root true (km_mem (fk s2)) (0x1800 + i) = Some (ex_source i).
Proof.
  destruct ex_file_pre as (t & Hp).
  destruct (write_read_roundtrip ex_sb ex_root ex_bufaddr ex_end eq_refl true true ex_source t ex_T [ex_inode] 0 ex_inode ex_kmem 0x1004 5 5 0x1800 Hp)
    as (r & s1 & s2 & H); [done|done|done|apply ex_is_source|apply ex_is_dest|].
  exists t, r, s1, s2. exact H.
Defined.

Lemma ex_47_free : used ex_sb (t_data ex_T) 47 = false.
Proof. vm_compute. reflexivity. Qed.

Lemma balloc_first_free_witness :
  ∃ (t : lst bst) a t' T', balloc ex_dev (Fst t [] ex_sb ex_kmem) = Done a (Fst t' [] ex_sb ex_kmem) ∧
    a = 47 ∧ t_data T' 47 = zero_block.
Proof.
  destruct ex_txn_ok as (t & Ht).
  destruct (balloc_first_free ex_sb t ex_T [] ex_kmem ex_geom Ht ex_alloc_ok) as (a & t' & T' & Hrun & _ & _ & Hc);
    [split_and!; done|].
  exists t, a, t', T'. destruct Hc as [(_ & _ & Hu)|(Ha & Hu & Hp & Hz & _)].
  - pose proof ex_47_free as E. rewrite Hu in E; done.
  - assert (a = 47) as ->; [|done].
    destruct (Z.lt_trichotomy a 47) as [Hlt|[?|Hgt]]; [|done|].
    + change (meta ex_sb) with 46 in Ha. assert (a = 46) as -> by lia. by vm_compute in Hu.
    + pose proof ex_47_free as E. rewrite Hp in E; [done|lia].
Defined.

Lemma balloc_bfree_roundtrip_witness :
  ∃ (t : lst bst) a s1 t2, balloc ex_dev (Fst t [] ex_sb ex_kmem) = Done a s1 ∧
    bfree ex_dev a s1 = Done tt (Fst t2 [] ex_sb ex_kmem).
Proof.
  destruct ex_txn_ok as (t & Ht).
  pose proof (balloc_ok ex_sb ex_geom t ex_T [] ex_kmem 0 0 Ht ex_alloc_ok) as H.
  apply wp_done in H as (a & s1 & Hrun & t' & T' & -> & _ & Hc); [|split_and!; done|done..].
  assert (a ≠ 0) as Hne.
  { destruct Hc as [(_ & _ & Hu)|(Ha & _)]; [|change (meta ex_sb) with 46 in Ha; lia].
    pose proof ex_47_free as E. rewrite Hu in E; done. }
  destruct (balloc_bfree_roundtrip ex_sb t ex_T [] ex_kmem a (Fst t' [] ex_sb ex_kmem) ex_geom Ht ex_alloc_ok) as (t2 & T2 & Hrun2 & _);
    [split_and!; done|exact Hrun|done|].
  eexists t, a, _, t2. split; [exact Hrun|exact Hrun2].
Defined.

Lemma inode_table_counts_references_witness :
  ∃ s : fst (St := lst bst), counts (s, bump ex_dev 2 (-1) (bump ex_dev 2 1 (bump ex_dev 2 1 (λ _ _, 0)))).
Proof.
  destruct ex_txn_ok as (t & _).
  set (s0 := Fst t (replicate 50 inhabitant) ex_sb ex_kmem).
  assert (counts (s0, λ _ _, 0)) as H0.
  { assert (∀ i (x : inode), replicate 50 inhabitant !! i = Some x → x = inhabitant) as Hr.
    { intros i x [? _]%lookup_replicate. done. }
    split; [split|].
    - intros i x ->%Hr. done.
    - intros i j x y ->%Hr ->%Hr ?. done.
    - intros d inum. cbn -[Z.eqb]. by destruct ((0 =? d) && (0 =? inum)). }
  destruct (iget ex_dev 2 s0) as [ip s1| | |] eqn:E1; [|done..].
  assert (iref_step ex_pid (s0, λ _ _, 0) (s1, bump ex_dev 2 1 (λ _ _, 0))) as St1.
  { eapply step_iget; [|exact E1]. intros x Hx. simpl in Hx.
    repeat (apply elem_of_cons in Hx as [->|Hx]; [done|]). by apply elem_of_nil in Hx. }
  destruct (iget ex_dev 2 s1) as [ip2 s2| | |] eqn:E2; vm_compute in E1; injection E1 as <- <-; [|done..].
  assert (itable s2 !! 0%nat = Some (Inode ex_dev 2 2 false 0 false inhabitant)) as Hx2.
  { clear -E2. vm_compute in E2. injection E2 as _ <-. reflexivity. }
  eexists. eapply (inode_table_counts_references ex_pid (s0, λ _ _, 0)); [|exact H0].
  eapply rtc_l; [exact St1|]. eapply rtc_l.
  { eapply step_iget; [|exact E2]. intros x Hx. cbn [itable] in Hx.
    repeat (apply elem_of_cons in Hx as [->|Hx]; [done|]). by apply elem_of_nil in Hx. }
  apply rtc_once. exact (step_iput_drop ex_pid s2 _ _ 0 _ Hx2 eq_refl eq_refl).
Defined.

Lemma ilock_loads_iupdate_witness :
  ∃ (t : lst bst) s1 t2, iupdate 0 (Fst t [ex_inode; Inode ex_dev 2 1 false 0 false inhabitant] ex_sb ex_kmem) = Done tt s1 ∧
    ilock ex_pid (Some 1%nat) s1 =
      Done tt (Fst t2 [ex_inode; Inode ex_dev 2 1 true ex_pid true ex_di] ex_sb ex_kmem).
Proof.
  destruct ex_txn_ok as (t & Ht). exists t.
  destruct (ilock_loads_iupdate ex_sb ex_pid t ex_T [ex_inode; Inode ex_dev 2 1 false 0 false inhabitant] 0 ex_inode 1
    (Inode ex_dev 2 1 false 0 false inhabitant) ex_kmem) as (s1 & t2 & H1 & H2);
    [apply ex_geom|done|split_and!; done|apply ex_idle|done|done|done|apply ex_file_ok|done|done|done|done|done|done|done|].
  exists s1, t2. split; [exact H1|exact H2].
Defined.
