(* ===== verification/Ring.v ===== *)
(** * Ring buffers

    Pipes, the console and the UART keep bytes in an array of [sz] elements
    with unsigned indices that wrap around at [M] and are reduced modulo [sz]
    when the array is accessed. This file has the queue they represent. *)

From S2P Require Import Prelude.

Section ring.
Context (sz M : Z) (Hsz : 0 < sz) (HM : sz < M) (Hdiv : (sz | M)).
Implicit Types (d : list Z) (r w : Z).

(** The number of elements between the indices. *)
Definition rlen (r w : Z) : Z := (w - r) `mod` M.

(** The elements, oldest first. *)
Definition ritems (d : list Z) (r w : Z) : list Z :=
  (λ i, d !!! Z.to_nat ((r + i) `mod` sz)) <$> seqZ 0 (rlen r w).

Definition rput (d : list Z) (w c : Z) : list Z := <[Z.to_nat (w `mod` sz) := c]> d.
Definition rget (d : list Z) (r : Z) : Z := d !!! Z.to_nat (r `mod` sz).

Lemma rlen_range r w : 0 ≤ rlen r w < M.
Proof. apply Z.mod_pos_bound. lia. Qed.

Lemma length_ritems d r w : length (ritems d r w) = Z.to_nat (rlen r w).
Proof. unfold ritems. by rewrite length_fmap, length_seqZ. Qed.

Lemma mod_sz x : 0 ≤ x `mod` sz < sz.
Proof. by apply Z.mod_pos_bound. Qed.

Lemma mod_M_sz x : (x `mod` M) `mod` sz = x `mod` sz.
Proof. symmetry. apply Znumtheory.Zmod_div_mod; [done|lia|done]. Qed.

Lemma write_index r w : w `mod` sz = (r + rlen r w) `mod` sz.
Proof. unfold rlen. rewrite <-Zplus_mod_idemp_r, mod_M_sz, Zplus_mod_idemp_r. f_equal. lia. Qed.

Lemma rlen_full r w : 0 ≤ w < M → (w =? (r + sz) `mod` M) = (rlen r w =? sz).
Proof.
  intros Hw. unfold rlen. apply eq_bool_prop_intro. rewrite !Is_true_true, !Z.eqb_eq. split; intros E.
  - rewrite E, Zminus_mod_idemp_l. replace (r + sz - r) with sz by lia. apply Z.mod_small. lia.
  - pose proof (Z.div_mod (w - r) M). rewrite <-(Z.mod_small w M) at 1 by done.
    replace w with (r + sz + (w - r) `div` M * M) at 1 by lia. by rewrite Z.mod_add by lia.
Qed.

Lemma rlen_empty r w : 0 ≤ r < M → 0 ≤ w < M → (r =? w) = (rlen r w =? 0).
Proof.
  intros Hr Hw. unfold rlen. apply eq_bool_prop_intro. rewrite !Is_true_true, !Z.eqb_eq. split; intros E.
  - rewrite E, Z.sub_diag. apply Z.mod_0_l. lia.
  - pose proof (Z.div_mod (w - r) M).
    assert (-1 ≤ (w - r) `div` M < 1) by (split; [apply Z.div_le_lower_bound|apply Z.div_lt_upper_bound]; lia).
    assert ((w - r) `div` M = -1 ∨ (w - r) `div` M = 0) as [Eq|Eq] by lia; rewrite Eq in *; lia.
Qed.

Lemma rlen_push r w : rlen r w < sz → rlen r ((w + 1) `mod` M) = rlen r w + 1.
Proof.
  intros Hl. unfold rlen in *. rewrite Zminus_mod_idemp_l. replace (w + 1 - r) with (w - r + 1) by lia.
  rewrite <-Zplus_mod_idemp_l. pose proof (Z.mod_pos_bound (w - r) M). by rewrite Z.mod_small by lia.
Qed.

Lemma rlen_pop r w : 0 < rlen r w → rlen ((r + 1) `mod` M) w = rlen r w - 1.
Proof.
  intros Hl. unfold rlen in *. rewrite Zminus_mod_idemp_r. replace (w - (r + 1)) with (w - r - 1) by lia.
  rewrite <-Zminus_mod_idemp_l. pose proof (Z.mod_pos_bound (w - r) M). by rewrite Z.mod_small by lia.
Qed.

Lemma rlen_unpush r w : 0 < rlen r w → rlen r ((w - 1) `mod` M) = rlen r w - 1.
Proof.
  intros Hl. unfold rlen in *. rewrite Zminus_mod_idemp_l. replace (w - 1 - r) with (w - r - 1) by lia.
  rewrite <-Zminus_mod_idemp_l. pose proof (Z.mod_pos_bound (w - r) M). by rewrite Z.mod_small by lia.
Qed.

(** Two positions less than [sz] apart are different elements of the array. *)
Lemma index_ne r i j : 0 ≤ i → i < j → j < i + sz → Z.to_nat ((r + i) `mod` sz) ≠ Z.to_nat ((r + j) `mod` sz).
Proof.
  intros Hi Hij Hj E. pose proof (mod_sz (r + i)). pose proof (mod_sz (r + j)). apply Z2Nat.inj in E; [|lia..].
  pose proof (Z.div_mod (r + i) sz). pose proof (Z.div_mod (r + j) sz).
  assert ((r + j) `div` sz = (r + i) `div` sz ∨ (r + i) `div` sz + 1 ≤ (r + j) `div` sz ∨
    (r + j) `div` sz ≤ (r + i) `div` sz - 1) as [|[|]] by lia; nia.
Qed.

Lemma ritems_put d r w c :
  length d = Z.to_nat sz → rlen r w < sz → ritems (rput d w c) r ((w + 1) `mod` M) = ritems d r w ++ [c].
Proof.
  intros Hd Hl. pose proof (rlen_range r w). unfold ritems. rewrite rlen_push by done.
  rewrite seqZ_app, fmap_app by lia. f_equal.
  - apply list_fmap_ext. intros i x [-> Hi]%lookup_seqZ. unfold rput. rewrite (write_index r w).
    apply list_lookup_total_insert_ne, not_eq_sym, index_ne; lia.
  - change (seqZ (0 + rlen r w) 1) with [0 + rlen r w]. cbn [fmap list_fmap]. f_equal.
    unfold rput. rewrite (write_index r w), Z.add_0_l. apply list_lookup_total_insert_eq.
    rewrite Hd. pose proof (mod_sz (r + rlen r w)). lia.
Qed.

Lemma ritems_get d r w : 0 < rlen r w → ritems d r w = rget d r :: ritems d ((r + 1) `mod` M) w.
Proof.
  intros Hl. unfold ritems. rewrite rlen_pop by done.
  replace (rlen r w) with (Z.succ (rlen r w - 1)) at 1 by lia.
  rewrite seqZ_cons by lia. cbn [fmap list_fmap]. f_equal; [unfold rget; by rewrite Z.add_0_r|].
  replace (Z.pred (Z.succ (rlen r w - 1))) with (rlen r w - 1) by lia.
  change (Z.succ 0) with (0 + 1). rewrite <-(fmap_add_seqZ 1 0), <-list_fmap_compose. apply list_fmap_ext.
  intros i x _. cbn [compose]. do 2 f_equal.
  rewrite <-(Zplus_mod_idemp_l (_ `mod` M)), mod_M_sz, Zplus_mod_idemp_l. f_equal. lia.
Qed.

(** The youngest element. *)
Lemma ritems_last d r w :
  0 < rlen r w → ritems d r w = ritems d r ((w - 1) `mod` M) ++ [rget d (w - 1)].
Proof.
  intros Hl. unfold ritems. rewrite rlen_unpush by done.
  replace (rlen r w) with (rlen r w - 1 + 1) at 1 by lia. rewrite seqZ_app, fmap_app by lia. f_equal.
  change (seqZ (0 + (rlen r w - 1)) 1) with [0 + (rlen r w - 1)]. cbn [fmap list_fmap]. f_equal.
  unfold rget. do 2 f_equal. rewrite Z.add_0_l. rewrite <-(mod_M_sz (w - 1)). rewrite (write_index r ((w - 1) `mod` M)).
  by rewrite rlen_unpush.
Qed.
(** Elements up to an index in between, and from it on. *)
Lemma ritems_split d r w e :
  rlen r w ≤ rlen r e → ritems d r e = ritems d r w ++ ritems d w e ∧ rlen w e = rlen r e - rlen r w.
Proof.
  intros Hle. pose proof (rlen_range r w). pose proof (rlen_range r e).
  assert (rlen w e = rlen r e - rlen r w) as El.
  { unfold rlen in *. replace (e - w) with ((e - r) - (w - r)) by lia. rewrite Zminus_mod. apply Z.mod_small. lia. }
  split; [|done]. unfold ritems. rewrite El. replace (rlen r e) with (rlen r w + (rlen r e - rlen r w)) at 1 by lia.
  rewrite seqZ_app, fmap_app by lia. f_equal. rewrite Z.add_0_l.
  rewrite <-(Z.add_0_r (rlen r w)) at 1. rewrite <-fmap_add_seqZ, <-list_fmap_compose. apply list_fmap_ext.
  intros i x _. cbn [compose]. do 2 f_equal.
  rewrite <-(Zplus_mod_idemp_l w), (write_index r w), Zplus_mod_idemp_l. f_equal. lia.
Qed.
End ring.

(** The indices are [uint] or [uint64] and the array sizes powers of two. *)
Ltac ring_size := first [done | by eexists (2^13) | by eexists (2^23) | by eexists (2^25) | by eexists (2^59)].
