(* ===== verification/Pipe.v ===== *)
(** * Pipes, kernel/pipe.c

    [pi->lock] is held from the start of a call, or from its return from
    sleep, until it returns or sleeps: such a segment is one atomic
    transition. A segment that sleeps reports the loop index to resume from.
    [killed(pr)] may change between iterations; [killed i] is its value at
    iteration [i]. *)

From S2P Require Import Prelude Riscv Mem Ring Kalloc Vm VmTree VmSpec VmCopy.

Definition PIPESIZE : Z := 512.

Record pipe := Pipe {
  pdata : list Z;
  nread : Z;        (* number of bytes read *)
  nwrite : Z;       (* number of bytes written *)
  readopen : bool;
  writeopen : bool
}.

Definition new_pipe (d : list Z) : pipe := Pipe d 0 0 true true.

Inductive segment :=
| Returned (r : Z)
| Blocked (i : Z).

Record pst := Pst { pp : pipe; pk : kmem }.

Section pipe.
(** The end of the kernel, the page table of [myproc()], the address of the
    local variable [ch] and of the pipe itself. *)
Variables (kend pgtbl ch pi : Z) (killed : Z → bool).

Definition on_pk {A} (m : M kmem A) : M pst A := λ s,
  match m (pk s) with
  | Done a k => Done a (Pst (pp s) k)
  | Panic msg => Panic msg
  | Sleep c k => Sleep c (Pst (pp s) k)
  | OutOfFuel => OutOfFuel
  end.
Definition upd_pipe (f : pipe → pipe) : M pst unit := modify (λ s, Pst (f (pp s)) (pk s)).

(** [pi->data[pi->nwrite++ % PIPESIZE] = ch] *)
Definition push (c : Z) (p : pipe) : pipe :=
  Pipe (<[Z.to_nat (nwrite p `mod` PIPESIZE) := c]> (pdata p)) (nread p) (u32 (nwrite p + 1))
    (readopen p) (writeopen p).
(** [ch = pi->data[pi->nread++ % PIPESIZE]] *)
Definition front (p : pipe) : Z := pdata p !!! Z.to_nat (nread p `mod` PIPESIZE).
Definition pop (p : pipe) : pipe :=
  Pipe (pdata p) (u32 (nread p + 1)) (nwrite p) (readopen p) (writeopen p).

Definition pipeclose (writable : bool) : M pst unit :=
  upd_pipe (λ p, if writable then Pipe (pdata p) (nread p) (nwrite p) (readopen p) false
                 else Pipe (pdata p) (nread p) (nwrite p) false (writeopen p)) ;;;
  let* p := gets pp in
  if negb (readopen p) && negb (writeopen p) then on_pk (kfree kend pi) else ret tt.

Definition pipewrite (addr n i0 : Z) : M pst segment :=
  loop (S (Z.to_nat (n - i0)))
    (λ i,
      if i <? n then
        let* p := gets pp in
        if negb (readopen p) || killed i then ret (inr (Returned (-1)))
        else if nwrite p =? u32 (nread p + PIPESIZE) then ret (inr (Blocked i))
        else
          let* r := on_pk (copyin pgtbl ch (u64 (addr + i)) 1) in
          if r =? -1 then ret (inr (Returned i))
          else
            let* c := gets (λ s, load8 (km_mem (pk s)) ch) in
            upd_pipe (push c) ;;;
            ret (inl (i + 1))
      else ret (inr (Returned i)))
    i0.

Definition piperead (addr n : Z) : M pst segment :=
  let* p := gets pp in
  if (nread p =? nwrite p) && writeopen p then
    if killed 0 then ret (Returned (-1)) else ret (Blocked 0)
  else
    loop (S (Z.to_nat n))
      (λ i,
        if i <? n then
          let* p := gets pp in
          if nread p =? nwrite p then ret (inr (Returned i))
          else
            upd_pipe pop ;;;
            on_pk (modify (upd_mem (λ m, store8 m ch (front p)))) ;;;
            let* r := on_pk (copyout pgtbl (u64 (addr + i)) ch 1) in
            if r =? -1 then ret (inr (Returned i)) else ret (inl (i + 1))
        else ret (inr (Returned i)))
      0.
End pipe.

(** ** The pipe as a queue *)

Definition used_bytes (p : pipe) : Z := rlen (2^32) (nread p) (nwrite p).

(** The bytes written and not yet read, oldest first. *)
Definition contents (p : pipe) : list Z := ritems PIPESIZE (2^32) (pdata p) (nread p) (nwrite p).

Record pipe_ok (p : pipe) : Prop := {
  po_len : length (pdata p) = Z.to_nat PIPESIZE;
  po_nread : 0 ≤ nread p < 2^32;
  po_nwrite : 0 ≤ nwrite p < 2^32;
  po_used : used_bytes p ≤ PIPESIZE;
  po_bytes : Forall (λ c, 0 ≤ c < 256) (pdata p)
}.

Lemma used_range p : 0 ≤ used_bytes p < 2^32.
Proof. by apply (rlen_range PIPESIZE). Qed.

Lemma length_contents p : length (contents p) = Z.to_nat (used_bytes p).
Proof. apply length_ritems. Qed.

(** The code's tests for a full and an empty pipe. *)
Lemma full_test p : pipe_ok p → (nwrite p =? u32 (nread p + PIPESIZE)) = (used_bytes p =? PIPESIZE).
Proof. intros []. by apply rlen_full. Qed.

Lemma empty_test p : pipe_ok p → (nread p =? nwrite p) = (used_bytes p =? 0).
Proof. intros []. by apply (rlen_empty PIPESIZE). Qed.

Lemma used_push p c : used_bytes p < PIPESIZE → used_bytes (push c p) = used_bytes p + 1.
Proof. by apply rlen_push. Qed.

Lemma used_pop p : 0 < used_bytes p → used_bytes (pop p) = used_bytes p - 1.
Proof. by apply (rlen_pop PIPESIZE). Qed.

Lemma push_ok p c : pipe_ok p → used_bytes p < PIPESIZE → 0 ≤ c < 256 → pipe_ok (push c p).
Proof.
  intros [Hl Hr Hw _ Hb] Hu Hc. pose proof (used_push p c Hu). split; [|done| |lia|].
  - cbn [push pdata]. by rewrite length_insert.
  - apply Z.mod_pos_bound. lia.
  - by apply Forall_insert.
Qed.

Lemma front_byte p : pipe_ok p → 0 ≤ front p < 256.
Proof.
  intros [Hl _ _ _ Hb]. unfold front. rewrite Forall_forall in Hb. apply Hb, list_elem_of_lookup_total_2.
  rewrite Hl. pose proof (Z.mod_pos_bound (nread p) PIPESIZE). unfold PIPESIZE in *. lia.
Qed.

Lemma pop_ok p : pipe_ok p → 0 < used_bytes p → pipe_ok (pop p).
Proof.
  intros [Hl Hr Hw ? ?] Hu. pose proof (used_pop p Hu). split; [done| |done|lia|done].
  apply Z.mod_pos_bound. lia.
Qed.

Lemma contents_push p c : pipe_ok p → used_bytes p < PIPESIZE → contents (push c p) = contents p ++ [c].
Proof. intros [] Hu. apply ritems_put; ring_size. Qed.

Lemma contents_pop p : 0 < used_bytes p → contents p = front p :: contents (pop p).
Proof. intros Hu. apply ritems_get; ring_size. Qed.
