(* ===== verification/PipeTheorems.v ===== *)
(** * Theorems about pipes *)

From S2P Require Import Prelude Ring Riscv Mem Kalloc Vm VmTree VmSpec VmCopy VmExample Pipe.

(** ** Copying one byte *)

Section byte.
Context (kend : Z) (kend_pos : 0 < kend) (root ch : Z).

(** Memory that differs at [ch] only. *)
Definition except_ch (m m' : mem) : Prop := ∀ x, x ≠ ch → load8 m' x = load8 m x.

Lemma user_ok_except m m' :
  user_ok kend m root ch (ch + 1) → except_ch m m' →
  user_ok kend m' root ch (ch + 1) ∧ (∀ w va, user_page w m' root va = user_page w m root va) ∧
  ∀ va, user_load m' root va = user_load m root va.
Proof.
  intros Hok He. pose proof Hok as (Ht & Hu & Hp).
  destruct (user_ok_agree kend m m' root ch (ch + 1) Hok) as (Hok' & Hpg & _).
  { intros q x Hq Hx. apply He. intros ->. apply (Hp q ch Hq Hx). lia. }
  split_and!; [done..|]. intros va. unfold user_load, user_addr. rewrite Hpg.
  destruct (user_page false m root (PGROUNDDOWN va)) as [pa|] eqn:Epa; [|done]. simpl. f_equal. apply He.
  intros E. destruct (Hu _ _ Epa) as (_ & _ & Hd). apply (Hd ch); [|lia]. unfold in_page.
  pose proof (Z.mod_pos_bound va PGSIZE). unfold PGSIZE in *. lia.
Qed.

Lemma copyin_byte k va :
  user_ok kend (km_mem k) root ch (ch + 1) → 0 ≤ va < 2^64 →
  ∃ k', freelist k' = freelist k ∧ except_ch (km_mem k) (km_mem k') ∧
    match user_load (km_mem k) root va with
    | None => copyin root ch va 1 k = Done (-1) k'
    | Some b => copyin root ch va 1 k = Done 0 k' ∧ load8 (km_mem k') ch = b
    end.
Proof.
  intros Hok Hva. destruct (copyin_loop kend kend_pos ch (ch + 1) root 2 k ch va 1) as (k' & Hrun & Hf & Hm);
    [done|lia..|]. exists k'. split; [done|]. change (Z.to_nat 1) with 1%nat in *. cbn [copyin_bytes] in *.
  destruct (user_load (km_mem k) root va) as [b|] eqn:E; cbn [copyin_bytes Datatypes.fst snd] in *.
  - split; [intros x Hx; rewrite Hm, load8_store8, decide_False by done; done|].
    split; [exact Hrun|]. rewrite Hm, load8_store8, decide_True by done.
    unfold user_load in E. destruct (user_addr false (km_mem k) root va); simplify_eq/=. apply u8_load8.
  - split; [intros x Hx; by rewrite Hm|exact Hrun].
Qed.

(** ** pipewrite *)

Lemma pipewrite_loop killed addr n fuel i p k :
  pipe_ok p → user_ok kend (km_mem k) root ch (ch + 1) → 0 ≤ i ≤ n → 0 ≤ addr → addr + n < 2^64 →
  (Z.to_nat (n - i) < fuel)%nat →
  ∃ res p' k' bs, loop fuel
      (λ i,
        if i <? n then
          let* p := gets pp in
          if negb (readopen p) || killed i then ret (inr (Returned (-1)))
          else if nwrite p =? u32 (nread p + PIPESIZE) then ret (inr (Blocked i))
          else
            let* r := on_pk (copyin root ch (u64 (addr + i)) 1) in
            if r =? -1 then ret (inr (Returned i))
            else
              let* c := gets (λ s, load8 (km_mem (pk s)) ch) in
              upd_pipe (push c) ;;;
              ret (inl (i + 1))
        else ret (inr (Returned i))) i (Pst p k) = Done res (Pst p' k') ∧
    pipe_ok p' ∧ contents p' = contents p ++ bs ∧ except_ch (km_mem k) (km_mem k') ∧
    (∀ (j : nat) c, bs !! j = Some c → user_load (km_mem k) root (addr + i + j) = Some c) ∧
    let e := i + length bs in e ≤ n ∧
    match res with
    | Returned r =>
        (r = -1 ∧ e < n ∧ (readopen p = false ∨ killed e = true)) ∨
        (r = e ∧ (e = n ∨ user_load (km_mem k) root (addr + e) = None))
    | Blocked r => r = e ∧ e < n ∧ readopen p = true ∧ length (contents p') = Z.to_nat PIPESIZE
    end.
Proof.
  revert i p k. induction fuel as [|fuel IH]; intros i p k Hp Hu Hi Ha Han Hf; [lia|]. cbn [loop]. unfold bind at 1.
  destruct (Z.ltb_spec i n) as [Hlt|Hge].
  2: { exists (Returned i), p, k, []. rewrite app_nil_r. simpl. split_and!; [done..|lia|right; lia]. }
  unfold bind at 1, gets at 1. cbn [pp].
  destruct (negb (readopen p) || killed i) eqn:Er.
  { exists (Returned (-1)), p, k, []. rewrite app_nil_r. simpl. split_and!; [done..|lia|left].
    split_and!; [done|lia|]. rewrite Z.add_0_r. apply orb_true_iff in Er as [Er|Er]; [left; by destruct (readopen p)|by right]. }
  rewrite full_test by done. destruct (Z.eqb_spec (used_bytes p) PIPESIZE) as [Ef|Hnf].
  { exists (Blocked i), p, k, []. rewrite app_nil_r. simpl. split_and!; [done..|lia|lia|lia| |].
    - apply orb_false_iff in Er as [Er _]. by destruct (readopen p).
    - by rewrite length_contents, Ef. }
  destruct (copyin_byte k (addr + i) Hu) as (k1 & Hf1 & He1 & Hc); [lia|].
  rewrite u64_small by lia. unfold bind at 1, on_pk at 1. cbn [pk pp].
  destruct (user_load (km_mem k) root (addr + i)) as [b|] eqn:Eb.
  2: { rewrite Hc. cbn. exists (Returned i), p, k1, []. rewrite app_nil_r. simpl. split_and!; [done..|lia|right].
       rewrite Z.add_0_r. by split; [|right]. }
  destruct Hc as [Hc Hb]. rewrite Hc. cbn [Z.eqb]. unfold bind, gets, upd_pipe, modify, ret at 1. cbn [pp pk]. rewrite Hb.
  assert (used_bytes p < PIPESIZE) as Hus by (pose proof (po_used _ Hp); lia).
  destruct (user_ok_except (km_mem k) (km_mem k1) Hu He1) as (Hu1 & _ & Hl1).
  destruct (IH (i + 1) (push b p) k1) as (res & p' & k' & bs & Hrun & Hp' & Hcon & He & Hbs & Hn & Hres);
    [apply push_ok; [done|done|rewrite <-Hb; apply load8_range]|done|lia..|].
  exists res, p', k', (b :: bs). split; [exact Hrun|]. split; [done|].
  rewrite contents_push, <-app_assoc in Hcon by done. split; [exact Hcon|].
  split; [intros x Hx; by rewrite He, He1|]. split.
  { intros [|j] c Hj; simplify_eq/=; [by rewrite Z.add_0_r|].
    replace (addr + i + S j) with (addr + (i + 1) + j) by lia. rewrite <-Hl1. by apply Hbs. }
  cbn [length]. replace (i + S (length bs)) with (i + 1 + length bs) by lia. split; [done|].
  destruct res; cbn [push readopen] in Hres; rewrite ?Hl1 in Hres; exact Hres.
Qed.

(** ** piperead *)

Lemma copyout_byte k va :
  user_ok kend (km_mem k) root ch (ch + 1) → 0 ≤ va < 2^64 →
  ∃ k', freelist k' = freelist k ∧
    match user_addr true (km_mem k) root va with
    | None => copyout root va ch 1 k = Done (-1) k' ∧ km_mem k' ≡ₘ km_mem k
    | Some a => copyout root va ch 1 k = Done 0 k' ∧ km_mem k' ≡ₘ store8 (km_mem k) a (load8 (km_mem k) ch)
    end.
Proof.
  intros Hok Hva. destruct (copyout_loop kend kend_pos ch (ch + 1) root 2 k va ch 1) as (k' & Hrun & Hf & Hm);
    [done|lia..|]. exists k'. split; [done|]. change (Z.to_nat 1) with 1%nat in *. cbn [copyout_bytes] in *.
  unfold user_store in *. destruct (user_addr true (km_mem k) root va) as [a|]; by split.
Qed.

(** A byte stored through the page table at [va]. *)
Lemma user_store_load m m' va a b :
  user_ok kend m root ch (ch + 1) → user_inj m root → 0 ≤ va < 2^64 →
  user_addr true m root va = Some a → 0 ≤ b < 256 → m' ≡ₘ store8 m a b →
  user_ok kend m' root ch (ch + 1) ∧ user_inj m' root ∧
  (∀ w va', user_addr w m' root va' = user_addr w m root va') ∧
  ∀ va', 0 ≤ va' < 2^64 → user_load m' root va' = if decide (va' = va) then Some b else user_load m root va'.
Proof.
  intros Hok Hinj Hva Ha Hb Hm. unfold user_addr in Ha.
  destruct (user_page true m root (PGROUNDDOWN va)) as [pa|] eqn:Hpa; simplify_eq/=.
  destruct (user_ok_store kend true m m' root ch (ch + 1) (PGROUNDDOWN va) pa Hok Hpa) as (Hok' & Hpg & _).
  { intros x Hx. rewrite Hm, load8_store8, decide_False; [done|]. intros <-. apply (Hx pa); [by left|].
    unfold in_page. pose proof (Z.mod_pos_bound va PGSIZE). unfold PGSIZE in *. lia. }
  assert (∀ w va', user_addr w m' root va' = user_addr w m root va') as Hua.
  { intros w va'. unfold user_addr. by rewrite Hpg. }
  split_and!; [done| |done|].
  - intros v1 v2 a H1 H2. rewrite !Hua. by apply Hinj.
  - intros va' Hva'. unfold user_load. rewrite Hua.
    destruct (user_addr false m root va') as [a'|] eqn:Ea'; simpl.
    + rewrite Hm, load8_store8.
      assert (user_addr false m root va = Some (pa + va `mod` PGSIZE)) as Eva.
      { unfold user_addr. by rewrite (user_page_weaken true m root _ _ Hpa). }
      repeat case_decide; subst; rewrite ?u8_small by done; try done.
      * by destruct (Hinj va va' (pa + va `mod` PGSIZE)).
      * congruence.
    + case_decide; [|done]. subst. exfalso. unfold user_addr in Ea'.
      by rewrite (user_page_weaken true m root _ _ Hpa) in Ea'.
Qed.

(** The state of user memory after bytes [bs] were stored from [va] on. *)
Definition delivered (m m' : mem) (va : Z) (bs : list Z) : Prop :=
  ∀ v, 0 ≤ v < 2^64 → user_load m' root v =
    if decide (va ≤ v < va + length bs) then Some (bs !!! Z.to_nat (v - va)) else user_load m root v.

Definition read_body (addr n i : Z) : M pst (Z + segment) :=
  if i <? n then
    let* p := gets pp in
    if nread p =? nwrite p then ret (inr (Returned i))
    else
      upd_pipe pop ;;;
      on_pk (modify (upd_mem (λ m, store8 m ch (front p)))) ;;;
      let* r := on_pk (copyout root (u64 (addr + i)) ch 1) in
      if r =? -1 then ret (inr (Returned i)) else ret (inl (i + 1))
  else ret (inr (Returned i)).

Lemma piperead_loop addr n fuel i p k :
  pipe_ok p → user_ok kend (km_mem k) root ch (ch + 1) → user_inj (km_mem k) root →
  0 ≤ i ≤ n → 0 ≤ addr → addr + n < 2^64 → (Z.to_nat (n - i) < fuel)%nat →
  ∃ p' k' bs lost, loop fuel (read_body addr n) i (Pst p k) = Done (Returned (i + length bs)) (Pst p' k') ∧
    pipe_ok p' ∧ contents p = bs ++ lost ++ contents p' ∧ i + length bs ≤ n ∧
    delivered (km_mem k) (km_mem k') (addr + i) bs ∧
    ((lost = [] ∧ (i + length bs = n ∨ contents p' = [])) ∨
     (length lost = 1%nat ∧ user_addr true (km_mem k) root (addr + i + length bs) = None)).
Proof.
  revert i p k. induction fuel as [|fuel IH]; intros i p k Hp Hu Hinj Hi Ha Han Hf; [lia|]. cbn [loop]. unfold bind at 1, read_body at 1.
  assert (delivered (km_mem k) (km_mem k) (addr + i) []) as Hd0.
  { intros v Hv. simpl. by rewrite decide_False by lia. }
  destruct (Z.ltb_spec i n) as [Hlt|Hge].
  2: { exists p, k, [], []. simpl. rewrite Z.add_0_r. split_and!; [done..|lia|done|left; split; [done|left; lia]]. }
  unfold bind at 1, gets at 1. cbn [pp]. rewrite empty_test by done.
  destruct (Z.eqb_spec (used_bytes p) 0) as [E0|Hne].
  { exists p, k, [], []. simpl. rewrite Z.add_0_r. split_and!; [done..|lia|done|left; split; [done|right]].
    apply length_zero_iff_nil. by rewrite length_contents, E0. }
  pose proof (used_range p). assert (0 < used_bytes p) as Hus by lia.
  unfold bind at 1, upd_pipe, modify at 1. unfold bind at 1, on_pk at 1, modify. cbn [pp pk].
  set (k1 := upd_mem (λ m, store8 m ch (front p)) k). pose proof (front_byte p Hp) as Hfb.
  assert (except_ch (km_mem k) (km_mem k1)) as He.
  { intros x Hx. unfold k1. cbn [upd_mem km_mem]. by rewrite load8_store8, decide_False by done. }
  destruct (user_ok_except (km_mem k) (km_mem k1) Hu He) as (Hu1 & Hpg1 & Hl1).
  assert (∀ w va, user_addr w (km_mem k1) root va = user_addr w (km_mem k) root va) as Hua1.
  { intros w va. unfold user_addr. by rewrite Hpg1. }
  assert (user_inj (km_mem k1) root) as Hinj1 by (intros v1 v2 a H1 H2; rewrite !Hua1; by apply Hinj).
  assert (load8 (km_mem k1) ch = front p) as Ech.
  { unfold k1. cbn [upd_mem km_mem]. rewrite load8_store8, decide_True, u8_small by done. done. }
  destruct (copyout_byte k1 (addr + i) Hu1) as (k2 & Hf2 & Hc); [lia|]. rewrite u64_small by lia.
  unfold bind at 1, on_pk at 1. cbn [pk pp]. rewrite Hua1 in Hc.
  destruct (user_addr true (km_mem k) root (addr + i)) as [a|] eqn:Ea.
  2: { destruct Hc as [-> Hm2]. cbn. exists (pop p), k2, [], [front p]. simpl. rewrite Z.add_0_r.
       split_and!; [done|by apply pop_ok|by rewrite contents_pop|lia| |right; split; [done|by rewrite Z.add_0_r]].
       intros v Hv. simpl. rewrite decide_False by lia. rewrite <-Hl1. unfold user_load.
       assert (user_addr false (km_mem k2) root v = user_addr false (km_mem k1) root v) as -> by (by rewrite Hm2).
       destruct (user_addr false (km_mem k1) root v); [|done]. simpl. by rewrite Hm2. }
  destruct Hc as [-> Hm2]. cbn [Z.eqb]. unfold ret at 1. rewrite Ech in Hm2.
  destruct (user_store_load (km_mem k1) (km_mem k2) (addr + i) a (front p)) as (Hu2 & Hinj2 & Hua2 & Hl2);
    [done|done|lia|by rewrite Hua1|done|done|].
  destruct (IH (i + 1) (pop p) k2) as (p' & k' & bs & lost & Hrun & Hp' & Hcon & Hn & Hd & Hend);
    [by apply pop_ok|done|done|lia..|].
  exists p', k', (front p :: bs), lost. cbn [length]. replace (i + S (length bs)) with (i + 1 + length bs) by lia.
  split; [exact Hrun|]. split; [done|]. split; [rewrite contents_pop by done; by rewrite Hcon|]. split; [lia|]. split.
  - intros v Hv. rewrite Hd, Hl2, Hl1 by done. cbn [length]. repeat case_decide; try lia; try done.
    + f_equal. replace (Z.to_nat (v - (addr + i))) with (S (Z.to_nat (v - (addr + (i + 1))))) by lia. done.
    + subst v. by replace (addr + i - (addr + i)) with 0 by lia.
  - destruct Hend as [Hend|[? Hend]]; [by left|right]. split; [done|]. rewrite Hua2, Hua1 in Hend.
    by replace (addr + i + S (length bs)) with (addr + (i + 1) + length bs) by lia.
Qed.
End byte.

(** C27. pipewrite appends to the pipe, in order, the bytes at [addr + i0] and up of
    the writer's memory. It returns the number of bytes written so far when
    all [n] are in the pipe or the next one cannot be read, returns -1 when the
    read end is closed or the process was killed, and sleeps, to continue where
    it was, only with the pipe full of PIPESIZE bytes; no byte is lost or
    duplicated when the indices wrap around. *)
Theorem pipewrite_appends kend root ch killed addr n i0 p k :
  0 < kend → pipe_ok p → user_ok kend (km_mem k) root ch (ch + 1) → 0 ≤ i0 ≤ n → 0 ≤ addr → addr + n < 2^64 →
  ∃ res p' k' bs, pipewrite root ch killed addr n i0 (Pst p k) = Done res (Pst p' k') ∧ pipe_ok p' ∧
    contents p' = contents p ++ bs ∧
    (∀ (j : nat) c, bs !! j = Some c → user_load (km_mem k) root (addr + i0 + j) = Some c) ∧
    let e := i0 + length bs in e ≤ n ∧
    match res with
    | Returned r =>
        (r = -1 ∧ e < n ∧ (readopen p = false ∨ killed e = true)) ∨
        (r = e ∧ (e = n ∨ user_load (km_mem k) root (addr + e) = None))
    | Blocked r => r = e ∧ e < n ∧ readopen p = true ∧ length (contents p') = Z.to_nat PIPESIZE
    end.
Proof.
  intros Hk Hp Hu Hi Ha Han.
  destruct (pipewrite_loop kend Hk root ch killed addr n (S (Z.to_nat (n - i0))) i0 p k)
    as (res & p' & k' & bs & H1 & H2 & H3 & _ & H4 & H5); [done..|lia|].
  by exists res, p', k', bs.
Qed.

(** C28. piperead, when the pipe has bytes or its write end is closed, takes the
    oldest bytes of the pipe and stores them, in order, at [addr] in the
    reader's memory, changing nothing else there: [n] of them, or all there
    are. At an address it cannot write it stops; the byte it took for that
    address is lost. It sleeps only on an empty pipe with an open write end. *)
Theorem piperead_delivers kend root ch killed addr n p k :
  0 < kend → pipe_ok p → user_ok kend (km_mem k) root ch (ch + 1) → user_inj (km_mem k) root →
  0 ≤ n → 0 ≤ addr → addr + n < 2^64 →
  if decide (contents p = [] ∧ writeopen p = true) then
    piperead root ch killed addr n (Pst p k) = Done (if killed 0 then Returned (-1) else Blocked 0) (Pst p k)
  else ∃ p' k' bs lost, piperead root ch killed addr n (Pst p k) = Done (Returned (length bs)) (Pst p' k') ∧
    pipe_ok p' ∧ contents p = bs ++ lost ++ contents p' ∧ length bs ≤ n ∧
    delivered root (km_mem k) (km_mem k') addr bs ∧
    ((lost = [] ∧ (Z.of_nat (length bs) = n ∨ contents p' = [])) ∨
     (length lost = 1%nat ∧ user_addr true (km_mem k) root (addr + length bs) = None)).
Proof.
  intros Hk Hp Hu Hinj Hn Ha Han.
  assert (contents p = [] ↔ used_bytes p = 0) as Hem.
  { rewrite <-length_zero_iff_nil, length_contents. pose proof (used_range p). lia. }
  case_decide as E; unfold piperead, bind at 1, gets at 1; cbn [pp]; rewrite empty_test by done.
  - destruct E as [E1 E2]. apply Hem in E1. rewrite E1, E2. simpl. by destruct (killed 0).
  - assert ((used_bytes p =? 0) && writeopen p = false) as ->.
    { destruct (Z.eqb_spec (used_bytes p) 0), (writeopen p); try done. exfalso. apply E. split; [by apply Hem|done]. }
    destruct (piperead_loop kend Hk root ch addr n (S (Z.to_nat n)) 0 p k) as (p' & k' & bs & lost & H1 & H2 & H3 & H4 & H5 & H6);
      [done..|lia|done|done|lia|].
    rewrite Z.add_0_r in H5. rewrite Z.add_0_r, !Z.add_0_l in H6. rewrite Z.add_0_l in H1, H4.
    by exists p', k', bs, lost.
Qed.

(** ** Examples: a pipe whose indices are about to wrap around *)

Definition ex_pipe : pipe := Pipe (replicate 512 0) (2^32 - 2) (2^32 - 2) true true.

Lemma ex_pipe_ok : pipe_ok ex_pipe.
Proof. split; [done|done|done|done|]. apply Forall_replicate. lia. Qed.

Lemma ex_user_ch : user_ok ex_end ex_mem ex_root 0x80001000 (0x80001000 + 1).
Proof. by apply (user_ok_sub _ _ _ _ _ _ _ ex_user_ok). Qed.

Lemma pipewrite_appends_witness :
  ∃ res p' k' bs, pipewrite ex_root 0x80001000 (λ _, false) 0x1000 3 0 (Pst ex_pipe ex_k) = Done res (Pst p' k') ∧
    contents p' = contents ex_pipe ++ bs.
Proof.
  destruct (pipewrite_appends ex_end ex_root 0x80001000 (λ _, false) 0x1000 3 0 ex_pipe ex_k)
    as (res & p' & k' & bs & H1 & _ & H2 & _); [done|apply ex_pipe_ok|apply ex_user_ch|done..|].
  exists res, p', k', bs. split; [exact H1|exact H2].
Defined.

Definition ex_pipe3 : pipe := push 9 (push 8 (push 7 ex_pipe)).

Lemma piperead_delivers_witness :
  ∃ p' k' bs lost, piperead ex_root 0x80001000 (λ _, false) 0x1000 2 (Pst ex_pipe3 ex_k) =
      Done (Returned (length bs)) (Pst p' k') ∧ contents ex_pipe3 = bs ++ lost ++ contents p'.
Proof.
  assert (pipe_ok ex_pipe3) as Hp.
  { repeat (apply push_ok; [|vm_compute; done|done]). apply ex_pipe_ok. }
  pose proof (piperead_delivers ex_end ex_root 0x80001000 (λ _, false) 0x1000 2 ex_pipe3 ex_k) as H.
  rewrite decide_False in H by (vm_compute; intros [? _]; done).
  destruct H as (p' & k' & bs & lost & H1 & _ & H2 & _); [done|done|apply ex_user_ch|apply ex_user_inj|done..|].
  exists p', k', bs, lost. split; [exact H1|exact H2].
Defined.
