(* ===== verification/Uart.v ===== *)
(** * The 16550 UART driver, kernel/uart.c

    The device: a register write is recorded in [wr]; THR accepts a character
    at the [n]-th read of LSR when [idle n]; [rx] holds the input characters
    that have arrived and not been read from RHR. *)

From S2P Require Import Prelude Ring.

Definition RHR : Z := 0.
Definition THR : Z := 0.
Definition IER : Z := 1.
Definition IER_RX_ENABLE : Z := 1.
Definition IER_TX_ENABLE : Z := 2.
Definition FCR : Z := 2.
Definition FCR_FIFO_ENABLE : Z := 1.
Definition FCR_FIFO_CLEAR : Z := 6.
Definition LCR : Z := 3.
Definition LCR_EIGHT_BITS : Z := 3.
Definition LCR_BAUD_LATCH : Z := 128.
Definition LSR_RX_READY : Z := 1.
Definition LSR_TX_IDLE : Z := 32.
Definition UART_TX_BUF_SIZE : Z := 32.

Record uart := Uart {
  uart_tx_buf : list Z;
  uart_tx_w : Z;
  uart_tx_r : Z;
  panicked : bool;           (* from printf.c *)
  nlsr : nat;                (* reads of LSR so far *)
  rx : list Z;
  wr : list (Z * Z)          (* register writes, in order *)
}.

(** [for(;;) ;] *)
Definition forever {S A} : M S A := λ _, OutOfFuel.

Section uart.
(** The device, the address of [uart_tx_r] and the number of times
    uartputc_sync is willing to poll. *)
Variables (idle : nat → bool) (chan_tx_r : Z) (polls : nat).

Definition ReadReg_LSR : M uart Z := λ u,
  Done (Z.lor (match rx u with [] => 0 | _ => LSR_RX_READY end) (if idle (nlsr u) then LSR_TX_IDLE else 0))
    (Uart (uart_tx_buf u) (uart_tx_w u) (uart_tx_r u) (panicked u) (S (nlsr u)) (rx u) (wr u)).
Definition ReadReg_RHR : M uart Z := λ u,
  Done (rx u !!! 0%nat)
    (Uart (uart_tx_buf u) (uart_tx_w u) (uart_tx_r u) (panicked u) (nlsr u) (tail (rx u)) (wr u)).
Definition WriteReg (reg v : Z) : M uart unit :=
  modify (λ u, Uart (uart_tx_buf u) (uart_tx_w u) (uart_tx_r u) (panicked u) (nlsr u) (rx u) (wr u ++ [(reg, u8 v)])).

Definition uartinit : M uart unit :=
  WriteReg IER 0x00 ;;;
  WriteReg LCR LCR_BAUD_LATCH ;;;
  WriteReg 0 0x03 ;;;
  WriteReg 1 0x00 ;;;
  WriteReg LCR LCR_EIGHT_BITS ;;;
  WriteReg FCR (Z.lor FCR_FIFO_ENABLE FCR_FIFO_CLEAR) ;;;
  WriteReg IER (Z.lor IER_TX_ENABLE IER_RX_ENABLE).

(** [uart_tx_buf[uart_tx_w % UART_TX_BUF_SIZE] = c; uart_tx_w += 1] *)
Definition tx_push (c : Z) (u : uart) : uart :=
  Uart (rput UART_TX_BUF_SIZE (uart_tx_buf u) (uart_tx_w u) (u8 c)) (u64 (uart_tx_w u + 1)) (uart_tx_r u)
    (panicked u) (nlsr u) (rx u) (wr u).
Definition tx_pop (u : uart) : uart :=
  Uart (uart_tx_buf u) (uart_tx_w u) (u64 (uart_tx_r u + 1)) (panicked u) (nlsr u) (rx u) (wr u).

Definition uartstart : M uart unit :=
  loop (S (Z.to_nat UART_TX_BUF_SIZE))
    (λ _ : unit,
      let* u := get in
      if uart_tx_w u =? uart_tx_r u then ret (inr tt)
      else
        let* lsr := ReadReg_LSR in
        if Z.land lsr LSR_TX_IDLE =? 0 then ret (inr tt)
        else
          let c := rget UART_TX_BUF_SIZE (uart_tx_buf u) (uart_tx_r u) in
          modify tx_pop ;;;
          WriteReg THR c ;;;
          ret (inl tt))
    tt.

(** From the test for space on, where sleep() returns to. *)
Definition uartputc_wait (c : Z) : M uart unit :=
  let* u := get in
  if uart_tx_w u =? u64 (uart_tx_r u + UART_TX_BUF_SIZE) then sleep_on chan_tx_r
  else modify (tx_push c) ;;; uartstart.

Definition uartputc (c : Z) : M uart unit :=
  let* p := gets panicked in
  if (p : bool) then forever else uartputc_wait c.

Definition uartputc_sync (c : Z) : M uart unit :=
  let* p := gets panicked in
  if (p : bool) then forever
  else
    loop polls
      (λ _ : unit,
        let* lsr := ReadReg_LSR in
        if Z.land lsr LSR_TX_IDLE =? 0 then ret (inl tt) else ret (inr tt))
      tt ;;;
    WriteReg THR c.

Definition uartgetc : M uart Z :=
  let* lsr := ReadReg_LSR in
  if Z.land lsr 0x01 =? 0 then ret (-1) else ReadReg_RHR.

(** kernel/console.c *)
Definition BACKSPACE : Z := 0x100.

Definition consputc (c : Z) : M uart unit :=
  if c =? BACKSPACE then uartputc_sync 8 ;;; uartputc_sync 32 ;;; uartputc_sync 8
  else uartputc_sync c.
End uart.

(** ** The transmit queue *)

Definition tx_used (u : uart) : Z := rlen (2^64) (uart_tx_r u) (uart_tx_w u).
(** The characters accepted by uartputc and not yet given to the device. *)
Definition tx_queue (u : uart) : list Z :=
  ritems UART_TX_BUF_SIZE (2^64) (uart_tx_buf u) (uart_tx_r u) (uart_tx_w u).
(** The characters given to the device. *)
Definition sent (u : uart) : list Z := (λ p, p.2) <$> filter (λ p, p.1 = THR) (wr u).

Record uart_ok (u : uart) : Prop := {
  uo_len : length (uart_tx_buf u) = Z.to_nat UART_TX_BUF_SIZE;
  uo_r : 0 ≤ uart_tx_r u < 2^64;
  uo_w : 0 ≤ uart_tx_w u < 2^64;
  uo_used : tx_used u ≤ UART_TX_BUF_SIZE;
  uo_bytes : Forall (λ c, 0 ≤ c < 256) (uart_tx_buf u)
}.

Lemma tx_byte_range c : 0 ≤ u8 c < 256.
Proof. by apply Z.mod_pos_bound. Qed.

Lemma tx_push_ok c u : uart_ok u → tx_used u < UART_TX_BUF_SIZE → uart_ok (tx_push c u).
Proof.
  intros [Hl Hr Hw Hu Hb] Hlt.
  assert (tx_used (tx_push c u) = tx_used u + 1) as E by (by apply (rlen_push UART_TX_BUF_SIZE)).
  split; [|done| |lia|].
  - cbn [tx_push uart_tx_buf]. unfold rput. by rewrite length_insert.
  - apply Z.mod_pos_bound. lia.
  - apply Forall_insert; [done|]. apply tx_byte_range.
Qed.

Lemma tx_pop_ok u : uart_ok u → 0 < tx_used u → uart_ok (tx_pop u).
Proof.
  intros [Hl Hr Hw Hu Hb] Hlt.
  assert (tx_used (tx_pop u) = tx_used u - 1) as E by (by apply (rlen_pop UART_TX_BUF_SIZE)).
  split; [done| |done|lia|done]. apply Z.mod_pos_bound. lia.
Qed.

Lemma tx_queue_push c u : uart_ok u → tx_used u < UART_TX_BUF_SIZE → tx_queue (tx_push c u) = tx_queue u ++ [u8 c].
Proof. intros [] Hu. apply ritems_put; ring_size. Qed.

Lemma tx_queue_pop u :
  0 < tx_used u → tx_queue u = rget UART_TX_BUF_SIZE (uart_tx_buf u) (uart_tx_r u) :: tx_queue (tx_pop u).
Proof. intros Hu. apply ritems_get; ring_size. Qed.

Lemma tx_front_byte u : uart_ok u → 0 ≤ rget UART_TX_BUF_SIZE (uart_tx_buf u) (uart_tx_r u) < 256.
Proof.
  intros [Hl _ _ _ Hb]. unfold rget. rewrite Forall_forall in Hb. apply Hb, list_elem_of_lookup_total_2.
  rewrite Hl. pose proof (Z.mod_pos_bound (uart_tx_r u) UART_TX_BUF_SIZE). unfold UART_TX_BUF_SIZE in *. lia.
Qed.

Lemma lsr_idle (u : uart) (b : bool) :
  (Z.land (Z.lor (match rx u with [] => 0 | _ => LSR_RX_READY end) (if b then LSR_TX_IDLE else 0)) LSR_TX_IDLE =? 0) = negb b.
Proof. by destruct (rx u), b. Qed.

Lemma lsr_ready (u : uart) (b : bool) :
  (Z.land (Z.lor (match rx u with [] => 0 | _ => LSR_RX_READY end) (if b then LSR_TX_IDLE else 0)) 0x01 =? 0) =
  bool_decide (rx u = []).
Proof. by destruct (rx u), b. Qed.

Lemma sent_write u u' c : wr u' = wr u ++ [(THR, c)] → sent u' = sent u ++ [c].
Proof. intros E. unfold sent. rewrite E, filter_app, fmap_app. f_equal. Qed.

(** What sending from the queue changes: the queue, the device and the number
    of reads of LSR, with nothing lost or reordered. *)
Definition sends (u u' : uart) : Prop :=
  sent u' ++ tx_queue u' = sent u ++ tx_queue u ∧ panicked u' = panicked u ∧ rx u' = rx u.

Section start.
Context (idle : nat → bool).

Lemma uartstart_loop fuel u :
  uart_ok u → (Z.to_nat (tx_used u) < fuel)%nat →
  wp (loop fuel
    (λ _ : unit,
      let* u := get in
      if uart_tx_w u =? uart_tx_r u then ret (inr tt)
      else
        let* lsr := ReadReg_LSR idle in
        if Z.land lsr LSR_TX_IDLE =? 0 then ret (inr tt)
        else
          let c := rget UART_TX_BUF_SIZE (uart_tx_buf u) (uart_tx_r u) in
          modify tx_pop ;;;
          WriteReg THR c ;;;
          ret (inl tt)) tt) u
    (λ _ u', uart_ok u' ∧ sends u u' ∧ (tx_queue u' = [] ∨ ∃ n, nlsr u' = S n ∧ idle n = false)).
Proof.
  revert u. induction fuel as [|fuel IH]; intros u Hok Hf; [lia|]. cbn [loop]. unfold wp, bind at 1, bind at 1, get at 1.
  rewrite Z.eqb_sym, (rlen_empty UART_TX_BUF_SIZE (2^64)) by (apply Hok || done). fold (tx_used u).
  destruct (Z.eqb_spec (tx_used u) 0) as [E|Hne].
  { cbn. split_and!; [done..|]. left. apply length_zero_iff_nil. unfold tx_queue. rewrite length_ritems.
    unfold tx_used in E. by rewrite E. }
  unfold bind at 1, ReadReg_LSR at 1. rewrite lsr_idle. destruct (idle (nlsr u)) eqn:Ei; cbn [negb].
  2: { cbn. split; [by destruct Hok|]. split; [by split_and!|]. right. by exists (nlsr u). }
  assert (0 < tx_used u) as Hpos by (pose proof (rlen_range UART_TX_BUF_SIZE (2^64) ltac:(done) ltac:(done) (uart_tx_r u) (uart_tx_w u)); unfold tx_used in *; lia).
  unfold bind, modify, WriteReg, ret at 1, modify. cbn [tx_pop uart_tx_buf uart_tx_w uart_tx_r panicked nlsr rx wr].
  pose proof (tx_front_byte u Hok) as Hb. unfold u8. rewrite (Z.mod_small (rget _ _ _)) by (apply tx_front_byte; by destruct Hok).
  set (u1 := Uart _ _ _ _ _ _ _).
  assert (uart_ok u1) as Hok1 by (destruct (tx_pop_ok u Hok Hpos); by split).
  assert (tx_used u1 = tx_used u - 1) as E1 by (by apply (rlen_pop UART_TX_BUF_SIZE)).
  specialize (IH u1 Hok1 ltac:(lia)). unfold wp in IH.
  destruct (loop fuel _ tt u1) as [[] u'|?|? ?|]; try done. destruct IH as (Hok' & (Hs & Hp & Hrx) & Hend).
  split; [done|]. split; [|done]. split_and!; [|done|done]. rewrite Hs, (tx_queue_pop u Hpos).
  change (tx_queue u1) with (tx_queue (tx_pop u)).
  rewrite (sent_write u u1 _ eq_refl).
  by rewrite <-app_assoc.
Qed.

Lemma uartstart_ok u :
  uart_ok u →
  wp (uartstart idle) u
    (λ _ u', uart_ok u' ∧ sends u u' ∧ (tx_queue u' = [] ∨ ∃ n, nlsr u' = S n ∧ idle n = false)).
Proof. intros Hok. apply uartstart_loop; [done|]. pose proof (uo_used _ Hok). lia. Qed.
End start.

(** uartputc accepts the character into the transmit queue and starts the
    device: the characters sent followed by those still queued are the ones
    before followed by [c], so that output is never lost, duplicated or
    reordered even when the 64-bit indices wrap around; afterwards the queue is empty or the
    device was found busy. With UART_TX_BUF_SIZE characters queued it sleeps
    and changes nothing. *)
Theorem uartputc_fifo idle chan u c :
  uart_ok u → panicked u = false →
  if decide (length (tx_queue u) = Z.to_nat UART_TX_BUF_SIZE) then uartputc idle chan c u = Sleep chan u
  else ∃ u', uartputc idle chan c u = Done tt u' ∧ uart_ok u' ∧
    sent u' ++ tx_queue u' = sent u ++ tx_queue u ++ [u8 c] ∧
    (tx_queue u' = [] ∨ ∃ n, nlsr u' = S n ∧ idle n = false).
Proof.
  intros Hok Hp. pose proof (uo_used _ Hok) as Hle.
  pose proof (rlen_range UART_TX_BUF_SIZE (2^64) ltac:(done) ltac:(done) (uart_tx_r u) (uart_tx_w u)) as Hrange.
  fold (tx_used u) in *. assert (length (tx_queue u) = Z.to_nat (tx_used u)) as Hlen by apply length_ritems.
  assert (uartputc idle chan c u = if tx_used u =? UART_TX_BUF_SIZE then Sleep chan u else uartstart idle (tx_push c u)) as ->.
  { unfold uartputc, bind at 1, gets. rewrite Hp. unfold uartputc_wait, bind at 1, get, u64.
    rewrite rlen_full by (apply Hok || done). fold (tx_used u). by destruct (tx_used u =? _). }
  case_decide as E; destruct (Z.eqb_spec (tx_used u) UART_TX_BUF_SIZE) as [E'|Hne]; try (unfold UART_TX_BUF_SIZE in *; lia); [done|].
  assert (tx_used u < UART_TX_BUF_SIZE) as Hlt by lia.
  pose proof (tx_push_ok c u Hok Hlt) as Hok1.
  apply (uartstart_ok idle), wp_done in Hok1 as ([] & u' & Hrun & Hok' & (Hs & _ & _) & Hend).
  exists u'. split_and!; [done|done| |done]. rewrite Hs, tx_queue_push by done. done.
Qed.

Definition ex_uart : uart := Uart (replicate 32 0) (2^64 - 1) (2^64 - 1) false 0 [] [].

Lemma ex_uart_ok : uart_ok ex_uart.
Proof. split; [done..|]. apply Forall_replicate. lia. Qed.

Lemma uartputc_fifo_witness :
  ∃ u', uartputc (λ n, Nat.even n) 7 65 ex_uart = Done tt u' ∧ sent u' ++ tx_queue u' = [65].
Proof.
  pose proof (uartputc_fifo (λ n, Nat.even n) 7 ex_uart 65 ex_uart_ok eq_refl) as H.
  rewrite decide_False in H by (vm_compute; done).
  destruct H as (u' & H1 & _ & H2 & _). exists u'. split; [exact H1|]. rewrite H2. reflexivity.
Defined.

(** ** Polled output *)

(** The device accepts a character within [polls] reads of LSR. *)
Definition responsive (idle : nat → bool) (polls : nat) : Prop := ∀ n, ∃ k, (k < polls)%nat ∧ idle (n + k)%nat = true.

(** State to which characters are output: [emitted s bs s'] when the output in [s']
    is that of [s] followed by [bs] and nothing else the program reads changed. *)
Class Sink (S : Type) := {
  emitted : S → list Z → S → Prop;
  emitted_nil s : emitted s [] s;
  emitted_app s1 s2 s3 xs ys : emitted s1 xs s2 → emitted s2 ys s3 → emitted s1 (xs ++ ys) s3
}.

#[export, refine] Instance uart_sink : Sink uart := {
  emitted u bs u' := sent u' = sent u ++ bs ∧ uart_tx_buf u' = uart_tx_buf u ∧ uart_tx_w u' = uart_tx_w u ∧
    uart_tx_r u' = uart_tx_r u ∧ panicked u' = panicked u ∧ rx u' = rx u
}.
Proof.
  - intros u. by rewrite app_nil_r.
  - intros u1 u2 u3 xs ys (E1 & ? & ? & ? & ? & ?) (E2 & ? & ? & ? & ? & ?).
    rewrite E2, E1, app_assoc. split_and!; congruence.
Defined.

(** [m] outputs exactly [bs] from states that satisfy [I], which it keeps. *)
Definition emits {S} `{Sink S} (I : S → Prop) (m : M S unit) (bs : list Z) : Prop :=
  ∀ s, I s → wp m s (λ _ s', emitted s bs s' ∧ I s').

Section emits.
Context {S} `{Sink S} (I : S → Prop).

Lemma emits_ret : emits I (ret tt) [].
Proof. intros s HI. split; [apply emitted_nil|done]. Qed.

Lemma emits_bind (m1 m2 : M S unit) xs ys : emits I m1 xs → emits I m2 ys → emits I (m1 ;;; m2) (xs ++ ys).
Proof.
  intros H1 H2 s HI. apply wp_bind. eapply wp_mono; [by apply H1|]. intros _ s1 [E1 HI1]. simpl.
  eapply wp_mono; [by apply H2|]. intros _ s2 [E2 HI2]. split; [by eapply emitted_app|done].
Qed.

Lemma emits_each {A} (body : A → M S unit) (f : A → list Z) (l : list A) :
  (∀ a, a ∈ l → emits I (body a) (f a)) → emits I (for_each l body) (l ≫= f).
Proof.
  intros Hb. induction l as [|a l IH]; [apply emits_ret|]. cbn [for_each mbind list_bind].
  apply emits_bind; [apply Hb; left|]. apply IH. intros b Hb'. apply Hb. by right.
Qed.

Lemma emits_eq (m : M S unit) xs ys : emits I m xs → xs = ys → emits I m ys.
Proof. by intros ? <-. Qed.
End emits.

Section sync.
Context (idle : nat → bool) (polls : nat) (Hdev : responsive idle polls).

Lemma poll_ok fuel k u :
  (k < fuel)%nat → idle (nlsr u + k)%nat = true →
  wp (loop fuel
      (λ _ : unit,
        let* lsr := ReadReg_LSR idle in
        if Z.land lsr LSR_TX_IDLE =? 0 then ret (inl tt) else ret (inr tt)) tt) u (λ _ u', emitted u [] u').
Proof.
  revert k u. induction fuel as [|fuel IH]; intros k u Hk Hi; [lia|]. cbn [loop]. unfold wp, bind at 1, bind at 1, ReadReg_LSR at 1.
  rewrite lsr_idle. destruct (idle (nlsr u)) eqn:E; cbn [negb].
  { cbn. rewrite app_nil_r. by split_and!. }
  destruct k as [|k]; [by rewrite Nat.add_0_r, E in Hi|]. cbn. apply (IH k); [lia|]. cbn. by rewrite <-Nat.add_succ_r.
Qed.

Lemma uartputc_sync_emits c : emits (λ u, panicked u = false) (uartputc_sync idle polls c) [u8 c].
Proof.
  intros u Hp. unfold uartputc_sync, wp, bind at 1, gets. rewrite Hp. destruct (Hdev (nlsr u)) as (k & Hk & Hi).
  pose proof (poll_ok polls k u Hk Hi) as Hw. apply wp_done in Hw as ([] & u1 & Hrun & He). unfold bind at 1. rewrite Hrun.
  unfold WriteReg, modify. set (u2 := Uart _ _ _ _ _ _ _). split.
  - eapply (emitted_app u u1 u2 []); [done|]. split; [by apply sent_write|by split_and!].
  - cbn. destruct He as (_ & _ & _ & _ & -> & _). done.
Qed.

Lemma consputc_emits c :
  emits (λ u, panicked u = false) (consputc idle polls c) (if decide (c = BACKSPACE) then [8; 32; 8] else [u8 c]).
Proof.
  unfold consputc. case_decide as E; [subst; rewrite Z.eqb_refl|rewrite (proj2 (Z.eqb_neq _ _)) by done].
  - apply (emits_bind _ _ _ [8]); [apply uartputc_sync_emits|]. apply (emits_bind _ _ _ [32]); apply uartputc_sync_emits.
  - apply uartputc_sync_emits.
Qed.
End sync.
