(* ===== verification/Printf.v ===== *)
(** * Formatted output, kernel/printf.c and user/printf.c

    A C string is the list of its characters before the NUL. The arguments of
    a variadic call are a stream of 64-bit words; [cstr a] is the string at
    address [a]. *)

From S2P Require Import Prelude Ring Uart.

(** [do { buf[i++] = digits[x % base]; } while((x /= base) != 0);] *)
Fixpoint int_digits (fuel : nat) (digits : list Z) (x base : Z) : list Z :=
  match fuel with
  | O => []
  | S fuel =>
      digits !!! Z.to_nat (x `mod` base) ::
      if x `div` base =? 0 then [] else int_digits fuel digits (x `div` base) base
  end.

(** A 32-bit number has at most 32 digits in any base. *)
Definition digit_fuel : nat := 32.

Module KPrintf.
Definition digits : list Z := str "0123456789abcdef".

Section printf.
Variables (idle : nat → bool) (polls : nat) (cstr : Z → list Z).
Abbreviation consputc := (consputc idle polls).

Definition printint (xx base : Z) (sign : bool) : M uart unit :=
  let sign := sign && (xx <? 0) in
  let x := if sign then u32 (- xx) else u32 xx in
  let buf := int_digits digit_fuel digits x base in
  let buf := if sign then buf ++ [45] else buf in
  for_each (reverse buf) consputc.

Fixpoint printptr_loop (n : nat) (x : Z) : M uart unit :=
  match n with
  | O => ret tt
  | S n => consputc (digits !!! Z.to_nat (Z.shiftr x (64 - 4))) ;;; printptr_loop n (u64 (Z.shiftl x 4))
  end.

Definition printptr (x : Z) : M uart unit :=
  consputc 48 ;;; consputc 120 ;;; printptr_loop 16 x.

Fixpoint printf_loop (fmt : list Z) (ap : nat → Z) (k : nat) : M uart unit :=
  match fmt with
  | [] => ret tt
  | c :: fmt =>
      if c =? 37 then
        match fmt with
        | [] => ret tt
        | c :: fmt =>
            if c =? 100 then printint (i32 (ap k)) 10 true ;;; printf_loop fmt ap (S k)
            else if c =? 120 then printint (i32 (ap k)) 16 true ;;; printf_loop fmt ap (S k)
            else if c =? 112 then printptr (ap k) ;;; printf_loop fmt ap (S k)
            else if c =? 115 then
              for_each (if ap k =? 0 then str "(null)" else cstr (ap k)) consputc ;;;
              printf_loop fmt ap (S k)
            else if c =? 37 then consputc 37 ;;; printf_loop fmt ap k
            else consputc 37 ;;; consputc c ;;; printf_loop fmt ap k
        end
      else consputc c ;;; printf_loop fmt ap k
  end.

(** [fmt] is a string or the null pointer. *)
Definition printf (fmt : option (list Z)) (ap : nat → Z) : M uart unit :=
  match fmt with
  | None => Prelude.panic "null fmt"
  | Some fmt => printf_loop fmt ap 0
  end.

(** Up to its final [for(;;)]. *)
Definition panic (s : list Z) : M uart unit :=
  printf (Some (str "panic: ")) (λ _, 0) ;;;
  printf (Some s) (λ _, 0) ;;;
  printf (Some [10]) (λ _, 0) ;;;
  modify (λ u, Uart (uart_tx_buf u) (uart_tx_w u) (uart_tx_r u) true (nlsr u) (rx u) (wr u)).
End printf.
End KPrintf.

Module UPrintf.
Definition digits : list Z := str "0123456789ABCDEF".

(** The bytes written to each file descriptor, in order. *)
Abbreviation out := (list (Z * Z)).

Definition putc (fd c : Z) : M out unit := modify (λ o, o ++ [(fd, u8 c)]).

Section printf.
Variable cstr : Z → list Z.

Definition printint (fd xx base : Z) (sgn : bool) : M out unit :=
  let neg := sgn && (xx <? 0) in
  let x := if neg then u32 (- xx) else u32 xx in
  let buf := int_digits digit_fuel digits x base in
  let buf := if neg then buf ++ [45] else buf in
  for_each (reverse buf) (putc fd).

Fixpoint printptr_loop (fd : Z) (n : nat) (x : Z) : M out unit :=
  match n with
  | O => ret tt
  | S n => putc fd (digits !!! Z.to_nat (Z.shiftr x (64 - 4))) ;;; printptr_loop fd n (u64 (Z.shiftl x 4))
  end.

Definition printptr (fd x : Z) : M out unit :=
  putc fd 48 ;;; putc fd 120 ;;; printptr_loop fd 16 x.

(** [state] is 0 or '%'. *)
Fixpoint vprintf_loop (fd : Z) (fmt : list Z) (state : Z) (ap : nat → Z) (k : nat) : M out unit :=
  match fmt with
  | [] => ret tt
  | c :: fmt =>
      if state =? 0 then
        if c =? 37 then vprintf_loop fd fmt 37 ap k
        else putc fd c ;;; vprintf_loop fd fmt 0 ap k
      else if state =? 37 then
        if c =? 100 then printint fd (i32 (ap k)) 10 true ;;; vprintf_loop fd fmt 0 ap (S k)
        else if c =? 108 then printint fd (i32 (ap k)) 10 false ;;; vprintf_loop fd fmt 0 ap (S k)
        else if c =? 120 then printint fd (i32 (ap k)) 16 false ;;; vprintf_loop fd fmt 0 ap (S k)
        else if c =? 112 then printptr fd (ap k) ;;; vprintf_loop fd fmt 0 ap (S k)
        else if c =? 115 then
          for_each (if ap k =? 0 then str "(null)" else cstr (ap k)) (putc fd) ;;;
          vprintf_loop fd fmt 0 ap (S k)
        else if c =? 99 then putc fd (ap k) ;;; vprintf_loop fd fmt 0 ap (S k)
        else if c =? 37 then putc fd c ;;; vprintf_loop fd fmt 0 ap k
        else putc fd 37 ;;; putc fd c ;;; vprintf_loop fd fmt 0 ap k
      else vprintf_loop fd fmt state ap k
  end.

Definition vprintf (fd : Z) (fmt : list Z) (ap : nat → Z) : M out unit := vprintf_loop fd fmt 0 ap 0.
Definition fprintf (fd : Z) (fmt : list Z) (ap : nat → Z) : M out unit := vprintf fd fmt ap.
Definition printf (fmt : list Z) (ap : nat → Z) : M out unit := vprintf 1 fmt ap.
End printf.
End UPrintf.

(** ** Numerals *)

(** The value of the digits, least significant first. *)
Fixpoint value (val : Z → Z) (base : Z) (ds : list Z) : Z :=
  match ds with
  | [] => 0
  | d :: ds => val d + base * value val base ds
  end.

(** The value of a hexadecimal digit in either case. *)
Definition hexval (c : Z) : Z := if c <? 58 then c - 48 else if c <? 97 then c - 55 else c - 87.

(** What a reader makes of a numeral: an optional minus sign and digits. *)
Definition read_numeral (base : Z) (s : list Z) : Z :=
  match s with
  | 45 :: s => - value hexval base (reverse s)
  | _ => value hexval base (reverse s)
  end.

(** The 16-digit hexadecimal text of a 64-bit word. *)
Definition hex16 (digits : list Z) (x : Z) : list Z :=
  (λ i, digits !!! Z.to_nat ((x `div` 16 ^ (15 - i)) `mod` 16)) <$> seqZ 0 16.

(** Digits of which [hexval] is the value. *)
Definition good_digits (digits : list Z) : Prop :=
  length digits = 16%nat ∧ ∀ i, 0 ≤ i < 16 →
    hexval (digits !!! Z.to_nat i) = i ∧ digits !!! Z.to_nat i ≠ 45 ∧ 48 ≤ digits !!! Z.to_nat i < 128.

Lemma good_digits_eval digits :
  length digits = 16%nat →
  forallb (λ i, (hexval (digits !!! Z.to_nat i) =? i) && negb (digits !!! Z.to_nat i =? 45) &&
    (48 <=? digits !!! Z.to_nat i) && (digits !!! Z.to_nat i <? 128)) (seqZ 0 16) = true → good_digits digits.
Proof.
  intros Hl Hf. split; [done|]. intros i Hi. rewrite forallb_forall in Hf. specialize (Hf i).
  rewrite <-list_elem_of_In, elem_of_seqZ in Hf. specialize (Hf ltac:(lia)). rewrite !andb_true_iff, negb_true_iff in Hf. lia.
Qed.

Lemma kdigits_good : good_digits KPrintf.digits.
Proof. by apply good_digits_eval. Qed.
Lemma udigits_good : good_digits UPrintf.digits.
Proof. by apply good_digits_eval. Qed.

Section digits.
Context (digits : list Z) (Hgood : good_digits digits) (base : Z) (Hbase : 2 ≤ base ≤ 16).

Lemma mod_base x : 0 ≤ x `mod` base < base.
Proof. apply Z.mod_pos_bound. lia. Qed.

Lemma int_digits_value (fuel : nat) x : 0 ≤ x < base ^ fuel → value hexval base (int_digits fuel digits x base) = x.
Proof.
  revert x. induction fuel as [|fuel IH]; intros x Hx; [simpl in *; lia|]. cbn [int_digits value].
  pose proof (mod_base x). rewrite (proj1 (proj2 Hgood (x `mod` base) ltac:(lia))). pose proof (Z.div_mod x base ltac:(lia)).
  destruct (Z.eqb_spec (x `div` base) 0) as [E|Hne]; cbn [value]; [lia|]. rewrite IH; [lia|].
  rewrite Nat2Z.inj_succ, Z.pow_succ_r in Hx by lia. split; [apply Z.div_pos; lia|apply Z.div_lt_upper_bound; lia].
Qed.

Lemma int_digits_elem fuel x c : c ∈ int_digits fuel digits x base → ∃ i, 0 ≤ i < base ∧ c = digits !!! Z.to_nat i.
Proof.
  revert x. induction fuel as [|fuel IH]; intros x Hc; cbn [int_digits] in Hc; [by apply elem_of_nil in Hc|].
  apply elem_of_cons in Hc as [->|Hc]; [eexists; split; [apply mod_base|done]|].
  destruct (x `div` base =? 0); [by apply elem_of_nil in Hc|eauto].
Qed.

Lemma int_digits_char fuel x c : c ∈ int_digits fuel digits x base → c ≠ 45 ∧ 48 ≤ c < 128.
Proof. intros (i & Hi & ->)%int_digits_elem. apply Hgood. lia. Qed.

Lemma int_digits_length fuel (n : nat) x : 0 ≤ x < base ^ n → (0 < n)%nat → (length (int_digits fuel digits x base) ≤ n)%nat.
Proof.
  revert n x. induction fuel as [|fuel IH]; intros n x Hx Hn; [simpl; lia|]. cbn [int_digits length].
  destruct (Z.eqb_spec (x `div` base) 0) as [E|Hne]; [simpl; lia|].
  destruct n as [|n]; [lia|]. rewrite Nat2Z.inj_succ, Z.pow_succ_r in Hx by lia.
  assert (0 ≤ x `div` base < base ^ n) as Hd by (split; [apply Z.div_pos; lia|apply Z.div_lt_upper_bound; lia]).
  destruct n as [|n]; [simpl in Hd; lia|]. apply le_n_S, IH; [done|lia].
Qed.

(** There are no leading zeros. *)
Lemma int_digits_last (fuel : nat) x :
  0 ≤ x < base ^ S fuel → ∃ ds i, int_digits (S fuel) digits x base = ds ++ [digits !!! Z.to_nat i] ∧ 0 ≤ i < base ∧
    (i = 0 → x = 0).
Proof.
  revert x. induction fuel as [|fuel IH]; intros x Hx; cbn [int_digits] in *; pose proof (mod_base x) as Hm;
    rewrite Nat2Z.inj_succ, Z.pow_succ_r in Hx by lia; pose proof (Z.div_mod x base ltac:(lia)) as Hdm.
  - assert (x `div` base = 0) as E by (rewrite Z.pow_0_r in Hx; apply Z.div_small; lia).
    rewrite E in *. exists [], (x `mod` base). split_and!; [done|lia..].
  - destruct (Z.eqb_spec (x `div` base) 0) as [E|Hne].
    + exists [], (x `mod` base). rewrite E in *. split_and!; [done|lia..].
    + destruct (IH (x `div` base)) as (ds & i & E & Hi & H0).
      { split; [apply Z.div_pos; lia|apply Z.div_lt_upper_bound; lia]. }
      cbn [int_digits] in E. rewrite E. eexists (_ :: ds), i. split_and!; [done|lia..].
Qed.
End digits.

(** Unlike injection, does not evaluate the lists. *)
Lemma cons_inv {A} (x y : A) k l : x :: k = y :: l → x = y ∧ k = l.
Proof. by intros [= -> ->]. Qed.

(** ** What printint and printptr output *)

(** The text of [xx] in [base], signed or not. *)
Definition numeral (digits : list Z) (xx base : Z) (sign : bool) : list Z :=
  if sign && (xx <? 0) then 45 :: reverse (int_digits digit_fuel digits (u32 (- xx)) base)
  else reverse (int_digits digit_fuel digits (u32 xx) base).

Definition is_byte (c : Z) : Prop := 0 ≤ c < 256.

Section numeral.
Context (digits : list Z) (Hgood : good_digits digits) (base : Z) (Hbase : base = 10 ∨ base = 16).

Lemma numeral_code xx sign :
  numeral digits xx base sign =
  reverse (let sign := sign && (xx <? 0) in
           let buf := int_digits digit_fuel digits (if sign then u32 (- xx) else u32 xx) base in
           if sign then buf ++ [45] else buf).
Proof. unfold numeral. destruct (sign && (xx <? 0)); cbn zeta; [by rewrite reverse_snoc|done]. Qed.

Lemma u32_digits x : 0 ≤ u32 x < base ^ digit_fuel.
Proof.
  pose proof (Z.mod_pos_bound x (2^32) ltac:(lia)). unfold u32, digit_fuel. split; [lia|].
  eapply Z.lt_le_trans; [apply H|]. destruct Hbase as [-> | ->]; vm_compute; discriminate.
Qed.

Lemma u32_ten x : u32 x < base ^ 10%nat.
Proof.
  pose proof (Z.mod_pos_bound x (2^32) ltac:(lia)). unfold u32.
  eapply Z.lt_le_trans; [apply H|]. destruct Hbase as [-> | ->]; vm_compute; discriminate.
Qed.

Lemma numeral_bytes xx sign : Forall is_byte (numeral digits xx base sign).
Proof.
  assert (∀ x, Forall is_byte (reverse (int_digits digit_fuel digits x base))) as H.
  { intros x. rewrite Forall_reverse, Forall_forall. intros c Hc.
    apply int_digits_char in Hc as [_ Hc]; [unfold is_byte; lia|done|lia]. }
  unfold numeral. destruct (sign && (xx <? 0)); [constructor; [done|]|]; apply H.
Qed.

Lemma numeral_length xx sign : (length (numeral digits xx base sign) ≤ 11)%nat.
Proof.
  assert (∀ x, (length (reverse (int_digits digit_fuel digits (u32 x) base)) ≤ 10)%nat) as H.
  { intros x. rewrite length_reverse. apply int_digits_length; [lia| |lia]. split; [apply u32_digits|apply u32_ten]. }
  unfold numeral. destruct (sign && (xx <? 0)); [rewrite length_cons; specialize (H (- xx))|specialize (H xx)]; lia.
Qed.

(** Digits read back to their value; they do not begin with a minus sign. *)
Lemma read_digits x :
  read_numeral base (reverse (int_digits digit_fuel digits (u32 x) base)) = u32 x ∧
  value hexval base (reverse (reverse (int_digits digit_fuel digits (u32 x) base))) = u32 x.
Proof.
  assert (value hexval base (int_digits digit_fuel digits (u32 x) base) = u32 x) as E.
  { apply int_digits_value; [done|lia|apply u32_digits]. }
  rewrite reverse_involutive. split; [|done]. unfold read_numeral.
  destruct (reverse (int_digits digit_fuel digits (u32 x) base)) as [|c s] eqn:Er.
  - rewrite <-E. by rewrite <-(reverse_involutive (int_digits _ _ _ _)), Er.
  - assert (c ≠ 45) as Hc.
    { apply (int_digits_char digits Hgood base ltac:(lia) digit_fuel (u32 x)).
      rewrite <-elem_of_reverse, Er. left. }
    assert (∀ A (p q : A), match c with 45 => p | _ => q end = q) as Hm.
    { intros A p q. destruct c as [|n|n]; try done. do 6 (destruct n as [n|n|]; try done). }
    rewrite Hm, <-Er, reverse_involutive. done.
Qed.

Lemma read_numeral_numeral xx sign :
  -2^31 ≤ xx < 2^31 → read_numeral base (numeral digits xx base sign) = if sign then xx else u32 xx.
Proof.
  intros Hxx. unfold numeral. destruct sign; cbn [andb]; [|apply read_digits].
  destruct (Z.ltb_spec xx 0).
  - cbn [read_numeral]. rewrite (proj2 (read_digits _)). rewrite u32_small; lia.
  - rewrite (proj1 (read_digits _)). apply u32_small. lia.
Qed.

(** The only numeral that begins with the digit 0 is that of 0. *)
Lemma numeral_no_zeros xx sign c s :
  numeral digits xx base sign = c :: s → c = digits !!! 0%nat → u32 xx = 0.
Proof.
  assert (∀ x c s, reverse (int_digits digit_fuel digits (u32 x) base) = c :: s → c = digits !!! 0%nat → u32 x = 0) as H.
  { intros x c' s' E Ec. destruct (int_digits_last digits base ltac:(lia) 31 (u32 x)) as (ds & i & E' & Hi & H0).
    { exact (u32_digits x). }
    unfold digit_fuel in E. rewrite E', reverse_snoc in E. apply cons_inv in E as [Ei _]. apply H0.
    destruct (proj2 Hgood i ltac:(lia)) as (E1 & _). destruct (proj2 Hgood 0 ltac:(lia)) as (E0 & _).
    rewrite <-E1, <-E0, Ei, Ec. done. }
  unfold numeral. destruct (sign && (xx <? 0)) eqn:Es; [|apply H]. intros E0 E. apply cons_inv in E0 as [<- _].
  destruct (proj2 Hgood 0 ltac:(lia)) as (_ & Hn & _). by destruct Hn.
Qed.
End numeral.

(** The [i]-th leading hexadecimal digit, as the shifts compute it. *)
Lemma shifted_nibble x i :
  0 ≤ i ≤ 15 → (x * 16 ^ i) `mod` 2^64 `div` 2^60 = (x `div` 16 ^ (15 - i)) `mod` 16.
Proof.
  intros Hi. assert (2^64 = 16 ^ (15 - i) * 16 * 16 ^ i) as ->.
  { rewrite <-Z.mul_assoc, (Z.mul_comm 16), Z.mul_assoc, <-Z.pow_add_r by lia.
    by replace (15 - i + i) with 15 by lia. }
  assert (2^60 = 16 ^ (15 - i) * 16 ^ i) as ->.
  { rewrite <-Z.pow_add_r by lia. by replace (15 - i + i) with 15 by lia. }
  pose proof (Z.pow_pos_nonneg 16 i). pose proof (Z.pow_pos_nonneg 16 (15 - i)).
  rewrite Z.mul_mod_distr_r, Z.div_mul_cancel_r by lia. rewrite Z.rem_mul_r by lia.
  rewrite Z.mul_comm, Z.div_add by lia. rewrite Z.div_small by (apply Z.mod_pos_bound; lia). done.
Qed.
