(* ===== verification/PrintfTheorems.v ===== *)
(** * Theorems about formatted output *)

From S2P Require Import Prelude Ring Uart Printf.

(** ** Output of lists of characters *)

Section out.
Context {S} `{Sink S} (I : S → Prop) (putc : Z → M S unit).
Context (putc_emits : ∀ c, is_byte c → emits I (putc c) [c]).

Lemma emits_bytes l : Forall is_byte l → emits I (for_each l putc) l.
Proof.
  intros Hl. eapply emits_eq; [apply (emits_each I putc (λ c, [c]))|].
  - intros c Hc. apply putc_emits. by eapply Forall_forall in Hl.
  - clear. induction l as [|c l IH]; [done|]. cbn [mbind list_bind]. simpl. by f_equal.
Qed.

Lemma good_digit_byte digits i : good_digits digits → 0 ≤ i < 16 → is_byte (digits !!! Z.to_nat i).
Proof. intros Hg Hi. destruct (proj2 Hg i Hi) as (_ & _ & ?). unfold is_byte. lia. Qed.

(** A loop with the shape of the one in printptr. *)
Lemma ptr_loop_emits digits (f : nat → Z → M S unit) (x : Z) :
  good_digits digits → 
  (∀ y, f O y = ret tt) →
  (∀ n y, f (Datatypes.S n) y = (putc (digits !!! Z.to_nat (Z.shiftr y (64 - 4))) ;;; f n (u64 (Z.shiftl y 4)))) →
  ∀ (n : nat) i, i + n = 16 → 0 ≤ i →
  emits I (f n ((x * 16 ^ i) `mod` 2^64))
    ((λ i, digits !!! Z.to_nat ((x `div` 16 ^ (15 - i)) `mod` 16)) <$> seqZ i n).
Proof.
  intros Hg H0 HS n. induction n as [|n IH]; intros i Hi Hi0; [rewrite H0; apply emits_ret|].
  rewrite HS, seqZ_cons by lia. cbn [fmap list_fmap]. rewrite Z.shiftr_div_pow2 by lia.
  change (2 ^ (64 - 4)) with (2^60). rewrite shifted_nibble by lia.
  refine (emits_bind I _ _ [_] _ (putc_emits _ _) _).
  - apply good_digit_byte; [done|]. apply Z.mod_pos_bound. lia.
  - unfold u64. rewrite Z.shiftl_mul_pow2, Zmult_mod_idemp_l by lia. rewrite <-Z.mul_assoc.
    change (2^4) with (16 ^ 1). rewrite <-Z.pow_add_r by lia.
    replace (Z.pred (Datatypes.S n)) with (Z.of_nat n) by lia. apply IH; lia.
Qed.
End out.

(** ** Kernel and user instances *)

#[export, refine] Instance fd_sink (fd : Z) : Sink (list (Z * Z)) | 10 := {
  emitted o bs o' := o' = o ++ ((λ c, (fd, c)) <$> bs)
}.
Proof.
  - intros o. by rewrite app_nil_r.
  - intros o1 o2 o3 xs ys -> ->. by rewrite fmap_app, app_assoc.
Defined.

Definition running (u : uart) : Prop := panicked u = false.

Section kernel.
Context (idle : nat → bool) (polls : nat) (Hdev : responsive idle polls).

Lemma kputc_emits c : is_byte c → emits running (consputc idle polls c) [c].
Proof.
  intros Hc. eapply emits_eq; [by apply consputc_emits|].
  rewrite decide_False by (unfold is_byte, BACKSPACE in *; lia). unfold u8. by rewrite Z.mod_small.
Qed.

Lemma kprintint_emits xx base sign :
  base = 10 ∨ base = 16 → emits running (KPrintf.printint idle polls xx base sign) (numeral KPrintf.digits xx base sign).
Proof.
  intros Hb. rewrite numeral_code. apply emits_bytes; [apply kputc_emits|]. rewrite <-numeral_code.
  apply numeral_bytes; [apply kdigits_good|done].
Qed.

Lemma kprintptr_emits x :
  0 ≤ x < 2^64 → emits running (KPrintf.printptr idle polls x) (str "0x" ++ hex16 KPrintf.digits x).
Proof.
  intros Hx. apply (emits_bind _ _ _ [48]); [by apply kputc_emits|].
  apply (emits_bind _ _ _ [120]); [by apply kputc_emits|].
  replace x with ((x * 16 ^ 0) `mod` 2^64) at 1 by (rewrite Z.mul_1_r; by apply Z.mod_small).
  by apply (ptr_loop_emits running _ kputc_emits KPrintf.digits (KPrintf.printptr_loop idle polls) x kdigits_good).
Qed.
End kernel.

Section user.
Context (fd : Z).
Abbreviation any := (λ _ : list (Z * Z), True).
Abbreviation uemits := (@emits _ (fd_sink fd) any).

Lemma uputc_emits c : is_byte c → uemits (UPrintf.putc fd c) [c].
Proof. intros Hc o _. split; [|done]. cbn. unfold u8. by rewrite Z.mod_small. Qed.

Lemma uprintint_emits xx base sign :
  base = 10 ∨ base = 16 → uemits (UPrintf.printint fd xx base sign) (numeral UPrintf.digits xx base sign).
Proof.
  intros Hb. rewrite numeral_code. apply emits_bytes; [apply uputc_emits|]. rewrite <-numeral_code.
  apply numeral_bytes; [apply udigits_good|done].
Qed.

Lemma uprintptr_emits x :
  0 ≤ x < 2^64 → uemits (UPrintf.printptr fd x) (str "0x" ++ hex16 UPrintf.digits x).
Proof.
  intros Hx. apply (@emits_bind _ (fd_sink fd) _ _ _ [48]); [by apply uputc_emits|].
  apply (@emits_bind _ (fd_sink fd) _ _ _ [120]); [by apply uputc_emits|].
  replace x with ((x * 16 ^ 0) `mod` 2^64) at 1 by (rewrite Z.mul_1_r; by apply Z.mod_small).
  by apply (@ptr_loop_emits _ (fd_sink fd) any _ uputc_emits UPrintf.digits (UPrintf.printptr_loop fd) x udigits_good).
Qed.
End user.

(** printint, in the kernel and in user space, outputs the numeral of its
    argument: read back, it gives the number itself for every 32-bit [xx], the
    smallest one included, or with [sign] off its unsigned value; it has no
    leading zeros and, sign included, at most 11 of the 16 characters of
    [buf]. In the kernel it returns once the device takes each character. *)
Theorem printint_numeral idle polls fd xx base sign :
  responsive idle polls → -2^31 ≤ xx < 2^31 → base = 10 ∨ base = 16 →
  ∃ ks us,
    emits running (KPrintf.printint idle polls xx base sign) ks ∧
    @emits _ (fd_sink fd) (λ _, True) (UPrintf.printint fd xx base sign) us ∧
    ∀ s, s = ks ∨ s = us →
      read_numeral base s = (if sign then xx else u32 xx) ∧ length s ≤ 11 ∧
      (∀ t, s = 48 :: t → u32 xx = 0).
Proof.
  intros Hdev Hxx Hb. exists (numeral KPrintf.digits xx base sign), (numeral UPrintf.digits xx base sign).
  split; [by apply kprintint_emits|]. split; [by apply uprintint_emits|].
  assert (∀ digits, good_digits digits → digits !!! 0%nat = 48 →
    read_numeral base (numeral digits xx base sign) = (if sign then xx else u32 xx) ∧
    length (numeral digits xx base sign) ≤ 11 ∧ (∀ t, numeral digits xx base sign = 48 :: t → u32 xx = 0)) as H.
  { intros digits Hg H48. split; [by apply read_numeral_numeral|]. split.
    - pose proof (numeral_length digits base Hb xx sign). lia.
    - intros t E. eapply (numeral_no_zeros digits Hg base Hb xx sign); [exact E|done]. }
  intros s [-> | ->]; apply H; [apply kdigits_good|done|apply udigits_good|done].
Qed.

Lemma printint_numeral_witness :
  ∃ ks, emits running (KPrintf.printint (λ n, Nat.even n) 2 (-2^31) 10 true) ks ∧ read_numeral 10 ks = -2^31.
Proof.
  destruct (printint_numeral (λ n, Nat.even n) 2 1 (-2^31) 10 true) as (ks & us & H1 & _ & H2).
  - intros n. destruct (Nat.even n) eqn:E; [exists 0%nat|exists 1%nat]; (split; [lia|]); [by rewrite Nat.add_0_r|].
    rewrite Nat.add_1_r, Nat.even_succ, <-Nat.negb_even, E. done.
  - lia.
  - by left.
  - exists ks. split; [exact H1|]. apply (H2 ks). by left.
Defined.

(** ** Whole formats *)

(** A format as a list of pieces, with the word each conversion consumes. *)
Inductive piece :=
| PText (s : list Z)
| PDec (w : Z)
| PHex (w : Z)
| PPtr (w : Z)
| PStr (w : Z)
| PPercent.

Definition piece_fmt (p : piece) : list Z :=
  match p with
  | PText s => s
  | PDec _ => str "%d"
  | PHex _ => str "%x"
  | PPtr _ => str "%p"
  | PStr _ => str "%s"
  | PPercent => str "%%"
  end.

Definition piece_args (p : piece) : list Z :=
  match p with
  | PDec w | PHex w | PPtr w | PStr w => [w]
  | _ => []
  end.

Definition piece_ok (p : piece) : Prop :=
  match p with
  | PText s => Forall (λ c, 0 < c < 256 ∧ c ≠ 37) s
  | PPtr w => 0 ≤ w < 2^64
  | _ => True
  end.

Section pieces.
Context (cstr : Z → list Z) (Hcstr : ∀ a, Forall is_byte (cstr a)).

(** The text of a piece; [hexsign] is whether %x is signed. *)
Definition piece_text (digits : list Z) (hexsign : bool) (p : piece) : list Z :=
  match p with
  | PText s => s
  | PDec w => numeral digits (i32 w) 10 true
  | PHex w => numeral digits (i32 w) 16 hexsign
  | PPtr w => str "0x" ++ hex16 digits w
  | PStr w => if w =? 0 then str "(null)" else cstr w
  | PPercent => str "%"
  end.

Lemma string_bytes w : Forall is_byte (if w =? 0 then str "(null)" else cstr w).
Proof. destruct (w =? 0); [|apply Hcstr]. by repeat (constructor; [by split|]). Qed.

Lemma text_cons c s : Forall (λ c, 0 < c < 256 ∧ c ≠ 37) (c :: s) →
  is_byte c ∧ (c =? 37) = false ∧ Forall (λ c, 0 < c < 256 ∧ c ≠ 37) s.
Proof. intros [[Hc H37] Hs]%Forall_cons. unfold is_byte. split_and!; [lia..|by apply Z.eqb_neq|done]. Qed.

Section kernel.
Context (idle : nat → bool) (polls : nat) (Hdev : responsive idle polls).

Lemma kprintf_text s fmt ap k ys :
  Forall (λ c, 0 < c < 256 ∧ c ≠ 37) s →
  emits running (KPrintf.printf_loop idle polls cstr fmt ap k) ys →
  emits running (KPrintf.printf_loop idle polls cstr (s ++ fmt) ap k) (s ++ ys).
Proof.
  intros Hs Hf. induction s as [|c s IH]; [done|]. apply text_cons in Hs as (Hb & H37 & Hs).
  rewrite <-!app_comm_cons. cbn [KPrintf.printf_loop]. rewrite H37.
  apply (emits_bind _ _ _ [c]); [by apply kputc_emits|by apply IH].
Qed.

Lemma kprintf_pieces ps ap k :
  Forall piece_ok ps → (∀ j w, (ps ≫= piece_args) !! j = Some w → ap (k + j)%nat = w) →
  emits running (KPrintf.printf_loop idle polls cstr (ps ≫= piece_fmt) ap k) (ps ≫= piece_text KPrintf.digits true).
Proof.
  intros Hps. revert k. induction Hps as [|p ps Hp Hps IH]; intros k Hap; [apply emits_ret|].
  cbn [mbind list_bind] in *.
  assert (∀ w, piece_args p = [w] → ap k = w ∧ ∀ j w, (ps ≫= piece_args) !! j = Some w → ap (S k + j)%nat = w) as Harg.
  { intros w E. rewrite E in Hap. split; [by rewrite <-(Nat.add_0_r k); apply Hap|].
    intros j w' Hj. rewrite Nat.add_succ_comm. by apply Hap. }
  destruct p as [s|w|w|w|w|]; cbn [piece_fmt piece_text];
    try (destruct (Harg w eq_refl) as [<- Hap']; specialize (IH _ Hap')).
  - apply kprintf_text; [done|]. by apply IH.
  - refine (emits_bind running (KPrintf.printint idle polls (i32 (ap k)) 10 true) _ _ _ _ IH).
    apply kprintint_emits; [done|]. by left.
  - refine (emits_bind running (KPrintf.printint idle polls (i32 (ap k)) 16 true) _ _ _ _ IH).
    apply kprintint_emits; [done|]. by right.
  - refine (emits_bind running (KPrintf.printptr idle polls (ap k)) _ _ _ _ IH). by apply kprintptr_emits.
  - refine (emits_bind running (for_each _ (consputc idle polls)) _ _ _ _ IH).
    apply emits_bytes; [by apply kputc_emits|apply string_bytes].
  - refine (emits_bind running (consputc idle polls 37) _ [37] _ _ (IH _ Hap)). by apply kputc_emits.
Qed.
End kernel.

Section user.
Context (fd : Z).
Abbreviation uemits := (@emits _ (fd_sink fd) (λ _, True)).

Lemma uprintf_text s fmt ap k ys :
  Forall (λ c, 0 < c < 256 ∧ c ≠ 37) s →
  uemits (UPrintf.vprintf_loop cstr fd fmt 0 ap k) ys →
  uemits (UPrintf.vprintf_loop cstr fd (s ++ fmt) 0 ap k) (s ++ ys).
Proof.
  intros Hs Hf. induction s as [|c s IH]; [done|]. apply text_cons in Hs as (Hb & H37 & Hs).
  rewrite <-!app_comm_cons. cbn [UPrintf.vprintf_loop]. rewrite Z.eqb_refl, H37.
  apply (@emits_bind _ (fd_sink fd) _ _ _ [c]); [by apply uputc_emits|by apply IH].
Qed.

Lemma uprintf_pieces ps ap k :
  Forall piece_ok ps → (∀ j w, (ps ≫= piece_args) !! j = Some w → ap (k + j)%nat = w) →
  uemits (UPrintf.vprintf_loop cstr fd (ps ≫= piece_fmt) 0 ap k) (ps ≫= piece_text UPrintf.digits false).
Proof.
  intros Hps. revert k. induction Hps as [|p ps Hp Hps IH]; intros k Hap; [apply (@emits_ret _ (fd_sink fd))|].
  cbn [mbind list_bind] in *.
  assert (∀ w, piece_args p = [w] → ap k = w ∧ ∀ j w, (ps ≫= piece_args) !! j = Some w → ap (S k + j)%nat = w) as Harg.
  { intros w E. rewrite E in Hap. split; [by rewrite <-(Nat.add_0_r k); apply Hap|].
    intros j w' Hj. rewrite Nat.add_succ_comm. by apply Hap. }
  destruct p as [s|w|w|w|w|]; cbn [piece_fmt piece_text];
    try (destruct (Harg w eq_refl) as [<- Hap']; specialize (IH _ Hap')).
  - apply uprintf_text; [done|]. by apply IH.
  - refine (@emits_bind _ (fd_sink fd) _ (UPrintf.printint fd (i32 (ap k)) 10 true) _ _ _ _ IH).
    apply uprintint_emits. by left.
  - refine (@emits_bind _ (fd_sink fd) _ (UPrintf.printint fd (i32 (ap k)) 16 false) _ _ _ _ IH).
    apply uprintint_emits. by right.
  - refine (@emits_bind _ (fd_sink fd) _ (UPrintf.printptr fd (ap k)) _ _ _ _ IH). by apply uprintptr_emits.
  - refine (@emits_bind _ (fd_sink fd) _ (for_each _ (UPrintf.putc fd)) _ _ _ _ IH).
    apply (@emits_bytes _ (fd_sink fd)); [by apply uputc_emits|apply string_bytes].
  - refine (@emits_bind _ (fd_sink fd) _ (UPrintf.putc fd 37) _ [37] _ _ (IH _ Hap)). by apply uputc_emits.
Qed.
End user.
End pieces.

(** C29. On a format made of text, %d, %x, %p, %s and %%, printf (the kernel's, whose %x is
    signed, and the user library's, which is not and has upper-case digits)
    outputs the text of each piece in order: each conversion uses the
    next argument, a null string prints as (null) and a pointer as 0x and its
    16 hexadecimal digits. *)
Theorem printf_renders_pieces idle polls cstr fd ps ap :
  responsive idle polls → (∀ a, Forall is_byte (cstr a)) → Forall piece_ok ps →
  (∀ j w, (ps ≫= piece_args) !! j = Some w → ap j = w) →
  emits running (KPrintf.printf idle polls cstr (Some (ps ≫= piece_fmt)) ap) (ps ≫= piece_text cstr KPrintf.digits true) ∧
  @emits _ (fd_sink fd) (λ _, True) (UPrintf.fprintf cstr fd (ps ≫= piece_fmt) ap) (ps ≫= piece_text cstr UPrintf.digits false).
Proof.
  intros Hdev Hc Hps Hap. split.
  - by apply (kprintf_pieces cstr Hc idle polls Hdev ps ap 0).
  - by apply (uprintf_pieces cstr Hc fd ps ap 0).
Qed.

(** [printf("pid %d: %s\n", 7, 0)] *)
Lemma printf_renders_pieces_witness :
  emits running (KPrintf.printf (λ _, true) 1 (λ _, []) (Some (str "pid %d: %s")) (λ k, [7; 0] !!! k)) (str "pid 7: (null)").
Proof.
  assert (responsive (λ _, true) 1) as Hdev by (intros n; exists 0%nat; split; [lia|done]).
  refine (proj1 (printf_renders_pieces (λ _, true) 1 (λ _, []) 1 [PText (str "pid "); PDec 7; PText (str ": "); PStr 0]
    (λ k, [7; 0] !!! k) Hdev (λ _, Forall_nil_2 _) _ _)).
  - repeat (constructor; [repeat (constructor; [done|]); done|]). constructor.
  - intros [|[|j]] w E; cbn in E; by simplify_eq.
Defined.

(** The user library's %l prints the low 32 bits of its 64-bit argument. *)
Lemma percent_l_truncates : UPrintf.fprintf (λ _, []) 1 (str "%l") (λ _, 2^32 + 5) [] = Done tt [(1, 53)].
Proof. reflexivity. Qed.
