(* ===== verification/Console.v ===== *)
(** * The console, kernel/console.c, and uartintr of kernel/uart.c

    [cons.lock] is held from the start of a call, or from its return from
    sleep, until it returns or sleeps: such a segment is one atomic
    transition, and one that sleeps reports the values of its loop variables. *)

From S2P Require Import Prelude Ring Riscv Mem Kalloc Vm Uart.

Definition INPUT_BUF_SIZE : Z := 128.
(** Control-x *)
Definition ctrl (x : Z) : Z := x - 64.

Record cons := Cons { cbuf : list Z; cr : Z; cw : Z; ce : Z }.
Record cst := Cst { con : cons; cu : uart; ck : kmem }.

Inductive csegment :=
| CReturned (r : Z)
| CReadBlocked (dst n : Z)      (* sleeps on &cons.r *)
| CWriteBlocked (i c : Z).      (* sleeps in uartputc(c) *)

(** kernel/proc.c, on memory; [src] and [dst] of the kernel's side are kernel
    addresses. *)
Definition either_copyout (pgtbl : Z) (user_dst : bool) (dst src len : Z) : M kmem Z :=
  if user_dst then copyout pgtbl dst src len
  else modify (upd_mem (λ m, memmove m dst src len)) ;;; ret 0.
Definition either_copyin (pgtbl : Z) (dst : Z) (user_src : bool) (src len : Z) : M kmem Z :=
  if user_src then copyin pgtbl dst src len
  else modify (upd_mem (λ m, memmove m dst src len)) ;;; ret 0.

Section console.
(** The device and polling bound of the UART, the address it sleeps on, the
    page table of [myproc()], the address of the local character, what procdump
    prints, and whether the process is killed when it is about to wait for
    its [n]-th last byte. *)
Variables (idle : nat → bool) (polls : nat) (chan_tx_r pgtbl cbufaddr : Z) (procdump : M uart unit) (killed : Z → bool).

Definition on_u {A} (m : M uart A) : M cst A := λ s,
  match m (cu s) with
  | Done a u => Done a (Cst (con s) u (ck s))
  | Panic msg => Panic msg
  | Sleep c u => Sleep c (Cst (con s) u (ck s))
  | OutOfFuel => OutOfFuel
  end.
Definition on_ck {A} (m : M kmem A) : M cst A := λ s,
  match m (ck s) with
  | Done a k => Done a (Cst (con s) (cu s) k)
  | Panic msg => Panic msg
  | Sleep c k => Sleep c (Cst (con s) (cu s) k)
  | OutOfFuel => OutOfFuel
  end.
Definition upd_con (f : cons → cons) : M cst unit := modify (λ s, Cst (f (con s)) (cu s) (ck s)).

(** Whether [m] returned or went to sleep. *)
Definition returns {S} (m : M S unit) : M S bool := λ s,
  match m s with
  | Done _ s => Done true s
  | Sleep _ s => Done false s
  | Panic msg => Panic msg
  | OutOfFuel => OutOfFuel
  end.

Definition consolewrite (user_src : bool) (src n i0 : Z) : M cst csegment :=
  loop (S (Z.to_nat (n - i0)))
    (λ i,
      if i <? n then
        let* r := on_ck (either_copyin pgtbl cbufaddr user_src (u64 (src + i)) 1) in
        if r =? -1 then ret (inr (CReturned i))
        else
          let* c := gets (λ s, load8 (km_mem (ck s)) cbufaddr) in
          let* b := on_u (returns (uartputc idle chan_tx_r c)) in
          if (b : bool) then ret (inl (i + 1)) else ret (inr (CWriteBlocked i c))
      else ret (inr (CReturned i)))
    i0.

(** [target] is the number of bytes asked for, [n] those still wanted. *)
Definition consoleread (user_dst : bool) (target dst n : Z) : M cst csegment :=
  loop (S (Z.to_nat n))
    (λ '(dst, n),
      if 0 <? n then
        let* s := get in
        if cr (con s) =? cw (con s) then
          if killed n then ret (inr (CReturned (-1))) else ret (inr (CReadBlocked dst n))
        else
          let c := rget INPUT_BUF_SIZE (cbuf (con s)) (cr (con s)) in
          upd_con (λ q, Cons (cbuf q) (u32 (cr q + 1)) (cw q) (ce q)) ;;;
          if c =? ctrl 68 then
            (if n <? target then upd_con (λ q, Cons (cbuf q) (u32 (cr q - 1)) (cw q) (ce q)) else ret tt) ;;;
            ret (inr (CReturned (target - n)))
          else
            on_ck (modify (upd_mem (λ m, store8 m cbufaddr c))) ;;;
            let* r := on_ck (either_copyout pgtbl user_dst dst cbufaddr 1) in
            if r =? -1 then ret (inr (CReturned (target - n)))
            else if c =? 10 then ret (inr (CReturned (target - (n - 1))))
            else ret (inl (u64 (dst + 1), n - 1))
      else ret (inr (CReturned (target - n))))
    (dst, n).

(** The edit index moves back and the character is rubbed out. *)
Definition erase : M cst unit :=
  upd_con (λ q, Cons (cbuf q) (cr q) (cw q) (u32 (ce q - 1))) ;;;
  on_u (consputc idle polls BACKSPACE).

Definition kill_line : M cst unit :=
  loop (S (Z.to_nat INPUT_BUF_SIZE))
    (λ _ : unit,
      let* s := get in
      if negb (ce (con s) =? cw (con s)) &&
         negb (rget INPUT_BUF_SIZE (cbuf (con s)) (u32 (ce (con s) - 1)) =? 10)
      then erase ;;; ret (inl tt)
      else ret (inr tt))
    tt.

Definition consoleintr (c : Z) : M cst unit :=
  if c =? ctrl 80 then on_u procdump
  else if c =? ctrl 85 then kill_line
  else if (c =? ctrl 72) || (c =? 127) then
    let* s := get in
    if negb (ce (con s) =? cw (con s)) then erase else ret tt
  else
    let* s := get in
    if negb (c =? 0) && (u32 (ce (con s) - cr (con s)) <? INPUT_BUF_SIZE) then
      let c := if c =? 13 then 10 else c in
      on_u (consputc idle polls c) ;;;
      upd_con (λ q, Cons (rput INPUT_BUF_SIZE (cbuf q) (ce q) (u8 c)) (cr q) (cw q) (u32 (ce q + 1))) ;;;
      let* s := get in
      if (c =? 10) || (c =? ctrl 68) || (u32 (ce (con s) - cr (con s)) =? INPUT_BUF_SIZE)
      then upd_con (λ q, Cons (cbuf q) (cr q) (ce q) (ce q))
      else ret tt
    else ret tt.

Definition uartintr : M cst unit :=
  let* s := get in
  loop (S (length (rx (cu s))))
    (λ _ : unit,
      let* c := on_u (uartgetc idle) in
      if c =? -1 then ret (inr tt) else consoleintr c ;;; ret (inl tt))
    tt ;;;
  on_u (uartstart idle).

(** [f] gives the read and write functions of devsw[CONSOLE]. *)
Definition consoleinit {A} (devsw : list A) (CONSOLE : nat) (f : A) : M uart (list A) :=
  uartinit ;;;
  ret (<[CONSOLE := f]> devsw).
End console.
