(* ===== verification/ConsoleTheorems.v ===== *)
(** * Theorems about the console: the line discipline *)

From S2P Require Import Prelude Ring Riscv Mem Kalloc Vm Uart Printf PrintfTheorems Console.

(** ** The line discipline the handler implements

    Characters that readers may take, and the line being edited. *)
Record tty := Tty { ready : list Z; editing : list Z }.

Definition rubout : list Z := [8; 32; 8].

(** The state after character [c] and what is output; [ptext] is what
    Control-P prints. *)
Definition tty_intr (ptext : list Z) (c : Z) (t : tty) : tty * list Z :=
  if decide (c = ctrl 80) then (t, ptext)
  else if decide (c = ctrl 85) then (Tty (ready t) [], editing t ≫= λ _, rubout)
  else if decide (c = ctrl 72 ∨ c = 127) then
    match editing t with
    | [] => (t, [])
    | _ => (Tty (ready t) (take (pred (length (editing t))) (editing t)), rubout)
    end
  else if decide (c ≠ 0 ∧ (length (ready t) + length (editing t) < 128)%nat) then
    let c := if decide (c = 13) then 10 else c in
    let line := editing t ++ [c] in
    (if decide (c = 10 ∨ c = ctrl 68 ∨ length (ready t ++ line) = 128%nat) then Tty (ready t ++ line) []
     else Tty (ready t) line, [c])
  else (t, []).

(** ** The ring buffer represents it *)

Abbreviation crlen := (rlen (2^32)).
Abbreviation critems := (ritems INPUT_BUF_SIZE (2^32)).

Definition view (q : cons) : tty := Tty (critems (cbuf q) (cr q) (cw q)) (critems (cbuf q) (cw q) (ce q)).

Record cons_ok (q : cons) : Prop := {
  co_len : length (cbuf q) = Z.to_nat INPUT_BUF_SIZE;
  co_r : 0 ≤ cr q < 2^32;
  co_w : 0 ≤ cw q < 2^32;
  co_e : 0 ≤ ce q < 2^32;
  co_we : crlen (cr q) (cw q) ≤ crlen (cr q) (ce q);
  co_full : crlen (cr q) (ce q) ≤ INPUT_BUF_SIZE;
  co_line : 10 ∉ critems (cbuf q) (cw q) (ce q)
}.

Lemma crlen_range r w : 0 ≤ crlen r w < 2^32.
Proof. by apply (rlen_range INPUT_BUF_SIZE). Qed.

Lemma csplit q :
  cons_ok q →
  critems (cbuf q) (cr q) (ce q) = ready (view q) ++ editing (view q) ∧
  crlen (cw q) (ce q) = crlen (cr q) (ce q) - crlen (cr q) (cw q).
Proof. intros Hq. apply ritems_split; [done|done|ring_size|apply Hq]. Qed.

Lemma edit_empty q : cons_ok q → (ce q =? cw q) = bool_decide (editing (view q) = []).
Proof.
  intros Hq. rewrite Z.eqb_sym, (rlen_empty INPUT_BUF_SIZE (2^32)) by (apply Hq || done).
  pose proof (crlen_range (cw q) (ce q)). apply eq_bool_prop_intro.
  rewrite Is_true_true, Z.eqb_eq, bool_decide_spec, <-length_zero_iff_nil. cbn [view editing]. rewrite length_ritems. lia.
Qed.

(** Moving the edit index back removes the last character of the line. *)
Lemma unput_ok q (q' := Cons (cbuf q) (cr q) (cw q) (u32 (ce q - 1))) :
  cons_ok q → editing (view q) ≠ [] →
  cons_ok q' ∧ ready (view q') = ready (view q) ∧
  editing (view q) = editing (view q') ++ [rget INPUT_BUF_SIZE (cbuf q) (ce q - 1)].
Proof.
  intros Hq Hne. destruct (csplit q Hq) as [_ El].
  pose proof (crlen_range (cw q) (ce q)). pose proof (crlen_range (cr q) (cw q)).
  assert (0 < crlen (cw q) (ce q)) as Hpos.
  { destruct (decide (crlen (cw q) (ce q) = 0)) as [E|]; [|lia]. destruct Hne. apply length_zero_iff_nil.
    cbn [view editing]. by rewrite length_ritems, E. }
  assert (editing (view q) = editing (view q') ++ [rget INPUT_BUF_SIZE (cbuf q) (ce q - 1)]) as Elast.
  { apply ritems_last; [done|done|ring_size|done]. }
  assert (crlen (cr q) (ce q') = crlen (cr q) (ce q) - 1) as Er.
  { apply (rlen_unpush INPUT_BUF_SIZE); [done|done|lia]. }
  split; [|done]. destruct Hq as [? ? ? ? ? ? Hl]. split; try done; cbn [q' cr cw ce cbuf] in *.
  - apply Z.mod_pos_bound. lia.
  - lia.
  - lia.
  - intros Hin. apply Hl. cbn [view editing cbuf cw ce] in Elast. rewrite Elast. apply elem_of_app. by left.
Qed.

(** Storing a character appends it to the line. *)
Lemma put_ok q c (q' := Cons (rput INPUT_BUF_SIZE (cbuf q) (ce q) c) (cr q) (cw q) (u32 (ce q + 1))) :
  cons_ok q → crlen (cr q) (ce q) < INPUT_BUF_SIZE →
  ready (view q') = ready (view q) ∧ editing (view q') = editing (view q) ++ [c] ∧
  crlen (cr q) (ce q') = crlen (cr q) (ce q) + 1.
Proof.
  intros Hq Hlt. destruct (csplit q Hq) as [Es El]. pose proof (crlen_range (cr q) (cw q)).
  assert (editing (view q') = editing (view q) ++ [c]) as Ed.
  { apply ritems_put; [done|done|ring_size|apply Hq|]. cbn [q' cw]. lia. }
  assert (crlen (cr q) (ce q') = crlen (cr q) (ce q) + 1) as Er by (apply (rlen_push INPUT_BUF_SIZE); done || lia).
  assert (critems (cbuf q') (cr q) (ce q') = critems (cbuf q) (cr q) (ce q) ++ [c]) as Eq.
  { apply ritems_put; [done|done|ring_size|apply Hq|done]. }
  split; [|done]. destruct (ritems_split INPUT_BUF_SIZE (2^32) ltac:(done) ltac:(done) ltac:(ring_size) (cbuf q') (cr q) (cw q) (ce q')) as [Es' _].
  { destruct Hq. lia. }
  rewrite Eq, Es in Es'. fold (ready (view q')) in Es'.
  change (critems (cbuf q') (cw q) (ce q')) with (editing (view q')) in Es'. rewrite Ed, app_assoc in Es'.
  by apply app_inv_tail, app_inv_tail in Es'.
Qed.

Lemma crlen_length q : cons_ok q → crlen (cr q) (ce q) = length (ready (view q)) + length (editing (view q)).
Proof.
  intros Hq. destruct (csplit q Hq) as [_ El]. cbn [view ready editing]. rewrite !length_ritems.
  pose proof (crlen_range (cr q) (cw q)). pose proof (crlen_range (cw q) (ce q)). lia.
Qed.

(** ** The handler *)

Section intr.
Context (idle : nat → bool) (polls : nat) (Hdev : responsive idle polls).
Context (procdump : M uart unit) (ptext : list Z) (Hprocdump : emits running procdump ptext).

(** The console becomes [t] and [bs] is output; memory is not touched. *)
Definition became (s s' : cst) (t : tty) (bs : list Z) : Prop :=
  cons_ok (con s') ∧ view (con s') = t ∧ emitted (cu s) bs (cu s') ∧ running (cu s') ∧ ck s' = ck s.

Lemma wp_on_u (m : M uart unit) bs s (Q : unit → cst → Prop) :
  emits running m bs → running (cu s) →
  (∀ u, emitted (cu s) bs u → running u → Q tt (Cst (con s) u (ck s))) → wp (on_u m) s Q.
Proof.
  intros Hm Hr HQ. apply Hm, wp_done in Hr as ([] & u & E & He & Hu). unfold wp, on_u. rewrite E. by apply HQ.
Qed.

Lemma backspace_emits : emits running (consputc idle polls BACKSPACE) rubout.
Proof. by apply consputc_emits. Qed.

Lemma erase_ok s :
  cons_ok (con s) → running (cu s) → editing (view (con s)) ≠ [] →
  wp (erase idle polls) s (λ _ s', ∃ line c, editing (view (con s)) = line ++ [c] ∧
    c = rget INPUT_BUF_SIZE (cbuf (con s)) (ce (con s) - 1) ∧ became s s' (Tty (ready (view (con s))) line) rubout).
Proof.
  intros Hq Hr Hne. destruct (unput_ok (con s) Hq Hne) as (Hq' & E1 & E2). apply wp_bind. cbn.
  eapply wp_on_u; [apply backspace_emits|done|]. intros u He Hu. eexists _, _. split; [exact E2|]. split; [done|].
  split_and!; [done| |done..]. exact (f_equal2 Tty E1 eq_refl).
Qed.

Lemma last_not_newline q line :
  cons_ok q → editing (view q) = line ++ [rget INPUT_BUF_SIZE (cbuf q) (ce q - 1)] →
  rget INPUT_BUF_SIZE (cbuf q) (u32 (ce q - 1)) =? 10 = false.
Proof.
  intros Hq E. unfold rget, u32. rewrite (mod_M_sz INPUT_BUF_SIZE (2^32)) by ring_size.
  apply Z.eqb_neq. intros E10. apply (co_line _ Hq). change (10 ∈ editing (view q)). rewrite E.
  unfold rget. rewrite E10. apply elem_of_app. right. by left.
Qed.

Lemma kill_line_ok s :
  cons_ok (con s) → running (cu s) →
  wp (kill_line idle polls) s (λ _ s', became s s' (Tty (ready (view (con s))) []) (editing (view (con s)) ≫= λ _, rubout)).
Proof.
  intros Hq Hr. unfold kill_line.
  assert (length (editing (view (con s))) < S (Z.to_nat INPUT_BUF_SIZE))%nat as Hf.
  { pose proof (crlen_length _ Hq). pose proof (co_full _ Hq). unfold INPUT_BUF_SIZE in *. lia. }
  generalize dependent (S (Z.to_nat INPUT_BUF_SIZE)). intros fuel. revert s Hq Hr.
  induction fuel as [|fuel IH]; intros s Hq Hr Hf; [lia|]. cbn [loop]. apply wp_bind, wp_bind, wp_get. cbv beta.
  rewrite edit_empty by done. case_bool_decide as E; cbn [negb andb].
  { apply wp_ret, wp_ret. rewrite E. split_and!; [done| |apply emitted_nil|done..]. rewrite <-E. by destruct (view (con s)). }
  destruct (unput_ok (con s) Hq E) as (_ & _ & Elast). rewrite (last_not_newline _ _ Hq Elast). cbn [negb].
  apply wp_bind. eapply wp_mono; [by apply erase_ok|].
  intros _ s1 (line & c & El & _ & Hq1 & Ev & He & Hr1 & Hk). apply wp_ret. rewrite El, length_app in Hf. cbn in Hf.
  eapply wp_mono; [apply IH; [done|done|rewrite Ev; cbn; lia]|].
  rewrite Ev. intros _ s2 (Hq2 & Ev2 & He2 & Hr2 & Hk2). cbn [ready editing] in *.
  split_and!; [done|done| |done|congruence]. rewrite El, bind_app. 
  replace (line ≫= (λ _, rubout)) with (line ≫= (λ _ : Z, rubout)) by done.
  assert ((line ≫= λ _, rubout) ++ ([c] ≫= λ _, rubout) = rubout ++ (line ≫= λ _, rubout)) as ->.
  { clear. induction line as [|x line IH]; [done|]. rewrite bind_cons, <-app_assoc, IH. done. }
  by eapply emitted_app.
Qed.

Lemma store_ok s c :
  cons_ok (con s) → running (cu s) → 0 < c < 256 → crlen (cr (con s)) (ce (con s)) < INPUT_BUF_SIZE →
  wp (on_u (consputc idle polls c) ;;;
      upd_con (λ q, Cons (rput INPUT_BUF_SIZE (cbuf q) (ce q) (u8 c)) (cr q) (cw q) (u32 (ce q + 1))) ;;;
      let* s := get in
      if (c =? 10) || (c =? ctrl 68) || (u32 (ce (con s) - cr (con s)) =? INPUT_BUF_SIZE)
      then upd_con (λ q, Cons (cbuf q) (cr q) (ce q) (ce q))
      else ret tt) s
    (λ _ s', became s s' (let line := editing (view (con s)) ++ [c] in
      if decide (c = 10 ∨ c = ctrl 68 ∨ length (ready (view (con s)) ++ line) = 128%nat) then Tty (ready (view (con s)) ++ line) []
      else Tty (ready (view (con s))) line) [c]).
Proof.
  intros Hq Hr Hc Hlt. destruct (put_ok (con s) c Hq Hlt) as (E1 & E2 & E3).
  apply wp_bind. eapply wp_on_u; [apply kputc_emits; [done|unfold is_byte; lia]|done|]. intros u He Hu.
  apply wp_bind, wp_modify, wp_bind, wp_get. cbn [con]. unfold u8. rewrite (Z.mod_small c) by lia.
  set (q' := Cons _ _ _ _) in *.
  assert (crlen (cr q') (cw q') ≤ crlen (cr q') (ce q') ≤ INPUT_BUF_SIZE) as Hle.
  { destruct Hq. change (cr q') with (cr (con s)). rewrite E3. cbn [q' cw]. lia. }
  assert (u32 (ce q' - cr q') = length (ready (view (con s)) ++ editing (view (con s)) ++ [c])) as El.
  { change (u32 (ce q' - cr q')) with (crlen (cr (con s)) (ce q')). rewrite E3, crlen_length by done. len. }
  rewrite El. destruct (ritems_split INPUT_BUF_SIZE (2^32) ltac:(done) ltac:(done) ltac:(ring_size) (cbuf q') (cr q') (cw q') (ce q'))
    as [Es _]; [lia|]. change (critems (cbuf q') (cr q') (cw q')) with (ready (view q')) in Es.
  change (critems (cbuf q') (cw q') (ce q')) with (editing (view q')) in Es. rewrite E1, E2 in Es.
  assert (length (cbuf q') = Z.to_nat INPUT_BUF_SIZE) as Hlen.
  { cbn [q' cbuf]. unfold rput. rewrite length_insert. apply Hq. }
  assert (0 ≤ ce q' < 2^32) as Hce by (apply Z.mod_pos_bound; lia). cbn zeta.
  assert (((c =? 10) || (c =? ctrl 68) || (Z.of_nat (length (ready (view (con s)) ++ editing (view (con s)) ++ [c])) =? INPUT_BUF_SIZE)) =
    bool_decide (c = 10 ∨ c = ctrl 68 ∨ length (ready (view (con s)) ++ editing (view (con s)) ++ [c]) = 128%nat)) as ->.
  { apply eq_bool_prop_intro. rewrite Is_true_true, !orb_true_iff, !Z.eqb_eq, bool_decide_spec. unfold INPUT_BUF_SIZE. lia. }
  case_bool_decide as Hcommit; [rewrite decide_True by done|rewrite decide_False by done].
  - apply wp_modify. cbn [con cu ck]. split; [|split_and!; [|done..]].
    + assert (critems (cbuf q') (ce q') (ce q') = []) as E0.
      { apply length_zero_iff_nil. rewrite length_ritems. unfold rlen. by rewrite Z.sub_diag. }
      destruct Hq. split; try done; [exact (proj2 Hle)|]. change (10 ∉ critems (cbuf q') (ce q') (ce q')).
      rewrite E0. apply not_elem_of_nil.
    + unfold view. cbn [cbuf cr cw ce]. f_equal; [exact Es|]. apply length_zero_iff_nil. rewrite length_ritems.
      unfold rlen. by rewrite Z.sub_diag.
  - apply wp_ret. cbn [con cu ck]. split; [|split_and!; [|done..]].
    + destruct Hq as [? ? ? ? ? ? Hl]. split; try done; [exact (proj1 Hle)|exact (proj2 Hle)|].
      change (10 ∉ editing (view q')). rewrite E2. intros [Hin|Hin%list_elem_of_singleton]%elem_of_app; [done|].
      apply Hcommit. by left.
    + exact (f_equal2 Tty E1 E2).
Qed.
End intr.

(** C30. consoleintr implements the line discipline: a character is echoed and
    appended to the line, carriage return as newline; backspace and delete
    erase its last character and Control-U all of it, on the screen too, and
    never touch input already handed to readers; newline, Control-D or a full
    buffer hands the line to readers; with INPUT_BUF_SIZE characters waiting
    further ones are dropped. The indices stay consistent, even when they wrap around. *)
Theorem consoleintr_refines_line_discipline idle polls procdump ptext s c :
  responsive idle polls → emits running procdump ptext →
  cons_ok (con s) → running (cu s) → 0 ≤ c < 256 →
  ∃ s', consoleintr idle polls procdump c s = Done tt s' ∧
    let '(t, bs) := tty_intr ptext c (view (con s)) in became s s' t bs.
Proof.
  intros Hdev Hpd Hq Hr Hc.
  enough (wp (consoleintr idle polls procdump c) s
    (λ _ s', let '(t, bs) := tty_intr ptext c (view (con s)) in became s s' t bs)) as ([] & s' & E & H)%wp_done.
  { by exists s'. }
  unfold consoleintr, tty_intr.
  case_decide as E1; [rewrite (proj2 (Z.eqb_eq _ _)) by done|rewrite (proj2 (Z.eqb_neq _ _)) by done].
  { eapply wp_on_u; [done..|]. intros u He Hu. by split_and!. }
  case_decide as E2; [rewrite (proj2 (Z.eqb_eq c (ctrl 85))) by done|rewrite (proj2 (Z.eqb_neq c (ctrl 85))) by done].
  { by apply kill_line_ok. }
  assert ((c =? ctrl 72) || (c =? 127) = bool_decide (c = ctrl 72 ∨ c = 127)) as ->.
  { apply eq_bool_prop_intro. by rewrite Is_true_true, orb_true_iff, !Z.eqb_eq, bool_decide_spec. }
  case_decide as E3; [rewrite bool_decide_true by done|rewrite bool_decide_false by done].
  { apply wp_bind, wp_get. rewrite edit_empty by done. case_bool_decide as E; cbn [negb].
    - rewrite E. split_and!; [done..|apply emitted_nil|done|done].
    - eapply wp_mono; [by apply erase_ok|]. intros _ s' (line & c' & El & _ & Hb). rewrite El.
      destruct (line ++ [c']) as [|x l] eqn:Ex; [by destruct line|]. rewrite <-Ex, length_app, Nat.add_1_r.
      by rewrite Nat.pred_succ, take_app_length. }
  apply wp_bind, wp_get.
  assert (negb (c =? 0) && (u32 (ce (con s) - cr (con s)) <? INPUT_BUF_SIZE) =
    bool_decide (c ≠ 0 ∧ (length (ready (view (con s))) + length (editing (view (con s))) < 128)%nat)) as ->.
  { change (u32 (ce (con s) - cr (con s))) with (crlen (cr (con s)) (ce (con s))). rewrite crlen_length by done.
    apply eq_bool_prop_intro. rewrite Is_true_true, andb_true_iff, negb_true_iff, Z.eqb_neq, Z.ltb_lt, bool_decide_spec.
    unfold INPUT_BUF_SIZE. lia. }
  case_decide as E4; [rewrite bool_decide_true by done|rewrite bool_decide_false by done].
  2: { split_and!; [done..|apply emitted_nil|done|done]. }
  cbn zeta. replace (if decide (c = 13) then 10 else c) with (if c =? 13 then 10 else c)
    by (destruct (Z.eqb_spec c 13), (decide (c = 13)); done).
  apply store_ok; [done..| |].
  - destruct (c =? 13); lia.
  - rewrite crlen_length by done. unfold INPUT_BUF_SIZE. lia.
Qed.

Definition ex_cons : cons := Cons (replicate 128 0) (2^32 - 1) (2^32 - 1) (2^32 - 1).

Lemma consoleintr_refines_line_discipline_witness :
  ∃ s', consoleintr (λ _, true) 1 (ret tt) 13 (Cst ex_cons ex_uart (Kmem ∅ 0)) = Done tt s' ∧ ready (view (con s')) = [10].
Proof.
  assert (responsive (λ _, true) 1) as Hdev by (intros n; exists 0%nat; split; [lia|done]).
  destruct (consoleintr_refines_line_discipline (λ _, true) 1 (ret tt) [] (Cst ex_cons ex_uart (Kmem ∅ 0)) 13)
    as (s' & H1 & H2); [done|apply emits_ret| |done|done|].
  - split; [done..|]. vm_compute. apply not_elem_of_nil.
  - exists s'. split; [exact H1|]. destruct H2 as (_ & E & _). rewrite E. reflexivity.
Defined.
