(* ===== verification/File.v ===== *)
(** * Open files, kernel/file.c, and pipealloc of kernel/pipe.c

    A file pointer is an index into [ftable]. [struct pipe]s are kept in
    [pipes] under the address of their page. [ftable.lock] makes filealloc,
    filedup and the first part of fileclose atomic. *)

From S2P Require Import Prelude Ring Riscv Mem Kalloc Vm Block FsFormat Log LogSpec LogOps Txn Fs.
From S2P Require Import Pipe Uart Console.

Definition NFILE : Z := 100.
Definition NDEV : Z := 10.
Definition CONSOLE : Z := 1.

Inductive ftype := FD_NONE | FD_PIPE | FD_INODE | FD_DEVICE.
#[global] Instance ftype_dec : EqDecision ftype.
Proof. solve_decision. Defined.

Record file := File {
  f_type : ftype;
  f_ref : Z;
  f_readable : bool;
  f_writable : bool;
  f_pipe : Z;      (* FD_PIPE *)
  f_ip : nat;      (* FD_INODE and FD_DEVICE *)
  f_off : Z;       (* FD_INODE *)
  f_major : Z      (* FD_DEVICE *)
}.
#[global] Instance file_inhabited : Inhabited file := populate (File FD_NONE 0 false false 0 0 0 0).

Definition set_fref (n : Z) (f : file) : file :=
  File (f_type f) n (f_readable f) (f_writable f) (f_pipe f) (f_ip f) (f_off f) (f_major f).
Definition set_ftype (t : ftype) (f : file) : file :=
  File t (f_ref f) (f_readable f) (f_writable f) (f_pipe f) (f_ip f) (f_off f) (f_major f).
Definition set_foff (o : Z) (f : file) : file :=
  File (f_type f) (f_ref f) (f_readable f) (f_writable f) (f_pipe f) (f_ip f) o (f_major f).

(** The functions that can be in devsw: none, or those of the console. *)
Inductive devfn := NullFn | ConsoleFn.
Record devsw_entry := Devsw { dev_read : devfn; dev_write : devfn }.

(** Results of reading and writing: a value, or where to continue after sleep. *)
Inductive fsegment :=
| FReturned (r : Z)
| FPipeBlocked (i : Z)
| FConsBlocked (c : csegment).

Section file.
Context {Sc : Type} {dev : Z} `{!BufCache Sc dev}.
(** Where the log is; the end of the kernel; [myproc()]: its pid, page table
    and whether it is killed when it polls; the addresses of the buffers' data,
    of a local character and of a local [struct stat]; the UART and
    its channel. *)
Variables (logstart nlog kend pid pgtbl : Z) (killed : Z → bool) (bufaddr : nat → Z) (ch st : Z).
Variables (idle : nat → bool) (chan_tx_r : Z).

#[local] Instance txn : TxnLayer (lst Sc) dev := log_txn logstart nlog.

Record fls := Fls {
  ffs : @Fs.fst (lst Sc);
  ftable : list file;
  pipes : gmap Z pipe;
  devsw : list devsw_entry;
  fcon : cons;
  fuart : uart
}.

Definition on_fs {A} (m : M (@Fs.fst (lst Sc)) A) : M fls A := λ s,
  match m (ffs s) with
  | Done a x => Done a (Fls x (ftable s) (pipes s) (devsw s) (fcon s) (fuart s))
  | Panic msg => Panic msg
  | Sleep c x => Sleep c (Fls x (ftable s) (pipes s) (devsw s) (fcon s) (fuart s))
  | OutOfFuel => OutOfFuel
  end.
Definition with_k (k : kmem) (x : @Fs.fst (lst Sc)) : @Fs.fst (lst Sc) := Fst (ftx x) (itable x) (fsb x) k.

(** Code of pipe.c on the pipe at [pi]. *)
Definition on_pipe {A} (pi : Z) (m : M pst A) : M fls A := λ s,
  match m (Pst (default (new_pipe []) (pipes s !! pi)) (fk (ffs s))) with
  | Done a x => Done a (Fls (with_k (pk x) (ffs s)) (ftable s) (<[pi := pp x]> (pipes s)) (devsw s) (fcon s) (fuart s))
  | Panic msg => Panic msg
  | Sleep c x => Sleep c (Fls (with_k (pk x) (ffs s)) (ftable s) (<[pi := pp x]> (pipes s)) (devsw s) (fcon s) (fuart s))
  | OutOfFuel => OutOfFuel
  end.
(** Code of console.c. *)
Definition on_cons {A} (m : M cst A) : M fls A := λ s,
  match m (Cst (fcon s) (fuart s) (fk (ffs s))) with
  | Done a x => Done a (Fls (with_k (ck x) (ffs s)) (ftable s) (pipes s) (devsw s) (con x) (cu x))
  | Panic msg => Panic msg
  | Sleep c x => Sleep c (Fls (with_k (ck x) (ffs s)) (ftable s) (pipes s) (devsw s) (con x) (cu x))
  | OutOfFuel => OutOfFuel
  end.
Definition getf (f : nat) : M fls file := gets (λ s, ftable s !!! f).
Definition updf (f : nat) (g : file → file) : M fls unit :=
  modify (λ s, Fls (ffs s) (alter g f (ftable s)) (pipes s) (devsw s) (fcon s) (fuart s)).
Definition upd_pipes (g : gmap Z pipe → gmap Z pipe) : M fls unit :=
  modify (λ s, Fls (ffs s) (ftable s) (g (pipes s)) (devsw s) (fcon s) (fuart s)).

Definition begin_op : M fls unit := on_fs (on_tx Log.begin_op).
Definition end_op : M fls unit := on_fs (on_tx Log.end_op).

(** kernel/fs.c *)
Definition fsinit (d : Z) : M fls unit :=
  on_fs (readsb d) ;;;
  let* sb := on_fs (get_sb id) in
  if negb (sb_magic sb =? FSMAGIC) then panic "invalid file system"
  else on_fs (on_tx (initlog d sb)).

(** The first file with no references. *)
Fixpoint free_file (t : list file) (i : nat) : option nat :=
  match t with
  | [] => None
  | f :: t => if f_ref f =? 0 then Some i else free_file t (S i)
  end.

Definition filealloc : M fls (option nat) :=
  let* t := gets ftable in
  match free_file t 0 with
  | Some f => updf f (set_fref 1) ;;; ret (Some f)
  | None => ret None
  end.

Definition filedup (f : nat) : M fls nat :=
  let* x := getf f in
  if f_ref x <? 1 then panic "filedup"
  else updf f (λ x, set_fref (i32 (f_ref x + 1)) x) ;;; ret f.

Definition fileclose (f : nat) : M fls unit :=
  let* x := getf f in
  if f_ref x <? 1 then panic "fileclose"
  else
    updf f (λ x, set_fref (f_ref x - 1) x) ;;;
    let* ff := getf f in
    if 0 <? f_ref ff then ret tt
    else
      updf f (λ x, set_ftype FD_NONE (set_fref 0 x)) ;;;
      match f_type ff with
      | FD_PIPE =>
          on_pipe (f_pipe ff) (pipeclose kend (f_pipe ff) (f_writable ff)) ;;;
          (* the page is gone once both ends are closed *)
          upd_pipes (λ ps, match ps !! f_pipe ff with
                           | Some p => if negb (readopen p) && negb (writeopen p) then delete (f_pipe ff) ps else ps
                           | None => ps
                           end)
      | FD_INODE | FD_DEVICE =>
          begin_op ;;;
          on_fs (iput pid (f_ip ff)) ;;;
          end_op
      | FD_NONE => ret tt
      end.

(** The bytes of a [struct stat], padding aside. *)
Definition store_stat (x : stat) (m : mem) : mem :=
  let m := store_bytes m st (Z_to_little_endian 4 8 (st_dev x)) in
  let m := store_bytes m (st + 4) (Z_to_little_endian 4 8 (st_ino x)) in
  let m := store_bytes m (st + 8) (Z_to_little_endian 2 8 (st_type x)) in
  let m := store_bytes m (st + 10) (Z_to_little_endian 2 8 (st_nlink x)) in
  store64 m (st + 16) (st_size x).
Definition SIZEOF_STAT : Z := 24.

Definition filestat (f : nat) (addr : Z) : M fls Z :=
  let* x := getf f in
  match f_type x with
  | FD_INODE | FD_DEVICE =>
      on_fs (ilock pid (Some (f_ip x))) ;;;
      let* s := on_fs (stati (f_ip x)) in
      on_fs (stmem (store_stat s)) ;;;
      on_fs (iunlock pid (Some (f_ip x))) ;;;
      let* r := on_fs (on_k (copyout pgtbl addr st SIZEOF_STAT)) in
      if r <? 0 then ret (-1) else ret 0
  | _ => ret (-1)
  end.

(** [devsw[major]], for a valid major number. *)
Definition dev_entry (d : list devsw_entry) (major : Z) : option devsw_entry :=
  if (major <? 0) || (NDEV <=? major) then None else d !! Z.to_nat major.

Definition of_segment (s : segment) : fsegment :=
  match s with
  | Returned r => FReturned r
  | Blocked i => FPipeBlocked i
  end.
Definition of_csegment (c : csegment) : fsegment :=
  match c with
  | CReturned r => FReturned r
  | _ => FConsBlocked c
  end.

Definition fileread (f : nat) (addr n : Z) : M fls fsegment :=
  let* x := getf f in
  if negb (f_readable x) then ret (FReturned (-1))
  else
    match f_type x with
    | FD_PIPE =>
        let* r := on_pipe (f_pipe x) (piperead pgtbl ch killed addr n) in
        ret (of_segment r)
    | FD_DEVICE =>
        let* d := gets devsw in
        match dev_read <$> dev_entry d (f_major x) with
        | Some ConsoleFn =>
            let* r := on_cons (consoleread pgtbl ch killed true n addr n) in
            ret (of_csegment r)
        | _ => ret (FReturned (-1))
        end
    | FD_INODE =>
        on_fs (ilock pid (Some (f_ip x))) ;;;
        let* r := on_fs (readi pgtbl bufaddr (f_ip x) true addr (f_off x) (u32 n)) in
        (if 0 <? r then updf f (λ x, set_foff (u32 (f_off x + r)) x) else ret tt) ;;;
        on_fs (iunlock pid (Some (f_ip x))) ;;;
        ret (FReturned r)
    | FD_NONE => panic "fileread"
    end.

(** The largest number of bytes filewrite writes in one transaction. *)
Definition write_max : Z := (MAXOPBLOCKS - 1 - 1 - 2) `div` 2 * BSIZE.

(** One transaction of filewrite: [inl] to go on. *)
Definition filewrite_chunk (f : nat) (addr n i : Z) : M fls (Z + Z) :=
  if i <? n then
    let n1 := Z.min (n - i) write_max in
    begin_op ;;;
    let* x := getf f in
    on_fs (ilock pid (Some (f_ip x))) ;;;
    let* r := on_fs (writei pgtbl bufaddr (f_ip x) true (u64 (addr + i)) (f_off x) n1) in
    (if 0 <? r then updf f (λ x, set_foff (u32 (f_off x + r)) x) else ret tt) ;;;
    on_fs (iunlock pid (Some (f_ip x))) ;;;
    end_op ;;;
    if negb (r =? n1) then ret (inr i) else ret (inl (i + r))
  else ret (inr i).

Definition filewrite (f : nat) (addr n : Z) : M fls fsegment :=
  let* x := getf f in
  if negb (f_writable x) then ret (FReturned (-1))
  else
    match f_type x with
    | FD_PIPE =>
        let* r := on_pipe (f_pipe x) (pipewrite pgtbl ch killed addr n 0) in
        ret (of_segment r)
    | FD_DEVICE =>
        let* d := gets devsw in
        match dev_write <$> dev_entry d (f_major x) with
        | Some ConsoleFn =>
            let* r := on_cons (consolewrite idle chan_tx_r pgtbl ch true addr n 0) in
            ret (of_csegment r)
        | _ => ret (FReturned (-1))
        end
    | FD_INODE =>
        let* i := loop (Z.to_nat (n `div` write_max + 2)) (filewrite_chunk f addr n) 0 in
        ret (FReturned (if i =? n then n else -1))
    | FD_NONE => panic "filewrite"
    end.

(** ** pipealloc *)

(** Offset of [data] in [struct pipe]: after the spin lock. *)
Definition PIPE_DATA : Z := 24.

Definition make_pipe_file (readable : bool) (pi : Z) (x : file) : file :=
  File FD_PIPE (f_ref x) readable (negb readable) pi (f_ip x) (f_off x) (f_major x).

(** The two files, or [None] when it fails. *)
Definition pipealloc : M fls (option (nat * nat)) :=
  let* f0 := filealloc in
  match f0 with
  | None => ret None
  | Some f0 =>
      let* f1 := filealloc in
      match f1 with
      | None => fileclose f0 ;;; ret None
      | Some f1 =>
          let* pi := on_fs (on_k kalloc) in
          if pi =? 0 then
            fileclose f0 ;;;
            fileclose f1 ;;;
            ret None
          else
            let* d := on_fs (ldmem (λ m, load_bytes m (pi + PIPE_DATA) PIPESIZE)) in
            upd_pipes <[pi := new_pipe d]> ;;;
            updf f0 (make_pipe_file true pi) ;;;
            updf f1 (make_pipe_file false pi) ;;;
            ret (Some (f0, f1))
      end
  end.
End file.
