(* ===== verification/Spinlock.v ===== *)
(** * Spin locks, kernel/spinlock.c

    [cpus] and [locks] give the state of every CPU and lock; code runs on a
    CPU [c], the value of [mycpu()]. acquire and release are made of the
    memory accesses other CPUs can come between. *)

From S2P Require Import Prelude.

Record cpu := Cpu {
  noff : Z;          (* depth of push_off nesting *)
  intena : bool;     (* were interrupts enabled before push_off? *)
  sie : bool         (* are interrupts enabled: intr_get() *)
}.
Record spinlock := Spinlock { locked : bool; lk_cpu : option nat }.
Record sps := Sps { cpus : nat → cpu; locks : nat → spinlock }.

Definition upd_cpu (c : nat) (f : cpu → cpu) : M sps unit :=
  modify (λ s, Sps (<[c := f (cpus s c)]> (cpus s)) (locks s)).
Definition upd_lock (l : nat) (f : spinlock → spinlock) : M sps unit :=
  modify (λ s, Sps (cpus s) (<[l := f (locks s l)]> (locks s))).

Definition initlock (l : nat) : M sps unit := upd_lock l (λ _, Spinlock false None).

Definition push_off (c : nat) : M sps unit :=
  let* old := gets (λ s, sie (cpus s c)) in
  upd_cpu c (λ x, Cpu (noff x) (intena x) false) ;;;
  upd_cpu c (λ x, if noff x =? 0 then Cpu (noff x) old (sie x) else x) ;;;
  upd_cpu c (λ x, Cpu (noff x + 1) (intena x) (sie x)).

Definition pop_off (c : nat) : M sps unit :=
  let* x := gets (λ s, cpus s c) in
  if sie x then panic "pop_off - interruptible"
  else if noff x <? 1 then panic "pop_off"
  else
    upd_cpu c (λ x, Cpu (noff x - 1) (intena x) (sie x)) ;;;
    let* x := gets (λ s, cpus s c) in
    if (noff x =? 0) && intena x then upd_cpu c (λ x, Cpu (noff x) (intena x) true) else ret tt.

Definition holding (c l : nat) : M sps bool :=
  gets (λ s, locked (locks s l) && bool_decide (lk_cpu (locks s l) = Some c)).

(** ** acquire and release, by memory access *)

Definition acquire_enter (c l : nat) : M sps unit :=
  push_off c ;;;
  let* h := holding c l in
  if (h : bool) then panic "acquire" else ret tt.

(** [__sync_lock_test_and_set(&lk->locked, 1)] *)
Definition test_and_set (l : nat) : M sps bool :=
  let* old := gets (λ s, locked (locks s l)) in
  upd_lock l (λ x, Spinlock true (lk_cpu x)) ;;;
  ret old.

Definition acquire_record (c l : nat) : M sps unit := upd_lock l (λ x, Spinlock (locked x) (Some c)).

(** [spins] bounds the number of times the lock is found taken. *)
Definition acquire (spins c l : nat) : M sps unit :=
  acquire_enter c l ;;;
  loop (S spins) (λ _ : unit, let* old := test_and_set l in ret (if (old : bool) then inl tt else inr tt)) tt ;;;
  acquire_record c l.

Definition release_enter (c l : nat) : M sps unit :=
  let* h := holding c l in
  if (h : bool) then upd_lock l (λ x, Spinlock (locked x) None) else panic "release".

(** [__sync_lock_release(&lk->locked)] and pop_off. *)
Definition release_exit (c l : nat) : M sps unit :=
  upd_lock l (λ x, Spinlock false (lk_cpu x)) ;;;
  pop_off c.

Definition release (c l : nat) : M sps unit := release_enter c l ;;; release_exit c l.

(** ** Interleaved execution

    Where each CPU is; [extra] counts its push_offs without a lock. *)
Inductive pc :=
| Run
| Spin (l : nat)       (* in acquire, before a test-and-set *)
| Got (l : nat)        (* test-and-set succeeded, lk->cpu not set yet *)
| Leave (l : nat).     (* in release, lk->cpu cleared *)

Record machine := Machine { ms : sps; at_pc : nat → pc; extra : nat → nat }.

Inductive step : machine → machine → Prop :=
| step_acquire c l s s' p e : p c = Run → acquire_enter c l s = Done tt s' →
    step (Machine s p e) (Machine s' (<[c := Spin l]> p) e)
| step_spin c l s s' p e : p c = Spin l → test_and_set l s = Done true s' →
    step (Machine s p e) (Machine s' p e)
| step_got c l s s' p e : p c = Spin l → test_and_set l s = Done false s' →
    step (Machine s p e) (Machine s' (<[c := Got l]> p) e)
| step_record c l s s' p e : p c = Got l → acquire_record c l s = Done tt s' →
    step (Machine s p e) (Machine s' (<[c := Run]> p) e)
| step_release c l s s' p e : p c = Run → release_enter c l s = Done tt s' →
    step (Machine s p e) (Machine s' (<[c := Leave l]> p) e)
| step_leave c l s s' p e : p c = Leave l → release_exit c l s = Done tt s' →
    step (Machine s p e) (Machine s' (<[c := Run]> p) e)
| step_push c s s' p e : p c = Run → push_off c s = Done tt s' →
    step (Machine s p e) (Machine s' p (<[c := S (e c)]> e))
| step_pop c n s s' p e : p c = Run → e c = S n → pop_off c s = Done tt s' →
    step (Machine s p e) (Machine s' p (<[c := n]> e))
| step_intr c b s s' p e : p c = Run → noff (cpus s c) = 0 →
    upd_cpu c (λ x, Cpu (noff x) (intena x) b) s = Done tt s' →
    step (Machine s p e) (Machine s' p e).

(** All locks free, nothing pushed. *)
Definition booted (m : machine) : Prop :=
  (∀ l, locks (ms m) l = Spinlock false None) ∧ (∀ c, noff (cpus (ms m) c) = 0) ∧
  (∀ c, at_pc m c = Run) ∧ ∀ c, extra m c = O.

(** CPU [c] is between a successful test-and-set of [l] and its release. *)
Definition owns (m : machine) (c l : nat) : Prop :=
  (locked (locks (ms m) l) = true ∧ lk_cpu (locks (ms m) l) = Some c) ∨ at_pc m c = Got l ∨ at_pc m c = Leave l.

(** Locks recorded as held by [c]. *)
Definition depth (p : pc) : Z := match p with Run => 0 | _ => 1 end.

(** ** Invariant *)

(** [held c]: the locks whose [cpu] field is [c]. *)
Record inv (m : machine) (held : nat → gset nat) : Prop := {
  in_held c l : l ∈ held c ↔ lk_cpu (locks (ms m) l) = Some c;
  in_locked l c : lk_cpu (locks (ms m) l) = Some c → locked (locks (ms m) l) = true;
  in_mid c l : at_pc m c = Got l ∨ at_pc m c = Leave l →
    locked (locks (ms m) l) = true ∧ lk_cpu (locks (ms m) l) = None;
  in_one c c' l : at_pc m c = Got l ∨ at_pc m c = Leave l → at_pc m c' = Got l ∨ at_pc m c' = Leave l → c = c';
  in_noff c : noff (cpus (ms m) c) = size (held c) + extra m c + depth (at_pc m c);
  in_off c : 0 < noff (cpus (ms m) c) → sie (cpus (ms m) c) = false
}.

Lemma push_off_ok c s s' :
  push_off c s = Done tt s' →
  locks s' = locks s ∧ (∀ c', c' ≠ c → cpus s' c' = cpus s c') ∧
  noff (cpus s' c) = noff (cpus s c) + 1 ∧ sie (cpus s' c) = false.
Proof.
  intros [= <-]. cbn. split; [done|]. split; [intros c' Hc; by rewrite !fn_lookup_insert_ne by done|].
  rewrite !fn_lookup_insert. cbn. by destruct (noff (cpus s c) =? 0).
Qed.

Lemma pop_off_ok c s :
  sie (cpus s c) = false → 1 ≤ noff (cpus s c) →
  ∃ s', pop_off c s = Done tt s' ∧ locks s' = locks s ∧ (∀ c', c' ≠ c → cpus s' c' = cpus s c') ∧
    noff (cpus s' c) = noff (cpus s c) - 1 ∧ (1 < noff (cpus s c) → sie (cpus s' c) = false).
Proof.
  intros Hs Hn. unfold pop_off, bind at 1, gets. rewrite Hs. destruct (Z.ltb_spec (noff (cpus s c)) 1); [lia|].
  cbn. rewrite fn_lookup_insert. cbn. destruct (Z.eqb_spec (noff (cpus s c) - 1) 0) as [E|E]; cbn.
  - destruct (intena (cpus s c)); eexists; (split; [done|]); cbn; (split; [done|]);
      (split; [intros c' Hc; by rewrite !fn_lookup_insert_ne by done|]); rewrite !fn_lookup_insert; cbn; (split; [done|lia]).
  - eexists; (split; [done|]); cbn. split; [done|]. split; [intros c' Hc; by rewrite fn_lookup_insert_ne|].
    rewrite fn_lookup_insert. done.
Qed.

(** A step that leaves the locks alone and changes only CPU [c], whose
    nesting keeps counting what it has pushed. *)
Lemma inv_cpu s s' p p' e e' held c :
  inv (Machine s p e) held → locks s' = locks s → (∀ c', c' ≠ c → cpus s' c' = cpus s c') →
  (∀ c', c' ≠ c → p' c' = p c' ∧ e' c' = e c') →
  (∀ l, p' c = Got l ∨ p' c = Leave l → p c = p' c) →
  noff (cpus s' c) = size (held c) + e' c + depth (p' c) →
  (0 < noff (cpus s' c) → sie (cpus s' c) = false) → inv (Machine s' p' e') held.
Proof.
  intros [H1 H2 H3 H4 H5 H6] El Ec Ep Epc En Es. cbn in *.
  assert (∀ c' l, p' c' = Got l ∨ p' c' = Leave l → p c' = Got l ∨ p c' = Leave l) as Hp.
  { intros c' l Hc'. destruct (decide (c' = c)) as [->|Hne]; [by rewrite (Epc l)|by rewrite <-(proj1 (Ep c' Hne))]. }
  split; cbn; rewrite ?El; try done.
  - intros c' l Hc'. by eapply H3, Hp.
  - intros c1 c2 l Hc1 Hc2. by apply (H4 c1 c2 l); apply Hp.
  - intros c'. destruct (decide (c' = c)) as [->|Hne]; [done|]. rewrite Ec by done. destruct (Ep c' Hne) as [-> ->]. apply H5.
  - intros c'. destruct (decide (c' = c)) as [->|Hne]; [done|]. rewrite Ec by done. apply H6.
Qed.

(** A step of CPU [c] on lock [l] that sets its fields to [x]. *)
Lemma inv_lock s s' p e p' held held' c l x :
  inv (Machine s p e) held → (∀ l', locks s' l' = <[l := x]> (locks s) l') → cpus s' = cpus s →
  (∀ c', c' ≠ c → p' c' = p c' ∧ held' c' = held c') →
  (∀ c', c' ≠ c → p c' ≠ Got l ∧ p c' ≠ Leave l ∧ lk_cpu x ≠ Some c' ∧ l ∉ held c') →
  (∀ l', l' ≠ l → (l' ∈ held' c ↔ l' ∈ held c)) → (l ∈ held' c ↔ lk_cpu x = Some c) →
  (lk_cpu x = Some c → locked x = true) →
  (p' c = Run ∨ (p' c = Got l ∨ p' c = Leave l) ∧ locked x = true ∧ lk_cpu x = None) →
  (∀ l', l' ≠ l → p c ≠ Got l' ∧ p c ≠ Leave l') →
  size (held' c) + depth (p' c) = size (held c) + depth (p c) →
  inv (Machine s' p' e) held'.
Proof.
  intros [H1 H2 H3 H4 H5 H6] El Ec Ep Hother Hh Hl Hx Hpc Hpc0 Hsz. cbn in *.
  assert (∀ c' l', p' c' = Got l' ∨ p' c' = Leave l' → (c' = c ∧ l' = l) ∨ (c' ≠ c ∧ l' ≠ l ∧ (p c' = Got l' ∨ p c' = Leave l'))) as Hp.
  { intros c' l' Hc'. destruct (decide (c' = c)) as [->|Hne].
    - left. split; [done|]. destruct Hpc as [E|[[E|E] _]]; rewrite E in Hc'; by destruct Hc' as [[=]|[=]].
    - right. split; [done|]. destruct (Ep c' Hne) as [E _]. rewrite E in Hc'. split; [|done].
      intros ->. destruct (Hother c' Hne) as (? & ? & _). by destruct Hc'. }
  split; cbn; rewrite ?Ec; try done.
  - intros c' l'. rewrite El. destruct (decide (l' = l)) as [->|Hne]; [rewrite fn_lookup_insert|rewrite fn_lookup_insert_ne by done];
      (destruct (decide (c' = c)) as [->|Hnc]; [|destruct (Ep c' Hnc) as [_ ->]]).
    + done.
    + destruct (Hother c' Hnc) as (_ & _ & ? & ?). done.
    + rewrite Hh by done. apply H1.
    + apply H1.
  - intros l' c'. rewrite El. destruct (decide (l' = l)) as [->|Hne]; [rewrite fn_lookup_insert|rewrite fn_lookup_insert_ne by done]; [|apply H2].
    intros E. destruct (decide (c' = c)) as [->|Hnc]; [by apply Hx|]. by destruct (Hother c' Hnc) as (_ & _ & ? & _).
  - intros c' l' Hc'. rewrite El. destruct (Hp c' l' Hc') as [[-> ->]|(_ & Hne & Hpc')].
    + rewrite fn_lookup_insert. destruct Hpc as [E|[_ E]]; [|done]. rewrite E in Hc'. by destruct Hc' as [[=]|[=]].
    + rewrite fn_lookup_insert_ne by done. by apply (H3 c').
  - intros c1 c2 l' Hc1 Hc2.
    destruct (Hp c1 l' Hc1) as [[E1 E2]|(? & ? & Hp1)], (Hp c2 l' Hc2) as [[E3 E4]|(? & ? & Hp2)]; try congruence.
    by apply (H4 c1 c2 l').
  - intros c'. rewrite H5. destruct (decide (c' = c)) as [->|Hnc]; [lia|]. by destruct (Ep c' Hnc) as [-> ->].
Qed.

(** ** Steps keep it *)

Lemma inv_push s s' p p' e e' held c :
  inv (Machine s p e) held → push_off c s = Done tt s' → p c = Run →
  (∀ c', c' ≠ c → p' c' = p c' ∧ e' c' = e c') → (∀ l, p' c ≠ Got l ∧ p' c ≠ Leave l) →
  e' c + depth (p' c) = e c + 1 → inv (Machine s' p' e') held.
Proof.
  intros Hi (El & Ec & En & Es)%push_off_ok Hr Ho Hp Hd. apply (inv_cpu s s' p p' e e' held c Hi El Ec Ho).
  - intros l [E|E]; by destruct (Hp l) as [??].
  - pose proof (in_noff _ _ Hi c) as Hn. cbn in Hn. rewrite Hr in Hn. cbn in Hn. lia.
  - done.
Qed.

Lemma inv_pop s s' p p' e e' held c :
  inv (Machine s p e) held → pop_off c s = Done tt s' →
  (∀ c', c' ≠ c → p' c' = p c' ∧ e' c' = e c') → p' c = Run → e' c + 1 = e c + depth (p c) →
  inv (Machine s' p' e') held.
Proof.
  intros Hi Hrun Ho Hp Hd. pose proof (in_noff _ _ Hi c) as Hn. cbn in Hn.
  destruct (pop_off_ok c s) as (s1 & E & El & Ec & En & Es); [apply (in_off _ _ Hi); cbn; lia|lia|].
  rewrite Hrun in E. injection E as <-. apply (inv_cpu s s' p p' e e' held c Hi El Ec Ho).
  - rewrite Hp. by intros l [[=]|[=]].
  - rewrite Hp. cbn. lia.
  - intros Hpos. apply Es. lia.
Qed.

Lemma inv_got s p e held c l :
  inv (Machine s p e) held → p c = Spin l → locked (locks s l) = false →
  inv (Machine (Sps (cpus s) (<[l := Spinlock true (lk_cpu (locks s l))]> (locks s))) (<[c := Got l]> p) e) held.
Proof.
  intros Hi Hp Hl. assert (lk_cpu (locks s l) = None) as Hn.
  { destruct (lk_cpu (locks s l)) as [c'|] eqn:E; [|done]. apply (in_locked _ _ Hi) in E. cbn in E. congruence. }
  eapply (inv_lock s _ p e _ held held c l); try done; cbn; rewrite ?Hn.
  - intros c' Hc. by rewrite fn_lookup_insert_ne.
  - intros c' Hc. assert (¬ (p c' = Got l ∨ p c' = Leave l)) as Hmid.
    { intros H. apply (in_mid _ _ Hi) in H as [H _]. cbn in H. congruence. }
    rewrite (in_held _ _ Hi). cbn. rewrite Hn. naive_solver.
  - rewrite (in_held _ _ Hi). cbn. by rewrite Hn.
  - right. rewrite fn_lookup_insert. by split; [left|].
  - intros l' Hl'. rewrite Hp. done.
  - rewrite fn_lookup_insert, Hp. done.
Qed.

Lemma inv_record s p e held c l :
  inv (Machine s p e) held → p c = Got l →
  inv (Machine (Sps (cpus s) (<[l := Spinlock (locked (locks s l)) (Some c)]> (locks s))) (<[c := Run]> p) e)
    (<[c := {[l]} ∪ held c]> held).
Proof.
  intros Hi Hp. destruct (in_mid _ _ Hi c l) as [Hl Hn]; [by left|]. cbn in *.
  assert (∀ c', l ∉ held c') as Hnot by (intros c'; rewrite (in_held _ _ Hi); cbn; congruence).
  eapply (inv_lock s _ p e _ held _ c l); try done; cbn; rewrite ?fn_lookup_insert; try set_solver.
  - intros c' Hc. by rewrite !fn_lookup_insert_ne.
  - intros c' Hc. assert (¬ (p c' = Got l ∨ p c' = Leave l)) as Hmid.
    { intros H. apply Hc. apply (in_one _ _ Hi c' c l); [done|by left]. }
    specialize (Hnot c'). naive_solver.
  - intros l' Hl'. rewrite Hp. naive_solver.
  - rewrite Hp, size_union, size_singleton by set_solver. cbn. lia.
Qed.

Lemma inv_leave s p e held c l :
  inv (Machine s p e) held → p c = Run → lk_cpu (locks s l) = Some c → locked (locks s l) = true →
  inv (Machine (Sps (cpus s) (<[l := Spinlock (locked (locks s l)) None]> (locks s))) (<[c := Leave l]> p) e)
    (<[c := held c ∖ {[l]}]> held).
Proof.
  intros Hi Hp Hc0 Hl.
  assert (l ∈ held c) as Hin by (by apply (in_held _ _ Hi)).
  eapply (inv_lock s _ p e _ held _ c l); try done; cbn; rewrite ?fn_lookup_insert; try set_solver.
  - intros c' Hc. by rewrite !fn_lookup_insert_ne.
  - intros c' Hc. assert (¬ (p c' = Got l ∨ p c' = Leave l)) as Hmid.
    { intros H. apply (in_mid _ _ Hi) in H as [_ H]. cbn in H. congruence. }
    rewrite (in_held _ _ Hi). cbn. rewrite Hc0. naive_solver.
  - intros l' _. rewrite Hp. done.
  - rewrite Hp, size_difference by set_solver. rewrite size_singleton. cbn.
    assert (size (held c) ≠ 0%nat) by (rewrite size_non_empty_iff; set_solver). lia.
Qed.

Lemma inv_unlock s p e held c l :
  inv (Machine s p e) held → p c = Leave l →
  inv (Machine (Sps (cpus s) (<[l := Spinlock false (lk_cpu (locks s l))]> (locks s))) (<[c := Spin l]> p) e) held.
Proof.
  intros Hi Hp. destruct (in_mid _ _ Hi c l) as [Hl Hn]; [by right|]. cbn in *.
  assert (∀ c', l ∉ held c') as Hnot by (intros c'; rewrite (in_held _ _ Hi); cbn; congruence).
  assert (∀ c' l', <[c := Spin l]> p c' = Got l' ∨ <[c := Spin l]> p c' = Leave l' → c' ≠ c ∧ l' ≠ l ∧ (p c' = Got l' ∨ p c' = Leave l')) as Hmid.
  { intros c' l' H. destruct (decide (c' = c)) as [->|Hne]; [rewrite fn_lookup_insert in H; naive_solver|].
    rewrite fn_lookup_insert_ne in H by done. split_and!; [done| |done]. intros ->. apply Hne.
    apply (in_one _ _ Hi c' c l); [done|by right]. }
  destruct Hi as [H1 H2 H3 H4 H5 H6]. cbn in *. split; cbn; try done.
  - intros c' l'. destruct (decide (l' = l)) as [->|]; [rewrite fn_lookup_insert|rewrite fn_lookup_insert_ne by done; apply H1].
    cbn. rewrite Hn. specialize (Hnot c'). naive_solver.
  - intros l' c'. destruct (decide (l' = l)) as [->|]; [rewrite fn_lookup_insert; cbn; by rewrite Hn|].
    rewrite fn_lookup_insert_ne by done. apply H2.
  - intros c' l' (? & ? & H)%Hmid. rewrite fn_lookup_insert_ne by done. by apply (H3 c').
  - intros c1 c2 l' (? & ? & Hc1)%Hmid (? & ? & Hc2)%Hmid. by apply (H4 c1 c2 l').
  - intros c'. rewrite H5. destruct (decide (c' = c)) as [->|]; [by rewrite fn_lookup_insert, Hp|by rewrite fn_lookup_insert_ne].
Qed.

Lemma step_inv m m' held : inv m held → step m m' → ∃ held', inv m' held'.
Proof.
  intros Hi Hst. destruct Hst as [c l s s' p e Hp Hrun|c l s s' p e Hp Hrun|c l s s' p e Hp Hrun|c l s s' p e Hp Hrun
    |c l s s' p e Hp Hrun|c l s s' p e Hp Hrun|c s s' p e Hp Hrun|c n s s' p e Hp He Hrun|c b s s' p e Hp Hn Hrun].
  - apply bind_inv in Hrun as ([] & s1 & Hpush & Hrest). unfold bind, holding, gets in Hrest.
    destruct (locked _ && _); [done|]. injection Hrest as <-. exists held. eapply (inv_push s); [done..| | |].
    + intros c' Hc. by rewrite fn_lookup_insert_ne.
    + by rewrite fn_lookup_insert.
    + by rewrite fn_lookup_insert.
  - injection Hrun as Hl <-. exists held. destruct Hi as [H1 H2 H3 H4 H5 H6]. split; try done; cbn in *.
    all: assert (∀ l', <[l := Spinlock true (lk_cpu (locks s l))]> (locks s) l' = locks s l') as E
      by (intros l'; destruct (decide (l' = l)) as [->|]; [rewrite fn_lookup_insert, <-Hl; by destruct (locks s l)|by rewrite fn_lookup_insert_ne]).
    + intros c' l'. by rewrite E.
    + intros l' c'. rewrite E. apply H2.
    + intros c' l'. rewrite E. apply H3.
  - injection Hrun as Hl <-. exists held. by apply inv_got.
  - injection Hrun as <-. eexists. by apply inv_record.
  - unfold release_enter, bind, holding, gets in Hrun. destruct (locked (locks s l)) eqn:El; [|done].
    cbn in Hrun. case_bool_decide as Ec; [|done]. injection Hrun as <-. eexists. by apply inv_leave.
  - unfold release_exit, bind, upd_lock, modify in Hrun. exists held.
    eapply (inv_pop _ s' (<[c := Spin l]> p) _ e e held c); [by apply inv_unlock|exact Hrun|..].
    + intros c' Hc. by rewrite !fn_lookup_insert_ne.
    + by rewrite fn_lookup_insert.
    + by rewrite fn_lookup_insert.
  - exists held. eapply (inv_push s s' p p e _ held c); [done..| |by rewrite Hp|].
    + intros c' Hc. by rewrite fn_lookup_insert_ne.
    + rewrite fn_lookup_insert, Hp. cbn. lia.
  - exists held. eapply (inv_pop s s' p p e _ held c); [done..| |done|].
    + intros c' Hc. by rewrite fn_lookup_insert_ne.
    + rewrite fn_lookup_insert, Hp, He. cbn. lia.
  - injection Hrun as <-. exists held. pose proof (in_noff _ _ Hi c) as Hnc. cbn in Hnc.
    apply (inv_cpu s _ p p e e held c Hi); cbn; try done; rewrite ?fn_lookup_insert; cbn; [|lia..].
    intros c' Hc. by rewrite fn_lookup_insert_ne.
Qed.

Lemma booted_inv m : booted m → inv m (λ _, ∅).
Proof.
  intros (Hl & Hn & Hp & He). split.
  - intros c l. rewrite Hl. set_solver.
  - intros l c. by rewrite Hl.
  - intros c l. rewrite Hp. by intros [[=]|[=]].
  - intros c c' l. rewrite Hp. by intros [[=]|[=]].
  - intros c. by rewrite Hn, Hp, He.
  - intros c. rewrite Hn. lia.
Qed.

Lemma reachable_inv m m' : booted m → rtc step m m' → ∃ held, inv m' held.
Proof.
  intros Hb Hr. assert (∃ held, inv m held) as Hi by (eexists; by apply booted_inv). clear Hb.
  induction Hr as [m|m1 m2 m3 Hst _ IH]; [done|]. destruct Hi as [held Hi]. eapply IH, step_inv; done.
Qed.

(** C5. In every interleaving of acquire, release, push_off, pop_off and
    interrupt switching by any number of CPUs, at most one CPU is between
    acquire's successful test-and-set of a lock and release's store; such a CPU
    has interrupts off, so that no interrupt handler can spin on a lock its
    own CPU holds; a release that has started never panics, and a CPU that
    has released everything is back at nesting depth 0. *)
Theorem spinlock_mutual_exclusion m m' :
  booted m → rtc step m m' →
  (∀ c c' l, owns m' c l → owns m' c' l → c = c') ∧
  (∀ c l, owns m' c l → sie (cpus (ms m') c) = false) ∧
  (∀ c l, at_pc m' c = Leave l → ∃ s, release_exit c l (ms m') = Done tt s) ∧
  (∀ c, at_pc m' c = Run → extra m' c = O → (∀ l, ¬ owns m' c l) → noff (cpus (ms m') c) = 0).
Proof.
  intros Hb Hr. destruct (reachable_inv _ _ Hb Hr) as [held Hi]. split; [|split; [|split]].
  - intros c c' l [[_ H]|H] [[_ H']|H']; [congruence| | |by apply (in_one _ _ Hi c c' l)].
    + apply (in_mid _ _ Hi) in H' as [_ H']. congruence.
    + apply (in_mid _ _ Hi) in H as [_ H]. congruence.
  - intros c l H. apply (in_off _ _ Hi). rewrite (in_noff _ _ Hi). destruct H as [[_ H]|[H|H]]; [|rewrite H; cbn; lia..].
    apply (in_held _ _ Hi) in H. assert (size (held c) ≠ 0%nat) by (rewrite size_non_empty_iff; set_solver).
    destruct (at_pc m' c); cbn; lia.
  - intros c l H. pose proof (in_noff _ _ Hi c) as Hn. rewrite H in Hn. cbn in Hn.
    unfold release_exit, bind, upd_lock, modify.
    destruct (pop_off_ok c (Sps (cpus (ms m')) (<[l := Spinlock false (lk_cpu (locks (ms m') l))]> (locks (ms m'))))) as (s & E & _);
      cbn; [apply (in_off _ _ Hi); lia|lia|by exists s].
  - intros c Hp He Ho. rewrite (in_noff _ _ Hi), Hp, He. cbn.
    assert (held c = ∅) as ->; [|by rewrite size_empty].
    apply set_eq. intros l. split; [|set_solver]. intros Hl%(in_held _ _ Hi).
    destruct (Ho l). left. split; [by apply (in_locked _ _ Hi) in Hl|done].
Qed.

Definition ex_machine : machine :=
  Machine (Sps (λ _, Cpu 0 false true) (λ _, Spinlock false None)) (λ _, Run) (λ _, O).

(** Two CPUs acquire the same lock; the second one spins. *)
Lemma spinlock_mutual_exclusion_witness :
  ∃ m, rtc step ex_machine m ∧ owns m 0 7 ∧ ∀ c, owns m c 7 → c = 0%nat.
Proof.
  eassert (rtc step ex_machine _) as Hr.
  { eapply rtc_l; [by apply (step_acquire 0 7)|]. eapply rtc_l; [by apply (step_acquire 1 7)|].
    eapply rtc_l; [by apply (step_got 0 7)|]. eapply rtc_l; [by apply (step_spin 1 7)|]. apply rtc_refl. }
  eexists. split; [exact Hr|]. split; [right; left; reflexivity|]. intros c Hc.
  destruct (spinlock_mutual_exclusion ex_machine _ ltac:(by split_and!) Hr) as (H & _).
  apply (H c 0%nat 7%nat Hc). right; left; reflexivity.
Defined.
