(* ===== verification/Proc.v ===== *)
(** * Processes, kernel/proc.c

    A process pointer is an index into [ptable]; [me] is [myproc()]. Code
    under a process's lock, [wait_lock] or [pid_lock] is atomic; a function
    with several critical sections is the composition of its parts. A
    process that calls sched gives up its CPU at the end of a part. *)

From S2P Require Import Prelude Ring Riscv Mem Kalloc Vm Block FsFormat Log LogSpec LogOps Txn Fs.
From S2P Require Import Pipe Uart Printf Console File Spinlock.

Definition NOFILE : Z := 16.
Definition NCPU : Z := 8.

Inductive procstate := UNUSED | USED | SLEEPING | RUNNABLE | RUNNING | ZOMBIE.
#[global] Instance procstate_dec : EqDecision procstate.
Proof. solve_decision. Defined.

Record proc := Proc {
  state : procstate;
  chan : Z;
  killed : bool;
  xstate : Z;
  p_pid : Z;
  parent : option nat;
  kstack : Z;
  sz : Z;
  pagetable : Z;
  trapframe : Z;             (* address of its page *)
  context_ra : Z;
  context_sp : Z;
  ofile : list (option nat);
  cwd : option nat;
  pname : list Z             (* 16 bytes *)
}.
#[global] Instance proc_inhabited : Inhabited proc :=
  populate (Proc UNUSED 0 false 0 0 None 0 0 0 0 0 0 (replicate 16 None) None (replicate 16 0)).

Definition set_state (x : procstate) (p : proc) : proc :=
  Proc x (chan p) (killed p) (xstate p) (p_pid p) (parent p) (kstack p) (sz p) (pagetable p) (trapframe p)
    (context_ra p) (context_sp p) (ofile p) (cwd p) (pname p).
Definition set_chan (x : Z) (p : proc) : proc :=
  Proc (state p) x (killed p) (xstate p) (p_pid p) (parent p) (kstack p) (sz p) (pagetable p) (trapframe p)
    (context_ra p) (context_sp p) (ofile p) (cwd p) (pname p).
Definition set_killed (x : bool) (p : proc) : proc :=
  Proc (state p) (chan p) x (xstate p) (p_pid p) (parent p) (kstack p) (sz p) (pagetable p) (trapframe p)
    (context_ra p) (context_sp p) (ofile p) (cwd p) (pname p).
Definition set_xstate (x : Z) (p : proc) : proc :=
  Proc (state p) (chan p) (killed p) x (p_pid p) (parent p) (kstack p) (sz p) (pagetable p) (trapframe p)
    (context_ra p) (context_sp p) (ofile p) (cwd p) (pname p).
Definition set_pid (x : Z) (p : proc) : proc :=
  Proc (state p) (chan p) (killed p) (xstate p) x (parent p) (kstack p) (sz p) (pagetable p) (trapframe p)
    (context_ra p) (context_sp p) (ofile p) (cwd p) (pname p).
Definition set_parent (x : option nat) (p : proc) : proc :=
  Proc (state p) (chan p) (killed p) (xstate p) (p_pid p) x (kstack p) (sz p) (pagetable p) (trapframe p)
    (context_ra p) (context_sp p) (ofile p) (cwd p) (pname p).
Definition set_kstack (x : Z) (p : proc) : proc :=
  Proc (state p) (chan p) (killed p) (xstate p) (p_pid p) (parent p) x (sz p) (pagetable p) (trapframe p)
    (context_ra p) (context_sp p) (ofile p) (cwd p) (pname p).
Definition set_sz (x : Z) (p : proc) : proc :=
  Proc (state p) (chan p) (killed p) (xstate p) (p_pid p) (parent p) (kstack p) x (pagetable p) (trapframe p)
    (context_ra p) (context_sp p) (ofile p) (cwd p) (pname p).
Definition set_pagetable (x : Z) (p : proc) : proc :=
  Proc (state p) (chan p) (killed p) (xstate p) (p_pid p) (parent p) (kstack p) (sz p) x (trapframe p)
    (context_ra p) (context_sp p) (ofile p) (cwd p) (pname p).
Definition set_trapframe (x : Z) (p : proc) : proc :=
  Proc (state p) (chan p) (killed p) (xstate p) (p_pid p) (parent p) (kstack p) (sz p) (pagetable p) x
    (context_ra p) (context_sp p) (ofile p) (cwd p) (pname p).
Definition set_context (ra sp : Z) (p : proc) : proc :=
  Proc (state p) (chan p) (killed p) (xstate p) (p_pid p) (parent p) (kstack p) (sz p) (pagetable p) (trapframe p)
    ra sp (ofile p) (cwd p) (pname p).
Definition set_ofile (x : list (option nat)) (p : proc) : proc :=
  Proc (state p) (chan p) (killed p) (xstate p) (p_pid p) (parent p) (kstack p) (sz p) (pagetable p) (trapframe p)
    (context_ra p) (context_sp p) x (cwd p) (pname p).
Definition set_cwd (x : option nat) (p : proc) : proc :=
  Proc (state p) (chan p) (killed p) (xstate p) (p_pid p) (parent p) (kstack p) (sz p) (pagetable p) (trapframe p)
    (context_ra p) (context_sp p) (ofile p) x (pname p).
Definition set_pname (x : list Z) (p : proc) : proc :=
  Proc (state p) (chan p) (killed p) (xstate p) (p_pid p) (parent p) (kstack p) (sz p) (pagetable p) (trapframe p)
    (context_ra p) (context_sp p) (ofile p) (cwd p) x.

(** Offsets in [struct trapframe]. *)
Definition TF_KERNEL_SATP : Z := 0.
Definition TF_KERNEL_SP : Z := 8.
Definition TF_KERNEL_TRAP : Z := 16.
Definition TF_EPC : Z := 24.
Definition TF_KERNEL_HARTID : Z := 32.
Definition TF_SP : Z := 48.
Definition TF_A (n : Z) : Z := 112 + 8 * n.
Definition SIZEOF_TRAPFRAME : Z := 288.

(** [safestrcpy(s, t, n)], [s] and [t] being lists of characters. *)
Fixpoint safestrcpy_list (s t : list Z) (n : nat) : list Z :=
  match n, s with
  | S (S n), x :: s =>
      let c := default 0 (head t) in
      c :: if c =? 0 then safestrcpy_list s (tail t) 1 else safestrcpy_list s (tail t) (S n)
  | S O, _ :: s => 0 :: s
  | _, _ => s
  end.

(** Results of wait: a value, or asleep on [me]. *)
Inductive wsegment := WReturned (r : Z) | WBlocked.

(** Addresses chosen by the linker and the compiler: the end of the kernel, code
    and data the kernel refers to, and local variables whose address is taken;
    the device's answers and how often it is polled. *)
Record env := Env {
  e_kend : Z; e_trampoline : Z; e_forkret : Z; e_initcode : Z; e_usertrap : Z;
  e_logstart : Z; e_nlog : Z;
  e_root : Z;                (* the string "/" *)
  e_bufaddr : nat → Z;       (* data of the buffers *)
  e_ch : Z; e_st : Z; e_de : Z; e_path : Z; e_path2 : Z; e_name : Z; e_word : Z;
  e_elf : Z; e_ph : Z; e_ustack : Z; e_dot : Z; e_dotdot : Z; e_de2 : Z;
  e_procaddr : nat → Z;      (* &proc[i], the channel of wait *)
  e_chan_tx_r : Z; e_chan_ticks : Z;
  e_idle : nat → bool; e_polls : nat
}.

Section proc.
Context {Sc : Type} {dev : Z} `{!BufCache Sc dev} (E : env).

#[local] Instance ptxn : TxnLayer (lst Sc) dev := log_txn (e_logstart E) (e_nlog E).

Record kst := Kst {
  kfl : @fls Sc;
  ptable : list proc;
  nextpid : Z;
  initproc : option nat;
  ticks : Z;
  first : bool              (* of forkret *)
}.

Definition on_fl {A} (m : M (@fls Sc) A) : M kst A := λ s,
  match m (kfl s) with
  | Done a x => Done a (Kst x (ptable s) (nextpid s) (initproc s) (ticks s) (first s))
  | Panic msg => Panic msg
  | Sleep c x => Sleep c (Kst x (ptable s) (nextpid s) (initproc s) (ticks s) (first s))
  | OutOfFuel => OutOfFuel
  end.
Definition on_fs {A} (m : M (@Fs.fst (lst Sc)) A) : M kst A := on_fl (File.on_fs m).
Definition on_k {A} (m : M kmem A) : M kst A := on_fs (Fs.on_k m).
Definition on_uart {A} (m : M uart A) : M kst A := on_fl (on_cons (on_u m)).
Definition getp (p : nat) : M kst proc := gets (λ s, ptable s !!! p).
Definition updp (p : nat) (f : proc → proc) : M kst unit :=
  modify (λ s, Kst (kfl s) (alter f p (ptable s)) (nextpid s) (initproc s) (ticks s) (first s)).
Definition fileclose (pid : Z) (f : nat) : M kst unit :=
  on_fl (File.fileclose (e_logstart E) (e_nlog E) (e_kend E) pid f).
Definition begin_op : M kst unit := on_fl File.begin_op.
Definition end_op : M kst unit := on_fl File.end_op.
Definition namei (p : proc) (path : Z) : M kst (option nat) :=
  on_fs (Fs.namei (p_pid p) (pagetable p) (default 0%nat (cwd p)) (e_bufaddr E) (e_de E) path (e_name E)).

Definition procinit : M kst unit :=
  for_each (seqZ 0 NPROC) (λ i, updp (Z.to_nat i) (λ p, set_kstack (KSTACK i) (set_state UNUSED p))).

Definition allocpid : M kst Z :=
  let* pid := gets nextpid in
  modify (λ s, Kst (kfl s) (ptable s) (i32 (nextpid s + 1)) (initproc s) (ticks s) (first s)) ;;;
  ret pid.

Definition freeproc (i : nat) : M kst unit :=
  let* p := getp i in
  (if negb (trapframe p =? 0) then on_k (kfree (e_kend E) (trapframe p)) else ret tt) ;;;
  updp i (set_trapframe 0) ;;;
  (if negb (pagetable p =? 0) then on_k (proc_freepagetable (e_kend E) (pagetable p) (sz p)) else ret tt) ;;;
  updp i (λ p, set_state UNUSED (set_xstate 0 (set_killed false (set_chan 0 (set_pname (<[0%nat := 0]> (pname p))
    (set_parent None (set_pid 0 (set_sz 0 (set_pagetable 0 p))))))))).

(** The first process that satisfies [f]. *)
Fixpoint find_proc (f : proc → bool) (t : list proc) (i : nat) : option nat :=
  match t with
  | [] => None
  | p :: t => if f p then Some i else find_proc f t (S i)
  end.

Definition allocproc : M kst (option nat) :=
  let* t := gets ptable in
  match find_proc (λ p, bool_decide (state p = UNUSED)) t 0 with
  | None => ret None
  | Some i =>
      let* pid := allocpid in
      updp i (set_pid pid) ;;;
      updp i (set_state USED) ;;;
      let* tf := on_k kalloc in
      updp i (set_trapframe tf) ;;;
      if tf =? 0 then freeproc i ;;; ret None
      else
        let* pt := on_k (proc_pagetable (e_kend E) (e_trampoline E) tf) in
        updp i (set_pagetable pt) ;;;
        if pt =? 0 then freeproc i ;;; ret None
        else
          updp i (λ p, set_context (e_forkret E) (kstack p + PGSIZE) p) ;;;
          ret (Some i)
  end.

Definition SIZEOF_INITCODE : Z := 52.

(** If allocproc fails the load through the null pointer traps. *)
Definition userinit : M kst unit :=
  let* r := allocproc in
  modify (λ s, Kst (kfl s) (ptable s) (nextpid s) r (ticks s) (first s)) ;;;
  match r with
  | None => panic "kerneltrap"
  | Some i =>
      let* p := getp i in
      on_k (uvmfirst (pagetable p) (e_initcode E) SIZEOF_INITCODE) ;;;
      updp i (set_sz PGSIZE) ;;;
      on_k (st64 (trapframe p + TF_EPC) 0) ;;;
      on_k (st64 (trapframe p + TF_SP) PGSIZE) ;;;
      updp i (λ p, set_pname (safestrcpy_list (pname p) (str "initcode") 16) p) ;;;
      let* p := getp i in
      let* ip := namei p (e_root E) in
      updp i (set_cwd ip) ;;;
      updp i (set_state RUNNABLE)
  end.

Definition growproc (me : nat) (n : Z) : M kst Z :=
  let* p := getp me in
  if 0 <? n then
    let* r := on_k (uvmalloc (e_kend E) (pagetable p) (sz p) (u64 (sz p + n)) PTE_W) in
    if r =? 0 then ret (-1) else updp me (set_sz r) ;;; ret 0
  else if n <? 0 then
    let* r := on_k (uvmdealloc (e_kend E) (pagetable p) (sz p) (u64 (sz p + n))) in
    updp me (set_sz r) ;;;
    ret 0
  else ret 0.

(** ** Scheduling *)

(** Up to swtch; [c] is the CPU the process runs on and [holding] whether it
    holds the process's lock. *)
Definition sched (me : nat) (holding : bool) (c : cpu) : M kst unit :=
  let* p := getp me in
  if negb holding then panic "sched p->lock"
  else if negb (noff c =? 1) then panic "sched locks"
  else if bool_decide (state p = RUNNING) then panic "sched running"
  else if sie c then panic "sched interruptible"
  else ret tt.

(** The body of scheduler's inner loop, up to swtch: whether [p] now runs. *)
Definition scheduler_try (i : nat) : M kst bool :=
  let* p := getp i in
  if bool_decide (state p = RUNNABLE) then
    updp i (set_state RUNNING) ;;;
    ret true
  else ret false.

Definition yield (me : nat) (c : cpu) : M kst unit :=
  updp me (set_state RUNNABLE) ;;;
  sched me true c.

(** sleep, before and after it gives up the CPU. *)
Definition sleep (me : nat) (ch : Z) (c : cpu) : M kst unit :=
  updp me (set_chan ch) ;;;
  updp me (set_state SLEEPING) ;;;
  sched me true c.
Definition sleep_return (me : nat) : M kst unit := updp me (set_chan 0).

Definition wake_if (ch : Z) (p : proc) : proc :=
  if bool_decide (state p = SLEEPING) && (chan p =? ch) then set_state RUNNABLE p else p.

(** [me] is [None] in an interrupt handler with no process. *)
Definition wakeup (me : option nat) (ch : Z) : M kst unit :=
  for_each (seqZ 0 NPROC) (λ i,
    if decide (me = Some (Z.to_nat i)) then ret tt else updp (Z.to_nat i) (wake_if ch)).

Definition kill_one (p : proc) : proc :=
  let p := set_killed true p in
  if bool_decide (state p = SLEEPING) then set_state RUNNABLE p else p.

Definition kill (pid : Z) : M kst Z :=
  let* t := gets ptable in
  match find_proc (λ p, p_pid p =? pid) t 0 with
  | Some i => updp i kill_one ;;; ret 0
  | None => ret (-1)
  end.

Definition setkilled (i : nat) : M kst unit := updp i (set_killed true).
Definition is_killed (i : nat) : M kst bool := gets (λ s, killed (ptable s !!! i)).

(** ** fork, exit and wait *)

(** Up to the release of np->lock. *)
Definition fork_copy (me : nat) : M kst (option nat) :=
  let* r := allocproc in
  match r with
  | None => ret None
  | Some np =>
      let* p := getp me in
      let* n := getp np in
      let* r := on_k (uvmcopy (e_kend E) (pagetable p) (pagetable n) (sz p)) in
      if r <? 0 then freeproc np ;;; ret None
      else
        updp np (set_sz (sz p)) ;;;
        on_k (memmove_k (trapframe n) (trapframe p) SIZEOF_TRAPFRAME) ;;;
        on_k (st64 (trapframe n + TF_A 0) 0) ;;;
        for_each (seqZ 0 NOFILE) (λ i,
          match ofile p !!! Z.to_nat i with
          | Some f =>
              let* f' := on_fl (filedup f) in
              updp np (λ n, set_ofile (<[Z.to_nat i := Some f']> (ofile n)) n)
          | None => ret tt
          end) ;;;
        let* ip := on_fs (idup (default 0%nat (cwd p))) in
        updp np (set_cwd (Some ip)) ;;;
        updp np (λ n, set_pname (safestrcpy_list (pname n) (pname p) 16) n) ;;;
        ret (Some np)
  end.

(** Under wait_lock, and under np->lock again. *)
Definition fork_parent (me np : nat) : M kst unit := updp np (set_parent (Some me)).
Definition fork_start (np : nat) : M kst unit := updp np (set_state RUNNABLE).

Definition fork (me : nat) : M kst Z :=
  let* r := fork_copy me in
  match r with
  | None => ret (-1)
  | Some np =>
      let* n := getp np in
      fork_parent me np ;;;
      fork_start np ;;;
      ret (p_pid n)
  end.

(** The channel of a process pointer. *)
Definition proc_chan (p : option nat) : Z :=
  match p with
  | Some i => e_procaddr E i
  | None => 0
  end.

Definition reparent (me : nat) : M kst unit :=
  for_each (seqZ 0 NPROC) (λ i,
    let* pp := getp (Z.to_nat i) in
    if decide (parent pp = Some me) then
      let* ini := gets initproc in
      updp (Z.to_nat i) (set_parent ini) ;;;
      wakeup (Some me) (proc_chan ini)
    else ret tt).

(** exit, until it takes wait_lock. *)
Definition exit_files (me : nat) : M kst unit :=
  let* ini := gets initproc in
  if decide (ini = Some me) then panic "init exiting"
  else
    for_each (seqZ 0 NOFILE) (λ fd,
      let* p := getp me in
      match ofile p !!! Z.to_nat fd with
      | Some f =>
          fileclose (p_pid p) f ;;;
          updp me (λ p, set_ofile (<[Z.to_nat fd := None]> (ofile p)) p)
      | None => ret tt
      end) ;;;
    begin_op ;;;
    let* p := getp me in
    on_fs (iput (p_pid p) (default 0%nat (cwd p))) ;;;
    end_op ;;;
    updp me (set_cwd None).

(** exit, under wait_lock and p->lock, up to swtch. *)
Definition exit_zombie (me : nat) (status : Z) (c : cpu) : M kst unit :=
  reparent me ;;;
  let* p := getp me in
  wakeup (Some me) (proc_chan (parent p)) ;;;
  updp me (set_xstate status) ;;;
  updp me (set_state ZOMBIE) ;;;
  sched me true c.

Definition exit (me : nat) (status : Z) (c : cpu) : M kst unit := exit_files me ;;; exit_zombie me status c.

(** The scan of wait: [inl] the value to return, or [inr] whether there are
    children. *)
Fixpoint wait_scan (me : nat) (addr : Z) (idx : list Z) (havekids : bool) : M kst (Z + bool) :=
  match idx with
  | [] => ret (inr havekids)
  | i :: idx =>
      let i := Z.to_nat i in
      let* pp := getp i in
      if decide (parent pp = Some me) then
        if bool_decide (state pp = ZOMBIE) then
          let* p := getp me in
          let* r :=
            (if addr =? 0 then ret 0
             else
               on_fs (stmem (λ m, store_bytes m (e_word E) (Z_to_little_endian 4 8 (xstate pp)))) ;;;
               on_k (copyout (pagetable p) addr (e_word E) 4)) in
          if r <? 0 then ret (inl (-1))
          else
            freeproc i ;;;
            ret (inl (p_pid pp))
        else wait_scan me addr idx true
      else wait_scan me addr idx havekids
  end.

(** One turn of wait's loop. *)
Definition wait (me : nat) (addr : Z) (c : cpu) : M kst wsegment :=
  let* r := wait_scan me addr (seqZ 0 NPROC) false in
  match r with
  | inl r => ret (WReturned r)
  | inr havekids =>
      let* k := is_killed me in
      if negb havekids || k then ret (WReturned (-1))
      else sleep me (e_procaddr E me) c ;;; ret WBlocked
  end.

(** ** procdump *)

Definition state_name (s : procstate) : list Z :=
  match s with
  | UNUSED => str "unused"
  | USED => str "used"
  | SLEEPING => str "sleep "
  | RUNNABLE => str "runble"
  | RUNNING => str "run   "
  | ZOMBIE => str "zombie"
  end.

(** The characters of an array before its NUL. *)
Fixpoint before_nul (s : list Z) : list Z :=
  match s with
  | [] => []
  | c :: s => if c =? 0 then [] else c :: before_nul s
  end.

(** 1 and 2 stand for the addresses of the two strings. *)
Definition procdump : M kst unit :=
  let* t := gets ptable in
  on_uart (KPrintf.printf (e_idle E) (e_polls E) (λ _, []) (Some [10]) (λ _, 0)) ;;;
  for_each t (λ p,
    if bool_decide (state p = UNUSED) then ret tt
    else
      on_uart (KPrintf.printf (e_idle E) (e_polls E) (λ a, if a =? 1 then state_name (state p) else before_nul (pname p))
        (Some (str "%d %s %s")) (λ k, [p_pid p; 1; 2] !!! k)) ;;;
      on_uart (KPrintf.printf (e_idle E) (e_polls E) (λ _, []) (Some [10]) (λ _, 0))).
End proc.
