(* ===== verification/ProcFrame.v ===== *)
(** * What the operations on processes change in the process table *)

From S2P Require Import Prelude Ring Riscv Mem Kalloc Vm Block FsFormat Log LogSpec LogOps Txn Fs.
From S2P Require Import Pipe Uart Printf Console File Spinlock Proc.

Section frame.
Context {Sc : Type} {dev : Z} `{!BufCache Sc dev} (E : env).
Abbreviation kst := (@kst Sc).

(** [m] keeps the length of the table, nextpid and initproc, and relates the
    process [q] before and after by [R q]. *)
Definition rel (R : nat → proc → proc → Prop) (s s' : kst) : Prop :=
  (length (ptable s') = length (ptable s) ∧ nextpid s' = nextpid s ∧ initproc s' = initproc s) ∧
  ∀ q p, ptable s !! q = Some p → ∃ p', ptable s' !! q = Some p' ∧ R q p p'.
Definition keeps (R : nat → proc → proc → Prop) {A} (m : M kst A) : Prop :=
  ∀ s a s', m s = Done a s' → rel R s s'.

Section rel.
Context (R : nat → proc → proc → Prop) (Hrefl : ∀ q p, R q p p) (Htrans : ∀ q p1 p2 p3, R q p1 p2 → R q p2 p3 → R q p1 p3).

Lemma rel_refl s s' : ptable s' = ptable s → nextpid s' = nextpid s → initproc s' = initproc s → rel R s s'.
Proof using Hrefl. intros H H1 H2. split; [by rewrite H|]. intros q p Hq. exists p. rewrite H. eauto. Qed.

Lemma rel_trans s1 s2 s3 : rel R s1 s2 → rel R s2 s3 → rel R s1 s3.
Proof using Htrans.
  intros [(La & Na & Ia) H1] [(Lb & Nb & Ib) H2]. split; [split_and!; congruence|]. intros q p Hq.
  destruct (H1 q p Hq) as (p' & Hq' & Hr). destruct (H2 q p' Hq') as (p'' & Hq'' & Hr'). eauto.
Qed.

Lemma pt_keeps_ret {A} (a : A) : keeps R (ret a).
Proof using Hrefl. intros s b s' [= _ <-]. by apply rel_refl. Qed.
Lemma keeps_gets {A} (f : kst → A) : keeps R (gets f).
Proof using Hrefl. intros s b s' [= _ <-]. by apply rel_refl. Qed.
Lemma keeps_panic {A} msg : keeps R (panic (A:=A) msg).
Proof using. by intros s b s'. Qed.

Lemma pt_keeps_bind {A B} (m : M kst A) (k : A → M kst B) : keeps R m → (∀ a, keeps R (k a)) → keeps R (bind m k).
Proof using Htrans. intros Hm Hk s b s'' (a & s' & H1 & H2)%bind_inv. eapply rel_trans; [by eapply Hm|by eapply Hk]. Qed.

Lemma keeps_if {A} (b : bool) (m1 m2 : M kst A) : keeps R m1 → keeps R m2 → keeps R (if b then m1 else m2).
Proof using. by destruct b. Qed.

Lemma pt_keeps_for_each {B} (l : list B) (body : B → M kst unit) : (∀ x, keeps R (body x)) → keeps R (for_each l body).
Proof using Hrefl Htrans. intros Hb. induction l as [|x l IH]; [apply pt_keeps_ret|]. by apply pt_keeps_bind. Qed.

Lemma keeps_on_fl {A} (m : M _ A) : keeps R (on_fl m).
Proof using Hrefl.
  intros s a s' H. unfold on_fl in H. destruct (m (kfl s)); simplify_eq. by apply rel_refl.
Qed.

Lemma keeps_updp i f : (∀ p, R i p (f p)) → keeps R (updp i f).
Proof using Hrefl.
  intros Hf s a s' [= _ <-]. split; [cbn; by rewrite length_alter|]. cbn. intros q p Hq.
  destruct (decide (q = i)) as [->|Hne]; [rewrite list_lookup_alter_eq, Hq; cbn; eauto|].
  rewrite list_lookup_alter_ne by done. eauto.
Qed.
End rel.
End frame.

(** Proves [keeps R m] by the structure of [m]. *)
Ltac frame :=
  lazymatch goal with
  | |- keeps _ (bind _ _) => apply pt_keeps_bind; [by eauto|frame|let x := fresh in intros x; frame]
  | |- keeps _ (ret _) => apply pt_keeps_ret; by eauto
  | |- keeps _ (gets _) => apply keeps_gets; by eauto
  | |- keeps _ (getp _) => apply keeps_gets; by eauto
  | |- keeps _ (panic _) => apply keeps_panic
  | |- keeps _ (on_fl _) => apply keeps_on_fl; by eauto
  | |- keeps _ (on_fs _) => apply keeps_on_fl; by eauto
  | |- keeps _ (on_k _) => apply keeps_on_fl; by eauto
  | |- keeps _ (for_each _ _) => apply pt_keeps_for_each; [by eauto|by eauto|let x := fresh in intros x; frame]
  | |- keeps _ (updp _ _) => apply keeps_updp; [by eauto|try by eauto]
  | |- keeps _ (match ?x with _ => _ end) => destruct x; frame
  | |- _ => try done
  end.

(** ** The relations used *)

(** Only the process [i] changes. *)
Definition only (i : nat) (q : nat) (p p' : proc) : Prop := q ≠ i → p' = p.
(** Nothing starts or stops running, and a process that is being created stays so. *)
Definition calm (q : nat) (p p' : proc) : Prop :=
  (state p' = RUNNING ↔ state p = RUNNING) ∧ (state p = USED → state p' = USED).

Lemma only_refl i q p : only i q p p.
Proof. done. Qed.
Lemma only_trans i q p1 p2 p3 : only i q p1 p2 → only i q p2 p3 → only i q p1 p3.
Proof. unfold only. intros H1 H2 Hq. by rewrite H2, H1. Qed.
Lemma only_self i p p' : only i i p p'.
Proof. by intros []. Qed.
Lemma calm_refl q p : calm q p p.
Proof. done. Qed.
Lemma calm_trans q p1 p2 p3 : calm q p1 p2 → calm q p2 p3 → calm q p1 p3.
Proof. unfold calm. naive_solver. Qed.
Lemma calm_state q p p' : state p' = state p → calm q p p'.
Proof. by intros E; unfold calm; rewrite E. Qed.
#[export] Hint Resolve only_refl only_trans only_self calm_refl calm_trans calm_state : core.

Lemma calm_wake ch q p : calm q p (wake_if ch p).
Proof. unfold wake_if, calm. case_bool_decide as Hs; [|done]. destruct (chan p =? ch); [|done]. cbn. by rewrite Hs. Qed.
Lemma calm_kill q p : calm q p (kill_one p).
Proof. unfold kill_one, calm. cbn. case_bool_decide as Hs; cbn; [by rewrite Hs|done]. Qed.
#[export] Hint Resolve calm_wake calm_kill : core.

Section ops.
Context {Sc : Type} {dev : Z} `{!BufCache Sc dev} (E : env).

Lemma freeproc_only i : keeps (Sc:=Sc) (only i) (freeproc E i).
Proof. unfold freeproc. frame. Qed.

Lemma wakeup_calm me ch : keeps (Sc:=Sc) calm (wakeup me ch).
Proof. unfold wakeup. frame. Qed.

Lemma kill_calm pid : keeps (Sc:=Sc) calm (kill pid).
Proof. unfold kill. frame. Qed.

Lemma setkilled_calm i : keeps (Sc:=Sc) calm (setkilled i).
Proof. unfold setkilled. frame. Qed.

Lemma sleep_return_calm i : keeps (Sc:=Sc) calm (sleep_return i).
Proof. unfold sleep_return. frame. Qed.

Lemma fork_parent_calm me i : keeps (Sc:=Sc) calm (fork_parent me i).
Proof. unfold fork_parent. frame. Qed.

Lemma growproc_calm i n : keeps (Sc:=Sc) calm (growproc E i n).
Proof. unfold growproc. frame. Qed.

Lemma exit_files_calm i : keeps (Sc:=Sc) calm (exit_files E i).
Proof. unfold exit_files, fileclose, begin_op, end_op. frame. Qed.

Lemma reparent_calm i : keeps (Sc:=Sc) calm (reparent E i).
Proof. unfold reparent. frame. apply wakeup_calm. Qed.
End ops.

Lemma find_proc_some f t k i : find_proc f t k = Some i → ∃ p, t !! (i - k)%nat = Some p ∧ f p = true ∧ (k ≤ i)%nat.
Proof.
  revert k. induction t as [|p t IH]; intros k H; [done|]. cbn in H. destruct (f p) eqn:Ef.
  - simplify_eq. exists p. by rewrite Nat.sub_diag.
  - apply IH in H as (p' & Ht & Hf & Hk). exists p'. replace (i - k)%nat with (S (i - S k)) by lia. cbn. split_and!; [done..|lia].
Qed.

Lemma find_proc_none f t k : find_proc f t k = None → ∀ i p, t !! i = Some p → f p = false.
Proof.
  revert k. induction t as [|p t IH]; intros k H i p' Hi; [done|]. cbn in H. destruct (f p) eqn:Ef; [done|].
  destruct i; simplify_eq/=; eauto.
Qed.

(** What holds of the process [i] stays true of it. *)
Definition stays (i : nat) (P : proc → Prop) (q : nat) (p p' : proc) : Prop := q = i → P p → P p'.
Lemma stays_refl i P q p : stays i P q p p.
Proof. by intros _. Qed.
Lemma stays_trans i P q p1 p2 p3 : stays i P q p1 p2 → stays i P q p2 p3 → stays i P q p1 p3.
Proof. unfold stays. eauto. Qed.
#[export] Hint Resolve stays_refl stays_trans : core.

(** The state, pid and parent of a process. *)
Definition ident (p : proc) : procstate * Z * option nat := (state p, p_pid p, parent p).

Section alloc.
Context {Sc : Type} {dev : Z} `{!BufCache Sc dev} (E : env).
Implicit Types s : @kst Sc.

(** Slot [i] holds a process that satisfies [P]; the others are as in [s0]. *)
Definition slot (i : nat) (P : proc → Prop) s0 s : Prop := rel (only i) s0 s ∧ ∃ p, ptable s !! i = Some p ∧ P p.

Lemma slot_updp i P Q f s0 s s' :
  updp i f s = Done tt s' → slot i P s0 s → (∀ p, P p → Q (f p)) → slot i Q s0 s'.
Proof.
  intros Hrun [Hr (p & Hp & HP)] HQ. split.
  - eapply rel_trans; [by eauto|exact Hr|]. eapply keeps_updp; [by eauto|by eauto|exact Hrun].
  - injection Hrun as <-. cbn. rewrite list_lookup_alter_eq, Hp. eauto.
Qed.

Lemma slot_keeps {A} (m : M _ A) i P s0 s a s' :
  m s = Done a s' → keeps (only i) m → keeps (stays i P) m → slot i P s0 s → slot i P s0 s'.
Proof.
  intros Hrun Ho Hs [Hr (p & Hp & HP)]. split; [eapply rel_trans; [by eauto|exact Hr|by eapply Ho]|].
  destruct (Hs _ _ _ Hrun) as [_ H]. destruct (H i p Hp) as (p' & Hp' & Hst). exists p'. split; [done|by apply Hst].
Qed.

Lemma slot_freeproc i P s0 s s' :
  freeproc E i s = Done tt s' → slot i P s0 s → slot i (λ p, state p = UNUSED) s0 s'.
Proof.
  intros Hrun [Hr (p & Hp & _)]. split; [eapply rel_trans; [by eauto|exact Hr|by eapply freeproc_only]|].
  assert (slot i (λ _, True) s s) as H0 by (split; [by apply rel_refl|eauto]).
  unfold freeproc in Hrun. apply bind_inv in Hrun as (p0 & s1 & [= <- <-] & Hrun).
  apply bind_inv in Hrun as ([] & s2 & H2 & Hrun). apply bind_inv in Hrun as ([] & s3 & H3 & Hrun).
  apply bind_inv in Hrun as ([] & s4 & H4 & Hrun).
  eapply slot_keeps in H2; [|frame..|exact H0]. eapply slot_updp in H3; [|done|]. 2: { by instantiate (1 := λ _, True). }
  eapply slot_keeps in H4; [|frame..|exact H3]. eapply slot_updp in Hrun; [apply Hrun|done|done].
Qed.

(** allocproc takes the first UNUSED slot and changes nothing else in the table. *)
Lemma allocproc_spec s r s' :
  allocproc E s = Done r s' →
  (r = None ∧ (∀ i p, ptable s !! i = Some p → state p ≠ UNUSED) ∧ s' = s) ∨
  ∃ i p s1, ptable s !! i = Some p ∧ state p = UNUSED ∧ ptable s1 = ptable s ∧ nextpid s1 = i32 (nextpid s + 1) ∧
    initproc s1 = initproc s ∧
    (r = None ∧ slot i (λ p', state p' = UNUSED) s1 s' ∨
     r = Some i ∧ slot i (λ p', ident p' = (USED, nextpid s, parent p) ∧ ofile p' = ofile p) s1 s').
Proof.
  intros Hrun. unfold allocproc in Hrun. apply bind_inv in Hrun as (t & s0 & [= <- <-] & Hrun).
  destruct (find_proc _ (ptable s) 0) as [i|] eqn:Hf; cycle 1.
  { injection Hrun as <- <-. left. split; [done|]. split; [|done]. intros i p Hp Hs.
    pose proof (find_proc_none _ _ _ Hf i p Hp) as H. by apply bool_decide_eq_false in H. }
  apply find_proc_some in Hf as (p & Hp & Hs & _). rewrite Nat.sub_0_r in Hp. apply bool_decide_eq_true in Hs.
  apply bind_inv in Hrun as (pid & s1 & [= <- <-] & Hrun). set (s1 := Kst _ _ _ _ _ _) in Hrun.
  right. exists i, p, s1. split_and!; [done..|].
  set (P := λ p', ident p' = (USED, nextpid s, parent p) ∧ ofile p' = ofile p).
  assert (slot i (λ p', p' = p) s1 s1) as H1 by (split; [by apply rel_refl|eauto]).
  apply bind_inv in Hrun as ([] & s2 & H2 & Hrun).
  eapply (slot_updp i _ (λ p', p' = set_pid (nextpid s) p)) in H2; [|exact H1|by intros ? ->].
  apply bind_inv in Hrun as ([] & s3 & H3 & Hrun). eapply (slot_updp i _ P) in H3; [|exact H2|by intros ? ->].
  apply bind_inv in Hrun as (tf & s4 & H4 & Hrun). eapply slot_keeps in H4; [|frame..|exact H3].
  apply bind_inv in Hrun as ([] & s5 & H5 & Hrun). eapply (slot_updp i _ P) in H5; [|exact H4|done].
  destruct (tf =? 0).
  { apply bind_inv in Hrun as ([] & s6 & H6 & [= <- <-]). left. split; [done|]. by eapply slot_freeproc. }
  apply bind_inv in Hrun as (pt & s6 & H6 & Hrun). eapply slot_keeps in H6; [|frame..|exact H5].
  apply bind_inv in Hrun as ([] & s7 & H7 & Hrun). eapply (slot_updp i _ P) in H7; [|exact H6|done].
  destruct (pt =? 0).
  { apply bind_inv in Hrun as ([] & s8 & H8 & [= <- <-]). left. split; [done|]. by eapply slot_freeproc. }
  apply bind_inv in Hrun as ([] & s8 & H8 & [= <- <-]). right. split; [done|].
  by eapply (slot_updp i _ P) in H8; [|exact H7|].
Qed.
End alloc.

(** ** fork *)

(** The child's open files: those of the parent over what the slot had. *)
Definition dup_fds (fds : list (option nat)) (o : list (option nat)) (l : list Z) : list (option nat) :=
  foldl (λ o i, match fds !!! Z.to_nat i with Some f => <[Z.to_nat i := Some f]> o | None => o end) o l.

Lemma dup_fds_lookup fds o l k :
  length o = 16%nat → Forall (λ i, 0 ≤ i < 16) l → 
  dup_fds fds o l !!! k = if decide (Z.of_nat k ∈ l) then match fds !!! k with Some f => Some f | None => o !!! k end else o !!! k.
Proof.
  intros Ho Hl. revert o Ho. induction l as [|i l IH]; intros o Ho; [done|]. apply Forall_cons in Hl as [Hi Hl].
  cbn. fold (dup_fds fds (match fds !!! Z.to_nat i with Some f => <[Z.to_nat i := Some f]> o | None => o end) l).
  rewrite IH; [|done|by destruct (fds !!! Z.to_nat i); rewrite ?length_insert].
  destruct (decide (k = Z.to_nat i)) as [->|Hne].
  - rewrite Z2Nat.id by lia. rewrite (decide_True (P := i ∈ i :: l)) by left.
    destruct (fds !!! Z.to_nat i) as [f|] eqn:Ef; [|destruct (decide (i ∈ l)); reflexivity].
    rewrite list_lookup_total_insert_eq by lia. destruct (decide (i ∈ l)); reflexivity.
  - assert (match fds !!! Z.to_nat i with Some f => <[Z.to_nat i := Some f]> o | None => o end !!! k = o !!! k) as ->.
    { destruct (fds !!! Z.to_nat i); [|done]. by rewrite list_lookup_total_insert_ne. }
    assert (Z.of_nat k ∈ i :: l ↔ Z.of_nat k ∈ l) as Hiff by (rewrite elem_of_cons; split; [intros [?|?]; [lia|done]|by right]).
    by destruct (decide (Z.of_nat k ∈ l)), (decide (Z.of_nat k ∈ i :: l)); try tauto.
Qed.

Section fork.
Context {Sc : Type} {dev : Z} `{!BufCache Sc dev} (E : env).
Implicit Types s : @kst Sc.

Definition mem_of s : mem := km_mem (fk (ffs (kfl s))).

Lemma slot_on_fl {A} (m : M _ A) i P s0 s a s' : on_fl m s = Done a s' → slot i P s0 s → slot i P s0 s'.
Proof. intros Hrun. eapply slot_keeps; [exact Hrun|frame..]. Qed.

Lemma filedup_runs f s a s' : on_fl (filedup f) s = Done a s' → a = f ∧ mem_of s' = mem_of s.
Proof.
  unfold on_fl. intros H. destruct (filedup f (kfl s)) as [b x| | |] eqn:Hf; simplify_eq.
  unfold filedup in Hf. apply bind_inv in Hf as (y & t & [= <- <-] & Hf). destruct (f_ref _ <? 1); [done|].
  by injection Hf as <- <-.
Qed.

Lemma idup_runs ip s a s' : on_fs (idup ip) s = Done a s' → a = ip ∧ mem_of s' = mem_of s.
Proof.
  unfold on_fs, on_fl, File.on_fs. intros H. destruct (idup ip (ffs (kfl s))) as [b x| | |] eqn:Hf; simplify_eq.
  unfold idup in Hf. apply bind_inv in Hf as ([] & t & [= <-] & [= <- <-]). done.
Qed.

Lemma dup_files np fds n l s0 s s' :
  for_each l (λ i,
    match fds !!! Z.to_nat i with
    | Some f =>
        let* f' := on_fl (filedup f) in
        updp np (λ n, set_ofile (<[Z.to_nat i := Some f']> (ofile n)) n)
    | None => ret tt
    end) s = Done tt s' →
  slot np (λ x, x = n) s0 s →
  slot np (λ x, x = set_ofile (dup_fds fds (ofile n) l) n) s0 s' ∧ mem_of s' = mem_of s.
Proof.
  revert n s. induction l as [|i l IH]; intros n s Hrun Hs.
  { injection Hrun as <-. split; [|done]. cbn. by destruct n. }
  cbn [for_each] in Hrun. apply bind_inv in Hrun as ([] & s1 & H1 & Hrun). cbn [dup_fds foldl].
  destruct (fds !!! Z.to_nat i) as [f|]; cycle 1.
  { injection H1 as <-. by apply IH. }
  apply bind_inv in H1 as (f' & s2 & H2 & H1). pose proof (filedup_runs _ _ _ _ H2) as [-> Hm].
  eapply slot_on_fl in H2; [|exact Hs].
  eapply (slot_updp np _ (λ x, x = set_ofile (<[Z.to_nat i := Some f]> (ofile n)) n)) in H2 as H3; [|exact H1|by intros ? ->].
  apply (IH (set_ofile (<[Z.to_nat i := Some f]> (ofile n)) n)) in Hrun as [Hrun Hm']; [|exact H3].
  split; [done|]. rewrite Hm', <-Hm. by injection H1 as <-.
Qed.

(** The child as fork_copy leaves it, from the slot [n] allocproc returned. *)
Definition child (p n : proc) : proc :=
  set_pname (safestrcpy_list (pname n) (pname p) 16) (set_cwd (Some (default 0%nat (cwd p)))
    (set_ofile (dup_fds (ofile p) (ofile n) (seqZ 0 NOFILE)) (set_sz (sz p) n))).

Lemma fork_copy_spec me p s r s' :
  fork_copy E me s = Done r s' → ptable s !! me = Some p → state p ≠ UNUSED →
  (r = None ∧ (∀ i p, ptable s !! i = Some p → state p ≠ UNUSED) ∧ s' = s) ∨
  ∃ i q s1, i ≠ me ∧ ptable s !! i = Some q ∧ state q = UNUSED ∧ ptable s1 = ptable s ∧ nextpid s1 = i32 (nextpid s + 1) ∧
    initproc s1 = initproc s ∧
    (r = None ∧ slot i (λ p', state p' = UNUSED) s1 s' ∨
     ∃ n m, r = Some i ∧ ident n = (USED, nextpid s, parent q) ∧ ofile n = ofile q ∧ slot i (λ x, x = child p n) s1 s' ∧
       mem_of s' = store64 (memmove m (trapframe n) (trapframe p) SIZEOF_TRAPFRAME) (trapframe n + TF_A 0) 0).
Proof.
  intros Hrun Hp Hst. unfold fork_copy in Hrun. apply bind_inv in Hrun as (r0 & sa & Ha & Hrun).
  apply allocproc_spec in Ha as [(-> & Hno & ->)|(i & q & s1 & Hq & Hu & Ht & Hn & Hi & Hr)].
  { injection Hrun as <- <-. by left. }
  right. assert (i ≠ me) as Hne by (intros ->; congruence). exists i, q, s1. split_and!; [done..|].
  destruct Hr as [[-> Hs]|[-> [Hrel (n & Hn0 & Hid & Hof)]]]; [injection Hrun as <- <-; by left|].
  apply bind_inv in Hrun as (p0 & sb & [= <- <-] & Hrun). apply bind_inv in Hrun as (n0 & sb & [= <- <-] & Hrun).
  assert (ptable sa !!! me = p) as Epm.
  { destruct (proj2 Hrel me p) as (p' & Hp' & Ho); [by rewrite Ht|]. rewrite (Ho (not_eq_sym Hne)) in Hp'.
    by apply list_lookup_total_correct. }
  rewrite Epm, (list_lookup_total_correct _ _ _ Hn0) in Hrun.
  assert (slot i (λ x, x = n) s1 sa) as Hsl by (split; eauto).
  apply bind_inv in Hrun as (rc & sc & Hc & Hrun). eapply slot_on_fl in Hc; [|exact Hsl].
  destruct (rc <? 0).
  { apply bind_inv in Hrun as ([] & sd & Hd & [= <- <-]). left. split; [done|]. by eapply slot_freeproc. }
  right. apply bind_inv in Hrun as ([] & sd & Hd & Hrun). eapply (slot_updp i _ (λ x, x = set_sz (sz p) n)) in Hd; [|exact Hc|by intros ? ->].
  apply bind_inv in Hrun as ([] & se & He & Hrun). pose proof (slot_on_fl _ _ _ _ _ _ _ He Hd) as Hse.
  apply bind_inv in Hrun as ([] & sf & Hf & Hrun). pose proof (slot_on_fl _ _ _ _ _ _ _ Hf Hse) as Hsf.
  assert (mem_of sf = store64 (memmove (mem_of sd) (trapframe n) (trapframe p) SIZEOF_TRAPFRAME) (trapframe n + TF_A 0) 0) as Hm.
  { injection He as <-. injection Hf as <-. done. }
  apply bind_inv in Hrun as ([] & sg & Hg & Hrun). apply dup_files with (s0 := s1) (n := set_sz (sz p) n) in Hg as [Hsg Hmg]; [|done].
  apply bind_inv in Hrun as (ip & sh & Hh & Hrun). pose proof (idup_runs _ _ _ _ Hh) as [-> Hmh]. eapply slot_on_fl in Hh; [|exact Hsg].
  apply bind_inv in Hrun as ([] & si & Hi' & Hrun). apply bind_inv in Hrun as ([] & sj & Hj & [= <- <-]).
  exists n, (mem_of sd). split_and!; [done..| |].
  - eapply (slot_updp i _ (λ x, x = set_cwd (Some (default 0%nat (cwd p))) (set_ofile (dup_fds (ofile p) (ofile (set_sz (sz p) n)) (seqZ 0 NOFILE)) (set_sz (sz p) n)))) in Hi'; [|exact Hh|by intros ? ->].
    eapply (slot_updp i) in Hj; [exact Hj|exact Hi'|by intros ? ->].
  - rewrite <-Hm, <-Hmg, <-Hmh. injection Hj as <-. injection Hi' as <-. done.
Qed.
End fork.
