(* ===== verification/ProcExit.v ===== *)
(** * What exit and wait do to the process table *)

From S2P Require Import Prelude Ring Riscv Mem Kalloc Vm Block FsFormat Log LogSpec LogOps Txn Fs.
From S2P Require Import Pipe Uart Printf Console File Spinlock Proc ProcFrame.

(** A process may have been woken; nothing else happened to it. *)
Definition woken (q : nat) (p p' : proc) : Prop := p' = p ∨ (state p = SLEEPING ∧ p' = set_state RUNNABLE p).

Lemma woken_refl q p : woken q p p.
Proof. by left. Qed.
Lemma woken_trans q p1 p2 p3 : woken q p1 p2 → woken q p2 p3 → woken q p1 p3.
Proof. intros [->|[H1 ->]] [->|[H2 ->]]; unfold woken; auto. Qed.
Lemma woken_wake ch q p : woken q p (wake_if ch p).
Proof. unfold wake_if, woken. case_bool_decide; [|by left]. destruct (chan p =? ch); [by right|by left]. Qed.
#[export] Hint Resolve woken_refl woken_trans woken_wake : core.

(** A loop over indices whose body updates element [i] of the list [F s]. *)
Lemma for_each_alter {S B} (I : S → Prop) (F : S → list B) (g : Z → B → B) (body : Z → M S unit) l s s' :
  (∀ i s s', body i s = Done tt s' → I s → I s' ∧ F s' = alter (g i) (Z.to_nat i) (F s)) →
  NoDup l → Forall (λ i, 0 ≤ i) l → for_each l body s = Done tt s' → I s →
  ∀ q, F s' !! q = (if decide (Z.of_nat q ∈ l) then g q else id) <$> F s !! q.
Proof.
  intros Hb Hnd Hpos. revert s. induction l as [|i l IH]; intros s Hrun HI q.
  { injection Hrun as <-. cbn. by destruct (F s !! q). }
  apply NoDup_cons in Hnd as [Hi Hnd]. apply Forall_cons in Hpos as [Hi0 Hpos]. cbn [for_each] in Hrun.
  apply bind_inv in Hrun as ([] & s1 & H1 & Hrun). destruct (Hb _ _ _ H1 HI) as [HI1 HF].
  rewrite (IH Hnd Hpos s1 Hrun HI1 q), HF.
  destruct (decide (q = Z.to_nat i)) as [->|Hne].
  - rewrite list_lookup_alter_eq, Z2Nat.id by done. rewrite decide_False by done. rewrite decide_True by left.
    by destruct (F s !! Z.to_nat i).
  - rewrite list_lookup_alter_ne by done. f_equal.
    assert (Z.of_nat q ∈ i :: l ↔ Z.of_nat q ∈ l) as Hiff by (rewrite elem_of_cons; split; [intros [?|?]; [lia|done]|by right]).
    destruct (decide (Z.of_nat q ∈ l)), (decide (Z.of_nat q ∈ i :: l)); tauto || done.
Qed.

Lemma all_indices q : (q < Z.to_nat NPROC)%nat → Z.of_nat q ∈ seqZ 0 NPROC.
Proof. intros. apply elem_of_seqZ. unfold NPROC in *. lia. Qed.
Lemma indices_pos : Forall (λ i, 0 ≤ i) (seqZ 0 NPROC).
Proof. apply Forall_forall. intros i [? ?]%elem_of_seqZ. lia. Qed.

Section exit.
Context {Sc : Type} {dev : Z} `{!BufCache Sc dev} (E : env).
Implicit Types s : @kst Sc.

Lemma wakeup_woken me ch : keeps (Sc:=Sc) woken (wakeup me ch).
Proof. unfold wakeup. frame. Qed.

(** wakeup makes every other process that sleeps on the channel runnable. *)
Lemma wakeup_wakes me ch s s' q p :
  wakeup me ch s = Done tt s' → length (ptable s) = Z.to_nat NPROC →
  ptable s !! q = Some p → me ≠ Some q → ptable s' !! q = Some (wake_if ch p).
Proof.
  intros Hrun Hl Hq Hme.
  rewrite (for_each_alter (λ _, True) ptable (λ i, if decide (me = Some (Z.to_nat i)) then id else wake_if ch)
    (λ i, if decide (me = Some (Z.to_nat i)) then ret tt else updp (Z.to_nat i) (wake_if ch)) (seqZ 0 NPROC) s s');
    [|clear|apply NoDup_seqZ|apply indices_pos|exact Hrun|done].
  - rewrite Hq, decide_True by (apply all_indices; rewrite <-Hl; by eapply lookup_lt_Some).
    rewrite Nat2Z.id, decide_False by done. done.
  - intros i s s' H _. split; [done|]. destruct (decide (me = Some (Z.to_nat i))); injection H as <-; [|done].
    apply list_eq. intros q. destruct (decide (q = Z.to_nat i)) as [->|];
      [rewrite list_lookup_alter_eq|by rewrite list_lookup_alter_ne]. by destruct (ptable s !! Z.to_nat i).
Qed.

Lemma rel_fmap {B} (f : proc → B) R s s' : rel R s s' → (∀ q p p', R q p p' → f p' = f p) → f <$> ptable s' = f <$> ptable s.
Proof.
  intros [(Hl & _) H] Hf. apply list_eq. intros q. rewrite !list_lookup_fmap. destruct (ptable s !! q) as [p|] eqn:Hq.
  - destruct (H q p Hq) as (p' & -> & HR). cbn. by rewrite (Hf q p p').
  - apply lookup_ge_None in Hq. rewrite <-Hl in Hq. apply lookup_ge_None in Hq. by rewrite Hq.
Qed.

Lemma woken_parent q p p' : woken q p p' → parent p' = parent p.
Proof. by intros [->|[_ ->]]. Qed.

Definition adopt (me : nat) (ini : option nat) (x : option nat) : option nat := if decide (x = Some me) then ini else x.

Lemma reparent_body me i ini s s' :
  (let* pp := getp (Z.to_nat i) in
   if decide (parent pp = Some me) then
     let* ini := gets initproc in
     updp (Z.to_nat i) (set_parent ini) ;;;
     wakeup (Some me) (proc_chan E ini)
   else ret tt) s = Done tt s' → initproc s = ini →
  initproc s' = ini ∧ parent <$> ptable s' = alter (adopt me ini) (Z.to_nat i) (parent <$> ptable s).
Proof.
  intros H Hi. apply bind_inv in H as (pp & s0 & [= <- <-] & H).
  assert (∀ x, parent (ptable s !!! Z.to_nat i) = x → adopt me ini x = adopt me ini (parent (ptable s !!! Z.to_nat i))) as Hx by (by intros ? <-).
  destruct (decide (parent _ = Some me)) as [Hp|Hp].
  - apply bind_inv in H as (ini' & s0 & [= <- <-] & H). apply bind_inv in H as ([] & s1 & H1 & H).
    apply wakeup_woken in H as Hr. pose proof Hr as [(_ & _ & I2) _]. rewrite (rel_fmap parent woken s1 s' Hr woken_parent).
    injection H1 as <-. cbn in *. split; [congruence|]. apply list_eq. intros q. rewrite list_lookup_fmap.
    destruct (decide (q = Z.to_nat i)) as [->|]; [|by rewrite !list_lookup_alter_ne, list_lookup_fmap].
    rewrite !list_lookup_alter_eq, list_lookup_fmap. destruct (ptable s !! Z.to_nat i) as [p|] eqn:Hq; [|done]. cbn.
    rewrite (list_lookup_total_correct _ _ _ Hq) in Hp. unfold adopt. rewrite decide_True by done. by rewrite Hi.
  - injection H as <-. split; [done|]. apply list_eq. intros q.
    destruct (decide (q = Z.to_nat i)) as [->|]; [|by rewrite list_lookup_alter_ne].
    rewrite list_lookup_alter_eq, !list_lookup_fmap. destruct (ptable s !! Z.to_nat i) as [p|] eqn:Hq; [|done]. cbn.
    rewrite (list_lookup_total_correct _ _ _ Hq) in Hp. unfold adopt. by rewrite decide_False.
Qed.

(** reparent gives the children of [me] to init. *)
Lemma reparent_parents me s s' q p :
  reparent E me s = Done tt s' → length (ptable s) = Z.to_nat NPROC → ptable s !! q = Some p →
  ∃ p', ptable s' !! q = Some p' ∧ parent p' = adopt me (initproc s) (parent p).
Proof.
  intros Hrun Hl Hq.
  pose proof (for_each_alter (λ t, initproc t = initproc s) (λ t, parent <$> ptable t) (λ _, adopt me (initproc s)) _
    (seqZ 0 NPROC) s s' (λ i t t' H HI, reparent_body me i (initproc s) t t' H HI) ltac:(apply NoDup_seqZ) indices_pos Hrun eq_refl q) as H.
  cbv beta in H. rewrite !list_lookup_fmap, Hq, decide_True in H by (apply all_indices; rewrite <-Hl; by eapply lookup_lt_Some).
  cbn in H. destruct (ptable s' !! q) as [p'|]; [|done]. injection H as H. by exists p'.
Qed.

(** The fields exit does not touch in another process. *)
Definition same_but_parent (q : nat) (p p' : proc) : Prop :=
  p_pid p' = p_pid p ∧ (state p ≠ SLEEPING → state p' = state p) ∧ xstate p' = xstate p ∧
  (state p = SLEEPING → state p' = RUNNABLE ∨ state p' = SLEEPING ∧ chan p' = chan p).
Lemma sbp_refl q p : same_but_parent q p p.
Proof. split_and!; auto. Qed.
Lemma sbp_trans q p1 p2 p3 : same_but_parent q p1 p2 → same_but_parent q p2 p3 → same_but_parent q p1 p3.
Proof.
  intros (? & H1 & ? & H1') (? & H2 & ? & H2'). split_and!; [congruence| |congruence|].
  - intros Hs. rewrite H2, H1; [done..|]. by rewrite H1.
  - intros Hs. destruct (H1' Hs) as [E1|[E1 C1]]; [left; rewrite H2; [done|by rewrite E1]|].
    destruct (H2' E1) as [E2|[E2 C2]]; [by left|right; split; congruence].
Qed.
Lemma sbp_wake ch q p : same_but_parent q p (wake_if ch p).
Proof.
  unfold wake_if. case_bool_decide as Hs; [|apply sbp_refl]. destruct (chan p =? ch); [|apply sbp_refl].
  split_and!; [done|by intros []|done|by left].
Qed.
Lemma sbp_parent ini q p : same_but_parent q p (set_parent ini p).
Proof. split_and!; auto. Qed.
Hint Resolve sbp_refl sbp_trans sbp_wake sbp_parent : core.

Lemma wakeup_same me ch : keeps (Sc:=Sc) same_but_parent (wakeup me ch).
Proof. unfold wakeup. frame. Qed.
Lemma reparent_same me : keeps (Sc:=Sc) same_but_parent (reparent E me).
Proof. unfold reparent. frame. apply wakeup_same. Qed.

(** sched only checks. *)
Lemma sched_same me h c s s' : sched me h c s = Done tt s' → s' = s.
Proof.
  unfold sched. intros H. apply bind_inv in H as (p & s0 & [= <- <-] & H).
  repeat (case_match; try done). by injection H as <-.
Qed.

Lemma exit_zombie_spec me status c s s' p :
  exit_zombie E me status c s = Done tt s' → length (ptable s) = Z.to_nat NPROC →
  ptable s !! me = Some p → state p = RUNNING → parent p ≠ Some me →
  length (ptable s') = length (ptable s) ∧
  ∃ z, ptable s' !! me = Some z ∧ state z = ZOMBIE ∧ xstate z = status ∧ p_pid z = p_pid p ∧ parent z = parent p ∧
  ∀ q pq, ptable s !! q = Some pq → q ≠ me → ∃ pq', ptable s' !! q = Some pq' ∧
    parent pq' = adopt me (initproc s) (parent pq) ∧ p_pid pq' = p_pid pq ∧ xstate pq' = xstate pq ∧
    (state pq' = state pq ∨ state pq = SLEEPING ∧ state pq' = RUNNABLE) ∧
    (parent p = Some q → state pq = SLEEPING → chan pq = e_procaddr E q → state pq' = RUNNABLE).
Proof.
  intros Hrun Hl Hp Hst Hpar. unfold exit_zombie in Hrun. apply bind_inv in Hrun as ([] & s1 & H1 & Hrun).
  pose proof (reparent_same me _ _ _ H1) as [(Hl1 & _) R1].
  pose proof (λ q pq, reparent_parents me s s1 q pq H1 Hl) as P1.
  apply bind_inv in Hrun as (p1 & s1' & [= <- <-] & Hrun). apply bind_inv in Hrun as ([] & s2 & H2 & Hrun).
  apply bind_inv in Hrun as ([] & s3 & [= <-] & Hrun). apply bind_inv in Hrun as ([] & s4 & [= <-] & Hrun).
  apply sched_same in Hrun as ->. cbn [ptable].
  destruct (R1 me p Hp) as (p1 & Hp1 & E1a & E1b & E1c & _). destruct (P1 me p Hp) as (p1' & Hp1' & E1d).
  rewrite Hp1 in Hp1'. injection Hp1' as <-. rewrite (list_lookup_total_correct _ _ _ Hp1) in H2.
  pose proof (wakeup_woken _ _ _ _ _ H2) as [_ W2]. destruct (W2 me p1 Hp1) as (p2 & Hp2 & Hw).
  assert (p2 = p1) as ->.
  { destruct Hw as [->|[Hs _]]; [done|]. rewrite E1b, Hst in Hs by (by rewrite Hst). done. }
  assert (parent p1 = parent p) as Epar by (rewrite E1d; unfold adopt; by rewrite decide_False). rewrite Epar in *.
  pose proof (wakeup_woken _ _ _ _ _ H2) as [(L2 & _) _]. split; [by rewrite !length_alter, L2, Hl1|].
  exists (set_state ZOMBIE (set_xstate status p1)). split_and!; [by rewrite !list_lookup_alter_eq, Hp2|done..|].
  intros q pq Hq Hne. destruct (R1 q pq Hq) as (q1 & Hq1 & E2a & E2b & E2c & E2e). destruct (P1 q pq Hq) as (q1' & Hq1' & E2d).
  rewrite Hq1 in Hq1'. injection Hq1' as <-.
  pose proof (wakeup_wakes _ _ _ _ _ _ H2 ltac:(congruence) Hq1 ltac:(congruence)) as Hq2.
  exists (wake_if (proc_chan E (parent p)) q1). rewrite !list_lookup_alter_ne, Hq2 by done. split; [done|].
  destruct (sbp_wake (proc_chan E (parent p)) q q1) as (F1 & F2 & F3 & F5).
  assert (parent (wake_if (proc_chan E (parent p)) q1) = parent q1) as F4 by (unfold wake_if; repeat case_match; done).
  split_and!; [congruence..| |].
  - destruct (decide (state pq = SLEEPING)) as [Hs|Hs]; [|left; rewrite F2, E2b; [done..|by rewrite E2b]].
    destruct (E2e Hs) as [E3|[E3 _]]; [right; split; [done|rewrite F2; [done|by rewrite E3]]|].
    destruct (F5 E3) as [F6|[F6 _]]; [by right|left; congruence].
  - intros Hpq Hs Hch. destruct (E2e Hs) as [E3|[E3 C3]]; [rewrite F2; [done|by rewrite E3]|].
    rewrite Hpq. cbn. unfold wake_if. rewrite bool_decide_true, C3, Hch, Z.eqb_refl by done. done.
Qed.

(** wait(0)'s scan frees the first zombie child there is. *)
Lemma wait_scan_spec me idx hk s r s' :
  wait_scan E me 0 idx hk s = Done r s' →
  match r with
  | inl pid => ∃ i z, i ∈ idx ∧ ptable s !!! Z.to_nat i = z ∧ parent z = Some me ∧ state z = ZOMBIE ∧ pid = p_pid z ∧
      freeproc E (Z.to_nat i) s = Done tt s'
  | inr _ => s' = s ∧ ∀ i, i ∈ idx → parent (ptable s !!! Z.to_nat i) = Some me → state (ptable s !!! Z.to_nat i) ≠ ZOMBIE
  end.
Proof.
  revert hk. induction idx as [|i idx IH]; intros hk H; cbn [wait_scan] in H.
  { injection H as <- <-. split; [done|]. by intros i Hi%elem_of_nil. }
  apply bind_inv in H as (pp & s0 & [= <- <-] & H). destruct (decide (parent _ = Some me)) as [Hp|Hp].
  - case_bool_decide as Hz.
    + apply bind_inv in H as (p & s0 & [= <- <-] & H). apply bind_inv in H as (r0 & s0 & [= <- <-] & H).
      cbn [Z.ltb Z.compare] in H. apply bind_inv in H as ([] & s1 & Hf & [= <- <-]).
      exists i, (ptable s !!! Z.to_nat i). split_and!; [left|done..].
    + apply IH in H. destruct r as [pid|b]; [destruct H as (j & z & ? & ?); exists j, z; split; [by right|done]|].
      destruct H as [-> H]. split; [done|]. intros j [->|Hj]%elem_of_cons Hpj; [done|by apply H].
  - apply IH in H. destruct r as [pid|b]; [destruct H as (j & z & ? & ?); exists j, z; split; [by right|done]|].
    destruct H as [-> H]. split; [done|]. intros j [->|Hj]%elem_of_cons Hpj; [done|by apply H].
Qed.

#[local] Opaque seqZ.

(** wait(0) by a process that has a zombie child returns a zombie child's pid
    and frees its slot; it does not block. *)
Lemma wait_reaps me c s w s' i0 z0 :
  wait E me 0 c s = Done w s' → length (ptable s) = Z.to_nat NPROC →
  ptable s !! i0 = Some z0 → parent z0 = Some me → state z0 = ZOMBIE →
  ∃ i z, w = WReturned (p_pid z) ∧ ptable s !! i = Some z ∧ parent z = Some me ∧ state z = ZOMBIE ∧
    slot i (λ p, state p = UNUSED) s s'.
Proof.
  intros Hrun Hl Hz0 Hp0 Hs0. unfold wait in Hrun. apply bind_inv in Hrun as (r & s1 & Hsc & Hrun).
  apply wait_scan_spec in Hsc. destruct r as [pid|hk].
  - injection Hrun as <- <-. destruct Hsc as (i & z & [Hi1 Hi2]%elem_of_seqZ & Hz & Hp & Hs & -> & Hf).
    exists (Z.to_nat i), z. assert (ptable s !! Z.to_nat i = Some z) as Hz'.
    { destruct (lookup_lt_is_Some_2 (ptable s) (Z.to_nat i)) as [x Hx]; [rewrite Hl; unfold NPROC in *; lia|].
      rewrite Hx. by rewrite (list_lookup_total_correct _ _ _ Hx) in Hz; subst. }
    split_and!; [done..|]. eapply (slot_freeproc E _ (λ _, True)); [exact Hf|]. split; [by apply rel_refl|eauto].
  - destruct Hsc as [-> Hno]. destruct (Hno (Z.of_nat i0)).
    + apply all_indices. rewrite <-Hl. by eapply lookup_lt_Some.
    + by rewrite Nat2Z.id, (list_lookup_total_correct _ _ _ Hz0).
    + by rewrite Nat2Z.id, (list_lookup_total_correct _ _ _ Hz0).
Qed.
End exit.
