(* ===== verification/ProcTheorems.v ===== *)
(** * Theorems about processes *)

From S2P Require Import Prelude Ring Riscv Mem Kalloc Vm Block FsFormat Bio BioSpec BioTheorems.
From S2P Require Import Log LogSpec LogOps LogTheorems Txn Fs Pipe Uart Printf Console File Spinlock Proc ProcFrame ProcExit.

(** ** fork *)

(** The pages at [a] and [b] do not overlap. *)
Definition apart (a b : Z) : Prop := a + PGSIZE ≤ b ∨ b + PGSIZE ≤ a.

Lemma slot_elim {Sc} i P (s0 s1 s' : @kst Sc) :
  slot i P s1 s' → ptable s1 = ptable s0 →
  (∀ q, q ≠ i → ptable s' !! q = ptable s0 !! q) ∧ ∃ p, ptable s' !! i = Some p ∧ P p.
Proof.
  intros [[(Hl & _) Hr] Hp] E. split; [|done]. rewrite E in *. intros q Hq. destruct (ptable s0 !! q) as [p|] eqn:Hs.
  - destruct (Hr q p Hs) as (p' & Hp' & Ho). by rewrite Hp', (Ho Hq).
  - apply lookup_ge_None. rewrite Hl. by apply lookup_ge_None.
Qed.

(** The child's saved registers: the parent's, with a0 zero. *)
Lemma child_trapframe m tn tp (m' := store64 (memmove m tn tp SIZEOF_TRAPFRAME) (tn + TF_A 0) 0) :
  apart tn tp →
  load64 m' (tn + TF_A 0) = 0 ∧
  ∀ j, 0 ≤ j < SIZEOF_TRAPFRAME → ¬ (TF_A 0 ≤ j < TF_A 1) → load8 m' (tn + j) = load8 m' (tp + j).
Proof.
  intros Ha. unfold m'. split; [by rewrite load64_store64_eq|]. unfold TF_A, SIZEOF_TRAPFRAME, apart, PGSIZE in *. intros j Hj Hn.
  rewrite !load8_store64_ne by lia. rewrite !load8_memmove by lia. rewrite decide_True, decide_False by lia. f_equal. lia.
Qed.


(** ** An example: one running process and six free pages *)

#[local] Instance ex_bio : BufCache bst ex_dev := bio_cache ex_pid ex_dev.

Definition ex_env : env :=
  Env 0x80021000 0x80007000 0x80001234 0x80008000 0x80002000 2 30 0x80008100 (λ b, 0x80010000 + 2048 * b)
    0x80008200 0x80008210 0x80008240 0x80008300 0x80008400 0x80008500 0x80008600
    0x80008800 0x80008850 0x80008900 0x80008a10 0x80008a18 0x80008a20 (λ i, 0x80009000 + 360 * i)
    0x80008700 0x80008708 (λ _, true) 1.

Definition ex_pages : kmem :=
  match freerange 0x80021000 0x87000000 0x87006000 (Kmem ∅ 0) with
  | Done _ k => k
  | _ => Kmem ∅ 0
  end.

Definition ex_fls : @fls bst :=
  Fls (Fst (Lst (Bst (replicate (S HEAD) inhabitant) ∅ []) ex_log) (replicate 50 inhabitant) ex_sb ex_pages)
    (replicate 100 inhabitant) ∅ [] (Cons (replicate 128 0) 0 0 0) ex_uart.

(** Process 0 is init and has run a while as [pid] 1. *)
Definition ex_init : proc :=
  Proc RUNNING 0 false 0 1 None 0x3fffffd000 0 0x80040000 0x80050000 0 0 (replicate 16 None) (Some 0%nat) (replicate 16 0).
Definition ex_kst : @kst bst := Kst ex_fls (ex_init :: replicate 63 inhabitant) 2 (Some 0%nat) 0 false.

(** The value returned, if any. *)
Definition value_of {S A} (o : outcome S A) : option A := match o with Done a _ => Some a | _ => None end.

Lemma value_of_done {S A} (o : outcome S A) a : value_of o = Some a → ∃ s, o = Done a s.
Proof. destruct o; naive_solver. Qed.

Lemma ex_fork_runs : value_of (fork ex_env 0 ex_kst) = Some 2.
Proof. vm_compute. reflexivity. Qed.

Lemma ex_ofiles q pq : ptable ex_kst !! q = Some pq → length (ofile pq) = 16%nat.
Proof.
  intros H. destruct q as [|q]; [by injection H as <-|].
  change (replicate 63 (inhabitant : proc) !! q = Some pq) in H. by apply lookup_replicate in H as [-> _].
Qed.


(** ** exit and wait *)


(** Process 1 exits; init, its parent, sleeps in wait. *)
Definition ex_parent : proc := set_state SLEEPING (set_chan (e_procaddr ex_env 0) ex_init).
Definition ex_exiting : proc := set_pid 2 (set_parent (Some 0%nat) ex_init).
Definition ex_kst2 : @kst bst := Kst ex_fls (ex_parent :: ex_exiting :: replicate 62 inhabitant) 3 (Some 0%nat) 0 false.

Lemma ex_exit_runs : value_of (exit_zombie ex_env 1 7 (Cpu 1 false false) ex_kst2) = Some tt.
Proof. vm_compute. reflexivity. Qed.

