(* ===== verification/Sched.v ===== *)
(** * Scheduling: which process runs on which CPU

    The system as a step relation: each CPU runs its scheduler or a
    process; a step is one of the atomic parts of kernel/proc.c. *)

From S2P Require Import Prelude Ring Riscv Mem Kalloc Vm Block FsFormat Bio BioSpec BioTheorems.
From S2P Require Import Log LogSpec LogOps LogTheorems Txn Fs Pipe Uart Printf Console File Spinlock Proc ProcFrame ProcExit ProcTheorems.

Section sched.
Context {Sc : Type} {dev : Z} `{!BufCache Sc dev} (E : env).
Implicit Types s : @kst Sc.

(** [on c] is [cpus[c].proc]; [born] are the children fork has allocated and
    not yet made runnable. *)
Record sys := Sys { sk : @kst Sc; on : nat → option nat; born : gset nat }.

Inductive sys_step : sys → sys → Prop :=
(* scheduler *)
| st_dispatch c i s s' o b : o c = None → scheduler_try i s = Done true s' →
    sys_step (Sys s o b) (Sys s' (<[c := Some i]> o) b)
(* the process gives up the CPU *)
| st_yield c me x s s' o b : o c = Some me → yield me x s = Done tt s' →
    sys_step (Sys s o b) (Sys s' (<[c := None]> o) b)
| st_sleep c me ch x s s' o b : o c = Some me → sleep me ch x s = Done tt s' →
    sys_step (Sys s o b) (Sys s' (<[c := None]> o) b)
| st_exit c me status x s s' o b : o c = Some me → exit_zombie E me status x s = Done tt s' →
    sys_step (Sys s o b) (Sys s' (<[c := None]> o) b)
| st_wait_sleep c me addr x s s' o b : o c = Some me → wait E me addr x s = Done WBlocked s' →
    sys_step (Sys s o b) (Sys s' (<[c := None]> o) b)
(* the process keeps running *)
| st_wait c me addr x r s s' o b : o c = Some me → wait E me addr x s = Done (WReturned r) s' →
    sys_step (Sys s o b) (Sys s' o b)
| st_fork c me r s s' o b : o c = Some me → fork_copy E me s = Done r s' →
    sys_step (Sys s o b) (Sys s' o (match r with Some np => {[np]} ∪ b | None => b end))
| st_fork_parent c me np s s' o b : o c = Some me → np ∈ b → fork_parent me np s = Done tt s' →
    sys_step (Sys s o b) (Sys s' o b)
| st_fork_start c me np s s' o b : o c = Some me → np ∈ b → fork_start np s = Done tt s' →
    sys_step (Sys s o b) (Sys s' o (b ∖ {[np]}))
| st_sleep_return c me s s' o b : o c = Some me → sleep_return me s = Done tt s' →
    sys_step (Sys s o b) (Sys s' o b)
| st_exit_files c me s s' o b : o c = Some me → exit_files E me s = Done tt s' →
    sys_step (Sys s o b) (Sys s' o b)
| st_growproc c me n r s s' o b : o c = Some me → growproc E me n s = Done r s' →
    sys_step (Sys s o b) (Sys s' o b)
| st_kill c me pid r s s' o b : o c = Some me → kill pid s = Done r s' →
    sys_step (Sys s o b) (Sys s' o b)
| st_setkilled c me i s s' o b : o c = Some me → setkilled i s = Done tt s' →
    sys_step (Sys s o b) (Sys s' o b)
| st_wakeup (me : option nat) ch s s' o b : wakeup me ch s = Done tt s' →
    sys_step (Sys s o b) (Sys s' o b)
(* any code below the process table: files, memory, devices *)
| st_below c me A (m : M _ A) a s s' o b : o c = Some me → on_fl m s = Done a s' →
    sys_step (Sys s o b) (Sys s' o b).

(** No process runs and none is being created. *)
Definition quiet_sys (y : sys) : Prop :=
  (∀ c, on y c = None) ∧ born y = ∅ ∧ ∀ i p, ptable (sk y) !! i = Some p → state p ≠ RUNNING.

Record sys_inv (y : sys) : Prop := {
  si_on c i : on y c = Some i → ∃ p, ptable (sk y) !! i = Some p ∧ state p = RUNNING;
  si_running i p : ptable (sk y) !! i = Some p → state p = RUNNING → ∃ c, on y c = Some i;
  si_one c c' i : on y c = Some i → on y c' = Some i → c = c';
  si_born i : i ∈ born y → ∃ p, ptable (sk y) !! i = Some p ∧ state p = USED
}.

(** Steps that start and stop nothing. *)
Lemma calm_inv s s' o b : sys_inv (Sys s o b) → rel calm s s' → sys_inv (Sys s' o b).
Proof.
  intros [H1 H2 H3 H4] [(Hl & _) Hr]. cbn in *. split; cbn.
  - intros c i Hc. destruct (H1 c i Hc) as (p & Hp & Hs). destruct (Hr i p Hp) as (p' & Hp' & Hc' & _).
    exists p'. split; [done|]. by apply Hc'.
  - intros i p' Hp' Hs'. destruct (lookup_lt_is_Some_2 (ptable s) i) as [p Hp]; [rewrite <-Hl; by eapply lookup_lt_Some|].
    destruct (Hr i p Hp) as (p'' & Hp'' & Hc & _). rewrite Hp' in Hp''. injection Hp'' as <-. apply (H2 i p Hp). by apply Hc.
  - done.
  - intros i Hi. destruct (H4 i Hi) as (p & Hp & Hs). destruct (Hr i p Hp) as (p' & Hp' & _ & Hu). exists p'. eauto.
Qed.

(** The process [me] of CPU [c] stops running in a state that is not USED. *)
Lemma stop_inv s s' o b c me :
  sys_inv (Sys s o b) → o c = Some me → length (ptable s') = length (ptable s) →
  (∀ q p, ptable s !! q = Some p → q ≠ me → ∃ p', ptable s' !! q = Some p' ∧ calm q p p') →
  (∃ p, ptable s' !! me = Some p ∧ state p ≠ RUNNING) → sys_inv (Sys s' (<[c := None]> o) b).
Proof.
  intros [H1 H2 H3 H4] Hc Hl Hr (pm & Hpm & Hsm). cbn in *. split; cbn.
  - intros c' i Hc'. destruct (decide (c' = c)) as [->|Hne]; [by rewrite fn_lookup_insert in Hc'|].
    rewrite fn_lookup_insert_ne in Hc' by done. destruct (H1 c' i Hc') as (p & Hp & Hs).
    destruct (Hr i p Hp) as (p' & Hp' & Hcalm & _); [intros ->; by apply Hne, (H3 c' c me)|]. exists p'. split; [done|by apply Hcalm].
  - intros i p' Hp' Hs'. assert (i ≠ me) as Hi by (intros ->; congruence).
    destruct (lookup_lt_is_Some_2 (ptable s) i) as [p Hp]; [rewrite <-Hl; by eapply lookup_lt_Some|].
    destruct (Hr i p Hp Hi) as (p'' & Hp'' & Hcalm & _). rewrite Hp' in Hp''. injection Hp'' as <-.
    destruct (H2 i p Hp) as [c' Hc']; [by apply Hcalm|]. exists c'. rewrite fn_lookup_insert_ne; [done|]. intros ->. congruence.
  - intros c1 c2 i. destruct (decide (c1 = c)) as [->|], (decide (c2 = c)) as [->|];
      rewrite ?fn_lookup_insert, ?fn_lookup_insert_ne by done; try done. apply H3.
  - intros i Hi. destruct (H4 i Hi) as (p & Hp & Hs). destruct (H1 c me Hc) as (p0 & Hp0 & Hs0).
    destruct (Hr i p Hp) as (p' & Hp' & _ & Hu); [intros ->; congruence|]. exists p'. eauto.
Qed.

Lemma slot_calm i P s s' p :
  slot i P s s' → ptable s !! i = Some p → state p ≠ RUNNING → state p ≠ USED → (∀ p', P p' → state p' ≠ RUNNING) → rel calm s s'.
Proof.
  intros [[Hl Hr] (p' & Hp' & HP)] Hp Hn Hu Hpost. split; [done|]. intros q pq Hq. destruct (decide (q = i)) as [->|Hne].
  - exists p'. split; [done|]. simplify_eq. specialize (Hpost p' HP). unfold calm. naive_solver.
  - destruct (Hr q pq Hq) as (pq' & Hpq' & Ho). pose proof (Ho Hne) as ->. by exists pq.
Qed.

Lemma lookup_state s i x : state (ptable s !!! i) = x → x ≠ UNUSED → ptable s !! i = Some (ptable s !!! i).
Proof.
  intros Hs Hx. rewrite list_lookup_total_alt in *. destruct (ptable s !! i) as [p|]; [done|]. cbn in Hs. congruence.
Qed.

Lemma wait_scan_calm me addr idx hk s r s' : wait_scan E me addr idx hk s = Done r s' → rel calm s s'.
Proof.
  revert hk. induction idx as [|i idx IH]; intros hk H; cbn [wait_scan] in H.
  { injection H as <- <-. by apply rel_refl. }
  apply bind_inv in H as (pp & s0 & [= <- <-] & H). destruct (decide (parent _ = Some me)) as [Hp|Hp]; [|by eapply IH].
  case_bool_decide as Hz; [|by eapply IH]. apply bind_inv in H as (p & s0 & [= <- <-] & H).
  apply bind_inv in H as (r0 & s1 & H1 & H).
  assert (keeps (Sc:=Sc) (only (Z.to_nat i)) (if addr =? 0 then ret 0 else
     on_fs (stmem (λ m, store_bytes m (e_word E) (Z_to_little_endian 4 8 (xstate (ptable s !!! Z.to_nat i))))) ;;;
     on_k (copyout (pagetable (ptable s !!! me)) addr (e_word E) 4)) ∧
     keeps (Sc:=Sc) (stays (Z.to_nat i) (λ p, state p = ZOMBIE)) (if addr =? 0 then ret 0 else
     on_fs (stmem (λ m, store_bytes m (e_word E) (Z_to_little_endian 4 8 (xstate (ptable s !!! Z.to_nat i))))) ;;;
     on_k (copyout (pagetable (ptable s !!! me)) addr (e_word E) 4))) as [K1 K2] by (split; frame).
  pose proof (lookup_state s _ _ Hz ltac:(done)) as Hlk.
  assert (slot (Z.to_nat i) (λ p, state p = ZOMBIE) s s1) as Hs1.
  { eapply slot_keeps; [exact H1|exact K1|exact K2|]. split; [by apply rel_refl|eauto]. }
  destruct (r0 <? 0).
  - injection H as <- <-. eapply slot_calm; [exact Hs1|done|congruence..|]. intros p' ->. done.
  - apply bind_inv in H as ([] & s2 & Hf & [= <- <-]). eapply slot_calm; [by eapply slot_freeproc|done|congruence..|].
    intros p' ->. done.
Qed.

Lemma fork_copy_calm me p s r s' :
  fork_copy E me s = Done r s' → ptable s !! me = Some p → state p = RUNNING →
  rel calm s s' ∨ ∃ s1, ptable s1 = ptable s ∧ rel calm s1 s' ∧
    ∀ np, r = Some np → ∃ n, ptable s' !! np = Some n ∧ state n = USED.
Proof.
  intros Hrun Hp Hs. apply (fork_copy_spec E me p) in Hrun as [(-> & _ & ->)|(i & q & s1 & _ & Hq & Hu & Ht & _ & _ & Hr)];
    [by left; apply rel_refl| |done|by rewrite Hs].
  right. exists s1. split; [done|]. rewrite <-Ht in Hq. destruct Hr as [[-> Hsl]|(n & m & -> & Hid & _ & Hsl & _)].
  - split; [|done]. eapply slot_calm; [exact Hsl|exact Hq|congruence..|]. intros p' ->. done.
  - unfold ident in Hid. simplify_eq. split.
    + eapply slot_calm; [exact Hsl|exact Hq|congruence..|]. intros p' ->. cbn. congruence.
    + intros np [= <-]. destruct Hsl as [_ (p' & Hp' & ->)]. exists (child p n). by split.
Qed.

(** A part that ends by giving up the CPU. *)
Lemma updp_stop me f c h s s' p :
  ((updp me f ;;; sched me h c) s = Done tt s') → ptable s !! me = Some p → 
  length (ptable s') = length (ptable s) ∧ (∀ q, q ≠ me → ptable s' !! q = ptable s !! q) ∧ ptable s' !! me = Some (f p).
Proof.
  intros H Hp. apply bind_inv in H as ([] & s1 & [= <-] & H). apply sched_same in H as ->. cbn.
  rewrite length_alter, list_lookup_alter_eq, Hp. split_and!; [done| |done]. intros q Hq. by rewrite list_lookup_alter_ne.
Qed.

Lemma sleep_stop me ch c s s' p :
  sleep me ch c s = Done tt s' → ptable s !! me = Some p →
  length (ptable s') = length (ptable s) ∧ (∀ q, q ≠ me → ptable s' !! q = ptable s !! q) ∧
  ptable s' !! me = Some (set_state SLEEPING (set_chan ch p)).
Proof.
  intros H Hp. apply bind_inv in H as ([] & s1 & [= <-] & H).
  eapply (updp_stop me (set_state SLEEPING) _ _ _ _ (set_chan ch p)) in H as (Hl & Ho & Hm); cbn in *;
    [|by rewrite list_lookup_alter_eq, Hp].
  rewrite length_alter in Hl. split_and!; [done| |done]. intros q Hq. by rewrite Ho, list_lookup_alter_ne.
Qed.

Lemma dispatch_inv s s' o b c i :
  sys_inv (Sys s o b) → o c = None → scheduler_try i s = Done true s' → sys_inv (Sys s' (<[c := Some i]> o) b).
Proof.
  intros [H1 H2 H3 H4] Hc Hrun. unfold scheduler_try in Hrun. apply bind_inv in Hrun as (p & s0 & [= <- <-] & Hrun).
  destruct (bool_decide_reflect (state (ptable s !!! i) = RUNNABLE)) as [Hs|]; [|done].
  apply bind_inv in Hrun as ([] & s1 & [= <-] & [= <-]). cbn in *.
  pose proof (lookup_state s i _ Hs ltac:(done)) as Hlk.
  assert (∀ c', o c' ≠ Some i) as Hno.
  { intros c' Hc'. destruct (H1 c' i Hc') as (p & Hp & Hr). rewrite Hlk in Hp. injection Hp as <-. congruence. }
  split; cbn.
  - intros c' q. destruct (decide (c' = c)) as [->|]; [rewrite fn_lookup_insert|rewrite fn_lookup_insert_ne by done].
    + intros [= <-]. rewrite list_lookup_alter_eq, Hlk. eexists. by split.
    + intros Hc'. destruct (H1 c' q Hc') as (p & Hp & Hr). exists p. rewrite list_lookup_alter_ne; [done|]. intros ->. by destruct (Hno c').
  - intros q p Hp Hr. destruct (decide (q = i)) as [->|Hne]; [exists c; by rewrite fn_lookup_insert|].
    rewrite list_lookup_alter_ne in Hp by done. destruct (H2 q p Hp Hr) as [c' Hc']. exists c'.
    rewrite fn_lookup_insert_ne; [done|]. intros ->. congruence.
  - intros c1 c2 q. destruct (decide (c1 = c)) as [->|], (decide (c2 = c)) as [->|];
      rewrite ?fn_lookup_insert, ?fn_lookup_insert_ne by done; [done| | |apply H3].
    + intros [= <-] Hc2. by destruct (Hno c2).
    + intros Hc1 [= <-]. by destruct (Hno c1).
  - intros q Hq. destruct (H4 q Hq) as (p & Hp & Hu). exists p. rewrite list_lookup_alter_ne; [done|]. intros ->.
    rewrite Hlk in Hp. injection Hp as <-. congruence.
Qed.

Lemma others_calm s s' me :
  (∀ q, q ≠ me → ptable s' !! q = ptable s !! q) →
  ∀ q p, ptable s !! q = Some p → q ≠ me → ∃ p', ptable s' !! q = Some p' ∧ calm q p p'.
Proof. intros H q p Hp Hq. exists p. by rewrite H. Qed.

Lemma exit_inv s s' o b c me status x :
  sys_inv (Sys s o b) → o c = Some me → exit_zombie E me status x s = Done tt s' →
  sys_inv (Sys s' (<[c := None]> o) b).
Proof.
  intros Hi Hc Hrun. unfold exit_zombie in Hrun. apply bind_inv in Hrun as ([] & s1 & H1 & Hrun). apply bind_inv in Hrun as (p1 & s1' & [= <- <-] & Hrun).
  apply bind_inv in Hrun as ([] & s2 & H2 & Hrun). apply (reparent_calm E) in H1. apply wakeup_calm in H2.
  assert (rel calm s s2) as Hr by (eapply rel_trans; [by eauto|exact H1|exact H2]).
  pose proof (calm_inv _ _ _ _ Hi Hr) as Hi2. destruct (si_on _ Hi2 c me Hc) as (p2 & Hp2 & Hs2). cbn in Hp2.
  apply bind_inv in Hrun as ([] & s3 & [= <-] & Hrun).
  eapply updp_stop in Hrun as (Hl3 & Ho & Hm); [|cbn; by rewrite list_lookup_alter_eq, Hp2]. cbn in *. rewrite length_alter in Hl3.
  eapply stop_inv; [exact Hi2|done|done| |].
  - apply others_calm. intros q Hq. by rewrite Ho, list_lookup_alter_ne.
  - eexists. by split.
Qed.

Lemma fork_inv s s' o b c me r :
  sys_inv (Sys s o b) → o c = Some me → fork_copy E me s = Done r s' →
  sys_inv (Sys s' o (match r with Some np => {[np]} ∪ b | None => b end)).
Proof.
  intros Hi Hc Hrun. destruct (si_on _ Hi c me Hc) as (p & Hp & Hs). cbn in Hp.
  assert (sys_inv (Sys s' o b) ∧ ∀ np, r = Some np → ∃ n, ptable s' !! np = Some n ∧ state n = USED) as [Hi' Hnp].
  { pose proof (fork_copy_spec E me p s r s' Hrun Hp ltac:(by rewrite Hs)) as Hsp.
    apply (fork_copy_calm me p) in Hrun as [Hr|(s1 & Ht & Hr & Hn)]; [| |done|done].
    - split; [by eapply calm_inv|]. intros np ->. destruct Hsp as [(? & _)|(i & q & s1 & _ & _ & _ & _ & _ & _ & [(? & _)|(n & m & [= <-] & Hid & _ & Hsl & _)])]; try done.
      destruct Hsl as [_ (p' & Hp' & ->)]. exists (child p n). split; [done|]. unfold ident in Hid. by simplify_eq.
    - split; [|done]. eapply (calm_inv s1); [|exact Hr]. destruct Hi as [H1 H2 H3 H4]. split; cbn in *; rewrite ?Ht; done. }
  destruct r as [np|]; [|done]. destruct Hi' as [H1 H2 H3 H4]. split; cbn in *; try done.
  intros i [->%elem_of_singleton|Hb]%elem_of_union; [by apply Hnp|by apply H4].
Qed.

#[local] Opaque seqZ.

Lemma wait_inv s s' o b c me addr x w :
  sys_inv (Sys s o b) → o c = Some me → wait E me addr x s = Done w s' →
  sys_inv (Sys s' (match w with WBlocked => <[c := None]> o | _ => o end) b).
Proof.
  intros Hi Hc Hrun. unfold wait in Hrun. apply bind_inv in Hrun as (r & s1 & H1 & Hrun). apply wait_scan_calm in H1.
  pose proof (calm_inv _ _ _ _ Hi H1) as Hi1. destruct r as [r|hk]; [by injection Hrun as <- <-|].
  apply bind_inv in Hrun as (k & s2 & [= <- <-] & Hrun). destruct (negb hk || _); [by injection Hrun as <- <-|].
  apply bind_inv in Hrun as ([] & s2 & H2 & [= <- <-]). destruct (si_on _ Hi1 c me Hc) as (p & Hp & _).
  eapply sleep_stop in H2 as (Hl & Ho & Hm); [|exact Hp].
  eapply stop_inv; [exact Hi1|done|done|by apply others_calm|]. eexists. by split.
Qed.

Lemma start_inv s s' o b np :
  sys_inv (Sys s o b) → np ∈ b → fork_start np s = Done tt s' → sys_inv (Sys s' o (b ∖ {[np]})).
Proof.
  intros [H1 H2 H3 H4] Hb [= <-]. cbn in *. destruct (H4 np Hb) as (n & Hn & Hu).
  assert (∀ q p, ptable s !! q = Some p → state p ≠ USED → alter (set_state RUNNABLE) np (ptable s) !! q = Some p) as Ho.
  { intros q p Hp Hs. rewrite list_lookup_alter_ne; [done|]. intros ->. congruence. }
  split; cbn; [| |done|].
  - intros c i Hc. destruct (H1 c i Hc) as (p & Hp & Hs). exists p. split; [|done]. apply Ho; [done|congruence].
  - intros q p Hp Hs. destruct (decide (q = np)) as [->|]; [rewrite list_lookup_alter_eq, Hn in Hp; by injection Hp as <-|].
    rewrite list_lookup_alter_ne in Hp by done. eauto.
  - intros i [Hi Hne]%elem_of_difference. rewrite not_elem_of_singleton in Hne.
    destruct (H4 i Hi) as (p & Hp & Hs). exists p. by rewrite list_lookup_alter_ne.
Qed.

Lemma sys_step_inv y y' : sys_step y y' → sys_inv y → sys_inv y'.
Proof.
  intros Hst Hi. destruct Hst as [c i s s' o b Hc Hrun|c me x s s' o b Hc Hrun|c me ch x s s' o b Hc Hrun|c me st x s s' o b Hc Hrun
    |c me addr x s s' o b Hc Hrun|c me addr x r s s' o b Hc Hrun|c me r s s' o b Hc Hrun|c me np s s' o b Hc Hb Hrun
    |c me np s s' o b Hc Hb Hrun|c me s s' o b Hc Hrun|c me s s' o b Hc Hrun|c me n r s s' o b Hc Hrun|c me pid r s s' o b Hc Hrun
    |c me i s s' o b Hc Hrun|me ch s s' o b Hrun|c me A m a s s' o b Hc Hrun].
  - by eapply dispatch_inv.
  - destruct (si_on _ Hi c me Hc) as (p & Hp & _). eapply updp_stop in Hrun as (Hl & Ho & Hm); [|exact Hp].
    eapply stop_inv; [done..|by apply others_calm|]. eexists. by split.
  - destruct (si_on _ Hi c me Hc) as (p & Hp & _). eapply sleep_stop in Hrun as (Hl & Ho & Hm); [|exact Hp].
    eapply stop_inv; [done..|by apply others_calm|]. eexists. by split.
  - by eapply exit_inv.
  - by apply (wait_inv s s' o b c me addr x WBlocked).
  - by apply (wait_inv s s' o b c me addr x (WReturned r)).
  - by eapply fork_inv.
  - eapply calm_inv; [done|]. by eapply fork_parent_calm.
  - by eapply start_inv.
  - eapply calm_inv; [done|]. by eapply sleep_return_calm.
  - eapply calm_inv; [done|]. by eapply (exit_files_calm E).
  - eapply calm_inv; [done|]. by eapply (growproc_calm E).
  - eapply calm_inv; [done|]. by eapply kill_calm.
  - eapply calm_inv; [done|]. by eapply setkilled_calm.
  - eapply calm_inv; [done|]. by eapply wakeup_calm.
  - eapply calm_inv; [done|]. eapply keeps_on_fl; [by eauto|exact Hrun].
Qed.
End sched.

(** C7. However the CPUs interleave dispatching, yield, sleep, wakeup, kill, fork,
    exit and wait, a process is on a CPU exactly when its state is RUNNING,
    no process is ever on two CPUs, and a child that fork is still
    building is neither run nor reused. *)
Theorem running_on_exactly_one_cpu {Sc dev} `{!BufCache Sc dev} (E : env) (y y' : @sys Sc) :
  quiet_sys y → rtc (sys_step E) y y' →
  (∀ i p, ptable (sk y') !! i = Some p → (state p = RUNNING ↔ ∃ c, on y' c = Some i)) ∧
  (∀ c c' i, on y' c = Some i → on y' c' = Some i → c = c') ∧
  (∀ i, i ∈ born y' → ∃ p, ptable (sk y') !! i = Some p ∧ state p = USED).
Proof.
  intros (Ho & Hb & Hn) Hr. assert (sys_inv y) as Hi.
  { split; [intros c i; by rewrite Ho|intros i p Hp Hs; by destruct (Hn i p Hp)|intros c c' i; by rewrite Ho|rewrite Hb; set_solver]. }
  assert (sys_inv y') as [H1 H2 H3 H4] by (clear Ho Hb Hn; induction Hr; eauto using sys_step_inv).
  split; [|split; [exact H3|exact H4]]. intros i p Hp. split; [by apply H2|].
  intros [c Hc]. destruct (H1 c i Hc) as (p' & Hp' & Hs). congruence.
Qed.

#[local] Existing Instance ex_bio.

(** Two CPUs dispatch two runnable processes. *)
Definition ex_sys : @sys bst :=
  Sys (Kst ex_fls (set_state RUNNABLE ex_init :: set_state RUNNABLE ex_exiting :: replicate 62 inhabitant) 3 (Some 0%nat) 0 false)
    (λ _, None) ∅.

Lemma running_on_exactly_one_cpu_witness :
  ∃ y', rtc (sys_step ex_env) ex_sys y' ∧ on y' 3 = Some 0%nat ∧ on y' 5 = Some 1%nat ∧ ∀ c, on y' c = Some 0%nat → c = 3%nat.
Proof.
  eassert (rtc (sys_step ex_env) ex_sys _) as Hr.
  { eapply rtc_l; [by apply (st_dispatch ex_env 3 0)|]. eapply rtc_l; [by apply (st_dispatch ex_env 5 1)|]. apply rtc_refl. }
  eexists. split; [exact Hr|]. split; [reflexivity|]. split; [reflexivity|].
  destruct (running_on_exactly_one_cpu ex_env ex_sys _ ltac:(split_and!; [done..|]; intros [|[|i]] p Hp; [by injection Hp as <-..|];
    change (replicate 62 (inhabitant : proc) !! i = Some p) in Hp; by apply lookup_replicate in Hp as [-> _]) Hr) as (_ & H & _).
  intros c Hc. by apply (H c 3%nat 0%nat Hc).
Defined.
