(* ===== verification/Sleep.v ===== *)
(** * sleep and wakeup: no wakeup is lost

    Threads use the protocol of kernel/proc.c around a condition protected by
    a lock [lk]: a consumer calls sleep(chan, &lk) until the condition holds
    and then uses it up; a producer makes it true and calls wakeup(chan), both
    with [lk] held. Every access to the locks, the condition and the
    process table is a step of its own. *)

From S2P Require Import Prelude Ring Riscv Mem Kalloc Vm Block FsFormat Log LogSpec LogOps Txn Fs.
From S2P Require Import Pipe Uart Printf Console File Spinlock Proc.

Section sleep.
(** The size of the process table and the channel, which is not 0. *)
Variables (n : nat) (ch : Z).

(** Where a thread is. *)
Inductive spc :=
| Idle
| Check              (* holds lk, tests the condition *)
| SleepLock          (* sleep: acquire(&p->lock) *)
| SleepRelease       (* sleep: release(lk) *)
| SleepSet           (* sleep: p->chan = chan; p->state = SLEEPING *)
| SleepSwitch        (* sched: the scheduler releases p->lock *)
| Asleep
| Resume             (* dispatched, with p->lock: p->chan = 0; release *)
| Relock             (* sleep: acquire(lk) *)
| Signal             (* holds lk, makes the condition true *)
| Scan (i : nat)     (* wakeup's loop, at process i *)
| ScanLocked (i : nat).  (* with the lock of process i *)

Record sw := SW {
  spcs : nat → spc;
  lk : option nat;            (* who holds lk *)
  plk : nat → option nat;     (* who holds proc[i].lock *)
  procs : nat → proc;
  cond : bool
}.

Inductive sw_step : sw → sw → Prop :=
| sw_consume t c k pl ps b : c t = Idle → k = None →
    sw_step (SW c k pl ps b) (SW (<[t := Check]> c) (Some t) pl ps b)
| sw_true t c k pl ps : c t = Check →
    sw_step (SW c k pl ps true) (SW (<[t := Idle]> c) None pl ps false)
| sw_false t c k pl ps : c t = Check →
    sw_step (SW c k pl ps false) (SW (<[t := SleepLock]> c) k pl ps false)
| sw_sleep_lock t c k pl ps b : c t = SleepLock → pl t = None →
    sw_step (SW c k pl ps b) (SW (<[t := SleepRelease]> c) k (<[t := Some t]> pl) ps b)
| sw_sleep_release t c k pl ps b : c t = SleepRelease →
    sw_step (SW c k pl ps b) (SW (<[t := SleepSet]> c) None pl ps b)
| sw_sleep_set t c k pl ps b : c t = SleepSet →
    sw_step (SW c k pl ps b) (SW (<[t := SleepSwitch]> c) k pl (<[t := set_state SLEEPING (set_chan ch (ps t))]> ps) b)
| sw_switch t c k pl ps b : c t = SleepSwitch →
    sw_step (SW c k pl ps b) (SW (<[t := Asleep]> c) k (<[t := None]> pl) ps b)
| sw_dispatch t c k pl ps b : c t = Asleep → pl t = None → state (ps t) = RUNNABLE →
    sw_step (SW c k pl ps b) (SW (<[t := Resume]> c) k (<[t := Some t]> pl) (<[t := set_state RUNNING (ps t)]> ps) b)
| sw_resume t c k pl ps b : c t = Resume →
    sw_step (SW c k pl ps b) (SW (<[t := Relock]> c) k (<[t := None]> pl) (<[t := set_chan 0 (ps t)]> ps) b)
| sw_relock t c k pl ps b : c t = Relock → k = None →
    sw_step (SW c k pl ps b) (SW (<[t := Check]> c) (Some t) pl ps b)
| sw_produce t c k pl ps b : c t = Idle → k = None →
    sw_step (SW c k pl ps b) (SW (<[t := Signal]> c) (Some t) pl ps b)
| sw_signal t c k pl ps b : c t = Signal →
    sw_step (SW c k pl ps b) (SW (<[t := Scan 0]> c) k pl ps true)
| sw_skip t i c k pl ps b : c t = Scan i → (i < n)%nat → i = t →
    sw_step (SW c k pl ps b) (SW (<[t := Scan (S i)]> c) k pl ps b)
| sw_scan_lock t i c k pl ps b : c t = Scan i → (i < n)%nat → i ≠ t → pl i = None →
    sw_step (SW c k pl ps b) (SW (<[t := ScanLocked i]> c) k (<[i := Some t]> pl) ps b)
| sw_wake t i c k pl ps b : c t = ScanLocked i →
    sw_step (SW c k pl ps b) (SW (<[t := Scan (S i)]> c) k (<[i := None]> pl) (<[i := wake_if ch (ps i)]> ps) b)
| sw_done t i c k pl ps b : c t = Scan i → i = n →
    sw_step (SW c k pl ps b) (SW (<[t := Idle]> c) None pl ps b)
(* kill, or a wakeup of something else *)
| sw_spurious i c k pl ps b : pl i = None → state (ps i) = SLEEPING →
    sw_step (SW c k pl ps b) (SW c k pl (<[i := set_state RUNNABLE (ps i)]> ps) b).

(** The threads that hold lk, and their own process's lock. *)
Definition holds_lk (p : spc) : bool :=
  match p with Check | SleepLock | SleepRelease | Signal | Scan _ | ScanLocked _ => true | _ => false end.
Definition holds_own (p : spc) : bool :=
  match p with SleepRelease | SleepSet | SleepSwitch | Resume => true | _ => false end.

(** A thread that has decided to sleep and has not been woken. *)
Definition waiting (p : spc) (q : proc) : Prop :=
  match p with
  | SleepLock | SleepRelease | SleepSet | SleepSwitch => True
  | Asleep => state q = SLEEPING
  | _ => False
  end.

(** [w] is in wakeup and has not passed process [t]. *)
Definition will_wake (p : spc) (t : nat) : Prop :=
  match p with Scan i | ScanLocked i => (i ≤ t)%nat | _ => False end.

Record sw_inv (z : sw) : Prop := {
  wi_lk t : holds_lk (spcs z t) = true → lk z = Some t;
  wi_own t : holds_own (spcs z t) = true → plk z t = Some t;
  wi_scan t i : spcs z t = ScanLocked i → plk z i = Some t ∧ i ≠ t;
  wi_chan t : spcs z t = SleepSwitch ∨ spcs z t = Asleep → state (procs z t) = SLEEPING → chan (procs z t) = ch;
  wi_wait t : (t < n)%nat → waiting (spcs z t) (procs z t) → cond z = true → ∃ w, will_wake (spcs z w) t
}.

Lemma fn_ins {A B} `{EqDecision A} (f : A → B) a x b : <[a := x]> f b = if decide (b = a) then x else f b.
Proof. case_decide; [subst; apply fn_lookup_insert|by apply fn_lookup_insert_ne]. Qed.

Ltac split_fn :=
  cbn in *; repeat match goal with
  | H : context [<[_ := _]> _ _] |- _ => rewrite fn_ins in H
  | |- context [<[_ := _]> _ _] => rewrite fn_ins
  end; repeat case_decide; simplify_eq/=.

(** Everything but the last clause. *)
Lemma sw_step_basic z z' : sw_step z z' → sw_inv z →
  (∀ t, holds_lk (spcs z' t) = true → lk z' = Some t) ∧ (∀ t, holds_own (spcs z' t) = true → plk z' t = Some t) ∧
  (∀ t i, spcs z' t = ScanLocked i → plk z' i = Some t ∧ i ≠ t) ∧
  (∀ t, spcs z' t = SleepSwitch ∨ spcs z' t = Asleep → state (procs z' t) = SLEEPING → chan (procs z' t) = ch).
Proof.
  intros Hst [H1 H2 H3 H4 _]. destruct Hst; cbn in *;
    match goal with
    | H : ?c ?t = _ |- _ => pose proof (H1 t) as H1t; pose proof (H2 t) as H2t; pose proof (H3 t) as H3t; rewrite H in H1t, H2t, H3t; cbn in H1t, H2t, H3t
    | _ => idtac
    end.
  all: split_and!; intros t'; pose proof (H1 t'); pose proof (H2 t'); pose proof (H3 t'); pose proof (H4 t'); intros; split_fn.
  all: try by eauto.
  all: try congruence.
  all: try (specialize (H1t eq_refl)); try (specialize (H2t eq_refl)); try destruct (H3t _ eq_refl).
  all: try match goal with
       | H : ∀ i, ?c ?t' = ScanLocked i → _, H' : ?c ?t' = ScanLocked _ |- _ => destruct (H _ H'); congruence
       end.
  all: try (intuition congruence).
  all: match goal with H : state (wake_if _ ?p) = SLEEPING |- _ => unfold wake_if in *; repeat case_match; simplify_eq/=; auto end.
Qed.

Lemma will_wake_lk z w t : sw_inv z → will_wake (spcs z w) t → lk z = Some w.
Proof. intros Hi Hw. apply (wi_lk _ Hi). by destruct (spcs z w). Qed.

Lemma woken_not_waiting z t i :
  sw_inv z → spcs z t = ScanLocked i → waiting (spcs z i) (wake_if ch (procs z i)) → False.
Proof.
  intros Hi Ht Hw. destruct (wi_scan _ Hi t i Ht) as [Hpl Hne].
  assert (lk z = Some t) as Hlk by (apply (wi_lk _ Hi); by rewrite Ht).
  destruct (spcs z i) eqn:Es; cbn in Hw; try done.
  - pose proof (wi_lk _ Hi i) as H. rewrite Es in H. specialize (H eq_refl). congruence.
  - pose proof (wi_own _ Hi i) as H. rewrite Es in H. specialize (H eq_refl). congruence.
  - pose proof (wi_own _ Hi i) as H. rewrite Es in H. specialize (H eq_refl). congruence.
  - pose proof (wi_own _ Hi i) as H. rewrite Es in H. specialize (H eq_refl). congruence.
  - assert (state (procs z i) = SLEEPING) as Hs by (unfold wake_if in Hw; repeat case_match; simplify_eq/=; done).
    pose proof (wi_chan _ Hi i ltac:(by right) Hs) as Hch. unfold wake_if in Hw.
    rewrite bool_decide_true, Hch, Z.eqb_refl in Hw by done. done.
Qed.

Lemma sw_step_inv z z' : sw_step z z' → sw_inv z → sw_inv z'.
Proof.
  intros Hst Hi. destruct (sw_step_basic z z' Hst Hi) as (B1 & B2 & B3 & B4). split; try done.
  intros t' Ht' Hw Hc. pose proof (wi_wait _ Hi t' Ht') as H5.
  destruct Hst as [t c k pl ps b Hpc Hk|t c k pl ps Hpc|t c k pl ps Hpc|t c k pl ps b Hpc Hl|t c k pl ps b Hpc|t c k pl ps b Hpc
    |t c k pl ps b Hpc|t c k pl ps b Hpc Hl Hs|t c k pl ps b Hpc|t c k pl ps b Hpc Hk|t c k pl ps b Hpc Hk|t c k pl ps b Hpc
    |t i c k pl ps b Hpc Hn Hit|t i c k pl ps b Hpc Hn Hit Hl|t i c k pl ps b Hpc|t i c k pl ps b Hpc Hn|i c k pl ps b Hl Hs];
    cbn [spcs lk plk procs cond] in *; try done.
  (* the signal itself *)
  10: { exists t. rewrite fn_lookup_insert. cbn. lia. }
  (* wakeup passes process i *)
  12: { destruct (decide (t' = i)) as [->|Hne].
        - exfalso. apply (woken_not_waiting _ t i Hi Hpc). cbn. destruct (wi_scan _ Hi t i Hpc) as [_ Hit].
          rewrite fn_lookup_insert, fn_lookup_insert_ne in Hw by done. exact Hw.
        - assert (waiting (c t') (ps t')) as Hw' by (revert Hw; split_fn; done).
          destruct (H5 Hw' Hc) as [w Hww]. exists w. revert Hww. rewrite fn_ins. case_decide; [subst w; rewrite Hpc; cbn; lia|done]. }
  all: assert (waiting (c t') (ps t')) as Hw' by (revert Hw; split_fn; rewrite ?Hpc; try done; by destruct (c i)).
  all: destruct (H5 Hw' Hc) as [w Hww]; exists w; revert Hww; rewrite ?fn_ins; try case_decide; subst; rewrite ?Hpc; cbn; try done; try lia.
  intros Hle. destruct (decide (t' = t)) as [->|]; [by rewrite Hpc in Hw'|lia].
Qed.
End sleep.

(** C6. In every interleaving of consumers that call sleep, producers that call
    wakeup, the scheduler and kill, no wakeup is lost: whenever the condition
    holds and a thread is asleep on it, some producer is inside wakeup
    and has yet to reach that thread. Once no one holds the lock, a
    thread is asleep only if the condition is false. *)
Theorem no_lost_wakeup n ch z z' t :
  (∀ u, spcs z u = Idle) → rtc (sw_step n ch) z z' → (t < n)%nat →
  spcs z' t = Asleep → state (procs z' t) = SLEEPING → cond z' = true →
  ∃ w, will_wake (spcs z' w) t ∧ lk z' = Some w.
Proof.
  intros H0 Hr Ht Ha Hs Hc. assert (sw_inv n ch z) as Hi.
  { split; [intros u; by rewrite H0..|intros u i; by rewrite H0|intros u; rewrite H0; by intros [[=]|[=]]|intros u _; by rewrite H0]. }
  assert (sw_inv n ch z') as Hi' by (clear -Hi Hr; induction Hr; eauto using sw_step_inv).
  destruct (wi_wait _ _ _ Hi' t Ht) as [w Hw]; [by rewrite Ha|done|]. exists w. split; [done|]. by eapply will_wake_lk.
Qed.

Definition ex_sw : sw := SW (λ _, Idle) None (λ _, None) (λ _, inhabitant) false.

(** Process 0 goes to sleep; process 1 has made the condition true. *)
Lemma no_lost_wakeup_witness :
  ∃ z w, spcs z 0 = Asleep ∧ cond z = true ∧ will_wake (spcs z w) 0.
Proof.
  eassert (rtc (sw_step 2 5) ex_sw _) as Hr.
  { eapply rtc_l; [by apply (sw_consume _ _ 0)|]. eapply rtc_l; [by apply (sw_false _ _ 0)|].
    eapply rtc_l; [by apply (sw_sleep_lock _ _ 0)|]. eapply rtc_l; [by apply (sw_sleep_release _ _ 0)|].
    eapply rtc_l; [by apply (sw_sleep_set _ _ 0)|]. eapply rtc_l; [by apply (sw_switch _ _ 0)|].
    eapply rtc_l; [by apply (sw_produce _ _ 1)|]. eapply rtc_l; [by apply (sw_signal _ _ 1)|]. apply rtc_refl. }
  destruct (no_lost_wakeup 2 5 ex_sw _ 0 (λ _, eq_refl) Hr ltac:(lia) eq_refl eq_refl eq_refl) as (w & Hw & _).
  eexists _, w. split; [|split; [|exact Hw]]; reflexivity.
Defined.
