(* ===== verification/Exec.v ===== *)
(** * Replacing a process's program, kernel/exec.c

    The ELF header, program header, user stack array and path are local
    variables in kernel memory at addresses given by the environment. *)

From S2P Require Import Prelude Ring Riscv Mem Kalloc Vm Block FsFormat Log LogSpec LogOps Txn Fs.
From S2P Require Import Pipe Uart Printf Console File Spinlock Proc.

Definition MAXARG : Z := 32.
Definition ELF_MAGIC : Z := 0x464C457F.
Definition ELF_PROG_LOAD : Z := 1.
Definition SIZEOF_ELFHDR : Z := 64.
Definition SIZEOF_PROGHDR : Z := 56.

Definition load16 (m : mem) (a : Z) : Z := little_endian_to_Z 8 (load_bytes m a 2).
Definition load32 (m : mem) (a : Z) : Z := little_endian_to_Z 8 (load_bytes m a 4).

(** [struct elfhdr] and [struct proghdr], the fields exec uses. *)
Record elfhdr := Elfhdr { elf_magic : Z; elf_entry : Z; elf_phoff : Z; elf_phnum : Z }.
Record proghdr := Proghdr { ph_type : Z; ph_flags : Z; ph_off : Z; ph_vaddr : Z; ph_filesz : Z; ph_memsz : Z }.
Definition elfhdr_at (m : mem) (a : Z) : elfhdr :=
  Elfhdr (load32 m a) (load64 m (a + 24)) (load64 m (a + 32)) (load16 m (a + 56)).
Definition proghdr_at (m : mem) (a : Z) : proghdr :=
  Proghdr (load32 m a) (load32 m (a + 4)) (load64 m (a + 8)) (load64 m (a + 16)) (load64 m (a + 32)) (load64 m (a + 40)).

Definition flags2perm (flags : Z) : Z :=
  let perm := if Z.land flags 1 =? 0 then 0 else PTE_X in
  if Z.land flags 2 =? 0 then perm else Z.lor perm PTE_W.

Section exec.
Context {Sc : Type} {dev : Z} `{!BufCache Sc dev} (E : env).
#[local] Instance etxn : TxnLayer (lst Sc) dev := log_txn (e_logstart E) (e_nlog E).

Definition readk (ip : nat) (dst off n : Z) : M (@kst Sc) Z :=
  on_fs (readi 0 (e_bufaddr E) ip false dst off n).
Definition ldk {A} (f : mem → A) : M (@kst Sc) A := on_fs (ldmem f).

Definition loadseg (pagetable va : Z) (ip : nat) (offset sz : Z) : M (@kst Sc) Z :=
  loop (S (Z.to_nat (sz `div` PGSIZE + 1)))
    (λ i,
      if i <? sz then
        let* pa := on_k (walkaddr pagetable (u64 (va + i))) in
        if pa =? 0 then panic "loadseg: address should exist"
        else
          let n := if u32 (sz - i) <? PGSIZE then u32 (sz - i) else PGSIZE in
          let* r := readk ip pa (u32 (offset + i)) n in
          if negb (u32 r =? n) then ret (inr (-1))
          else ret (inl (u32 (i + PGSIZE)))
      else ret (inr 0))
    0.

(** [bad:], with the variables [pagetable], [sz] and [ip]. *)
Definition exec_bad (pid pagetable sz : Z) (ip : option nat) : M (@kst Sc) Z :=
  (if negb (pagetable =? 0) then on_k (proc_freepagetable (e_kend E) pagetable sz) else ret tt) ;;;
  match ip with
  | Some ip => on_fs (iunlockput pid ip) ;;; end_op
  | None => ret tt
  end ;;;
  ret (-1).

(** One program header: [inl] the new size, or [inr] the size when it fails. *)
Definition exec_segment (pagetable : Z) (ip : nat) (off sz : Z) : M (@kst Sc) (Z + Z) :=
  let* r := readk ip (e_ph E) (u32 off) SIZEOF_PROGHDR in
  if negb (r =? SIZEOF_PROGHDR) then ret (inr sz)
  else
    let* ph := ldk (λ m, proghdr_at m (e_ph E)) in
    if negb (ph_type ph =? ELF_PROG_LOAD) then ret (inl sz)
    else if ph_memsz ph <? ph_filesz ph then ret (inr sz)
    else if u64 (ph_vaddr ph + ph_memsz ph) <? ph_vaddr ph then ret (inr sz)
    else if negb (ph_vaddr ph `mod` PGSIZE =? 0) then ret (inr sz)
    else
      let* sz1 := on_k (uvmalloc (e_kend E) pagetable sz (u64 (ph_vaddr ph + ph_memsz ph)) (flags2perm (ph_flags ph))) in
      if sz1 =? 0 then ret (inr sz)
      else
        let* r := loadseg pagetable (ph_vaddr ph) ip (u32 (ph_off ph)) (u32 (ph_filesz ph)) in
        if r <? 0 then ret (inr sz1) else ret (inl sz1).

(** The loop over the program headers: [inl] the size, or [inr] as above. *)
Fixpoint exec_segments (phnum : nat) (pagetable : Z) (ip : nat) (off sz : Z) : M (@kst Sc) (Z + Z) :=
  match phnum with
  | O => ret (inl sz)
  | S phnum =>
      let* r := exec_segment pagetable ip off sz in
      match r with
      | inl sz => exec_segments phnum pagetable ip (i32 (off + SIZEOF_PROGHDR)) sz
      | inr sz => ret (inr sz)
      end
  end.

(** Pushes the argument strings: [Some] (argc, sp), or [None] when it fails.
    [argv] is the array, which ends with a null pointer. *)
Fixpoint exec_args (argv : list Z) (pagetable stackbase argc sp : Z) : M (@kst Sc) (option (Z * Z)) :=
  match argv with
  | [] => ret (Some (argc, sp))
  | a :: argv =>
      if a =? 0 then ret (Some (argc, sp))
      else if MAXARG <=? argc then ret None
      else
        let* l := ldk (λ m, strlen (Z.to_nat PGSIZE) m a) in
        match l with
        | None => λ _, OutOfFuel
        | Some l =>
            let sp := u64 (sp - (l + 1)) in
            let sp := sp - sp `mod` 16 in
            if sp <? stackbase then ret None
            else
              let* r := on_k (copyout pagetable sp a (l + 1)) in
              if r <? 0 then ret None
              else
                on_k (st64 (e_ustack E + 8 * argc) sp) ;;;
                exec_args argv pagetable stackbase (argc + 1) sp
        end
  end.

(** The last component of the path, [s] being the string from [last] on. *)
Fixpoint basename (last s : list Z) : list Z :=
  match s with
  | [] => last
  | c :: s => if c =? 47 then basename s s else basename last s
  end.

Definition exec (me : nat) (argv : list Z) : M (@kst Sc) Z :=
  let* p := getp me in
  begin_op ;;;
  let* r := namei E p (e_path E) in
  match r with
  | None => end_op ;;; ret (-1)
  | Some ip =>
      on_fs (ilock (p_pid p) (Some ip)) ;;;
      let* r := readk ip (e_elf E) 0 SIZEOF_ELFHDR in
      if negb (r =? SIZEOF_ELFHDR) then exec_bad (p_pid p) 0 0 (Some ip)
      else
        let* elf := ldk (λ m, elfhdr_at m (e_elf E)) in
        if negb (elf_magic elf =? ELF_MAGIC) then exec_bad (p_pid p) 0 0 (Some ip)
        else
          let* pagetable := on_k (proc_pagetable (e_kend E) (e_trampoline E) (trapframe p)) in
          if pagetable =? 0 then exec_bad (p_pid p) 0 0 (Some ip)
          else
            let* r := exec_segments (Z.to_nat (elf_phnum elf)) pagetable ip (i32 (elf_phoff elf)) 0 in
            match r with
            | inr sz => exec_bad (p_pid p) pagetable sz (Some ip)
            | inl sz =>
                on_fs (iunlockput (p_pid p) ip) ;;;
                end_op ;;;
                let* p := getp me in
                let oldsz := Proc.sz p in
                let sz := PGROUNDUP sz in
                let* sz1 := on_k (uvmalloc (e_kend E) pagetable sz (u64 (sz + 2 * PGSIZE)) PTE_W) in
                if sz1 =? 0 then exec_bad (p_pid p) pagetable sz None
                else
                  let sz := sz1 in
                  on_k (uvmclear pagetable (sz - 2 * PGSIZE)) ;;;
                  let stackbase := sz - PGSIZE in
                  let* r := exec_args argv pagetable stackbase 0 sz in
                  match r with
                  | None => exec_bad (p_pid p) pagetable sz None
                  | Some (argc, sp) =>
                      on_k (st64 (e_ustack E + 8 * argc) 0) ;;;
                      let sp := u64 (sp - (argc + 1) * 8) in
                      let sp := sp - sp `mod` 16 in
                      if sp <? stackbase then exec_bad (p_pid p) pagetable sz None
                      else
                        let* r := on_k (copyout pagetable sp (e_ustack E) ((argc + 1) * 8)) in
                        if r <? 0 then exec_bad (p_pid p) pagetable sz None
                        else
                          on_k (st64 (trapframe p + TF_A 1) sp) ;;;
                          let* path := ldk (λ m, cstrn m (e_path E) (Z.to_nat MAXPATH)) in
                          updp me (λ p, set_pname (safestrcpy_list (pname p) (basename path path) 16) p) ;;;
                          updp me (set_pagetable pagetable) ;;;
                          updp me (set_sz sz) ;;;
                          on_k (st64 (trapframe p + TF_EPC) (elf_entry elf)) ;;;
                          on_k (st64 (trapframe p + TF_SP) sp) ;;;
                          on_k (proc_freepagetable (e_kend E) (Proc.pagetable p) oldsz) ;;;
                          ret argc
                  end
            end
  end.
End exec.
