(* ===== verification/Fcntl.v ===== *)
(** * Descriptors: kernel/fcntl.h and the search of fdalloc

    Shared by the system calls (Sysfile.v) and the user programs (User.v). *)

From S2P Require Import Prelude.

Definition O_RDONLY : Z := 0x000.
Definition O_WRONLY : Z := 0x001.
Definition O_RDWR : Z := 0x002.
Definition O_CREATE : Z := 0x200.
Definition O_TRUNC : Z := 0x400.

(** The first free descriptor of a table, from [fd] on. *)
Fixpoint free_fd {A} (o : list (option A)) (fd : Z) : option Z :=
  match o with
  | [] => None
  | None :: _ => Some fd
  | Some _ :: o => free_fd o (fd + 1)
  end.
