(* ===== verification/Sysfile.v ===== *)
(** * System call arguments and file system calls, kernel/syscall.c and sysfile.c

    [me] is the calling process. Each call is the whole handler; a null
    result is [None]. *)

From S2P Require Import Prelude Ring Riscv Mem Kalloc Vm Block FsFormat Log LogSpec LogOps Txn Fs.
From S2P Require Import Pipe Uart Printf Console File Spinlock Proc Exec Fcntl.

Section sysfile.
Context {Sc : Type} {dev : Z} `{!BufCache Sc dev} (E : env).
#[local] Instance stxn : TxnLayer (lst Sc) dev := log_txn (e_logstart E) (e_nlog E).
Abbreviation kst := (@kst Sc).

(** ** Arguments, kernel/syscall.c *)

Definition fetchaddr (me : nat) (addr : Z) : M kst (option Z) :=
  let* p := getp me in
  if (sz p <=? addr) || (sz p <? u64 (addr + 8)) then ret None
  else
    let* r := on_k (copyin (pagetable p) (e_word E) addr 8) in
    if negb (r =? 0) then ret None
    else
      let* v := ldk (λ m, load64 m (e_word E)) in
      ret (Some v).

Definition fetchstr (me : nat) (addr buf max : Z) : M kst Z :=
  let* p := getp me in
  let* r := on_k (copyinstr (pagetable p) buf addr max) in
  if r <? 0 then ret (-1)
  else
    let* l := ldk (λ m, strlen (Z.to_nat max) m buf) in
    match l with
    | Some l => ret l
    | None => λ _, OutOfFuel
    end.

Definition argraw (me : nat) (n : Z) : M kst Z :=
  let* p := getp me in
  if (0 <=? n) && (n <=? 5) then on_k (ld64 (trapframe p + TF_A n))
  else panic "argraw".

Definition argint (me : nat) (n : Z) : M kst Z :=
  let* v := argraw me n in
  ret (i32 v).

Definition argaddr (me : nat) (n : Z) : M kst Z := argraw me n.

Definition argstr (me : nat) (n buf max : Z) : M kst Z :=
  let* addr := argaddr me n in
  fetchstr me addr buf max.

(** ** Descriptors *)

(** The descriptor and its file. *)
Definition argfd (me : nat) (n : Z) : M kst (option (Z * nat)) :=
  let* fd := argint me n in
  let* p := getp me in
  if (fd <? 0) || (NOFILE <=? fd) then ret None
  else
    match ofile p !!! Z.to_nat fd with
    | Some f => ret (Some (fd, f))
    | None => ret None
    end.

Definition set_fd (me : nat) (fd : Z) (f : option nat) : M kst unit :=
  updp me (λ p, set_ofile (<[Z.to_nat fd := f]> (ofile p)) p).

Definition fdalloc (me : nat) (f : nat) : M kst Z :=
  let* p := getp me in
  match free_fd (ofile p) 0 with
  | Some fd => set_fd me fd (Some f) ;;; ret fd
  | None => ret (-1)
  end.

Definition sys_dup (me : nat) : M kst Z :=
  let* a := argfd me 0 in
  match a with
  | None => ret (-1)
  | Some (_, f) =>
      let* fd := fdalloc me f in
      if fd <? 0 then ret (-1)
      else
        on_fl (filedup f) ;;;
        ret fd
  end.

Definition sys_read (me : nat) : M kst fsegment :=
  let* p := argaddr me 1 in
  let* n := argint me 2 in
  let* a := argfd me 0 in
  let* x := getp me in
  match a with
  | None => ret (FReturned (-1))
  | Some (_, f) =>
      on_fl (fileread (e_logstart E) (e_nlog E) (p_pid x) (pagetable x) (λ _, killed x) (e_bufaddr E) (e_ch E) f p n)
  end.

Definition sys_write (me : nat) : M kst fsegment :=
  let* p := argaddr me 1 in
  let* n := argint me 2 in
  let* a := argfd me 0 in
  let* x := getp me in
  match a with
  | None => ret (FReturned (-1))
  | Some (_, f) =>
      on_fl (filewrite (e_logstart E) (e_nlog E) (p_pid x) (pagetable x) (λ _, killed x) (e_bufaddr E) (e_ch E)
        (e_idle E) (e_chan_tx_r E) f p n)
  end.

Definition sys_close (me : nat) : M kst Z :=
  let* a := argfd me 0 in
  let* x := getp me in
  match a with
  | None => ret (-1)
  | Some (fd, f) =>
      set_fd me fd None ;;;
      fileclose E (p_pid x) f ;;;
      ret 0
  end.

Definition sys_fstat (me : nat) : M kst Z :=
  let* st := argaddr me 1 in
  let* a := argfd me 0 in
  let* x := getp me in
  match a with
  | None => ret (-1)
  | Some (_, f) => on_fl (filestat (e_logstart E) (e_nlog E) (p_pid x) (pagetable x) (e_st E) f st)
  end.

(** ** Names *)

Definition get_ip (ip : nat) : M kst inode := on_fs (geti ip).
Definition upd_di (ip : nat) (f : dinode → dinode) : M kst unit := on_fs (updi ip (λ x, set_di (f (i_di x)) x)).
Definition add_nlink (k : Z) (d : dinode) : dinode := set_nlink (i16 (d_nlink d + k)) d.
Definition set_dev_nlink (major minor nlink : Z) (d : dinode) : dinode :=
  Dinode (d_type d) major minor nlink (d_size d) (d_addrs d).
Definition lock (p : proc) (ip : nat) : M kst unit := on_fs (ilock (p_pid p) (Some ip)).
Definition unlock (p : proc) (ip : nat) : M kst unit := on_fs (iunlock (p_pid p) (Some ip)).
Definition unlockput (p : proc) (ip : nat) : M kst unit := on_fs (iunlockput (p_pid p) ip).
Definition nameiparent (p : proc) (path name : Z) : M kst (option nat) :=
  on_fs (Fs.nameiparent (p_pid p) (pagetable p) (default 0%nat (cwd p)) (e_bufaddr E) (e_de E) path name).
Definition dirlink (p : proc) (dp : nat) (name inum : Z) : M kst Z :=
  on_fs (Fs.dirlink (p_pid p) (pagetable p) (e_bufaddr E) (e_de E) dp name inum).
Definition dirlookup (p : proc) (dp : nat) (name : Z) : M kst (option (nat * Z)) :=
  on_fs (Fs.dirlookup (pagetable p) (e_bufaddr E) (e_de E) dp name).

Definition sys_link (me : nat) : M kst Z :=
  let* r := argstr me 0 (e_path E) MAXPATH in
  if r <? 0 then ret (-1)
  else
    let* r := argstr me 1 (e_path2 E) MAXPATH in
    if r <? 0 then ret (-1)
    else
      begin_op ;;;
      let* p := getp me in
      let* r := namei E p (e_path E) in
      match r with
      | None => end_op ;;; ret (-1)
      | Some ip =>
          lock p ip ;;;
          let* x := get_ip ip in
          if d_type (i_di x) =? T_DIR then
            unlockput p ip ;;;
            end_op ;;;
            ret (-1)
          else
            upd_di ip (add_nlink 1) ;;;
            on_fs (iupdate ip) ;;;
            unlock p ip ;;;
            let bad :=
              lock p ip ;;;
              upd_di ip (add_nlink (-1)) ;;;
              on_fs (iupdate ip) ;;;
              unlockput p ip ;;;
              end_op ;;;
              ret (-1) in
            let* r := nameiparent p (e_path2 E) (e_name E) in
            match r with
            | None => bad
            | Some dp =>
                lock p dp ;;;
                let* d := get_ip dp in
                let* x := get_ip ip in
                let* r :=
                  (if negb (i_dev d =? i_dev x) then ret (-1)
                   else dirlink p dp (e_name E) (i_inum x)) in
                if r <? 0 then unlockput p dp ;;; bad
                else
                  unlockput p dp ;;;
                  on_fs (iput (p_pid p) ip) ;;;
                  end_op ;;;
                  ret 0
            end
      end.

(** Whether every entry after the first two is free. *)
Definition isdirempty (p : proc) (dp : nat) : M kst bool :=
  let* d := get_ip dp in
  loop (S (Z.to_nat (d_size (i_di d) `div` SIZEOF_DIRENT)))
    (λ off,
      if off <? d_size (i_di d) then
        let* r := on_fs (readi (pagetable p) (e_bufaddr E) dp false (e_de2 E) off SIZEOF_DIRENT) in
        if negb (r =? SIZEOF_DIRENT) then panic "isdirempty: readi"
        else
          let* inum := ldk (de_inum (e_de2 E)) in
          if negb (inum =? 0) then ret (inr false) else ret (inl (off + SIZEOF_DIRENT))
      else ret (inr true))
    (2 * SIZEOF_DIRENT).

Definition sys_unlink (me : nat) : M kst Z :=
  let* r := argstr me 0 (e_path E) MAXPATH in
  if r <? 0 then ret (-1)
  else
    begin_op ;;;
    let* p := getp me in
    let* r := nameiparent p (e_path E) (e_name E) in
    match r with
    | None => end_op ;;; ret (-1)
    | Some dp =>
        lock p dp ;;;
        let bad := unlockput p dp ;;; end_op ;;; ret (-1) in
        let* dots := ldk (λ m, (namecmp m (e_name E) (e_dot E) =? 0) || (namecmp m (e_name E) (e_dotdot E) =? 0)) in
        if (dots : bool) then bad
        else
          let* r := dirlookup p dp (e_name E) in
          match r with
          | None => bad
          | Some (ip, off) =>
              lock p ip ;;;
              let* x := get_ip ip in
              if d_nlink (i_di x) <? 1 then panic "unlink: nlink < 1"
              else
                let isdir := d_type (i_di x) =? T_DIR in
                let* empty := (if isdir then isdirempty p ip else ret true) in
                if negb empty then unlockput p ip ;;; bad
                else
                  on_fs (stmem (λ m, memset m (e_de2 E) 0 SIZEOF_DIRENT)) ;;;
                  let* r := on_fs (writei (pagetable p) (e_bufaddr E) dp false (e_de2 E) off SIZEOF_DIRENT) in
                  if negb (r =? SIZEOF_DIRENT) then panic "unlink: writei"
                  else
                    (if isdir then upd_di dp (add_nlink (-1)) ;;; on_fs (iupdate dp) else ret tt) ;;;
                    unlockput p dp ;;;
                    upd_di ip (add_nlink (-1)) ;;;
                    on_fs (iupdate ip) ;;;
                    unlockput p ip ;;;
                    end_op ;;;
                    ret 0
          end
    end.

(** The inode of [path], locked; created if there is none. *)
Definition create (me : nat) (path type major minor : Z) : M kst (option nat) :=
  let* p := getp me in
  let* r := nameiparent p path (e_name E) in
  match r with
  | None => ret None
  | Some dp =>
      lock p dp ;;;
      let* r := dirlookup p dp (e_name E) in
      match r with
      | Some (ip, _) =>
          unlockput p dp ;;;
          lock p ip ;;;
          let* x := get_ip ip in
          if (type =? T_FILE) && ((d_type (i_di x) =? T_FILE) || (d_type (i_di x) =? T_DEVICE)) then ret (Some ip)
          else
            unlockput p ip ;;;
            ret None
      | None =>
          let* d := get_ip dp in
          let* r := on_fs (ialloc (i_dev d) type) in
          match r with
          | None => unlockput p dp ;;; ret None
          | Some ip =>
              lock p ip ;;;
              upd_di ip (set_dev_nlink major minor 1) ;;;
              on_fs (iupdate ip) ;;;
              let fail :=
                upd_di ip (set_nlink 0) ;;;
                on_fs (iupdate ip) ;;;
                unlockput p ip ;;;
                unlockput p dp ;;;
                ret None in
              let* x := get_ip ip in
              let* r :=
                (if type =? T_DIR then
                   let* r := dirlink p ip (e_dot E) (i_inum x) in
                   if r <? 0 then ret (-1) else dirlink p ip (e_dotdot E) (i_inum d)
                 else ret 0) in
              if r <? 0 then fail
              else
                let* r := dirlink p dp (e_name E) (i_inum x) in
                if r <? 0 then fail
                else
                  (if type =? T_DIR then upd_di dp (add_nlink 1) ;;; on_fs (iupdate dp) else ret tt) ;;;
                  unlockput p dp ;;;
                  ret (Some ip)
          end
      end
  end.

(** ** Opening and creating *)

Definition open_file (omode : Z) (ip : nat) (x : inode) (f : file) : file :=
  let device := d_type (i_di x) =? T_DEVICE in
  File (if device then FD_DEVICE else FD_INODE) (f_ref f) (Z.land omode O_WRONLY =? 0)
    (negb (Z.land omode O_WRONLY =? 0) || negb (Z.land omode O_RDWR =? 0)) (f_pipe f) ip
    (if device then f_off f else 0) (if device then d_major (i_di x) else f_major f).

(** The inode to open, locked. *)
Definition open_inode (me : nat) (omode : Z) : M kst (option nat) :=
  if negb (Z.land omode O_CREATE =? 0) then create me (e_path E) T_FILE 0 0
  else
    let* p := getp me in
    let* r := namei E p (e_path E) in
    match r with
    | None => ret None
    | Some ip =>
        lock p ip ;;;
        let* x := get_ip ip in
        if (d_type (i_di x) =? T_DIR) && negb (omode =? O_RDONLY) then
          unlockput p ip ;;;
          ret None
        else ret (Some ip)
    end.

Definition sys_open (me : nat) : M kst Z :=
  let* omode := argint me 1 in
  let* n := argstr me 0 (e_path E) MAXPATH in
  if n <? 0 then ret (-1)
  else
    begin_op ;;;
    let* p := getp me in
    let* r := open_inode me omode in
    match r with
    | None => end_op ;;; ret (-1)
    | Some ip =>
        let bad := unlockput p ip ;;; end_op ;;; ret (-1) in
        let* x := get_ip ip in
        if (d_type (i_di x) =? T_DEVICE) && ((d_major (i_di x) <? 0) || (NDEV <=? d_major (i_di x))) then bad
        else
          let* f := on_fl filealloc in
          match f with
          | None => bad
          | Some f =>
              let* fd := fdalloc me f in
              if fd <? 0 then fileclose E (p_pid p) f ;;; bad
              else
                on_fl (updf f (open_file omode ip x)) ;;;
                (if negb (Z.land omode O_TRUNC =? 0) && (d_type (i_di x) =? T_FILE) then on_fs (itrunc ip) else ret tt) ;;;
                unlock p ip ;;;
                end_op ;;;
                ret fd
          end
    end.

(** mkdir and mknod, after their arguments. *)
Definition make_node (me : nat) (type major minor : Z) : M kst Z :=
  let* p := getp me in
  let* n := argstr me 0 (e_path E) MAXPATH in
  if n <? 0 then end_op ;;; ret (-1)
  else
    let* r := create me (e_path E) type major minor in
    match r with
    | None => end_op ;;; ret (-1)
    | Some ip =>
        unlockput p ip ;;;
        end_op ;;;
        ret 0
    end.

Definition sys_mkdir (me : nat) : M kst Z :=
  begin_op ;;;
  make_node me T_DIR 0 0.

Definition sys_mknod (me : nat) : M kst Z :=
  begin_op ;;;
  let* major := argint me 1 in
  let* minor := argint me 2 in
  make_node me T_DEVICE (i16 major) (i16 minor).

Definition sys_chdir (me : nat) : M kst Z :=
  begin_op ;;;
  let* p := getp me in
  let* n := argstr me 0 (e_path E) MAXPATH in
  if n <? 0 then end_op ;;; ret (-1)
  else
    let* r := namei E p (e_path E) in
    match r with
    | None => end_op ;;; ret (-1)
    | Some ip =>
        lock p ip ;;;
        let* x := get_ip ip in
        if negb (d_type (i_di x) =? T_DIR) then
          unlockput p ip ;;;
          end_op ;;;
          ret (-1)
        else
          unlock p ip ;;;
          on_fs (iput (p_pid p) (default 0%nat (cwd p))) ;;;
          end_op ;;;
          updp me (set_cwd (Some ip)) ;;;
          ret 0
    end.

(** ** exec and pipe *)

(** Copies the argument strings to pages: the pages so far, and whether all
    arguments were copied. [fuel] is the rest of the array. *)
Fixpoint exec_argv (me : nat) (uargv i : Z) (argv : list Z) (fuel : nat) : M kst (list Z * bool) :=
  match fuel with
  | O => ret (argv, false)
  | S fuel =>
      let* uarg := fetchaddr me (u64 (uargv + 8 * i)) in
      match uarg with
      | None => ret (argv, false)
      | Some uarg =>
          if uarg =? 0 then ret (argv, true)
          else
            let* a := on_k kalloc in
            if a =? 0 then ret (argv, false)
            else
              let* r := fetchstr me uarg a PGSIZE in
              if r <? 0 then ret (argv ++ [a], false)
              else exec_argv me uargv (i + 1) (argv ++ [a]) fuel
      end
  end.

Definition sys_exec (me : nat) : M kst Z :=
  let* uargv := argaddr me 1 in
  let* r := argstr me 0 (e_path E) MAXPATH in
  if r <? 0 then ret (-1)
  else
    let* q := exec_argv me uargv 0 [] (Z.to_nat MAXARG) in
    let '(argv, ok) := q in
    if (ok : bool) then
      let* r := exec E me argv in
      for_each argv (λ a, on_k (kfree (e_kend E) a)) ;;;
      ret r
    else
      for_each argv (λ a, on_k (kfree (e_kend E) a)) ;;;
      ret (-1).

(** [copyout(p->pagetable, addr, (char* )&fd, sizeof(fd))] *)
Definition copyout_int (p : proc) (addr v : Z) : M kst Z :=
  on_fs (stmem (λ m, store_bytes m (e_word E) (Z_to_little_endian 4 8 v))) ;;;
  on_k (copyout (pagetable p) addr (e_word E) 4).

Definition sys_pipe (me : nat) : M kst Z :=
  let* p := getp me in
  let* fdarray := argaddr me 0 in
  let* r := on_fl (pipealloc (e_logstart E) (e_nlog E) (e_kend E) (p_pid p)) in
  match r with
  | None => ret (-1)
  | Some (rf, wf) =>
      let close := fileclose E (p_pid p) rf ;;; fileclose E (p_pid p) wf ;;; ret (-1) in
      let* fd0 := fdalloc me rf in
      if fd0 <? 0 then close
      else
        let* fd1 := fdalloc me wf in
        if fd1 <? 0 then set_fd me fd0 None ;;; close
        else
          let* r0 := copyout_int p fdarray fd0 in
          let* r1 := (if r0 <? 0 then ret (-1) else copyout_int p (u64 (fdarray + 4)) fd1) in
          if r1 <? 0 then
            set_fd me fd0 None ;;;
            set_fd me fd1 None ;;;
            close
          else ret 0
  end.
End sysfile.
