(* ===== verification/Syscall.v ===== *)
(** * System calls, kernel/sysproc.c and the dispatch of kernel/syscall.c *)

From S2P Require Import Prelude Ring Riscv Mem Kalloc Vm Block FsFormat Log LogSpec LogOps Txn Fs.
From S2P Require Import Pipe Uart Printf Console File Spinlock Proc Exec Sysfile.

(** What a system call does: it returns a value, it is waiting (with where
    to continue), or its process has exited. *)
Inductive sysres :=
| SReturned (v : Z)
| SFileBlocked (w : fsegment)
| SWaitBlocked
| SSleepBlocked (n ticks0 : Z)
| SExited.

Section syscall.
Context {Sc : Type} {dev : Z} `{!BufCache Sc dev} (E : env).
Abbreviation kst := (@kst Sc).

Definition sys_exit (me : nat) (c : cpu) : M kst sysres :=
  let* n := argint me 0 in
  exit E me n c ;;;
  ret SExited.

Definition sys_getpid (me : nat) : M kst Z := gets (λ s, p_pid (ptable s !!! me)).

Definition sys_fork (me : nat) : M kst Z := fork E me.

Definition sys_wait (me : nat) (c : cpu) : M kst sysres :=
  let* p := argaddr me 0 in
  let* w := wait E me p c in
  match w with
  | WReturned r => ret (SReturned r)
  | WBlocked => ret SWaitBlocked
  end.

Definition sys_sbrk (me : nat) : M kst Z :=
  let* n := argint me 0 in
  let* addr := gets (λ s, sz (ptable s !!! me)) in
  let* r := growproc E me n in
  if r <? 0 then ret (-1) else ret addr.

(** The loop of sys_sleep, one turn. *)
Definition sys_sleep_loop (me : nat) (n ticks0 : Z) (c : cpu) : M kst sysres :=
  let* t := gets ticks in
  if u32 (t - ticks0) <? n then
    let* k := is_killed me in
    if (k : bool) then ret (SReturned (-1))
    else
      sleep me (e_chan_ticks E) c ;;;
      ret (SSleepBlocked n ticks0)
  else ret (SReturned 0).

Definition sys_sleep (me : nat) (c : cpu) : M kst sysres :=
  let* n := argint me 0 in
  let n := if n <? 0 then 0 else n in
  let* ticks0 := gets ticks in
  sys_sleep_loop me n ticks0 c.

Definition sys_kill (me : nat) : M kst Z :=
  let* pid := argint me 0 in
  kill pid.

Definition sys_uptime : M kst Z := gets ticks.

(** ** syscall *)

Definition returned (m : M kst Z) : M kst sysres := let* r := m in ret (SReturned r).
Definition rw (m : M kst fsegment) : M kst sysres :=
  let* r := m in
  match r with
  | FReturned r => ret (SReturned r)
  | w => ret (SFileBlocked w)
  end.

(** [syscalls[num]] *)
Definition syscalls (me : nat) (c : cpu) (num : Z) : option (M kst sysres) :=
  match num with
  | 1 => Some (returned (sys_fork me))
  | 2 => Some (sys_exit me c)
  | 3 => Some (sys_wait me c)
  | 4 => Some (returned (sys_pipe E me))
  | 5 => Some (rw (sys_read E me))
  | 6 => Some (returned (sys_kill me))
  | 7 => Some (returned (sys_exec E me))
  | 8 => Some (returned (sys_fstat E me))
  | 9 => Some (returned (sys_chdir E me))
  | 10 => Some (returned (sys_dup me))
  | 11 => Some (returned (sys_getpid me))
  | 12 => Some (returned (sys_sbrk me))
  | 13 => Some (sys_sleep me c)
  | 14 => Some (returned sys_uptime)
  | 15 => Some (returned (sys_open E me))
  | 16 => Some (rw (sys_write E me))
  | 17 => Some (returned (sys_mknod E me))
  | 18 => Some (returned (sys_unlink E me))
  | 19 => Some (returned (sys_link E me))
  | 20 => Some (returned (sys_mkdir E me))
  | 21 => Some (returned (sys_close E me))
  | _ => None
  end.

(** Stores the value the call returns; a call that blocks stores it later. *)
Definition store_a0 (me : nat) (v : Z) : M kst unit :=
  let* p := getp me in
  on_k (st64 (trapframe p + TF_A 0) (u64 v)).

Definition syscall (me : nat) (c : cpu) : M kst sysres :=
  let* p := getp me in
  let* a7 := on_k (ld64 (trapframe p + TF_A 7)) in
  let num := i32 a7 in
  match syscalls me c num with
  | Some call =>
      let* r := call in
      match r with
      | SReturned v => store_a0 me v
      | _ => ret tt
      end ;;;
      ret r
  | None =>
      on_uart (KPrintf.printf (e_idle E) (e_polls E) (λ _, before_nul (pname p))
        (Some (str "%d %s: unknown sys call %d" ++ [10])) (λ k, [p_pid p; 1; num] !!! k)) ;;;
      store_a0 me (-1) ;;;
      ret (SReturned (-1))
  end.
End syscall.
