(* ===== verification/Trap.v ===== *)
(** * Traps, kernel/trap.c and plic.c, and forkret of kernel/proc.c

    [h] are the supervisor registers of the CPU the code runs on. The
    interrupt controller's registers are a list of writes and the claim
    register's value. *)

From S2P Require Import Prelude Ring Riscv Mem Kalloc Vm Block FsFormat Log LogSpec LogOps Txn Fs.
From S2P Require Import Pipe Uart Printf Console File Spinlock Proc Exec Sysfile Syscall.

Definition SSTATUS_SPP : Z := Z.shiftl 1 8.
Definition SSTATUS_SPIE : Z := Z.shiftl 1 5.
Definition SSTATUS_SIE : Z := Z.shiftl 1 1.
Definition UART0_IRQ : Z := 10.
Definition VIRTIO0_IRQ : Z := 1.

Record hart := Hart {
  sstatus : Z; stvec : Z; sepc : Z; scause : Z; stval : Z; satp : Z; tp : Z; sip : Z;
  claim : Z;                    (* the PLIC's claim register *)
  plicw : list (Z * Z)          (* writes to the PLIC *)
}.

Definition set_sstatus (x : Z) (h : hart) : hart :=
  Hart x (stvec h) (sepc h) (scause h) (stval h) (satp h) (tp h) (sip h) (claim h) (plicw h).
Definition set_stvec (x : Z) (h : hart) : hart :=
  Hart (sstatus h) x (sepc h) (scause h) (stval h) (satp h) (tp h) (sip h) (claim h) (plicw h).
Definition set_sepc (x : Z) (h : hart) : hart :=
  Hart (sstatus h) (stvec h) x (scause h) (stval h) (satp h) (tp h) (sip h) (claim h) (plicw h).
Definition set_sip (x : Z) (h : hart) : hart :=
  Hart (sstatus h) (stvec h) (sepc h) (scause h) (stval h) (satp h) (tp h) x (claim h) (plicw h).
Definition plic_write (a v : Z) (h : hart) : hart :=
  Hart (sstatus h) (stvec h) (sepc h) (scause h) (stval h) (satp h) (tp h) (sip h) (claim h) (plicw h ++ [(a, v)]).

(** How a trap from user space ends: back to user space with the page table
    to use, with the process waiting, having given up the CPU, or exited. *)
Inductive trapres := TUser (satp : Z) | TWaiting (r : sysres) | TYielded | TExited.

Section trap.
Context {Sc : Type} {dev : Z} `{!BufCache Sc dev} (E : env).
(** The addresses of kernelvec, of uservec and userret relative to trampoline,
    and the disk's interrupt handler. *)
Variables (kernelvec uservec_off userret_off : Z) (virtio_disk_intr : M (@kst Sc) unit).

Record tst := Tst { tk : @kst Sc; th : hart }.

Definition on_kst {A} (m : M (@kst Sc) A) : M tst A := λ s,
  match m (tk s) with
  | Done a k => Done a (Tst k (th s))
  | Panic msg => Panic msg
  | Sleep c k => Sleep c (Tst k (th s))
  | OutOfFuel => OutOfFuel
  end.
Definition get_h {A} (f : hart → A) : M tst A := gets (λ s, f (th s)).
Definition upd_h (f : hart → hart) : M tst unit := modify (λ s, Tst (tk s) (f (th s))).

Definition intr_on : M tst unit := upd_h (λ h, set_sstatus (Z.lor (sstatus h) SSTATUS_SIE) h).
Definition intr_off : M tst unit := upd_h (λ h, set_sstatus (Z.land (sstatus h) (Z.lnot SSTATUS_SIE)) h).
Definition intr_get : M tst bool := get_h (λ h, negb (Z.land (sstatus h) SSTATUS_SIE =? 0)).
Definition cpuid : M tst Z := get_h (λ h, i32 (tp h)).

Definition trapinithart : M tst unit := upd_h (set_stvec kernelvec).

(** ** kernel/plic.c *)

Definition PLIC_SENABLE (hart : Z) : Z := PLIC + 0x2080 + hart * 0x100.
Definition PLIC_SPRIORITY (hart : Z) : Z := PLIC + 0x201000 + hart * 0x2000.
Definition PLIC_SCLAIM (hart : Z) : Z := PLIC + 0x201004 + hart * 0x2000.

Definition plicinit : M tst unit :=
  upd_h (plic_write (PLIC + UART0_IRQ * 4) 1) ;;;
  upd_h (plic_write (PLIC + VIRTIO0_IRQ * 4) 1).

Definition plicinithart : M tst unit :=
  let* hart := cpuid in
  upd_h (plic_write (PLIC_SENABLE hart) (Z.lor (Z.shiftl 1 UART0_IRQ) (Z.shiftl 1 VIRTIO0_IRQ))) ;;;
  upd_h (plic_write (PLIC_SPRIORITY hart) 0).

Definition plic_claim : M tst Z := get_h (λ h, i32 (claim h)).

Definition plic_complete (irq : Z) : M tst unit :=
  let* hart := cpuid in
  upd_h (plic_write (PLIC_SCLAIM hart) irq).

(** ** Interrupts *)

Definition clockintr (me : option nat) : M (@kst Sc) unit :=
  modify (λ s, Kst (kfl s) (ptable s) (nextpid s) (initproc s) (u32 (ticks s + 1)) (first s)) ;;;
  wakeup me (e_chan_ticks E).

(** Control-P typed at the console calls procdump, which only prints. *)
Definition uartintr_k : M (@kst Sc) unit := λ s,
  on_fl (on_cons (uartintr (e_idle E) (e_polls E)
    (λ u, match procdump E (Kst (Fls (ffs (kfl s)) (ftable (kfl s)) (pipes (kfl s)) (devsw (kfl s)) (fcon (kfl s)) u)
                  (ptable s) (nextpid s) (initproc s) (ticks s) (first s)) with
          | Done _ s' => Done tt (fuart (kfl s'))
          | Panic msg => Panic msg
          | Sleep c s' => Sleep c (fuart (kfl s'))
          | OutOfFuel => OutOfFuel
          end))) s.

Definition devintr (me : option nat) : M tst Z :=
  let* cause := get_h scause in
  if negb (Z.land cause (2^63) =? 0) && (Z.land cause 0xff =? 9) then
    let* irq := plic_claim in
    (if irq =? UART0_IRQ then on_kst uartintr_k
     else if irq =? VIRTIO0_IRQ then on_kst virtio_disk_intr
     else if negb (irq =? 0) then
       on_kst (on_uart (KPrintf.printf (e_idle E) (e_polls E) (λ _, []) (Some (str "unexpected interrupt irq=%d" ++ [10])) (λ _, irq)))
     else ret tt) ;;;
    (if negb (irq =? 0) then plic_complete irq else ret tt) ;;;
    ret 1
  else if cause =? 2^63 + 1 then
    let* id := cpuid in
    (if id =? 0 then on_kst (clockintr me) else ret tt) ;;;
    upd_h (λ h, set_sip (Z.land (sip h) (Z.lnot 2)) h) ;;;
    ret 2
  else ret 0.

(** The last instruction jumps to userret in the trampoline with [satp]. *)
Definition usertrapret (me : nat) : M tst trapres :=
  let* p := on_kst (getp me) in
  intr_off ;;;
  upd_h (set_stvec (TRAMPOLINE + uservec_off)) ;;;
  let* h := get_h id in
  on_kst (on_k (st64 (trapframe p + TF_KERNEL_SATP) (satp h))) ;;;
  on_kst (on_k (st64 (trapframe p + TF_KERNEL_SP) (kstack p + PGSIZE))) ;;;
  on_kst (on_k (st64 (trapframe p + TF_KERNEL_TRAP) (e_usertrap E))) ;;;
  on_kst (on_k (st64 (trapframe p + TF_KERNEL_HARTID) (tp h))) ;;;
  upd_h (λ h, set_sstatus (Z.lor (Z.land (sstatus h) (Z.lnot SSTATUS_SPP)) SSTATUS_SPIE) h) ;;;
  let* epc := on_kst (on_k (ld64 (trapframe p + TF_EPC))) in
  upd_h (set_sepc epc) ;;;
  ret (TUser (MAKE_SATP (pagetable p))).

(** From the last check for killed on. *)
Definition usertrap_end (me : nat) (which_dev : Z) (c : cpu) : M tst trapres :=
  let* k := on_kst (is_killed me) in
  if (k : bool) then on_kst (exit E me (-1) c) ;;; ret TExited
  else if which_dev =? 2 then on_kst (yield me c) ;;; ret TYielded
  else usertrapret me.

(** [c] is the CPU's interrupt nesting while it holds the process's lock. *)
Definition usertrap (me : nat) (c : cpu) : M tst trapres :=
  let* h := get_h id in
  if negb (Z.land (sstatus h) SSTATUS_SPP =? 0) then panic "usertrap: not from user mode"
  else
    upd_h (set_stvec kernelvec) ;;;
    let* p := on_kst (getp me) in
    on_kst (on_k (st64 (trapframe p + TF_EPC) (sepc h))) ;;;
    if scause h =? 8 then
      let* k := on_kst (is_killed me) in
      if (k : bool) then on_kst (exit E me (-1) c) ;;; ret TExited
      else
        let* epc := on_kst (on_k (ld64 (trapframe p + TF_EPC))) in
        on_kst (on_k (st64 (trapframe p + TF_EPC) (u64 (epc + 4)))) ;;;
        intr_on ;;;
        let* r := on_kst (syscall E me c) in
        match r with
        | SReturned _ => usertrap_end me 0 c
        | SExited => ret TExited
        | r => ret (TWaiting r)
        end
    else
      let* which_dev := devintr (Some me) in
      (if which_dev =? 0 then
         on_kst (on_uart (KPrintf.printf (e_idle E) (e_polls E) (λ _, [])
           (Some (str "usertrap(): unexpected scause %p pid=%d" ++ [10])) (λ k, [scause h; p_pid p] !!! k))) ;;;
         on_kst (on_uart (KPrintf.printf (e_idle E) (e_polls E) (λ _, [])
           (Some (str "            sepc=%p stval=%p" ++ [10])) (λ k, [sepc h; stval h] !!! k))) ;;;
         on_kst (setkilled me)
       else ret tt) ;;;
      usertrap_end me which_dev c.

(** [me] is [myproc()] if there is one. *)
Definition kerneltrap (me : option nat) (c : cpu) : M tst unit :=
  let* h := get_h id in
  if Z.land (sstatus h) SSTATUS_SPP =? 0 then panic "kerneltrap: not from supervisor mode"
  else
    let* i := intr_get in
    if (i : bool) then panic "kerneltrap: interrupts enabled"
    else
      let* which_dev := devintr me in
      if which_dev =? 0 then
        on_kst (on_uart (KPrintf.printf (e_idle E) (e_polls E) (λ _, []) (Some (str "scause %p" ++ [10])) (λ _, scause h))) ;;;
        on_kst (on_uart (KPrintf.printf (e_idle E) (e_polls E) (λ _, [])
          (Some (str "sepc=%p stval=%p" ++ [10])) (λ k, [sepc h; stval h] !!! k))) ;;;
        panic "kerneltrap"
      else
        match me with
        | Some i =>
            let* p := on_kst (getp i) in
            if (which_dev =? 2) && bool_decide (state p = RUNNING) then on_kst (yield i c) else ret tt
        | None => ret tt
        end ;;;
        upd_h (set_sepc (sepc h)) ;;;
        upd_h (set_sstatus (sstatus h)).

(** kernel/proc.c; p->lock has been released. *)
Definition forkret (me : nat) : M tst trapres :=
  let* f := on_kst (gets first) in
  (if (f : bool) then
     on_kst (on_fl (fsinit (e_logstart E) (e_nlog E) ROOTDEV)) ;;;
     on_kst (modify (λ s, Kst (kfl s) (ptable s) (nextpid s) (initproc s) (ticks s) false))
   else ret tt) ;;;
  usertrapret me.
End trap.
