(* ===== verification/Grep.v ===== *)
(** * user/grep.c: the pattern matcher and the line filter

    Strings are lists of non-zero bytes, standing for the bytes before the
    NUL. The loop of [grep] sees its input through [read], which delivers it
    in pieces of any size up to the one asked for. *)

From S2P Require Import Prelude.

Definition STAR : Z := 42.
Definition DOT : Z := 46.
Definition CARET : Z := 94.
Definition DOLLAR : Z := 36.
Definition NL : Z := 10.

(** ** The matcher *)

(** The loop of matchstar; [here] is [matchhere(re, .)]. *)
Fixpoint matchstar_loop (here : list Z → bool) (c : Z) (text : list Z) : bool :=
  here text ||
  match text with
  | [] => false
  | t :: text' => if (t =? c) || (c =? DOT) then matchstar_loop here c text' else false
  end.

Fixpoint matchhere (re text : list Z) : bool :=
  match re with
  | [] => true
  | r0 :: re1 =>
      let rest :=
        if (r0 =? DOLLAR) && bool_decide (re1 = []) then bool_decide (text = [])
        else
          match text with
          | t :: text' => if (r0 =? DOT) || (r0 =? t) then matchhere re1 text' else false
          | [] => false
          end in
      match re1 with
      | r1 :: re2 => if r1 =? STAR then matchstar_loop (matchhere re2) r0 text else rest
      | [] => rest
      end
  end.

Definition matchstar (c : Z) (re text : list Z) : bool := matchstar_loop (matchhere re) c text.

Fixpoint match_loop (re text : list Z) : bool :=
  matchhere re text ||
  match text with
  | [] => false
  | _ :: text' => match_loop re text'
  end.

Definition match_ (re text : list Z) : bool :=
  match re with
  | r0 :: re1 => if r0 =? CARET then matchhere re1 text else match_loop re text
  | [] => match_loop re text
  end.

(** ** The filter *)

(** strchr(p, '\n') as an offset: the search stops at a NUL. *)
Fixpoint strchr_nl (p : list Z) : option nat :=
  match p with
  | [] => None
  | c :: p' => if c =? 0 then None else if c =? NL then Some 0%nat else S <$> strchr_nl p'
  end.

Record gst := Gst {
  input : list Z;      (* what the file descriptor has left *)
  turn : nat;          (* reads done *)
  gbuf : list Z;       (* buf[0..m) *)
  out : list Z         (* written to descriptor 1 *)
}.

Section grep.
(** How many bytes each call of [read] is ready to deliver. *)
Variable ready : nat → nat.

(** At end of file, or when asked for nothing, [read] returns 0. *)
Definition read (size : nat) : M gst (list Z) := λ s,
  let n := Nat.min (Nat.max 1 (ready (turn s))) size in
  Done (take n (input s)) (Gst (drop n (input s)) (S (turn s)) (gbuf s) (out s)).

Definition write (bs : list Z) : M gst unit := modify (λ s, Gst (input s) (turn s) (gbuf s) (out s ++ bs)).
Definition set_gbuf (b : list Z) : M gst unit := modify (λ s, Gst (input s) (turn s) b (out s)).

Definition SIZEOF_BUF : nat := 1024.

(** The inner loop: from [p] on, with [p] moved past each line. *)
Definition grep_line (pattern p : list Z) : M gst (list Z + list Z) :=
  match strchr_nl p with
  | Some q =>
      (if match_ pattern (take q p) then write (take q p ++ [NL]) else ret tt) ;;;
      ret (inl (drop (S q) p))
  | None => ret (inr p)
  end.

Definition grep_turn (pattern : list Z) (_ : unit) : M gst (unit + unit) :=
  let* b := gets gbuf in
  let* got := read (SIZEOF_BUF - length b - 1) in
  if bool_decide (got = []) then ret (inr tt)
  else
    let* p := loop (S (length (b ++ got))) (grep_line pattern) (b ++ got) in
    set_gbuf p ;;;
    ret (inl tt).

Definition grep (fuel : nat) (pattern : list Z) : M gst unit := loop fuel (grep_turn pattern) tt.
End grep.

(** ** What a pattern means *)

(** [c] stands for itself, or for any character when it is a dot. *)
Definition stands_for (c x : Z) : Prop := c = DOT ∨ c = x.

Inductive item := One (c : Z) | Many (c : Z).

(** A pattern without its leading caret: the items, and whether it ends in
    a dollar. *)
Fixpoint parse (re : list Z) : list item * bool :=
  match re with
  | [] => ([], false)
  | r0 :: re1 =>
      match re1 with
      | [] => if r0 =? DOLLAR then ([], true) else ([One r0], false)
      | r1 :: re2 =>
          if r1 =? STAR then let '(l, e) := parse re2 in (Many r0 :: l, e)
          else let '(l, e) := parse re1 in (One r0 :: l, e)
      end
  end.

Fixpoint lang (l : list item) (u : list Z) : Prop :=
  match l with
  | [] => u = []
  | One c :: l' => ∃ x v, u = x :: v ∧ stands_for c x ∧ lang l' v
  | Many c :: l' => ∃ w v, u = w ++ v ∧ Forall (stands_for c) w ∧ lang l' v
  end.

(** The pattern matches a prefix of [text], all of it if it ends in a dollar. *)
Definition matches_prefix (re text : list Z) : Prop :=
  ∃ u v, text = u ++ v ∧ lang (parse re).1 u ∧ ((parse re).2 = true → v = []).

(** A leading caret matches at the start of [text], other patterns anywhere. *)
Definition matches (re text : list Z) : Prop :=
  match re with
  | r0 :: re1 => if r0 =? CARET then matches_prefix re1 text else ∃ p s, text = p ++ s ∧ matches_prefix re s
  | [] => ∃ p s, text = p ++ s ∧ matches_prefix re s
  end.

Lemma stands_for_star c t : (t =? c) || (c =? DOT) = true ↔ stands_for c t.
Proof. unfold stands_for. rewrite orb_true_iff, !Z.eqb_eq. naive_solver. Qed.

Lemma stands_for_here c t : (c =? DOT) || (c =? t) = true ↔ stands_for c t.
Proof. unfold stands_for. by rewrite orb_true_iff, !Z.eqb_eq. Qed.

Lemma matchstar_loop_spec (here : list Z → bool) c text :
  matchstar_loop here c text = true ↔ ∃ w s, text = w ++ s ∧ Forall (stands_for c) w ∧ here s = true.
Proof.
  induction text as [|t text IH]; cbn [matchstar_loop]; rewrite orb_true_iff.
  - split.
    + intros [H|H]; [by exists [], []|done].
    + intros (w & s & E & _ & H). symmetry in E. apply app_nil in E as [-> ->]. by left.
  - destruct ((t =? c) || (c =? DOT)) eqn:Et.
    + rewrite stands_for_star in Et. rewrite IH. split.
      * intros [H|(w & s & -> & Hw & H)]; [by exists [], (t :: text)|]. exists (t :: w), s. split; [done|]. split; [by constructor|done].
      * intros (w & s & E & Hw & H). destruct w as [|x w]; simplify_eq/=; [by left|].
        apply Forall_cons in Hw as [_ Hw]. right. by exists w, s.
    + split.
      * intros [H|H]; [by exists [], (t :: text)|done].
      * intros (w & s & E & Hw & H). destruct w as [|x w]; simplify_eq/=; [by left|].
        apply Forall_cons in Hw as [Hw _]. apply stands_for_star in Hw. congruence.
Qed.

(** One step of the pattern: a character not followed by a star. *)
Lemma prefix_one c re text :
  parse (c :: re) = (let '(l, e) := parse re in (One c :: l, e)) →
  matches_prefix (c :: re) text ↔ ∃ t s, text = t :: s ∧ stands_for c t ∧ matches_prefix re s.
Proof.
  intros E. unfold matches_prefix. rewrite E. destruct (parse re) as [l e]. cbn. split.
  - intros (u & v & -> & (x & w & -> & Hx & Hl) & He). exists x, (w ++ v). naive_solver.
  - intros (t & s & -> & Ht & u & v & -> & Hl & He). exists (t :: u), v. naive_solver.
Qed.

Lemma prefix_many c re text :
  matches_prefix (c :: STAR :: re) text ↔ ∃ w s, text = w ++ s ∧ Forall (stands_for c) w ∧ matches_prefix re s.
Proof.
  unfold matches_prefix. cbn [parse]. rewrite Z.eqb_refl. destruct (parse re) as [l e]. cbn. split.
  - intros (u & v & -> & (w & x & -> & Hw & Hl) & He). exists w, (x ++ v). rewrite <- app_assoc. naive_solver.
  - intros (w & s & -> & Hw & u & v & -> & Hl & He). exists (w ++ u), v. rewrite <- app_assoc. naive_solver.
Qed.

Lemma prefix_end text : matches_prefix [DOLLAR] text ↔ text = [].
Proof.
  unfold matches_prefix. cbn. split.
  - intros (u & v & -> & -> & H). by rewrite H.
  - intros ->. by exists [], [].
Qed.

Lemma prefix_nil text : matches_prefix [] text.
Proof. by exists [], text. Qed.

(** The part of matchhere after the test for a star. *)
Lemma matchhere_rest c re text :
  (∀ s, matchhere re s = true ↔ matches_prefix re s) →
  (if bool_decide (re = []) && (c =? DOLLAR) then True else parse (c :: re) = (let '(l, e) := parse re in (One c :: l, e))) →
  (if (c =? DOLLAR) && bool_decide (re = []) then bool_decide (text = [])
   else match text with
        | t :: s => if (c =? DOT) || (c =? t) then matchhere re s else false
        | [] => false
        end) = true ↔ matches_prefix (c :: re) text.
Proof.
  intros IH E. rewrite (andb_comm (bool_decide _)) in E. destruct ((c =? DOLLAR) && bool_decide (re = [])) eqn:Ed.
  - apply andb_true_iff in Ed as [->%Z.eqb_eq ->%bool_decide_eq_true]. by rewrite bool_decide_eq_true, prefix_end.
  - rewrite (prefix_one _ _ _ E). destruct text as [|t s]; [naive_solver|].
    destruct ((c =? DOT) || (c =? t)) eqn:Et.
    + apply stands_for_here in Et. rewrite IH. naive_solver.
    + split; [done|]. intros (t' & s' & [= <- <-] & Ht & _). apply stands_for_here in Ht. congruence.
Qed.

Lemma matchhere_spec re text : matchhere re text = true ↔ matches_prefix re text.
Proof.
  revert text. induction (well_founded_ltof _ length re) as [re _ IH]. unfold ltof in IH. intros text.
  destruct re as [|c [|r1 re2]].
  - cbn. split; [intros _; apply prefix_nil|done].
  - apply (matchhere_rest c []).
    + intros s. split; [intros _; apply prefix_nil|done].
    + cbn. by destruct (c =? DOLLAR).
  - assert (Hrest := matchhere_rest c (r1 :: re2) text (IH (r1 :: re2) ltac:(cbn; lia))).
    cbn [matchhere]. destruct (r1 =? STAR) eqn:Es.
    + apply Z.eqb_eq in Es as ->. rewrite prefix_many, matchstar_loop_spec.
      by setoid_rewrite (IH re2 ltac:(cbn; lia)).
    + apply Hrest. cbn [bool_decide decide_rel]. cbn. by rewrite Es.
Qed.

Lemma match_loop_spec re text : match_loop re text = true ↔ ∃ p s, text = p ++ s ∧ matches_prefix re s.
Proof.
  induction text as [|t text IH]; cbn [match_loop]; rewrite orb_true_iff, matchhere_spec.
  - split.
    + intros [H|H]; [by exists [], []|done].
    + intros (p & s & E & H). symmetry in E. apply app_nil in E as [-> ->]. by left.
  - rewrite IH. split.
    + intros [H|(p & s & -> & H)]; [by exists [], (t :: text)|by exists (t :: p), s].
    + intros ([|x p] & s & E & H); simplify_eq/=; [by left|right; by exists p, s].
Qed.

(** C33. grep's matcher decides the language of the pattern: it answers yes
    exactly when the text, or for a pattern without a leading caret some
    suffix of it, starts with a string of the pattern's language (each
    character itself, a dot any character, a starred character any number of
    them), which must reach the end of the text if the pattern ends in a
    dollar. *)
Theorem match_decides_pattern re text : match_ re text = true ↔ matches re text.
Proof.
  unfold match_, matches. destruct re as [|r0 re]; [apply match_loop_spec|].
  destruct (r0 =? CARET); [apply matchhere_spec|apply match_loop_spec].
Qed.

(** ** The lines of a text *)

(** The complete lines, without their newlines; [acc] is the line so far. *)
Fixpoint lines_from (acc bs : list Z) : list (list Z) :=
  match bs with
  | [] => []
  | c :: bs' => if c =? NL then acc :: lines_from [] bs' else lines_from (acc ++ [c]) bs'
  end.
Definition lines (bs : list Z) : list (list Z) := lines_from [] bs.

(** The lines that match, as they are printed. *)
Definition matching (pattern : list Z) (ls : list (list Z)) : list Z :=
  concat (map (λ l, l ++ [NL]) (filter (λ l, match_ pattern l = true) ls)).

Lemma lines_from_app acc l r : NL ∉ l → lines_from acc (l ++ r) = lines_from (acc ++ l) r.
Proof.
  revert acc. induction l as [|c l IH]; intros acc Hl; [by rewrite app_nil_r|].
  apply not_elem_of_cons in Hl as [Hc Hl]. cbn. rewrite (proj2 (Z.eqb_neq _ _)) by done.
  rewrite IH by done. by rewrite <- app_assoc.
Qed.

Lemma lines_line l r : NL ∉ l → lines (l ++ NL :: r) = l :: lines r.
Proof. intros Hl. unfold lines. by rewrite lines_from_app. Qed.

Lemma lines_none l : NL ∉ l → lines l = [].
Proof. intros Hl. unfold lines. by rewrite <- (app_nil_r l), lines_from_app. Qed.

Lemma matching_cons pattern l ls :
  matching pattern (l :: ls) = (if match_ pattern l then l ++ [NL] else []) ++ matching pattern ls.
Proof. unfold matching. rewrite filter_cons. by destruct (match_ pattern l). Qed.

Lemma strchr_nl_some p q :
  strchr_nl p = Some q → p = take q p ++ NL :: drop (S q) p ∧ NL ∉ take q p.
Proof.
  revert q. induction p as [|c p IH]; intros q; [done|]. cbn. destruct (c =? 0); [done|].
  destruct (c =? NL) eqn:E.
  - intros [= <-]. apply Z.eqb_eq in E as ->. split; [done|apply not_elem_of_nil].
  - destruct (strchr_nl p) as [q'|]; [|done]. intros [= <-]. destruct (IH q' eq_refl) as [Hp Hq]. cbn. split.
    + f_equal. exact Hp.
    + apply not_elem_of_cons. split; [|done]. by apply Z.eqb_neq in E.
Qed.

Lemma strchr_nl_none p : 0 ∉ p → strchr_nl p = None → NL ∉ p.
Proof.
  induction p as [|c p IH]; intros H0; [intros _; apply not_elem_of_nil|].
  apply not_elem_of_cons in H0 as [Hc H0]. cbn. destruct (c =? 0) eqn:E; [apply Z.eqb_eq in E; congruence|].
  destruct (c =? NL) eqn:En; [done|]. destruct (strchr_nl p); [done|]. intros _.
  apply not_elem_of_cons. split; [by apply Z.eqb_neq in En|by apply IH].
Qed.

(** A long text whose complete lines are short has none. *)
Lemma lines_long b r : (1023 ≤ length b)%nat → NL ∉ b →
  Forall (λ l, (length l ≤ 1022)%nat) (lines (b ++ r)) → lines (b ++ r) = [].
Proof.
  intros Hb Hn Hs. destruct (decide (NL ∈ r)) as [Hr|Hr].
  - apply list_elem_of_split_l in Hr as (l1 & l2 & -> & H1). rewrite app_assoc, lines_line in Hs by set_solver.
    apply Forall_cons in Hs as [Hs _]. rewrite length_app in Hs. lia.
  - apply lines_none. set_solver.
Qed.

Section filter.
Variables (ready : nat → nat) (pattern : list Z).

(** What is still to come out of [p] followed by the unread input. *)
Definition pending (total p : list Z) (s : gst) : Prop :=
  out s ++ matching pattern (lines (p ++ input s)) = total ∧ 0 ∉ p ++ input s ∧
  Forall (λ l, (length l ≤ 1022)%nat) (lines (p ++ input s)).

Lemma grep_line_ok total p s :
  pending total p s →
  wp (grep_line pattern p) s (λ r s',
    match r with
    | inl p' => (length p' < length p)%nat ∧ pending total p' s' ∧ input s' = input s
    | inr p' => NL ∉ p' ∧ pending total p' s' ∧ input s' = input s
    end).
Proof.
  intros (Ho & H0 & Hs). unfold grep_line. destruct (strchr_nl p) as [q|] eqn:Eq.
  - destruct (strchr_nl_some _ _ Eq) as [Hp Hq].
    set (l := take q p) in *. set (p' := drop (S q) p) in *. clearbody l p'. subst p. clear Eq.
    rewrite <- app_assoc in Ho, H0, Hs. cbn [app] in Ho, H0, Hs. rewrite lines_line in Ho, Hs by done.
    rewrite matching_cons in Ho. apply Forall_cons in Hs as [_ Hs].
    assert (H0' : 0 ∉ p' ++ input s) by set_solver.
    assert (Hl : (length p' < length (l ++ NL :: p'))%nat) by (rewrite length_app; cbn; lia).
    destruct (match_ pattern l); apply wp_bind.
    + apply wp_modify. apply wp_ret. split; [done|]. repeat split; cbn; [|done|done]. by rewrite <- app_assoc.
    + apply wp_ret, wp_ret. by repeat split.
  - apply wp_ret. split; [|by repeat split]. apply strchr_nl_none; [set_solver|done].
Qed.

Lemma grep_lines_ok total p s :
  pending total p s →
  wp (loop (S (length p)) (grep_line pattern) p) s (λ p' s',
    NL ∉ p' ∧ pending total p' s' ∧ input s' = input s).
Proof.
  intros Hp.
  apply (wp_loop (λ n p' s', (length p' < n)%nat ∧ pending total p' s' ∧ input s' = input s)); [..|split; [lia|done]].
  - intros n p1 s1 (Hn & H1 & Hi). eapply wp_mono; [by apply grep_line_ok|]. intros [p2|p2] s2; [|by rewrite Hi].
    intros (Hl & H2 & Hi2). split; [lia|]. split; [done|congruence].
  - intros a s1 [? _]. lia.
Qed.

(** Between two reads: no newline is in the buffer. *)
Definition between (total : list Z) (s : gst) : Prop := NL ∉ gbuf s ∧ pending total (gbuf s) s.

Lemma grep_turn_ok total s :
  between total s →
  wp (grep_turn ready pattern tt) s (λ r s',
    match r with
    | inl _ => between total s' ∧ (length (input s') < length (input s))%nat
    | inr _ => out s' = total
    end).
Proof.
  intros [Hn Hp]. unfold grep_turn. apply wp_bind, wp_gets. apply wp_bind. cbn [read wp].
  set (n := Nat.min _ _). case_bool_decide as Hg.
  - apply wp_ret. cbn. destruct Hp as (Ho & _ & Hs).
    assert (lines (gbuf s ++ input s) = []) as E; [|by rewrite E, app_nil_r in Ho].
    destruct (input s) as [|c i] eqn:Ei; [by apply lines_none; rewrite app_nil_r|].
    apply lines_long; [|done|done]. destruct n eqn:En; [|done]. subst n. unfold SIZEOF_BUF in En. lia.
  - apply wp_bind. eapply wp_mono; [apply (grep_lines_ok total)|].
    + unfold pending. cbn. rewrite <- app_assoc, take_drop. done.
    + cbn. intros p' s' (Hn' & Hp' & Hi). split; [by split|].
      rewrite Hi, length_drop. destruct (input s); [by rewrite take_nil in Hg|]. destruct n; [done|]. cbn. lia.
Qed.
End filter.

(** C34. grep prints exactly the matching lines, in order: for an input
    without NUL bytes whose lines have at most 1022 characters, whatever sizes
    the reads come in, the loop ends and what it has written is the
    concatenation of the complete lines that match the pattern, each with its
    newline. *)
Theorem grep_prints_matching_lines ready pattern s (fuel : nat) :
  gbuf s = [] → 0 ∉ input s → Forall (λ l, (length l ≤ 1022)%nat) (lines (input s)) →
  (length (input s) < fuel)%nat →
  ∃ s', grep ready fuel pattern s = Done tt s' ∧ out s' = out s ++ matching pattern (lines (input s)).
Proof.
  intros Hb H0 Hs Hf. set (total := out s ++ _).
  assert (wp (grep ready fuel pattern) s (λ _ s', out s' = total)) as H.
  - apply (wp_loop (λ n _ s', (length (input s') < n)%nat ∧ between pattern total s')).
    + intros n [] s1 [Hn H1]. eapply wp_mono; [by apply grep_turn_ok|]. intros [[]|[]] s2; [|done].
      intros [H2 Hl]. split; [lia|done].
    + intros a s1 [? _]. lia.
    + split; [done|]. unfold between, pending. rewrite Hb. split; [apply not_elem_of_nil|done].
  - apply wp_done in H as ([] & s' & H & Ho). by exists s'.
Qed.

(** "ab\nxaby\n\nb", read three bytes at a time, searched for "a." *)
Definition ex_gst : gst := Gst [97; 98; 10; 120; 97; 98; 121; 10; 10; 98] 0 [] [].

Lemma grep_prints_matching_lines_witness :
  ∃ s', grep (λ _, 3%nat) 11 [97; 46; 42; 98; 36] ex_gst = Done tt s' ∧ out s' = [97; 98; 10].
Proof.
  destruct (grep_prints_matching_lines (λ _, 3%nat) [97; 46; 42; 98; 36] ex_gst 11) as (s' & H & Ho);
    [reflexivity|by vm_compute; set_solver|by vm_compute; repeat constructor; lia|vm_compute; lia|].
  exists s'. split; [exact H|]. rewrite Ho. reflexivity.
Defined.

(** A line of 1023 characters fills the buffer: grep stops there and never
    sees the matching line behind it. *)
Lemma grep_stops_at_long_line :
  let s := Gst (replicate 1023 98 ++ [NL; 97; NL]) 0 [] [] in
  matching [97] (lines (input s)) = [97; NL] ∧
  ∃ s', grep (λ _, 4096%nat) 3 [97] s = Done tt s' ∧ out s' = [].
Proof. split; [vm_compute; reflexivity|]. eexists. split; vm_compute; reflexivity. Qed.
