(* ===== verification/Virtio.v ===== *)
(** * The disk driver, kernel/virtio_disk.c and virtio.h

    The descriptor table and the two rings that driver and device share are
    records; a descriptor's address is the object it points to. Each segment
    of a function between two sleeps runs under vdisk_lock and is one
    transition. [vlog] lists the calls of wakeup and the writes to device
    registers. The device is the other side of the virtio queue: it takes heads from the
    avail ring, follows their chains, transfers, writes the status byte and
    puts the heads into the used ring. *)

From S2P Require Import Prelude Ring Riscv Mem Kalloc Vm Block FsFormat.

Definition NUM : nat := 8.
Definition VRING_DESC_F_NEXT : Z := 1.
Definition VRING_DESC_F_WRITE : Z := 2.
Definition VIRTIO_BLK_T_IN : Z := 0.
Definition VIRTIO_BLK_T_OUT : Z := 1.
Definition SIZEOF_BLK_REQ : Z := 16.
Definition VIRTIO_MMIO_QUEUE_NOTIFY : Z := 0x050.
Definition VIRTIO_MMIO_INTERRUPT_ACK : Z := 0x064.

(** Buffers are numbered. *)
Inductive daddr := Null | Ops (i : nat) | BufData (b : nat) | InfoStatus (i : nat).
Record virtq_desc := VDesc { vaddr : daddr; vlen : Z; vflags : Z; vnext : nat }.
Record virtio_blk_req := VReq { rtype : Z; rsector : Z }.
Inductive vchan := ChanFree | ChanBuf (b : nat).
(** Effects outside the driver: calls of wakeup and register writes. *)
Inductive vevent := Wakeup (c : vchan) | RegWrite (r x : Z).

Record vdisk := VDisk {
  desc : list virtq_desc;
  avail_idx : Z; avail_ring : list Z;
  dev_used_idx : Z; used_ring : list Z;
  vfree : list bool;
  used_idx : Z;
  info_b : list (option nat); info_status : list Z;
  ops : list virtio_blk_req;
  bdisk : nat → bool;            (* b->disk of the buffers *)
  vlog : list vevent
}.

Definition VDESC0 : virtq_desc := VDesc Null 0 0 0.
#[export] Instance virtq_desc_inhabited : Inhabited virtq_desc := populate VDESC0.
#[export] Instance virtio_blk_req_inhabited : Inhabited virtio_blk_req := populate (VReq 0 0).

Definition set_desc (i : nat) (x : virtq_desc) (v : vdisk) : vdisk :=
  VDisk (<[i := x]> (desc v)) (avail_idx v) (avail_ring v) (dev_used_idx v) (used_ring v) (vfree v) (used_idx v)
    (info_b v) (info_status v) (ops v) (bdisk v) (vlog v).
Definition set_vfree (i : nat) (x : bool) (v : vdisk) : vdisk :=
  VDisk (desc v) (avail_idx v) (avail_ring v) (dev_used_idx v) (used_ring v) (<[i := x]> (vfree v)) (used_idx v)
    (info_b v) (info_status v) (ops v) (bdisk v) (vlog v).
Definition set_info_b (i : nat) (x : option nat) (v : vdisk) : vdisk :=
  VDisk (desc v) (avail_idx v) (avail_ring v) (dev_used_idx v) (used_ring v) (vfree v) (used_idx v)
    (<[i := x]> (info_b v)) (info_status v) (ops v) (bdisk v) (vlog v).
Definition set_info_status (i : nat) (x : Z) (v : vdisk) : vdisk :=
  VDisk (desc v) (avail_idx v) (avail_ring v) (dev_used_idx v) (used_ring v) (vfree v) (used_idx v)
    (info_b v) (<[i := x]> (info_status v)) (ops v) (bdisk v) (vlog v).
Definition set_ops (i : nat) (x : virtio_blk_req) (v : vdisk) : vdisk :=
  VDisk (desc v) (avail_idx v) (avail_ring v) (dev_used_idx v) (used_ring v) (vfree v) (used_idx v)
    (info_b v) (info_status v) (<[i := x]> (ops v)) (bdisk v) (vlog v).
Definition set_bdisk (b : nat) (x : bool) (v : vdisk) : vdisk :=
  VDisk (desc v) (avail_idx v) (avail_ring v) (dev_used_idx v) (used_ring v) (vfree v) (used_idx v)
    (info_b v) (info_status v) (ops v) (<[b := x]> (bdisk v)) (vlog v).
Definition set_used_idx (x : Z) (v : vdisk) : vdisk :=
  VDisk (desc v) (avail_idx v) (avail_ring v) (dev_used_idx v) (used_ring v) (vfree v) x
    (info_b v) (info_status v) (ops v) (bdisk v) (vlog v).
Definition push_avail (x : Z) (v : vdisk) : vdisk :=
  VDisk (desc v) (u16 (avail_idx v + 1)) (rput NUM (avail_ring v) (avail_idx v) x) (dev_used_idx v) (used_ring v)
    (vfree v) (used_idx v) (info_b v) (info_status v) (ops v) (bdisk v) (vlog v).
Definition push_used (x : Z) (v : vdisk) : vdisk :=
  VDisk (desc v) (avail_idx v) (avail_ring v) (u16 (dev_used_idx v + 1)) (rput NUM (used_ring v) (dev_used_idx v) x)
    (vfree v) (used_idx v) (info_b v) (info_status v) (ops v) (bdisk v) (vlog v).
Definition note (e : vevent) (v : vdisk) : vdisk :=
  VDisk (desc v) (avail_idx v) (avail_ring v) (dev_used_idx v) (used_ring v) (vfree v) (used_idx v)
    (info_b v) (info_status v) (ops v) (bdisk v) (vlog v ++ [e]).

(** ** Descriptors *)

Fixpoint first_free (l : list bool) (i : nat) : option nat :=
  match l with
  | [] => None
  | x :: l' => if (x : bool) then Some i else first_free l' (S i)
  end.

Definition alloc_desc : M vdisk (option nat) :=
  let* l := gets vfree in
  match first_free l 0 with
  | Some i => modify (set_vfree i false) ;;; ret (Some i)
  | None => ret None
  end.

Definition free_desc (i : nat) : M vdisk unit :=
  if (NUM <=? i)%nat then panic "free_desc 1"
  else
    let* l := gets vfree in
    if (l !!! i : bool) then panic "free_desc 2"
    else
      modify (set_desc i VDESC0) ;;;
      modify (set_vfree i true) ;;;
      modify (note (Wakeup ChanFree)).

Definition free_chain_turn (i : nat) : M vdisk (nat + unit) :=
  let* d := gets (λ v, desc v !!! i) in
  free_desc i ;;;
  if negb (Z.land (vflags d) VRING_DESC_F_NEXT =? 0) then ret (inl (vnext d)) else ret (inr tt).

(** A chain visits no descriptor twice: the second visit would panic. *)
Definition free_chain (i : nat) : M vdisk unit := loop (S NUM) free_chain_turn i.

Fixpoint alloc_descs (n : nat) (idx : list nat) : M vdisk (option (list nat)) :=
  match n with
  | O => ret (Some idx)
  | S n =>
      let* r := alloc_desc in
      match r with
      | Some i => alloc_descs n (idx ++ [i])
      | None => for_each idx free_desc ;;; ret None
      end
  end.
Definition alloc3_desc : M vdisk (option (list nat)) := alloc_descs 3 [].

(** ** Requests *)

(** virtio_disk_rw up to the first wait for the device; [None] when it went
    to sleep on [&disk.free[0]], to be tried again. *)
Definition rw_submit (b : nat) (blockno : Z) (write : bool) : M vdisk (option nat) :=
  let sector := u32 (blockno * (BSIZE `div` 512)) in
  let* r := alloc3_desc in
  match r with
  | Some [i0; i1; i2] =>
      modify (set_ops i0 (VReq (if write then VIRTIO_BLK_T_OUT else VIRTIO_BLK_T_IN) sector)) ;;;
      modify (set_desc i0 (VDesc (Ops i0) SIZEOF_BLK_REQ VRING_DESC_F_NEXT i1)) ;;;
      modify (set_desc i1 (VDesc (BufData b) BSIZE
        (Z.lor (if write then 0 else VRING_DESC_F_WRITE) VRING_DESC_F_NEXT) i2)) ;;;
      modify (set_info_status i0 0xff) ;;;
      modify (set_desc i2 (VDesc (InfoStatus i0) 1 VRING_DESC_F_WRITE 0)) ;;;
      modify (set_bdisk b true) ;;;
      modify (set_info_b i0 (Some b)) ;;;
      modify (push_avail i0) ;;;
      modify (note (RegWrite VIRTIO_MMIO_QUEUE_NOTIFY 0)) ;;;
      ret (Some i0)
  | _ => ret None
  end.

(** From the wait for the device on; [false] when still waiting. *)
Definition rw_finish (b i0 : nat) : M vdisk bool :=
  let* w := gets (λ v, bdisk v b) in
  if (w : bool) then ret false
  else
    modify (set_info_b i0 None) ;;;
    free_chain i0 ;;;
    ret true.

(** ** The interrupt handler *)

Definition intr_turn (_ : unit) : M vdisk (unit + unit) :=
  let* v := get in
  if used_idx v =? dev_used_idx v then ret (inr tt)
  else
    let id := Z.to_nat (rget NUM (used_ring v) (used_idx v)) in
    if negb (info_status v !!! id =? 0) then panic "virtio_disk_intr status"
    else
      match info_b v !!! id with
      | Some b =>
          modify (set_bdisk b false) ;;;
          modify (note (Wakeup (ChanBuf b))) ;;;
          modify (set_used_idx (u16 (used_idx v + 1))) ;;;
          ret (inl tt)
      | None => panic "null pointer"
      end.

(** [istat] is what the interrupt status register reads as. The loop takes
    every used entry once. *)
Definition virtio_disk_intr (istat : Z) : M vdisk unit :=
  modify (note (RegWrite VIRTIO_MMIO_INTERRUPT_ACK (Z.land istat 0x3))) ;;;
  let* n := gets (λ v, rlen (2^16) (used_idx v) (dev_used_idx v)) in
  loop (S (Z.to_nat n)) intr_turn tt.

(** ** Initialisation *)

Definition VIRTIO_MMIO_MAGIC_VALUE : Z := 0x000.
Definition VIRTIO_MMIO_VERSION : Z := 0x004.
Definition VIRTIO_MMIO_DEVICE_ID : Z := 0x008.
Definition VIRTIO_MMIO_VENDOR_ID : Z := 0x00c.
Definition VIRTIO_MMIO_DEVICE_FEATURES : Z := 0x010.
Definition VIRTIO_MMIO_DRIVER_FEATURES : Z := 0x020.
Definition VIRTIO_MMIO_QUEUE_SEL : Z := 0x030.
Definition VIRTIO_MMIO_QUEUE_NUM_MAX : Z := 0x034.
Definition VIRTIO_MMIO_QUEUE_NUM : Z := 0x038.
Definition VIRTIO_MMIO_QUEUE_READY : Z := 0x044.
Definition VIRTIO_MMIO_STATUS : Z := 0x070.
Definition VIRTIO_MMIO_QUEUE_DESC_LOW : Z := 0x080.
Definition VIRTIO_MMIO_QUEUE_DESC_HIGH : Z := 0x084.
Definition VIRTIO_MMIO_DRIVER_DESC_LOW : Z := 0x090.
Definition VIRTIO_MMIO_DRIVER_DESC_HIGH : Z := 0x094.
Definition VIRTIO_MMIO_DEVICE_DESC_LOW : Z := 0x0a0.
Definition VIRTIO_MMIO_DEVICE_DESC_HIGH : Z := 0x0a4.
Definition VIRTIO_CONFIG_S_ACKNOWLEDGE : Z := 1.
Definition VIRTIO_CONFIG_S_DRIVER : Z := 2.
Definition VIRTIO_CONFIG_S_DRIVER_OK : Z := 4.
Definition VIRTIO_CONFIG_S_FEATURES_OK : Z := 8.

(** RO, SCSI, CONFIG_WCE, MQ, ANY_LAYOUT, EVENT_IDX, INDIRECT_DESC *)
Definition refused_features : list Z := [5; 7; 11; 12; 27; 29; 28].
Definition negotiate (features : Z) : Z :=
  u32 (foldl (λ f k, Z.land f (Z.lnot (Z.shiftl 1 k))) features refused_features).

(** The queue after the pages have been cleared. *)
Definition empty_queue (free : bool) (v : vdisk) : vdisk :=
  VDisk (replicate NUM VDESC0) 0 (replicate NUM 0) 0 (replicate NUM 0) (replicate NUM free) (used_idx v)
    (info_b v) (info_status v) (ops v) (bdisk v) (vlog v).

Record vini := Vini { vi_k : kmem; vi_writes : list (Z * Z); vi_d : vdisk }.
Definition on_vk {A} (m : M kmem A) : M vini A := λ s,
  match m (vi_k s) with
  | Done a k => Done a (Vini k (vi_writes s) (vi_d s))
  | Panic msg => Panic msg
  | Sleep c k => Sleep c (Vini k (vi_writes s) (vi_d s))
  | OutOfFuel => OutOfFuel
  end.
Definition reg_write (r x : Z) : M vini unit := modify (λ s, Vini (vi_k s) (vi_writes s ++ [(r, u32 x)]) (vi_d s)).

(** [reg] gives the values the device's registers read as. *)
Definition virtio_disk_init (reg : Z → Z) : M vini unit :=
  if negb (reg VIRTIO_MMIO_MAGIC_VALUE =? 0x74726976) || negb (reg VIRTIO_MMIO_VERSION =? 2)
     || negb (reg VIRTIO_MMIO_DEVICE_ID =? 2) || negb (reg VIRTIO_MMIO_VENDOR_ID =? 0x554d4551)
  then panic "could not find virtio disk"
  else
    reg_write VIRTIO_MMIO_STATUS 0 ;;;
    let status := VIRTIO_CONFIG_S_ACKNOWLEDGE in
    reg_write VIRTIO_MMIO_STATUS status ;;;
    let status := Z.lor status VIRTIO_CONFIG_S_DRIVER in
    reg_write VIRTIO_MMIO_STATUS status ;;;
    reg_write VIRTIO_MMIO_DRIVER_FEATURES (negotiate (reg VIRTIO_MMIO_DEVICE_FEATURES)) ;;;
    let status := Z.lor status VIRTIO_CONFIG_S_FEATURES_OK in
    reg_write VIRTIO_MMIO_STATUS status ;;;
    let status := reg VIRTIO_MMIO_STATUS in
    if Z.land status VIRTIO_CONFIG_S_FEATURES_OK =? 0 then panic "virtio disk FEATURES_OK unset"
    else
      reg_write VIRTIO_MMIO_QUEUE_SEL 0 ;;;
      if negb (reg VIRTIO_MMIO_QUEUE_READY =? 0) then panic "virtio disk should not be ready"
      else
        let max := reg VIRTIO_MMIO_QUEUE_NUM_MAX in
        if max =? 0 then panic "virtio disk has no queue 0"
        else if max <? NUM then panic "virtio disk max queue too short"
        else
          let* dp := on_vk kalloc in
          let* ap := on_vk kalloc in
          let* up := on_vk kalloc in
          if (dp =? 0) || (ap =? 0) || (up =? 0) then panic "virtio disk kalloc"
          else
            on_vk (memset_k dp 0 PGSIZE) ;;;
            on_vk (memset_k ap 0 PGSIZE) ;;;
            on_vk (memset_k up 0 PGSIZE) ;;;
            reg_write VIRTIO_MMIO_QUEUE_NUM NUM ;;;
            reg_write VIRTIO_MMIO_QUEUE_DESC_LOW dp ;;;
            reg_write VIRTIO_MMIO_QUEUE_DESC_HIGH (Z.shiftr dp 32) ;;;
            reg_write VIRTIO_MMIO_DRIVER_DESC_LOW ap ;;;
            reg_write VIRTIO_MMIO_DRIVER_DESC_HIGH (Z.shiftr ap 32) ;;;
            reg_write VIRTIO_MMIO_DEVICE_DESC_LOW up ;;;
            reg_write VIRTIO_MMIO_DEVICE_DESC_HIGH (Z.shiftr up 32) ;;;
            reg_write VIRTIO_MMIO_QUEUE_READY 1 ;;;
            modify (λ s, Vini (vi_k s) (vi_writes s) (empty_queue true (vi_d s))) ;;;
            reg_write VIRTIO_MMIO_STATUS (Z.lor status VIRTIO_CONFIG_S_DRIVER_OK).

(** ** Driver, device and callers together *)

(** A caller of virtio_disk_rw: outside it, in it before its request is
    submitted, or waiting for the request whose head descriptor it has. *)
Inductive vclient :=
| VIdle
| VWant (b : nat) (blockno : Z) (write : bool)
| VFlight (b : nat) (blockno : Z) (write : bool) (i0 : nat).

Definition vbuf (c : vclient) : option nat :=
  match c with VIdle => None | VWant b _ _ => Some b | VFlight b _ _ _ => Some b end.

Record vsys := VSys {
  vd : vdisk;
  clients : nat → vclient;
  image : Z → list Z;           (* the disk's sectors *)
  vdata : nat → list Z;         (* the data of the buffers *)
  dev_seen : Z;                 (* avail entries the device has taken *)
  dev_taken : list Z            (* heads it has taken and not completed *)
}.

(** What the device reads from the chain that starts at [id]: the sector, the
    buffer, the direction and where the status goes. *)
Definition decode (v : vdisk) (id : nat) : option (Z * nat * bool * nat) :=
  let d0 := desc v !!! id in
  let d1 := desc v !!! vnext d0 in
  let d2 := desc v !!! vnext d1 in
  if (vflags d0 =? VRING_DESC_F_NEXT) && (vlen d0 =? SIZEOF_BLK_REQ) && (vlen d1 =? BSIZE) && (vlen d2 =? 1)
     && (vflags d2 =? VRING_DESC_F_WRITE) then
    match vaddr d0, vaddr d1, vaddr d2 with
    | Ops r, BufData b, InfoStatus s =>
        let q := ops v !!! r in
        if (rtype q =? VIRTIO_BLK_T_OUT) && (vflags d1 =? VRING_DESC_F_NEXT) then Some (rsector q, b, true, s)
        else if (rtype q =? VIRTIO_BLK_T_IN) && (vflags d1 =? Z.lor VRING_DESC_F_WRITE VRING_DESC_F_NEXT)
        then Some (rsector q, b, false, s)
        else None
    | _, _, _ => None
    end
  else None.

(** The transfer of a block of two sectors. *)
Definition transfer (sector : Z) (b : nat) (write : bool) (img : Z → list Z) (dat : nat → list Z)
    : (Z → list Z) * (nat → list Z) :=
  if write then (<[sector + 1 := drop 512 (dat b)]> (<[sector := take 512 (dat b)]> img), dat)
  else (img, <[b := img sector ++ img (sector + 1)]> dat).

Inductive vstep : vsys → vsys → Prop :=
| vs_call c b n w y :
    clients y c = VIdle → (∀ c', vbuf (clients y c') ≠ Some b) → 0 ≤ n < 2^31 →
    vstep y (VSys (vd y) (<[c := VWant b n w]> (clients y)) (image y) (vdata y) (dev_seen y) (dev_taken y))
| vs_submit c b n w i0 v y :
    clients y c = VWant b n w → rw_submit b n w (vd y) = Done (Some i0) v →
    vstep y (VSys v (<[c := VFlight b n w i0]> (clients y)) (image y) (vdata y) (dev_seen y) (dev_taken y))
| vs_blocked c b n w v y :
    clients y c = VWant b n w → rw_submit b n w (vd y) = Done None v →
    vstep y (VSys v (clients y) (image y) (vdata y) (dev_seen y) (dev_taken y))
| vs_finish c b n w i0 v y :
    clients y c = VFlight b n w i0 → rw_finish b i0 (vd y) = Done true v →
    vstep y (VSys v (<[c := VIdle]> (clients y)) (image y) (vdata y) (dev_seen y) (dev_taken y))
| vs_intr istat v y :
    virtio_disk_intr istat (vd y) = Done tt v →
    vstep y (VSys v (clients y) (image y) (vdata y) (dev_seen y) (dev_taken y))
| vs_take y :
    dev_seen y ≠ avail_idx (vd y) →
    vstep y (VSys (vd y) (clients y) (image y) (vdata y) (u16 (dev_seen y + 1))
      (rget NUM (avail_ring (vd y)) (dev_seen y) :: dev_taken y))
| vs_complete l1 id l2 sector b w s y :
    dev_taken y = l1 ++ id :: l2 → decode (vd y) (Z.to_nat id) = Some (sector, b, w, s) →
    vstep y (let '(img, dat) := transfer sector b w (image y) (vdata y) in
      VSys (push_used id (set_info_status s 0 (vd y))) (clients y) img dat (dev_seen y) (l1 ++ l2)).

(** The device is set up and nobody uses it. *)
Definition vquiet (y : vsys) : Prop :=
  (∃ v0, vd y = empty_queue true v0 ∧ used_idx v0 = 0 ∧ length (info_b v0) = NUM ∧
     length (info_status v0) = NUM ∧ length (ops v0) = NUM) ∧
  (∀ c, clients y c = VIdle) ∧ dev_seen y = 0 ∧ dev_taken y = [].
