(* ===== verification/VirtioInv.v ===== *)
(** * The invariant of the disk driver and its queues *)

From S2P Require Import Prelude Ring Riscv Mem Kalloc Vm Block FsFormat Virtio.

(** Fields of updated states. *)
Ltac vsimpl := cbn [desc avail_idx avail_ring dev_used_idx used_ring vfree used_idx info_b info_status ops bdisk vlog
  set_desc set_vfree set_info_b set_info_status set_ops set_bdisk set_used_idx push_avail push_used note
  vd clients image vdata dev_seen dev_taken].

(** ** Descriptors in use *)

Section regs.
Implicit Types (v : vdisk) (i j b : nat) (idx : list nat).

(** [v] is [v0] with the free descriptors [idx] taken, and nothing else
    changed but the contents of descriptors that are free in [v0]. *)
Record took (v0 : vdisk) (idx : list nat) (v : vdisk) : Prop := {
  tk_nodup : NoDup idx;
  tk_was : ∀ j, j ∈ idx → (j < NUM)%nat ∧ vfree v0 !!! j = true;
  tk_len : length (vfree v) = NUM ∧ length (desc v) = NUM;
  tk_free : ∀ j, vfree v !!! j = if decide (j ∈ idx) then false else vfree v0 !!! j;
  tk_desc : ∀ j, vfree v0 !!! j = false → desc v !!! j = desc v0 !!! j;
  tk_avail : avail_idx v = avail_idx v0 ∧ avail_ring v = avail_ring v0;
  tk_used : dev_used_idx v = dev_used_idx v0 ∧ used_ring v = used_ring v0 ∧ used_idx v = used_idx v0;
  tk_info : info_b v = info_b v0 ∧ info_status v = info_status v0 ∧ ops v = ops v0 ∧ bdisk v = bdisk v0
}.

Lemma took_nil v : length (vfree v) = NUM → length (desc v) = NUM → took v [] v.
Proof. intros. split; try done; [apply NoDup_nil_2|intros j ?%elem_of_nil; done]. Qed.

Lemma first_free_some l k i : first_free l k = Some i → (k ≤ i)%nat ∧ l !! (i - k)%nat = Some true.
Proof.
  revert k. induction l as [|[] l IH]; intros k; cbn; [done|intros [= <-]; by rewrite Nat.sub_diag|].
  intros [Hk Hl]%IH. split; [lia|]. by replace (i - k)%nat with (S (i - S k)) by lia.
Qed.

Lemma alloc_desc_ok v0 idx v :
  took v0 idx v →
  wp alloc_desc v (λ r v', match r with Some i => took v0 (idx ++ [i]) v' | None => v' = v end).
Proof.
  intros H. unfold alloc_desc. apply wp_bind, wp_gets. destruct (first_free (vfree v) 0) as [i|] eqn:Ef; [|by apply wp_ret].
  apply first_free_some in Ef as [_ Ef]. rewrite Nat.sub_0_r in Ef. pose proof (lookup_lt_Some _ _ _ Ef) as Hi.
  apply list_lookup_total_correct in Ef. apply wp_bind, wp_modify, wp_ret. destruct H. rewrite (proj1 tk_len0) in Hi.
  rewrite tk_free0 in Ef. destruct (decide (i ∈ idx)) as [|Hn]; [done|]. split; cbn; try done.
  - apply NoDup_app. split; [done|]. split; [set_solver|apply NoDup_singleton].
  - intros j Hj. apply elem_of_app in Hj as [Hj|Hj]; [auto|]. apply list_elem_of_singleton in Hj as ->. auto.
  - by rewrite length_insert.
  - intros j. destruct (decide (j = i)) as [->|Hj].
    + rewrite list_lookup_total_insert_eq by lia. rewrite decide_True by set_solver. done.
    + rewrite list_lookup_total_insert_ne, tk_free0 by done.
      destruct (decide (j ∈ idx)), (decide (j ∈ idx ++ [i])); set_solver.
Qed.

Lemma free_desc_run v i :
  (i < NUM)%nat → vfree v !!! i = false →
  free_desc i v = Done tt (note (Wakeup ChanFree) (set_vfree i true (set_desc i VDESC0 v))).
Proof.
  intros Hi Hf. unfold free_desc. rewrite (proj2 (Nat.leb_gt _ _)) by done. cbn. by rewrite Hf.
Qed.

Lemma free_desc_took v0 i idx v : took v0 (i :: idx) v → wp (free_desc i) v (λ _ v', took v0 idx v').
Proof.
  intros []. destruct (tk_was0 i) as [Hi Hf0]; [set_solver|]. apply NoDup_cons in tk_nodup0 as [Hn Hd].
  unfold wp. rewrite free_desc_run; [|done|by rewrite tk_free0, decide_True by set_solver].
  split; cbn; try done.
  - set_solver.
  - by rewrite !length_insert.
  - intros j. destruct (decide (j = i)) as [->|Hj].
    + rewrite list_lookup_total_insert_eq by lia. by rewrite decide_False.
    + rewrite list_lookup_total_insert_ne, tk_free0 by done. destruct (decide (j ∈ i :: idx)), (decide (j ∈ idx)); set_solver.
  - intros j Hj. rewrite list_lookup_total_insert_ne; [by apply tk_desc0|]. congruence.
Qed.

Lemma free_all_took v0 idx v : took v0 idx v → wp (for_each idx free_desc) v (λ _ v', took v0 [] v').
Proof.
  revert v. induction idx as [|i idx IH]; intros v H; [by apply wp_ret|]. cbn [for_each]. apply wp_bind.
  eapply wp_mono; [by apply free_desc_took|]. intros [] v' H'. by apply IH.
Qed.

Lemma alloc_descs_ok v0 n idx v :
  took v0 idx v →
  wp (alloc_descs n idx) v (λ r v',
    match r with Some idx' => took v0 idx' v' ∧ length idx' = (length idx + n)%nat | None => took v0 [] v' end).
Proof.
  revert idx v. induction n as [|n IH]; intros idx v H; cbn [alloc_descs].
  - apply wp_ret. split; [done|lia].
  - apply wp_bind. eapply wp_mono; [by apply alloc_desc_ok|]. intros [i|] v' H'.
    + eapply wp_mono; [by apply IH|]. intros [idx'|] v'' H''; [|done]. rewrite length_app in H''. cbn in H''.
      destruct H''. split; [done|lia].
    + subst v'. apply wp_bind. eapply wp_mono; [by apply (free_all_took v0)|]. intros [] v' H'. by apply wp_ret.
Qed.

(** ** Chains *)

Definition chain v i : list nat :=
  [i; vnext (desc v !!! i); vnext (desc v !!! vnext (desc v !!! i))].

Definition data_flags (w : bool) : Z := Z.lor (if w then 0 else VRING_DESC_F_WRITE) VRING_DESC_F_NEXT.
Definition op_of (w : bool) : Z := if w then VIRTIO_BLK_T_OUT else VIRTIO_BLK_T_IN.

(** The descriptors from [i] on describe a transfer with buffer [b]. *)
Record chain_ok v b (w : bool) i : Prop := {
  co_nodup : NoDup (chain v i);
  co_used : ∀ j, j ∈ chain v i → (j < NUM)%nat ∧ vfree v !!! j = false;
  co_desc : ∃ i1, desc v !!! i = VDesc (Ops i) SIZEOF_BLK_REQ VRING_DESC_F_NEXT i1 ∧
            ∃ i2, desc v !!! i1 = VDesc (BufData b) BSIZE (data_flags w) i2 ∧
            desc v !!! i2 = VDesc (InfoStatus i) 1 VRING_DESC_F_WRITE 0
}.

(** The request in them is for block [n]. *)
Record flight_ok v b (n : Z) (w : bool) i : Prop := {
  fo_chain : chain_ok v b w i;
  fo_op : ops v !!! i = VReq (op_of w) (u32 (n * 2));
  fo_b : info_b v !!! i = Some b;
  fo_n : 0 ≤ n < 2^31
}.

Lemma fo_used v b n w i j : flight_ok v b n w i → j ∈ chain v i → (j < NUM)%nat ∧ vfree v !!! j = false.
Proof. intros H. apply (co_used _ _ _ _ (fo_chain _ _ _ _ _ H)). Qed.

Lemma chain_of v b w i : chain_ok v b w i →
  ∃ i1 i2, chain v i = [i; i1; i2] ∧ desc v !!! i = VDesc (Ops i) SIZEOF_BLK_REQ VRING_DESC_F_NEXT i1 ∧
    desc v !!! i1 = VDesc (BufData b) BSIZE (data_flags w) i2 ∧
    desc v !!! i2 = VDesc (InfoStatus i) 1 VRING_DESC_F_WRITE 0.
Proof.
  intros [_ _ (i1 & E0 & i2 & E1 & E2)]. exists i1, i2. split; [|done].
  unfold chain. by rewrite E0; cbn; rewrite E1.
Qed.

(** Changes outside the chain leave the request alone. *)
Lemma vchain_frame v v' b w i :
  chain_ok v b w i → (∀ j, j ∈ chain v i → vfree v' !!! j = vfree v !!! j ∧ desc v' !!! j = desc v !!! j) →
  chain_ok v' b w i ∧ chain v' i = chain v i.
Proof.
  intros H Hc. destruct (chain_of _ _ _ _ H) as (i1 & i2 & Ec & E0 & E1 & E2).
  assert (Hc' : chain v' i = chain v i).
  { rewrite Ec in Hc |- *. unfold chain. rewrite (proj2 (Hc i ltac:(set_solver))), E0. cbn.
    by rewrite (proj2 (Hc i1 ltac:(set_solver))), E1. }
  split; [|done]. destruct H as [Hn Hu _]. split; rewrite ?Hc'; [done|..].
  - intros j Hj. destruct (Hu j Hj). by rewrite (proj1 (Hc j Hj)).
  - rewrite Ec in Hc. exists i1. rewrite (proj2 (Hc i ltac:(set_solver))). split; [done|]. exists i2.
    by rewrite (proj2 (Hc i1 ltac:(set_solver))), (proj2 (Hc i2 ltac:(set_solver))).
Qed.

Lemma flight_frame v v' b n w i :
  flight_ok v b n w i → (∀ j, j ∈ chain v i → vfree v' !!! j = vfree v !!! j ∧ desc v' !!! j = desc v !!! j) →
  ops v' !!! i = ops v !!! i → info_b v' !!! i = info_b v !!! i →
  flight_ok v' b n w i ∧ chain v' i = chain v i.
Proof. intros [H Ho Hb Hn] Hc Ho' Hb'. destruct (vchain_frame _ v' _ _ _ H Hc). split; [|done]. split; congruence. Qed.

(** What the device decodes from such a chain. *)
Lemma decode_flight v b n w i : flight_ok v b n w i → decode v i = Some (u32 (n * 2), b, w, i).
Proof.
  intros H. destruct (chain_of _ _ _ _ (fo_chain _ _ _ _ _ H)) as (i1 & i2 & Ec & E0 & E1 & E2). unfold decode.
  rewrite E0. cbn [vnext vflags vlen vaddr]. rewrite E1. cbn [vnext vflags vlen vaddr]. rewrite E2.
  cbn [vnext vflags vlen vaddr]. rewrite (fo_op _ _ _ _ _ H). by destruct w.
Qed.

Lemma free_chain_step v i (k : nat) :
  (i < NUM)%nat → vfree v !!! i = false →
  loop (S k) free_chain_turn i v =
    (if negb (Z.land (vflags (desc v !!! i)) VRING_DESC_F_NEXT =? 0)
     then loop k free_chain_turn (vnext (desc v !!! i)) else ret tt)
    (note (Wakeup ChanFree) (set_vfree i true (set_desc i VDESC0 v))).
Proof.
  intros Hi Hf. cbn [loop]. unfold free_chain_turn at 1. unfold bind at 1 2, gets at 1. unfold bind at 1.
  rewrite free_desc_run by done. by destruct (negb _).
Qed.

(** free_chain frees the three descriptors. *)
Lemma free_chain_run v b w i :
  chain_ok v b w i → length (vfree v) = NUM → length (desc v) = NUM →
  ∃ v', free_chain i v = Done tt v' ∧
    (∀ j, vfree v' !!! j = if decide (j ∈ chain v i) then true else vfree v !!! j) ∧
    (∀ j, j ∉ chain v i → desc v' !!! j = desc v !!! j) ∧
    length (vfree v') = NUM ∧ length (desc v') = NUM ∧
    avail_idx v' = avail_idx v ∧ avail_ring v' = avail_ring v ∧ dev_used_idx v' = dev_used_idx v ∧
    used_ring v' = used_ring v ∧ used_idx v' = used_idx v ∧ info_b v' = info_b v ∧
    info_status v' = info_status v ∧ ops v' = ops v ∧ bdisk v' = bdisk v.
Proof.
  intros H Hlf Hld. destruct (chain_of _ _ _ _ H) as (i1 & i2 & Ec & E0 & E1 & E2). destruct H as [Hn Hu _]. rewrite Ec in *.
  assert (i ≠ i1 ∧ i ≠ i2 ∧ i1 ≠ i2) as (N1 & N2 & N3).
  { rewrite !NoDup_cons in Hn. set_solver. }
  destruct (Hu i ltac:(set_solver)) as [L0 F0]. destruct (Hu i1 ltac:(set_solver)) as [L1 F1].
  destruct (Hu i2 ltac:(set_solver)) as [L2 F2]. eexists. split.
  - unfold free_chain. change (S NUM) with (S (S (S 6))). rewrite free_chain_step by done. rewrite E0. cbn [vflags vnext]. change (Z.land _ _ =? 0) with false. cbn [negb].
    rewrite free_chain_step by (cbn; rewrite ?list_lookup_total_insert_ne; done). cbn [desc note set_vfree set_desc].
    rewrite list_lookup_total_insert_ne, E1 by done. cbn [vflags vnext].
    replace (negb (Z.land (data_flags w) VRING_DESC_F_NEXT =? 0)) with true by (by destruct w).
    rewrite free_chain_step by (cbn; rewrite ?list_lookup_total_insert_ne; done). cbn [desc note set_vfree set_desc].
    rewrite !list_lookup_total_insert_ne, E2 by done. reflexivity.
  - cbn. repeat split; try done; rewrite ?length_insert; try done.
    + intros j. destruct (decide (j = i2)) as [->|]; [rewrite list_lookup_total_insert_eq by (rewrite !length_insert; lia);
        by rewrite decide_True by set_solver|]. rewrite list_lookup_total_insert_ne by done.
      destruct (decide (j = i1)) as [->|]; [rewrite list_lookup_total_insert_eq by (rewrite !length_insert; lia);
        by rewrite decide_True by set_solver|]. rewrite list_lookup_total_insert_ne by done.
      destruct (decide (j = i)) as [->|]; [rewrite list_lookup_total_insert_eq by lia;
        by rewrite decide_True by set_solver|]. rewrite list_lookup_total_insert_ne by done.
      by rewrite decide_False by set_solver.
    + intros j Hj. rewrite !list_lookup_total_insert_ne by set_solver. done.
Qed.
End regs.
