(* ===== verification/VirtioTheorems.v ===== *)
(** * The disk driver implements reads and writes of blocks *)

From S2P Require Import Prelude Ring Riscv Mem Kalloc Vm Block FsFormat Virtio VirtioInv.

(** ** The specification

    Between call and return a client's request is served once, at one moment,
    by a transfer between its buffer and the disk block. *)
Inductive aclient := AIdle | ABusy (b : nat) (n : Z) (w : bool) | AServed (b : nat) (n : Z) (w : bool).
Record adisk := ADisk { ablock : Z → list Z; adata : nat → list Z; aclients : nat → aclient }.

Definition abuf (c : aclient) : option nat :=
  match c with AIdle => None | ABusy b _ _ => Some b | AServed b _ _ => Some b end.

(** [c] moves to [x]; the others stay. *)
Definition amove (a a' : adisk) (c : nat) (x : aclient) : Prop := ∀ c', aclients a' c' = <[c := x]> (aclients a) c'.
Definition ablocks_same (a a' : adisk) : Prop := ∀ n, ablock a' n = ablock a n.
Definition adata_same (a a' : adisk) : Prop := ∀ b, adata a' b = adata a b.

Inductive astep (a a' : adisk) : Prop :=
| as_call c b n w :
    aclients a c = AIdle → (∀ c', abuf (aclients a c') ≠ Some b) →
    amove a a' c (ABusy b n w) → ablocks_same a a' → adata_same a a' → astep a a'
| as_read c b n :
    aclients a c = ABusy b n false → amove a a' c (AServed b n false) → ablocks_same a a' →
    (∀ b', adata a' b' = <[b := ablock a n]> (adata a) b') → astep a a'
| as_write c b n :
    aclients a c = ABusy b n true → amove a a' c (AServed b n true) → adata_same a a' →
    (∀ n', ablock a' n' = <[n := adata a b]> (ablock a) n') → astep a a'
| as_return c b n w :
    aclients a c = AServed b n w → amove a a' c AIdle → ablocks_same a a' → adata_same a a' → astep a a'.

(** What the driver's state stands for: the status byte of a request tells
    whether it has been served. *)
Definition aclient_of (v : vdisk) (c : vclient) : aclient :=
  match c with
  | VIdle => AIdle
  | VWant b n w => ABusy b n w
  | VFlight b n w i => if info_status v !!! i =? 0 then AServed b n w else ABusy b n w
  end.
Definition abs (y : vsys) : adisk :=
  ADisk (λ n, image y (n * 2) ++ image y (n * 2 + 1)) (vdata y) (λ c, aclient_of (vd y) (clients y c)).

Definition asame (a a' : adisk) : Prop :=
  (∀ c, aclients a' c = aclients a c) ∧ ablocks_same a a' ∧ adata_same a a'.

(** ** The invariant *)

Definition usedq (v : vdisk) : list Z := ritems NUM (2^16) (used_ring v) (used_idx v) (dev_used_idx v).
Definition availq (y : vsys) : list Z := ritems NUM (2^16) (avail_ring (vd y)) (dev_seen y) (avail_idx (vd y)).
(** Heads the device still has to serve, and all that are in a queue. *)
Definition unserved (y : vsys) : list Z := availq y ++ dev_taken y.
Definition heads (y : vsys) : list Z := unserved y ++ usedq (vd y).

Record vinv (y : vsys) : Prop := {
  vi_len : length (desc (vd y)) = NUM ∧ length (avail_ring (vd y)) = NUM ∧ length (used_ring (vd y)) = NUM ∧
    length (vfree (vd y)) = NUM ∧ length (info_b (vd y)) = NUM ∧ length (info_status (vd y)) = NUM ∧
    length (ops (vd y)) = NUM;
  vi_idx : 0 ≤ avail_idx (vd y) < 2^16 ∧ 0 ≤ dev_seen y < 2^16 ∧ 0 ≤ used_idx (vd y) < 2^16 ∧
    0 ≤ dev_used_idx (vd y) < 2^16;
  vi_flight : ∀ c b n w i, clients y c = VFlight b n w i → flight_ok (vd y) b n w i;
  vi_want : ∀ c b n w, clients y c = VWant b n w → 0 ≤ n < 2^31;
  vi_bufs : ∀ c c' b, vbuf (clients y c) = Some b → vbuf (clients y c') = Some b → c = c';
  vi_disj : ∀ c c' b n w i b' n' w' i' j, clients y c = VFlight b n w i → clients y c' = VFlight b' n' w' i' →
    j ∈ chain (vd y) i → j ∈ chain (vd y) i' → c = c';
  vi_free : ∀ j, vfree (vd y) !!! j = false → (j < NUM)%nat →
    ∃ c b n w i, clients y c = VFlight b n w i ∧ j ∈ chain (vd y) i;
  vi_heads : ∀ z : Z, z ∈ heads y → ∃ c b n w (i : nat), clients y c = VFlight b n w i ∧ z = i;
  vi_nodup : NoDup (heads y);
  vi_stage : ∀ c b n w i, clients y c = VFlight b n w i →
    info_status (vd y) !!! i = 255 ∧ Z.of_nat i ∈ unserved y ∧ bdisk (vd y) b = true ∨
    info_status (vd y) !!! i = 0 ∧ Z.of_nat i ∈ usedq (vd y) ∧ bdisk (vd y) b = true ∨
    info_status (vd y) !!! i = 0 ∧ Z.of_nat i ∉ heads y ∧ bdisk (vd y) b = false
}.

Definition with_vd (v : vdisk) (y : vsys) : vsys :=
  VSys v (clients y) (image y) (vdata y) (dev_seen y) (dev_taken y).

Lemma in_chain v i : i ∈ chain v i.
Proof. unfold chain. set_solver. Qed.

Lemma vquiet_inv y : vquiet y → vinv y.
Proof.
  intros ((v0 & Ev & Hu & Hb & Hs & Ho) & Hc & Hd & Ht). split; rewrite ?Ev; cbn.
  - done.
  - rewrite Hu, Hd. lia.
  - intros c b n w i. by rewrite Hc.
  - intros c b n w. by rewrite Hc.
  - intros c c' b. by rewrite Hc.
  - intros c c' b n w i b' n' w' i' j. by rewrite Hc.
  - intros j Hj Hlt. change (replicate NUM true !!! j = false) in Hj.
    rewrite (list_lookup_total_correct _ _ true) in Hj; [done|]. by apply lookup_replicate.
  - intros z. unfold heads, unserved, usedq, availq. rewrite Ev, Hd, Ht. cbn. rewrite Hu.
    intros []%elem_of_nil.
  - unfold heads, unserved, usedq, availq. rewrite Ev, Hd, Ht. cbn. rewrite Hu. apply NoDup_nil_2.
  - intros c b n w i. by rewrite Hc.
Qed.

(** A list of different heads that lacks one is shorter than the table. *)
Lemma heads_room (l : list Z) (i : nat) :
  NoDup l → (∀ z, z ∈ l → 0 ≤ z < 8) → (i < NUM)%nat → Z.of_nat i ∉ l → Z.of_nat (length l) < 8.
Proof.
  intros Hl Hr Hi Hn. assert ((Z.of_nat i :: l) ⊆+ seqZ 0 8) as Hs.
  - apply NoDup_submseteq; [by apply NoDup_cons|]. intros z. rewrite elem_of_seqZ. intros [->|Hz]%elem_of_cons.
    + unfold NUM in Hi. lia.
    + destruct (Hr z Hz). lia.
  - apply submseteq_length in Hs. rewrite length_seqZ in Hs. cbn in Hs. lia.
Qed.

Section steps.
Context (y : vsys) (I : vinv y).

Lemma head_range z : z ∈ heads y → 0 ≤ z < 8.
Proof.
  intros (c & b & n & w & i & Hc & ->)%(vi_heads _ I).
  destruct (fo_used _ _ _ _ _ _ (vi_flight _ I _ _ _ _ _ Hc) (in_chain _ _)). unfold NUM in *. lia.
Qed.

(** A free descriptor is no head of a request. *)
Lemma head_not_free (i : nat) : vfree (vd y) !!! i = true → Z.of_nat i ∉ heads y.
Proof.
  intros Hf (c & b & n & w & i' & Hc & E)%(vi_heads _ I). apply Nat2Z.inj in E as <-.
  destruct (fo_used _ _ _ _ _ _ (vi_flight _ I _ _ _ _ _ Hc) (in_chain _ _)). congruence.
Qed.

(** *** Giving up *)

Lemma blocked_inv v : took (vd y) [] v → vinv (with_vd v y) ∧ asame (abs y) (abs (with_vd v y)).
Proof.
  intros [_ _ Hlen Hfr Hds [A1 A2] (U1 & U2 & U3) (F1 & F2 & F3 & F4)].
  assert (Hf : ∀ j, vfree v !!! j = vfree (vd y) !!! j) by (intros j; by rewrite Hfr).
  assert (HF : ∀ c b n w i, clients y c = VFlight b n w i → flight_ok v b n w i ∧ chain v i = chain (vd y) i).
  { intros c b n w i Hc. pose proof (vi_flight _ I _ _ _ _ _ Hc) as Hi. apply flight_frame; [done| |by rewrite F3|by rewrite F1].
    intros j Hj. split; [done|]. apply Hds. by apply (fo_used _ _ _ _ _ _ Hi). }
  assert (Hh : heads (with_vd v y) = heads y ∧ unserved (with_vd v y) = unserved y ∧ usedq v = usedq (vd y)).
  { unfold heads, unserved, availq, usedq. cbn. by rewrite A1, A2, U1, U2, U3. }
  destruct Hh as (H1 & H2 & H3). destruct I. split.
  - split; cbn; rewrite ?H1, ?H2, ?H3, ?A1, ?A2, ?U1, ?U2, ?U3, ?F1, ?F2, ?F3, ?F4; try done.
    + destruct Hlen. by destruct_and!.
    + intros. by eapply HF.
    + intros c c' b n w i b' n' w' i' j Hc Hc' Hj Hj'. rewrite (proj2 (HF _ _ _ _ _ Hc)) in Hj.
      rewrite (proj2 (HF _ _ _ _ _ Hc')) in Hj'. by eapply vi_disj0.
    + intros j Hj Hlt. rewrite Hf in Hj. destruct (vi_free0 j Hj Hlt) as (c & b & n & w & i & Hc & Hi).
      exists c, b, n, w, i. by rewrite (proj2 (HF _ _ _ _ _ Hc)).
  - split; [|done]. intros c. cbn. destruct (clients y c); cbn; by rewrite ?F2.
Qed.

(** *** Submitting a request *)

Definition submitted (b : nat) (n : Z) (w : bool) (i0 i1 i2 : nat) (v : vdisk) : vdisk :=
  note (RegWrite VIRTIO_MMIO_QUEUE_NOTIFY 0) (push_avail i0 (set_info_b i0 (Some b) (set_bdisk b true (set_desc i2 (VDesc (InfoStatus i0) 1 VRING_DESC_F_WRITE 0)
    (set_info_status i0 255 (set_desc i1 (VDesc (BufData b) BSIZE (data_flags w) i2)
    (set_desc i0 (VDesc (Ops i0) SIZEOF_BLK_REQ VRING_DESC_F_NEXT i1) (set_ops i0 (VReq (op_of w) (u32 (n * 2))) v)))))))).

Lemma rw_submit_ok b n w :
  wp (rw_submit b n w) (vd y) (λ r v',
    match r with
    | None => took (vd y) [] v'
    | Some i0 => ∃ i1 i2 v1, took (vd y) [i0; i1; i2] v1 ∧ v' = submitted b n w i0 i1 i2 v1
    end).
Proof.
  unfold rw_submit. apply wp_bind. eapply wp_mono; [apply (alloc_descs_ok (vd y) 3 []), took_nil; apply I|].
  intros [idx|] v' H; [|by apply wp_ret]. destruct H as [H Hl].
  destruct idx as [|i0 [|i1 [|i2 [|]]]]; try done. exists i1, i2, v'. by destruct w.
Qed.

Lemma submitted_flight b n w i0 i1 i2 v1 :
  took (vd y) [i0; i1; i2] v1 → 0 ≤ n < 2^31 →
  let v := submitted b n w i0 i1 i2 v1 in
  flight_ok v b n w i0 ∧ chain v i0 = [i0; i1; i2] ∧
  (∀ j, vfree v !!! j = if decide (j ∈ [i0; i1; i2]) then false else vfree (vd y) !!! j) ∧
  (∀ j, vfree (vd y) !!! j = false → desc v !!! j = desc (vd y) !!! j).
Proof.
  intros H Hn v. destruct H as [Hd Hw [Hl1 Hl2] Hfr Hds _ _ (F1 & F2 & F3 & F4)].
  destruct (vi_len _ I) as (L1 & L2 & L3 & L4 & L5 & L6 & L7).
  assert (i0 ≠ i1 ∧ i0 ≠ i2 ∧ i1 ≠ i2) as (N1 & N2 & N3) by (rewrite !NoDup_cons in Hd; set_solver).
  destruct (Hw i0) as [B0 W0], (Hw i1) as [B1 W1], (Hw i2) as [B2 W2]; [set_solver..|].
  assert (E0 : desc v !!! i0 = VDesc (Ops i0) SIZEOF_BLK_REQ VRING_DESC_F_NEXT i1).
  { cbn. rewrite !list_lookup_total_insert_ne by done. apply list_lookup_total_insert_eq. lia. }
  assert (E1 : desc v !!! i1 = VDesc (BufData b) BSIZE (data_flags w) i2).
  { cbn. rewrite list_lookup_total_insert_ne by done. apply list_lookup_total_insert_eq. rewrite length_insert. lia. }
  assert (E2 : desc v !!! i2 = VDesc (InfoStatus i0) 1 VRING_DESC_F_WRITE 0).
  { cbn. apply list_lookup_total_insert_eq. rewrite !length_insert. lia. }
  assert (Ec : chain v i0 = [i0; i1; i2]) by (unfold chain; rewrite E0; cbn [vnext]; by rewrite E1).
  split_and!; [|done|done|].
  - split; [split|..]; rewrite ?Ec; [done| | |cbn..].
    + intros j Hj. split; [by apply Hw|]. change (vfree v) with (vfree v1). by rewrite Hfr, decide_True.
    + exists i1. split; [done|]. by exists i2.
    + rewrite F3. apply list_lookup_total_insert_eq. lia.
    + rewrite F1. apply list_lookup_total_insert_eq. lia.
    + done.
  - intros j Hj. cbn. rewrite !list_lookup_total_insert_ne by congruence. by apply Hds.
Qed.

Definition move (c : nat) (x : vclient) (v : vdisk) : vsys :=
  VSys v (<[c := x]> (clients y)) (image y) (vdata y) (dev_seen y) (dev_taken y).

Lemma submit_queues b n w i0 i1 i2 v1 c :
  took (vd y) [i0; i1; i2] v1 →
  let y' := move c (VFlight b n w i0) (submitted b n w i0 i1 i2 v1) in
  availq y' = availq y ++ [Z.of_nat i0] ∧ usedq (vd y') = usedq (vd y) ∧ heads y' ≡ₚ Z.of_nat i0 :: heads y.
Proof.
  intros H y'. destruct (tk_was _ _ _ H i0) as [B0 W0]; [set_solver|]. pose proof (head_not_free i0 W0) as Hn.
  destruct H as [_ _ _ _ _ [A1 A2] (U1 & U2 & U3) _]. destruct (vi_len _ I) as (_ & La & _).
  assert (Ha : availq y' = availq y ++ [Z.of_nat i0]).
  { unfold availq. cbn. rewrite A1, A2. apply ritems_put; [ring_size..|by rewrite La|].
    assert (Z.of_nat (length (availq y)) < 8) as Hr.
    { apply (heads_room _ i0); [|intros z Hz; apply head_range|done|]; unfold heads, unserved in *;
        [|set_solver..]. pose proof (vi_nodup _ I) as Hd. by apply NoDup_app in Hd as [[? _]%NoDup_app _]. }
    unfold availq in Hr. rewrite length_ritems in Hr. unfold NUM in *. pose proof (rlen_range 8 (2^16) ltac:(done) ltac:(done) (dev_seen y) (avail_idx (vd y))). lia. }
  assert (Hu : usedq (vd y') = usedq (vd y)) by (unfold usedq; cbn; by rewrite U1, U2, U3).
  split_and!; [done..|]. unfold heads, unserved. rewrite Ha, Hu. cbn [dev_taken move]. solve_Permutation.
Qed.

(** The other requests are not touched by a new one. *)
Lemma submit_others b n w i0 i1 i2 v1 c c' b' n' w' i :
  took (vd y) [i0; i1; i2] v1 → clients y c = VWant b n w → clients y c' = VFlight b' n' w' i →
  let v := submitted b n w i0 i1 i2 v1 in
  c' ≠ c ∧ i ≠ i0 ∧ flight_ok v b' n' w' i ∧ chain v i = chain (vd y) i ∧
  (∀ j, j ∈ chain v i → j ∉ [i0; i1; i2]) ∧ info_status v !!! i = info_status (vd y) !!! i ∧
  bdisk v b' = bdisk (vd y) b'.
Proof.
  intros H Hc Hc' v. pose proof (vi_flight _ I _ _ _ _ _ Hc') as Hf.
  pose proof (submitted_flight b n w i0 i1 i2 v1 H (vi_want _ I _ _ _ _ Hc)) as (_ & _ & Hfr & Hds).
  assert (Hout : ∀ j, j ∈ chain (vd y) i → j ∉ [i0; i1; i2]).
  { intros j Hj Hj'. destruct (fo_used _ _ _ _ _ _ Hf Hj), (tk_was _ _ _ H j Hj'). congruence. }
  assert (Hi : i ≠ i0) by (pose proof (Hout i (in_chain _ _)); set_solver).
  assert (Hcc : c' ≠ c) by congruence.
  assert (Hb : b' ≠ b).
  { intros ->. apply Hcc. apply (vi_bufs _ I _ _ b); by rewrite ?Hc, ?Hc'. }
  destruct (tk_info _ _ _ H) as (F1 & F2 & F3 & F4).
  destruct (flight_frame _ v _ _ _ _ Hf) as [Hf' Hch].
  - intros j Hj. split; [rewrite Hfr; by rewrite decide_False by auto|]. by apply Hds, (fo_used _ _ _ _ _ _ Hf).
  - cbn. by rewrite F3, list_lookup_total_insert_ne.
  - cbn. by rewrite F1, list_lookup_total_insert_ne.
  - split_and!; try done.
    + intros j. rewrite Hch. apply Hout.
    + cbn. by rewrite F2, list_lookup_total_insert_ne.
    + cbn. by rewrite fn_lookup_insert_ne, F4.
Qed.

(** Sizes and indices after a submission. *)
Lemma submit_sizes b n w i0 i1 i2 v1 :
  took (vd y) [i0; i1; i2] v1 → let v := submitted b n w i0 i1 i2 v1 in
  (length (desc v) = NUM ∧ length (avail_ring v) = NUM ∧ length (used_ring v) = NUM ∧ length (vfree v) = NUM ∧
   length (info_b v) = NUM ∧ length (info_status v) = NUM ∧ length (ops v) = NUM) ∧
  (0 ≤ avail_idx v < 2^16 ∧ 0 ≤ dev_seen y < 2^16 ∧ 0 ≤ used_idx v < 2^16 ∧ 0 ≤ dev_used_idx v < 2^16) ∧
  info_status v !!! i0 = 255 ∧ bdisk v b = true.
Proof.
  intros [_ Hwas [T1 T2] _ _ [A1 A2] (U1 & U2 & U3) (F1 & F2 & F3 & F4)].
  destruct (vi_len _ I) as (L1 & L2 & L3 & L4 & L5 & L6 & L7), (vi_idx _ I) as (I1 & I2 & I3 & I4).
  assert (B0 : (i0 < NUM)%nat) by (apply Hwas; set_solver). unfold submitted.
  split_and!; vsimpl; rewrite ?U1, ?U3; try lia; try (unfold rput; rewrite ?length_insert; congruence).
  - apply Z.mod_pos_bound. lia.
  - apply Z.mod_pos_bound. lia.
  - apply list_lookup_total_insert_eq. rewrite F2. lia.
  - apply fn_lookup_insert.
Qed.

#[local] Opaque ritems submitted.

Section added.
Context (c b : nat) (n : Z) (w : bool) (i0 : nat) (l : list nat) (v : vdisk).
Context (Hc : clients y c = VWant b n w) (Hf : flight_ok v b n w i0) (Hl : chain v i0 = l)
  (Hfr : ∀ j, vfree v !!! j = if decide (j ∈ l) then false else vfree (vd y) !!! j)
  (Hfree0 : vfree (vd y) !!! i0 = true) (Hst : info_status v !!! i0 = 255) (Hb : bdisk v b = true)
  (Ho : ∀ c' b' n' w' i, clients y c' = VFlight b' n' w' i →
    c' ≠ c ∧ i ≠ i0 ∧ flight_ok v b' n' w' i ∧ chain v i = chain (vd y) i ∧ (∀ j, j ∈ chain v i → j ∉ l) ∧
    info_status v !!! i = info_status (vd y) !!! i ∧ bdisk v b' = bdisk (vd y) b').
Let y' := move c (VFlight b n w i0) v.

Lemma added_client c' b' n' w' i : clients y' c' = VFlight b' n' w' i →
  c' = c ∧ b' = b ∧ n' = n ∧ w' = w ∧ i = i0 ∨ c' ≠ c ∧ clients y c' = VFlight b' n' w' i.
Proof.
  clear Hf Hl Hfr Hfree0 Hst Hb Ho Hc. cbn.
  destruct (decide (c' = c)) as [->|]; [rewrite fn_lookup_insert|rewrite fn_lookup_insert_ne by done]; naive_solver.
Qed.

Lemma added_same : asame (abs y) (abs y').
Proof.
  split; [|done]. intros c'. cbn. destruct (decide (c' = c)) as [->|].
  - rewrite fn_lookup_insert, Hc. cbn [aclient_of]. by rewrite Hst.
  - rewrite fn_lookup_insert_ne by done. destruct (clients y c') as [| |b' n' w' i] eqn:E; [done..|]. cbn [aclient_of].
    by destruct (Ho _ _ _ _ _ E) as (_ & _ & _ & _ & _ & -> & _).
Qed.

Lemma added_bufs c1 c2 b' : vbuf (clients y' c1) = Some b' → vbuf (clients y' c2) = Some b' → c1 = c2.
Proof.
  assert (∀ c', vbuf (clients y' c') = vbuf (clients y c')) as E.
  { intros c'. cbn. destruct (decide (c' = c)) as [->|]; [by rewrite fn_lookup_insert, Hc|by rewrite fn_lookup_insert_ne]. }
  rewrite !E. apply (vi_bufs _ I).
Qed.

Lemma added_disj c1 c2 b1 n1 w1 k1 b2 n2 w2 k2 j :
  clients y' c1 = VFlight b1 n1 w1 k1 → clients y' c2 = VFlight b2 n2 w2 k2 → j ∈ chain v k1 → j ∈ chain v k2 → c1 = c2.
Proof.
  intros H1%added_client H2%added_client.
  destruct H1 as [(-> & -> & -> & -> & ->)|[Hn1 H1]], H2 as [(-> & -> & -> & -> & ->)|[Hn2 H2]]; [done| | |].
  - destruct (Ho _ _ _ _ _ H2) as (_ & _ & _ & _ & Hx & _). rewrite Hl. intros G1 G2. by destruct (Hx j).
  - destruct (Ho _ _ _ _ _ H1) as (_ & _ & _ & _ & Hx & _). rewrite Hl. intros G1 G2. by destruct (Hx j).
  - destruct (Ho _ _ _ _ _ H1) as (_ & _ & _ & E1 & _), (Ho _ _ _ _ _ H2) as (_ & _ & _ & E2 & _).
    rewrite E1, E2. by eapply vi_disj.
Qed.

Lemma added_free j : vfree v !!! j = false → (j < NUM)%nat →
  ∃ c b n w i, clients y' c = VFlight b n w i ∧ j ∈ chain v i.
Proof.
  rewrite Hfr. destruct (decide (j ∈ _)) as [Hj|Hj].
  - intros _ _. exists c, b, n, w, i0. rewrite Hl. cbn. by rewrite fn_lookup_insert.
  - intros Hfj Hlt. destruct (vi_free _ I j Hfj Hlt) as (c' & b' & n' & w' & i & Hc' & Hi).
    destruct (Ho _ _ _ _ _ Hc') as (Hn & _ & _ & E & _). exists c', b', n', w', i. cbn. by rewrite fn_lookup_insert_ne, E.
Qed.

Lemma added_heads : heads y' ≡ₚ Z.of_nat i0 :: heads y → ∀ z : Z, z ∈ heads y' →
  ∃ c b n w (i : nat), clients y' c = VFlight b n w i ∧ z = i.
Proof.
  intros Hh z. rewrite Hh. intros [->|Hz]%elem_of_cons.
  - exists c, b, n, w, i0. cbn. by rewrite fn_lookup_insert.
  - destruct (vi_heads _ I z Hz) as (c' & b' & n' & w' & i & Hc' & ->). exists c', b', n', w', i.
    cbn. by rewrite fn_lookup_insert_ne by (by apply not_eq_sym, (Ho _ _ _ _ _ Hc')).
Qed.

Lemma added_stage c' b' n' w' i :
  unserved y' ≡ₚ Z.of_nat i0 :: unserved y → usedq v = usedq (vd y) → heads y' ≡ₚ Z.of_nat i0 :: heads y →
  clients y' c' = VFlight b' n' w' i →
  info_status v !!! i = 255 ∧ Z.of_nat i ∈ unserved y' ∧ bdisk v b' = true ∨
  info_status v !!! i = 0 ∧ Z.of_nat i ∈ usedq v ∧ bdisk v b' = true ∨
  info_status v !!! i = 0 ∧ Z.of_nat i ∉ heads y' ∧ bdisk v b' = false.
Proof.
  intros Hs Hu Hh [(-> & -> & -> & -> & ->)|[Hn Hc']]%added_client.
  - left. split_and!; [done|rewrite Hs; set_solver|done].
  - destruct (Ho _ _ _ _ _ Hc') as (_ & Hi & _ & _ & _ & -> & ->). rewrite Hs, Hu, Hh.
    assert (Z.of_nat i ≠ Z.of_nat i0) by lia. destruct (vi_stage _ I _ _ _ _ _ Hc') as [|[|]]; set_solver.
Qed.
End added.

Lemma submit_inv b n w i0 i1 i2 v1 c :
  took (vd y) [i0; i1; i2] v1 → clients y c = VWant b n w →
  let y' := move c (VFlight b n w i0) (submitted b n w i0 i1 i2 v1) in vinv y' ∧ asame (abs y) (abs y').
Proof.
  intros H Hc y'. pose proof (λ c' b' n' w' i, submit_others b n w i0 i1 i2 v1 c c' b' n' w' i H Hc) as Ho.
  destruct (submitted_flight b n w i0 i1 i2 v1 H (vi_want _ I _ _ _ _ Hc)) as (Hf & Hch & Hfr & _).
  destruct (submit_queues b n w i0 i1 i2 v1 c H) as (Ha & Hu & Hh).
  destruct (submit_sizes b n w i0 i1 i2 v1 H) as (Hl & Hx & Hst & Hb).
  assert (Hfree : vfree (vd y) !!! i0 = true) by (apply (tk_was _ _ _ H); set_solver). clear H.
  unfold y' in *. clear y'. set (v := submitted b n w i0 i1 i2 v1) in *. clearbody v. cbn zeta in *.
  assert (Hs : unserved (move c (VFlight b n w i0) v) ≡ₚ Z.of_nat i0 :: unserved y).
  { unfold unserved. rewrite Ha. cbn [dev_taken move]. solve_Permutation. }
  split; [split; cbn [vd move dev_seen]; [done|done|..]|by eapply added_same].
  - intros c' b' n' w' i [(-> & -> & -> & -> & ->)|[Hn Hc']]%added_client; [done|]. by apply (Ho _ _ _ _ _ Hc').
  - intros c' b' n' w'. cbn. destruct (decide (c' = c)) as [->|]; [by rewrite fn_lookup_insert|].
    rewrite fn_lookup_insert_ne by done. apply (vi_want _ I).
  - by eapply added_bufs.
  - by eapply added_disj.
  - by eapply added_free.
  - by eapply added_heads.
  - rewrite Hh. apply NoDup_cons. split; [by apply head_not_free|apply I].
  - intros. by eapply added_stage.
Qed.
(** *** Returning *)

Section removed.
Context (c b : nat) (n : Z) (w : bool) (i : nat) (v : vdisk).
Context (Hc : clients y c = VFlight b n w i) (Hout : Z.of_nat i ∉ heads y)
  (Hfr : ∀ j, vfree v !!! j = if decide (j ∈ chain (vd y) i) then true else vfree (vd y) !!! j)
  (Hds : ∀ j, j ∉ chain (vd y) i → desc v !!! j = desc (vd y) !!! j)
  (Hb : ∀ j, j ≠ i → info_b v !!! j = info_b (vd y) !!! j) (Hops : ops v = ops (vd y))
  (Hst : info_status v = info_status (vd y)) (Hbd : bdisk v = bdisk (vd y))
  (Hq : heads (move c VIdle v) = heads y ∧ unserved (move c VIdle v) = unserved y ∧ usedq v = usedq (vd y)).

Lemma removed_client c' b' n' w' i' : clients (move c VIdle v) c' = VFlight b' n' w' i' →
  c' ≠ c ∧ clients y c' = VFlight b' n' w' i' ∧ flight_ok v b' n' w' i' ∧ chain v i' = chain (vd y) i'.
Proof.
  cbn. destruct (decide (c' = c)) as [->|Hn]; [by rewrite fn_lookup_insert|]. rewrite fn_lookup_insert_ne by done.
  intros Hc'. do 2 (split; [done|]).
  assert (Hd : ∀ j, j ∈ chain (vd y) i' → j ∉ chain (vd y) i) by (intros j Hj Hj'; by destruct Hn; eapply vi_disj).
  apply flight_frame; [by eapply vi_flight| |by rewrite Hops|].
  - intros j Hj. rewrite Hfr, decide_False, Hds; auto.
  - apply Hb. intros ->. exact (Hd _ (in_chain _ _) (in_chain _ _)).
Qed.

Lemma removed_back c' b' n' w' i' : c' ≠ c → clients y c' = VFlight b' n' w' i' →
  clients (move c VIdle v) c' = VFlight b' n' w' i'.
Proof. intros Hn Hc'. cbn. by rewrite fn_lookup_insert_ne. Qed.

Lemma removed_inv :
  length (desc v) = NUM ∧ length (avail_ring v) = NUM ∧ length (used_ring v) = NUM ∧ length (vfree v) = NUM ∧
  length (info_b v) = NUM ∧ length (info_status v) = NUM ∧ length (ops v) = NUM →
  0 ≤ avail_idx v < 2^16 ∧ 0 ≤ dev_seen y < 2^16 ∧ 0 ≤ used_idx v < 2^16 ∧ 0 ≤ dev_used_idx v < 2^16 →
  vinv (move c VIdle v).
Proof.
  intros Hl Hx. destruct Hq as (Q1 & Q2 & Q3). split; cbn [vd clients dev_seen move]; rewrite ?Q1, ?Q2, ?Q3; [done|done|..].
  - intros c' b' n' w' i' (_ & _ & H & _)%removed_client. exact H.
  - intros c' b' n' w'. destruct (decide (c' = c)) as [->|]; [by rewrite fn_lookup_insert|].
    rewrite fn_lookup_insert_ne by done. apply (vi_want _ I).
  - intros c1 c2 b'. destruct (decide (c1 = c)) as [->|]; [by rewrite fn_lookup_insert|].
    destruct (decide (c2 = c)) as [->|]; [by rewrite fn_lookup_insert|]. rewrite !fn_lookup_insert_ne by done. apply (vi_bufs _ I).
  - intros c1 c2 b1 n1 w1 k1 b2 n2 w2 k2 j (_ & H1 & _ & E1)%removed_client (_ & H2 & _ & E2)%removed_client.
    rewrite E1, E2. by eapply vi_disj.
  - intros j. rewrite Hfr. destruct (decide (j ∈ _)) as [|Hj]; [done|]. intros Hf Hlt.
    destruct (vi_free _ I j Hf Hlt) as (c' & b' & n' & w' & i' & Hc' & Hi'). exists c', b', n', w', i'.
    assert (c' ≠ c) as Hn by (intros ->; congruence). pose proof (removed_back _ _ _ _ _ Hn Hc') as H.
    split; [exact H|]. by rewrite (proj2 (proj2 (proj2 (removed_client _ _ _ _ _ H)))).
  - intros z Hz. destruct (vi_heads _ I z Hz) as (c' & b' & n' & w' & i' & Hc' & ->). exists c', b', n', w', i'.
    split; [|done]. apply removed_back; [|done]. intros ->. congruence.
  - apply (vi_nodup _ I).
  - intros c' b' n' w' i' (_ & H & _ & _)%removed_client. rewrite Hst, Hbd. by apply (vi_stage _ I _ _ _ _ _ H).
Qed.
End removed.

Lemma finish_ok c b n w i :
  clients y c = VFlight b n w i → bdisk (vd y) b = false →
  ∃ v, rw_finish b i (vd y) = Done true v ∧ vinv (move c VIdle v) ∧ astep (abs y) (abs (move c VIdle v)).
Proof.
  intros Hc Hbd. pose proof (vi_flight _ I _ _ _ _ _ Hc) as Hf. destruct (vi_len _ I) as (L1 & L2 & L3 & L4 & L5 & L6 & L7).
  destruct (vi_stage _ I _ _ _ _ _ Hc) as [(_ & _ & E)|[(_ & _ & E)|(Hst & Hout & _)]]; [congruence..|].
  destruct (free_chain_run (set_info_b i None (vd y)) b w i) as (v & Hrun & Hfr & Hds & K1 & K2 & A1 & A2 & U1 & U2 & U3 & F1 & F2 & F3 & F4);
    [by eapply vchain_frame; [apply (fo_chain _ _ _ _ _ Hf)|]|done..|]. exists v. split; [|split].
  - unfold rw_finish, bind, gets. rewrite Hbd. cbn [modify]. by rewrite Hrun.
  - apply (removed_inv c b n w i); try done.
    + intros j Hj. rewrite F1. by apply list_lookup_total_insert_ne.
    + unfold heads, unserved, availq, usedq. vsimpl. unfold move. vsimpl. by rewrite A1, A2, U1, U2, U3.
    + rewrite A2, U2, F1, F2, F3. vsimpl. by rewrite length_insert.
    + rewrite A1, U1, U3. apply (vi_idx _ I).
  - apply (as_return _ _ c b n w); [|intros c'|done|done].
    + cbn. by rewrite Hc; cbn; rewrite Hst.
    + cbn. destruct (decide (c' = c)) as [->|]; [by rewrite !fn_lookup_insert|]. rewrite !fn_lookup_insert_ne by done.
      destruct (clients y c'); [done..|]. cbn. by rewrite F2.
Qed.
(** *** Heads moving between the queues *)

Lemma requeue_inv (y' : vsys) :
  clients y' = clients y → desc (vd y') = desc (vd y) → vfree (vd y') = vfree (vd y) →
  info_b (vd y') = info_b (vd y) → ops (vd y') = ops (vd y) →
  length (avail_ring (vd y')) = NUM ∧ length (used_ring (vd y')) = NUM ∧ length (info_status (vd y')) = NUM →
  0 ≤ avail_idx (vd y') < 2^16 ∧ 0 ≤ dev_seen y' < 2^16 ∧ 0 ≤ used_idx (vd y') < 2^16 ∧ 0 ≤ dev_used_idx (vd y') < 2^16 →
  (∀ z, z ∈ heads y' → z ∈ heads y) → NoDup (heads y') →
  (∀ c b n w i, clients y c = VFlight b n w i →
    info_status (vd y') !!! i = 255 ∧ Z.of_nat i ∈ unserved y' ∧ bdisk (vd y') b = true ∨
    info_status (vd y') !!! i = 0 ∧ Z.of_nat i ∈ usedq (vd y') ∧ bdisk (vd y') b = true ∨
    info_status (vd y') !!! i = 0 ∧ Z.of_nat i ∉ heads y' ∧ bdisk (vd y') b = false) →
  vinv y'.
Proof.
  intros Ec Ed Ef Eb Eo (L1 & L2 & L3) Hx Hh Hn Hs. destruct I.
  assert (Hch : ∀ i, chain (vd y') i = chain (vd y) i) by (intros; unfold chain; by rewrite Ed).
  split; rewrite ?Ec, ?Ed, ?Ef, ?Eb, ?Eo; try done.
  - by destruct_and! vi_len0.
  - intros c b n w i Hc. apply (flight_frame (vd y)); [by eapply vi_flight0|intros; by rewrite Ef, Ed|by rewrite Eo|by rewrite Eb].
  - intros *. rewrite !Hch. apply vi_disj0.
  - setoid_rewrite Hch. apply vi_free0.
  - intros z Hz. by apply vi_heads0, Hh.
Qed.

(** The owner of a head. *)
Lemma head_owner (z : Z) : z ∈ heads y → ∃ c b n w i,
  clients y c = VFlight b n w i ∧ z = Z.of_nat i ∧ Z.to_nat z = i ∧ (i < NUM)%nat ∧
  ∀ c' b' n' w', clients y c' = VFlight b' n' w' i → c' = c.
Proof.
  intros (c & b & n & w & i & Hc & ->)%(vi_heads _ I). exists c, b, n, w, i. split_and!; [done|done|lia|..].
  - by apply (fo_used _ _ _ _ _ _ (vi_flight _ I _ _ _ _ _ Hc) (in_chain _ _)).
  - intros c' b' n' w' Hc'. by eapply vi_disj; [exact I|exact Hc'|exact Hc|apply in_chain..].
Qed.

Lemma take_inv :
  dev_seen y ≠ avail_idx (vd y) →
  vinv (VSys (vd y) (clients y) (image y) (vdata y) (u16 (dev_seen y + 1))
    (rget NUM (avail_ring (vd y)) (dev_seen y) :: dev_taken y)).
Proof.
  intros Hne. destruct (vi_idx _ I) as (I1 & I2 & I3 & I4). set (y' := VSys _ _ _ _ _ _).
  assert (availq y = rget NUM (avail_ring (vd y)) (dev_seen y) :: availq y') as Ea.
  { apply ritems_get; [ring_size..|]. pose proof (rlen_range 8 (2^16) ltac:(done) ltac:(done) (dev_seen y) (avail_idx (vd y))).
    apply Z.eqb_neq in Hne. rewrite (rlen_empty 8 (2^16)) in Hne by (done || lia). apply Z.eqb_neq in Hne. lia. }
  assert (Hu : unserved y' ≡ₚ unserved y).
  { unfold unserved. rewrite Ea. cbn [dev_taken y']. solve_Permutation. }
  assert (Hh : heads y' ≡ₚ heads y) by (unfold heads; by rewrite Hu).
  apply requeue_inv; try done.
  - destruct (vi_len _ I) as (_ & ? & ? & _ & _ & ? & _). done.
  - cbn. split_and!; try lia; apply Z.mod_pos_bound; lia.
  - intros z. by rewrite Hh.
  - rewrite Hh. apply I.
  - intros c b n w i Hc. rewrite Hu, Hh. apply (vi_stage _ I _ _ _ _ _ Hc).
Qed.

Lemma intr_turn_ok :
  wp (intr_turn tt) (vd y) (λ r v,
    vinv (with_vd v y) ∧ info_status v = info_status (vd y) ∧
    match r with
    | inl _ => rlen (2^16) (used_idx v) (dev_used_idx v) = rlen (2^16) (used_idx (vd y)) (dev_used_idx (vd y)) - 1 ∧
               0 < rlen (2^16) (used_idx (vd y)) (dev_used_idx (vd y))
    | inr _ => True
    end).
Proof.
  unfold intr_turn. apply wp_bind, wp_get. destruct (vi_idx _ I) as (I1 & I2 & I3 & I4).
  rewrite (rlen_empty 8 (2^16)) by (done || lia). destruct (rlen _ _ _ =? 0) eqn:E; [apply wp_ret; by destruct y|].
  apply Z.eqb_neq in E. pose proof (rlen_range 8 (2^16) ltac:(done) ltac:(done) (used_idx (vd y)) (dev_used_idx (vd y))).
  set (id := rget NUM (used_ring (vd y)) (used_idx (vd y))).
  assert (usedq (vd y) = id :: usedq (set_used_idx (u16 (used_idx (vd y) + 1)) (vd y))) as Eu by (apply ritems_get; [ring_size..|lia]).
  destruct (head_owner id) as (c & b & n & w & i & Hc & Ei & -> & Hi & Huniq); [unfold heads; rewrite Eu; set_solver|].
  pose proof (vi_nodup _ I) as Hn. unfold heads in Hn. rewrite Eu in Hn.
  assert (id ∉ unserved y ∧ id ∉ usedq (set_used_idx (u16 (used_idx (vd y) + 1)) (vd y))) as [N1 N2].
  { apply NoDup_app in Hn as (_ & Hd & [??]%NoDup_cons). set_solver. }
  destruct (vi_stage _ I _ _ _ _ _ Hc) as [(_ & X & _)|[(Hst & _ & _)|(_ & X & _)]];
    [rewrite Ei in N1; set_solver| |exfalso; apply X; unfold heads; rewrite Eu, Ei; set_solver].
  rewrite Hst. cbn [negb Z.eqb]. rewrite (fo_b _ _ _ _ _ (vi_flight _ I _ _ _ _ _ Hc)). cbn -[Z.pow rlen with_vd].
  set (v := set_used_idx _ _). split; [|split; [done|split; [apply (rlen_pop 8); [done..|lia]|lia]]].
  assert (Hu : usedq v = usedq (set_used_idx (u16 (used_idx (vd y) + 1)) (vd y))) by done.
  assert (Hh : heads y ≡ₚ id :: heads (with_vd v y)).
  { unfold heads. cbn [vd with_vd]. rewrite Eu, Hu. change (unserved (with_vd v y)) with (unserved y). solve_Permutation. }
  apply requeue_inv; try done.
  - by destruct (vi_len _ I) as (_ & ? & ? & _ & _ & ? & _).
  - cbn. split_and!; try lia; apply Z.mod_pos_bound; lia.
  - intros z Hz. rewrite Hh. set_solver.
  - pose proof (vi_nodup _ I) as Hn'. rewrite Hh in Hn'. by apply NoDup_cons in Hn' as [_ ?].
  - intros c' b' n' w' i' Hc'. change (unserved (with_vd v y)) with (unserved y). cbn [vd with_vd].
    change (info_status v) with (info_status (vd y)). destruct (decide (c' = c)) as [->|Hcc].
    + rewrite Hc in Hc'. injection Hc' as <- <- <- <-. right; right. split_and!; [done| |apply fn_lookup_insert].
      pose proof (vi_nodup _ I) as Hn'. rewrite Hh, Ei in Hn'. by apply NoDup_cons in Hn' as [? _].
    + assert (Z.of_nat i' ≠ id) by (intros E'; rewrite Ei in E'; apply Nat2Z.inj in E' as ->; by destruct Hcc; eapply Huniq).
      assert (b' ≠ b) by (intros ->; destruct Hcc; apply (vi_bufs _ I _ _ b); by rewrite ?Hc, ?Hc').
      assert (bdisk v b' = bdisk (vd y) b') as -> by (by apply fn_lookup_insert_ne).
      pose proof (vi_stage _ I _ _ _ _ _ Hc') as S. rewrite Hh, Eu, <- Hu in S. set_solver.
Qed.

(** *** The device serving a request *)

Lemma usedq_room (i : nat) : (i < NUM)%nat → Z.of_nat i ∉ usedq (vd y) →
  rlen (2^16) (used_idx (vd y)) (dev_used_idx (vd y)) < NUM.
Proof.
  intros Hi Hn. assert (Z.of_nat (length (usedq (vd y))) < 8) as Hr.
  - apply (heads_room _ i); [|intros z Hz; apply head_range; unfold heads; set_solver|done|done].
    pose proof (vi_nodup _ I) as Hd. by apply NoDup_app in Hd as (_ & _ & ?).
  - unfold usedq in Hr. rewrite length_ritems in Hr. unfold NUM.
    pose proof (rlen_range 8 (2^16) ltac:(done) ltac:(done) (used_idx (vd y)) (dev_used_idx (vd y))). lia.
Qed.

Section served.
Context (l1 l2 : list Z) (c b : nat) (n : Z) (w : bool) (i : nat) (img : Z → list Z) (dat : nat → list Z).
Context (Ht : dev_taken y = l1 ++ Z.of_nat i :: l2) (Hc : clients y c = VFlight b n w i) (Hi : (i < NUM)%nat)
  (Huniq : ∀ c' b' n' w', clients y c' = VFlight b' n' w' i → c' = c).
Let v := push_used i (set_info_status i 0 (vd y)).
Let y' := VSys v (clients y) img dat (dev_seen y) (l1 ++ l2).

Lemma served_fresh : Z.of_nat i ∉ usedq (vd y) ∧ Z.of_nat i ∉ unserved y' ∧ unserved y ≡ₚ Z.of_nat i :: unserved y'.
Proof.
  assert (Hp : unserved y ≡ₚ Z.of_nat i :: unserved y').
  { unfold unserved. rewrite Ht. change (availq y') with (availq y). cbn [dev_taken y']. solve_Permutation. }
  pose proof (vi_nodup _ I) as Hn. unfold heads in Hn. rewrite Hp in Hn. apply NoDup_cons in Hn as [Hn _]. set_solver.
Qed.

Lemma served_used : usedq v = usedq (vd y) ++ [Z.of_nat i].
Proof.
  destruct (vi_len _ I) as (_ & _ & Lu & _). destruct served_fresh as [Hf _].
  apply ritems_put; [ring_size..|exact Lu|by apply (usedq_room i)].
Qed.

Lemma served_unserved_stage : info_status (vd y) !!! i = 255 ∧ bdisk (vd y) b = true.
Proof.
  destruct served_fresh as (N1 & _ & Hp). destruct (vi_stage _ I _ _ _ _ _ Hc) as [(S1 & S2 & S3)|[(_ & X & _)|(_ & X & _)]].
  - done.
  - done.
  - exfalso. apply X. unfold heads. rewrite Hp. set_solver.
Qed.

Lemma served_status (j : nat) : info_status v !!! j = if decide (j = i) then 0 else info_status (vd y) !!! j.
Proof.
  destruct (vi_len _ I) as (_ & _ & _ & _ & _ & Ls & _). unfold v. vsimpl. case_decide as E.
  - rewrite E. apply list_lookup_total_insert_eq. by rewrite Ls.
  - by apply list_lookup_total_insert_ne.
Qed.

Lemma served_inv : vinv y'.
Proof.
  destruct served_fresh as (N1 & N2 & Hp). pose proof served_used as Hu. destruct served_unserved_stage as [S1 S2].
  destruct (vi_idx _ I) as (I1 & I2 & I3 & I4). destruct (vi_len _ I) as (_ & La & Lu & _ & _ & Ls & _).
  assert (Hh : heads y' ≡ₚ heads y) by (unfold heads; rewrite Hp; change (vd y') with v; rewrite Hu; solve_Permutation).
  apply requeue_inv; try done.
  - unfold y', v. vsimpl. unfold rput. by rewrite !length_insert.
  - unfold y', v. vsimpl. split_and!; try lia; apply Z.mod_pos_bound; lia.
  - intros z. by rewrite Hh.
  - rewrite Hh. apply I.
  - intros c' b' n' w' i' Hc'. change (vd y') with v. change (bdisk v) with (bdisk (vd y)). rewrite served_status, Hu, Hh.
    case_decide as Ei.
    + subst i'. pose proof (Huniq _ _ _ _ Hc') as ->. rewrite Hc in Hc'. injection Hc' as <- <- <-. set_solver.
    + pose proof (vi_stage _ I _ _ _ _ _ Hc') as S. rewrite Hp in S. assert (Z.of_nat i' ≠ i) by lia. set_solver.
Qed.

Lemma served_move : amove (abs y) (abs y') c (AServed b n w) ∧ aclients (abs y) c = ABusy b n w.
Proof.
  destruct served_unserved_stage as [S1 _]. split.
  - intros c'. cbn -[v]. destruct (decide (c' = c)) as [->|Hn].
    + rewrite fn_lookup_insert, Hc. cbn -[v]. by rewrite served_status, decide_True.
    + rewrite fn_lookup_insert_ne by done. destruct (clients y c') as [| |b' n' w' i'] eqn:E; [done..|]. cbn -[v].
      rewrite served_status, decide_False; [done|]. intros ->. by destruct Hn; eapply Huniq.
  - cbn. rewrite Hc. cbn. by rewrite S1.
Qed.
End served.

Lemma complete_ok l1 id l2 sector b w s :
  dev_taken y = l1 ++ id :: l2 → decode (vd y) (Z.to_nat id) = Some (sector, b, w, s) →
  let y' := let '(img, dat) := transfer sector b w (image y) (vdata y) in
    VSys (push_used id (set_info_status s 0 (vd y))) (clients y) img dat (dev_seen y) (l1 ++ l2) in
  vinv y' ∧ astep (abs y) (abs y').
Proof.
  intros Ht Hdec. destruct (head_owner id) as (c & b0 & n & w0 & i & Hc & -> & Ei & Hi & Huniq).
  { unfold heads, unserved. rewrite Ht. set_solver. }
  pose proof (vi_flight _ I _ _ _ _ _ Hc) as Hf. rewrite Ei, (decode_flight _ _ _ _ _ Hf) in Hdec.
  injection Hdec as <- <- <- <-. pose proof (fo_n _ _ _ _ _ Hf). rewrite u32_small by lia.
  cbn zeta. destruct (transfer _ _ _ _ _) as [img dat] eqn:Etr. split; [by eapply served_inv|].
  destruct (served_move l1 l2 c b0 n w0 i img dat Ht Hc Hi Huniq) as [Hmv Hbusy].
  destruct w0; cbn in Etr; injection Etr as <- <-.
  - apply (as_write _ _ c b0 n); [done..|]. intros n'. cbn. destruct (decide (n' = n)) as [->|Hne].
    + rewrite fn_lookup_insert, (fn_lookup_insert_ne _ (n * 2 + 1) (n * 2)), !fn_lookup_insert by lia. apply take_drop.
    + by rewrite !fn_lookup_insert_ne by lia.
  - by apply (as_read _ _ c b0 n).
Qed.
End steps.

Lemma call_ok y c b n w :
  vinv y → clients y c = VIdle → (∀ c', vbuf (clients y c') ≠ Some b) → 0 ≤ n < 2^31 →
  vinv (move y c (VWant b n w) (vd y)) ∧ astep (abs y) (abs (move y c (VWant b n w) (vd y))).
Proof.
  intros I Hc Hb Hn.
  assert (Hcl : ∀ c' b' n' w' i, clients (move y c (VWant b n w) (vd y)) c' = VFlight b' n' w' i →
    clients y c' = VFlight b' n' w' i).
  { intros c' b' n' w' i. cbn. destruct (decide (c' = c)) as [->|]; [by rewrite fn_lookup_insert|by rewrite fn_lookup_insert_ne]. }
  assert (Hback : ∀ c' b' n' w' i, clients y c' = VFlight b' n' w' i →
    clients (move y c (VWant b n w) (vd y)) c' = VFlight b' n' w' i).
  { intros c' b' n' w' i Hc'. cbn. rewrite fn_lookup_insert_ne; [done|]. congruence. }
  split; [pose proof I as []; split; try done|].
  - intros c' b' n' w' i H%Hcl. by eapply vi_flight0.
  - intros c' b' n' w'. cbn. destruct (decide (c' = c)) as [->|]; [rewrite fn_lookup_insert; naive_solver|].
    rewrite fn_lookup_insert_ne by done. apply vi_want0.
  - intros c1 c2 b'. cbn. destruct (decide (c1 = c)) as [->|], (decide (c2 = c)) as [->|];
      rewrite ?fn_lookup_insert, ?fn_lookup_insert_ne by done; cbn; naive_solver.
  - intros c1 c2 b1 n1 w1 k1 b2 n2 w2 k2 j H1%Hcl H2%Hcl. by eapply vi_disj0.
  - intros j Hj Hlt. destruct (vi_free0 j Hj Hlt) as (c' & b' & n' & w' & i & Hc' & Hi).
    exists c', b', n', w', i. split; [by apply Hback|done].
  - intros z Hz. destruct (vi_heads0 z Hz) as (c' & b' & n' & w' & i & Hc' & ->). exists c', b', n', w', i. split; [by apply Hback|done].
  - intros c' b' n' w' i H%Hcl. by apply (vi_stage0 _ _ _ _ _ H).
  - apply (as_call _ _ c b n w); [by cbn; rewrite Hc|intros c' E|intros c'|done..].
    + apply (Hb c'). rewrite <- E. cbn. destruct (clients y c'); cbn; [done..|]. by destruct (_ =? 0).
    + cbn. destruct (decide (c' = c)) as [->|]; [by rewrite !fn_lookup_insert|by rewrite !fn_lookup_insert_ne].
Qed.

Lemma intr_ok y istat : vinv y →
  wp (virtio_disk_intr istat) (vd y) (λ _ v, vinv (with_vd v y) ∧ info_status v = info_status (vd y)).
Proof.
  intros I. unfold virtio_disk_intr. apply wp_bind, wp_modify. set (v0 := note _ _).
  assert (I0 : vinv (with_vd v0 y)).
  { apply (requeue_inv y I); try done; try apply I. destruct (vi_len _ I) as (_ & ? & ? & _ & _ & ? & _). done. }
  apply wp_bind, wp_gets.
  apply (wp_loop (λ k _ v, vinv (with_vd v y) ∧ info_status v = info_status (vd y) ∧
    (Z.to_nat (rlen (2^16) (used_idx v) (dev_used_idx v)) < k)%nat)).
  - intros k [] v (Iv & Hs & Hk). eapply wp_mono; [exact (intr_turn_ok _ Iv)|]. intros [[]|[]] v' (Iv' & Hs' & Hm).
    + cbn [vd with_vd] in Hm, Hs'. split; [exact Iv'|]. split; [congruence|]. lia.
    + split; [exact Iv'|]. by rewrite Hs'.
  - intros a s (_ & _ & ?). lia.
  - split; [exact I0|]. split; [done|lia].
Qed.

Lemma vstep_ok y y' : vinv y → vstep y y' → vinv y' ∧ (asame (abs y) (abs y') ∨ astep (abs y) (abs y')).
Proof.
  intros I Hstep. destruct Hstep as [c b n w y Hc Hb Hn|c b n w i0 v y Hc Hr|c b n w v y Hc Hr|c b n w i0 v y Hc Hr|istat v y Hr|y Hne|l1 id l2 sector b w s y Ht Hd].
  - destruct (call_ok y c b n w I Hc Hb Hn). auto.
  - pose proof (rw_submit_ok y I b n w) as H. unfold wp in H. rewrite Hr in H. destruct H as (i1 & i2 & v1 & H & ->).
    destruct (submit_inv y I b n w i0 i1 i2 v1 c H Hc). auto.
  - pose proof (rw_submit_ok y I b n w) as H. unfold wp in H. rewrite Hr in H.
    destruct (blocked_inv y I v H). auto.
  - destruct (bdisk (vd y) b) eqn:Eb; [unfold rw_finish, bind, gets in Hr; by rewrite Eb in Hr|].
    destruct (finish_ok y I c b n w i0 Hc Eb) as (v' & Hr' & H1 & H2). rewrite Hr in Hr'. injection Hr' as <-. auto.
  - pose proof (intr_ok y istat I) as H. unfold wp in H. rewrite Hr in H. destruct H as [H1 H2]. split; [done|]. left.
    split; [|done]. intros c. cbn. destruct (clients y c); [done..|]. cbn. by rewrite H2.
  - split; [by apply take_inv|]. by left.
  - destruct (complete_ok y I l1 id l2 sector b w s Ht Hd). auto.
Qed.

(** C4. The disk driver serves every request exactly once. From the
    initialised queue, with any number of callers that use different buffers,
    any order of device steps and interrupts, every step of driver and device
    is invisible or a step of the specification, in which a call of
    virtio_disk_rw returns only after one transfer of its block from or to its
    buffer, the only change its request makes. No function panics (no
    descriptor is freed twice, no finished request has a bad status), the
    interrupt handler ends, and the device finds a well-formed chain for every
    head it has taken. *)
Theorem virtio_disk_serves_requests y0 y :
  vquiet y0 → rtc vstep y0 y →
  (∀ y', vstep y y' → asame (abs y) (abs y') ∨ astep (abs y) (abs y')) ∧
  (∀ c b n w, clients y c = VWant b n w → ∃ r v, rw_submit b n w (vd y) = Done r v) ∧
  (∀ c b n w i, clients y c = VFlight b n w i → ∃ r v, rw_finish b i (vd y) = Done r v) ∧
  (∀ istat, ∃ v, virtio_disk_intr istat (vd y) = Done tt v) ∧
  (∀ id, id ∈ dev_taken y → is_Some (decode (vd y) (Z.to_nat id))).
Proof.
  intros Hq Hr. assert (I : vinv y).
  { apply vquiet_inv in Hq. induction Hr as [|y0 y1 y Hs Hr IH]; [done|]. apply IH. by eapply vstep_ok. }
  split_and!.
  - intros y' Hs. by apply vstep_ok.
  - intros c b n w Hc. pose proof (rw_submit_ok y I b n w) as H. apply wp_done in H as (r & v & H & _). by exists r, v.
  - intros c b n w i Hc. destruct (bdisk (vd y) b) eqn:Eb.
    + exists false, (vd y). unfold rw_finish, bind, gets. by rewrite Eb.
    + destruct (finish_ok y I c b n w i Hc Eb) as (v & H & _). by exists true, v.
  - intros istat. pose proof (intr_ok y istat I) as H. apply wp_done in H as ([] & v & H & _). by exists v.
  - intros id Hid. destruct (head_owner y I id) as (c & b & n & w & i & Hc & _ & -> & _); [unfold heads, unserved; set_solver|].
    rewrite (decode_flight _ _ _ _ _ (vi_flight _ I _ _ _ _ _ Hc)). by eexists.
Qed.

Definition ex_vdisk : vdisk :=
  empty_queue true (VDisk [] 0 [] 0 [] [] 0 (replicate NUM None) (replicate NUM 0) (replicate NUM (VReq 0 0)) (λ _, false) []).
Definition ex_vsys : vsys := VSys ex_vdisk (λ _, VIdle) (λ _, replicate 512 0) (λ _, replicate 1024 7) 0 [].

(** Caller 0 writes buffer 3 to block 40; the device has taken the request. *)
Lemma virtio_disk_serves_requests_witness :
  ∃ y, rtc vstep ex_vsys y ∧ dev_taken y = [0] ∧ is_Some (decode (vd y) 0) ∧ ∃ v, virtio_disk_intr 1 (vd y) = Done tt v.
Proof.
  eassert (rtc vstep ex_vsys _) as Hr.
  { eapply rtc_l; [apply (vs_call 0 3 40 true); [reflexivity|done|lia]|].
    eapply rtc_l; [eapply (vs_submit 0 3 40 true); reflexivity|].
    eapply rtc_l; [apply vs_take; vm_compute; discriminate|]. apply rtc_refl. }
  assert (Hq : vquiet ex_vsys) by (split; [by eexists|done]).
  destruct (virtio_disk_serves_requests _ _ Hq Hr) as (_ & _ & _ & Hi & Hd).
  eexists. split; [exact Hr|]. split; [reflexivity|]. split; [apply (Hd 0); vm_compute; constructor|exact (Hi 1)].
Defined.
