(* ===== verification/Umalloc.v ===== *)
(** * The user library's memory allocator, user/umalloc.c

    Memory is seen in units of [sizeof(Header)]: addresses count units, and
    each unit of the heap can hold a header. [base] is the address of the
    static header, below the heap, which starts at [lo]; sbrk gives the memory
    up to [limit]. *)

From stdpp Require Import sorting.
From S2P Require Import Prelude.

Record header := Hdr { h_ptr : Z; h_size : Z }.

Record mst := Mst {
  hd : Z → header;
  freep : Z;                   (* 0: null *)
  brk : Z                      (* the end of the heap, in units *)
}.

Definition SIZEOF_HEADER : Z := 16.

Definition set_ptr (a x : Z) : M mst unit :=
  modify (λ m, Mst (<[a := Hdr x (h_size (hd m a))]> (hd m)) (freep m) (brk m)).
Definition set_size (a x : Z) : M mst unit :=
  modify (λ m, Mst (<[a := Hdr (h_ptr (hd m a)) x]> (hd m)) (freep m) (brk m)).
Definition set_freep (a : Z) : M mst unit := modify (λ m, Mst (hd m) a (brk m)).
Definition get_ptr (a : Z) : M mst Z := gets (λ m, h_ptr (hd m a)).
Definition get_size (a : Z) : M mst Z := gets (λ m, h_size (hd m a)).

Lemma wp_get_ptr a m Q : Q (h_ptr (hd m a)) m → wp (get_ptr a) m Q.
Proof. done. Qed.

Lemma wp_get_size a m Q : Q (h_size (hd m a)) m → wp (get_size a) m Q.
Proof. done. Qed.

Lemma wp_set_ptr a x m Q :
  (∀ h', h' a = Hdr x (h_size (hd m a)) → (∀ y, y ≠ a → h' y = hd m y) → Q tt (Mst h' (freep m) (brk m))) →
  wp (set_ptr a x) m Q.
Proof. intros H. apply H; cbn; [apply fn_lookup_insert|intros y Hy; by apply fn_lookup_insert_ne]. Qed.

Lemma wp_set_size a x m Q :
  (∀ h', h' a = Hdr (h_ptr (hd m a)) x → (∀ y, y ≠ a → h' y = hd m y) → Q tt (Mst h' (freep m) (brk m))) →
  wp (set_size a x) m Q.
Proof. intros H. apply H; cbn; [apply fn_lookup_insert|intros y Hy; by apply fn_lookup_insert_ne]. Qed.

Section umalloc.
Variables base limit : Z.

(** The free list has at most one header per unit. *)
Definition list_fuel : M mst nat := gets (λ m, S (Z.to_nat (brk m))).

Definition free_search (bp p : Z) : M mst (Z + Z) :=
  let* q := get_ptr p in
  if (p <? bp) && (bp <? q) then ret (inr p)
  else if (q <=? p) && ((p <? bp) || (bp <? q)) then ret (inr p)
  else ret (inl q).

(** [bp] takes the place of, or points to, what follows [p]. *)
Definition free_upper (bp p : Z) : M mst unit :=
  let* bsize := get_size bp in
  let* q := get_ptr p in
  if bp + bsize =? q then
    let* qsize := get_size q in
    set_size bp (u32 (bsize + qsize)) ;;;
    let* qptr := get_ptr q in
    set_ptr bp qptr
  else set_ptr bp q.

(** [p] takes up, or points to, [bp]. *)
Definition free_lower (bp p : Z) : M mst unit :=
  let* psize := get_size p in
  if p + psize =? bp then
    let* bsize := get_size bp in
    set_size p (u32 (psize + bsize)) ;;;
    let* bptr := get_ptr bp in
    set_ptr p bptr
  else set_ptr p bp.

Definition free (ap : Z) : M mst unit :=
  let bp := ap - 1 in
  let* f := gets freep in
  let* n := list_fuel in
  let* p := loop n (free_search bp) f in
  free_upper bp p ;;;
  free_lower bp p ;;;
  set_freep p.

(** The system call, with its [int] argument in bytes: it returns the old
    end of the heap, or -1. *)
Definition sbrk (n : Z) : M mst Z :=
  let* m := get in
  let b := brk m + n `div` SIZEOF_HEADER in
  if 0 <=? n then
    if limit <? b then ret (-1)
    else modify (λ m, Mst (hd m) (freep m) b) ;;; ret (brk m)
  else if b <? 0 then ret (brk m)
  else modify (λ m, Mst (hd m) (freep m) b) ;;; ret (brk m).

Definition morecore (nu : Z) : M mst Z :=
  let nu := if nu <? 4096 then 4096 else nu in
  let* p := sbrk (i32 (nu * SIZEOF_HEADER)) in
  if p =? -1 then ret 0
  else
    set_size p nu ;;;
    free (p + 1) ;;;
    gets freep.

(** Takes [nunits] units from the block at [p]. *)
Definition malloc_take (nunits prevp p : Z) : M mst Z :=
  let* s := get_size p in
  let* p := (if s =? nunits then
               let* q := get_ptr p in
               set_ptr prevp q ;;;
               ret p
             else
               set_size p (u32 (s - nunits)) ;;;
               let* s := get_size p in
               set_size (p + s) nunits ;;;
               ret (p + s)) in
  set_freep prevp ;;;
  ret (p + 1).

Definition malloc_turn (nunits : Z) (x : Z * Z) : M mst ((Z * Z) + Z) :=
  let '(prevp, p) := x in
  let* s := get_size p in
  if nunits <=? s then
    let* r := malloc_take nunits prevp p in
    ret (inr r)
  else
    let* f := gets freep in
    if p =? f then
      let* p := morecore nunits in
      if p =? 0 then ret (inr 0)
      else
        let* q := get_ptr p in
        ret (inl (p, q))
    else
      let* q := get_ptr p in
      ret (inl (p, q)).

(** The loop goes around the list at most twice: a second time after
    morecore, with a block that is large enough. *)
Definition malloc (nbytes : Z) : M mst Z :=
  let nunits := u32 ((nbytes + SIZEOF_HEADER - 1) `div` SIZEOF_HEADER + 1) in
  let* f := gets freep in
  let* prevp := (if f =? 0 then
                   set_ptr base base ;;;
                   set_freep base ;;;
                   set_size base 0 ;;;
                   ret base
                 else ret f) in
  let* p := get_ptr prevp in
  let* b := gets brk in
  loop (2 * S (Z.to_nat (b + Z.max 4096 nunits))) (malloc_turn nunits) (prevp, p).
End umalloc.
