(* ===== verification/UmallocList.v ===== *)
(** * The circular free list of the user memory allocator *)

From stdpp Require Import sorting.
From S2P Require Import Prelude Umalloc.

(** ** Rings of blocks

    A block is an address and a size. A ring is listed from any of its
    blocks on. *)

Definition first (l : list (Z * Z)) (z : Z) : Z := match l with [] => z | (a, _) :: _ => a end.

(** The headers of [l] hold its sizes, and each points to the next, the last
    to [z]. *)
Fixpoint linked (h : Z → header) (l : list (Z * Z)) (z : Z) : Prop :=
  match l with
  | [] => True
  | (a, s) :: l' => h a = Hdr (first l' z) s ∧ linked h l' z
  end.
Definition ring (h : Z → header) (l : list (Z * Z)) : Prop := linked h l (first l 0) ∧ l ≠ [].

(** [x] lies in a block of [l]. *)
Definition inb (x : Z) (l : list (Z * Z)) : Prop := ∃ a s, (a, s) ∈ l ∧ a ≤ x < a + s.

Definition gap (x y : Z * Z) : Prop := x.1 + x.2 ≤ y.1 ∧ x.1 < y.1.
(** The blocks from somewhere on, around the ring, are in order of address. *)
Definition rot (l : list (Z * Z)) : Prop := ∃ l1 l2, l = l2 ++ l1 ∧ l2 ≠ [] ∧ StronglySorted gap (l1 ++ l2).

Lemma first_app l1 l2 z : first (l1 ++ l2) z = first l1 (first l2 z).
Proof. by destruct l1 as [|[]]. Qed.

Lemma linked_app h l1 l2 z : linked h (l1 ++ l2) z ↔ linked h l1 (first l2 z) ∧ linked h l2 z.
Proof.
  induction l1 as [|[a s] l1 IH]; cbn; [tauto|]. rewrite IH, first_app. tauto.
Qed.

Lemma linked_frame h h' l z : (∀ a s, (a, s) ∈ l → h' a = h a) → linked h l z → linked h' l z.
Proof.
  induction l as [|[a s] l IH]; intros Hf; cbn; [done|]. intros [Ha Hl]. split.
  - rewrite (Hf a s); [done|set_solver].
  - apply IH; [|done]. intros b t Hb. apply (Hf b t). set_solver.
Qed.

Lemma linked_size h l z a s : linked h l z → (a, s) ∈ l → h_size (h a) = s.
Proof.
  induction l as [|[b t] l IH]; cbn; [intros _ []%elem_of_nil|].
  intros [Hb Hl] [[= -> ->]|Ha]%elem_of_cons; [by rewrite Hb|by apply IH].
Qed.

Lemma ring_rotate h x l : ring h (x :: l) → ring h (l ++ [x]).
Proof.
  destruct x as [a s]. intros [Hr _]. split; [|by destruct l]. cbn [first linked] in Hr. destruct Hr as [Ha Hl].
  rewrite first_app. cbn [first]. apply linked_app. cbn [first linked]. split; [done|]. split; [|done].
  by rewrite Ha.
Qed.

Lemma inb_nil x : ¬ inb x [].
Proof. by intros (a & s & []%elem_of_nil & _). Qed.

Lemma inb_cons x a s l : inb x ((a, s) :: l) ↔ a ≤ x < a + s ∨ inb x l.
Proof.
  unfold inb. split.
  - intros (b & t & [[= -> ->]|Hb]%elem_of_cons & Hx); [by left|]. right. by exists b, t.
  - intros [Hx|(b & t & Hb & Hx)]; [exists a, s|exists b, t]; (split; [set_solver|done]).
Qed.

Lemma rot_head x l : rot (x :: l) ↔ ∃ l1 l2, l = l2 ++ l1 ∧ StronglySorted gap (l1 ++ x :: l2).
Proof.
  split.
  - intros (l1 & [|y l2] & E & Hn & Hs); [done|]. injection E as <- ->. by exists l1, l2.
  - intros (l1 & l2 & -> & Hs). by exists l1, (x :: l2).
Qed.

Lemma rot_rotate x l : rot (x :: l) → rot (l ++ [x]).
Proof.
  intros (l1 & [|y l2] & -> & Hs)%rot_head; cbn [app].
  - exists [], (l1 ++ [x]). split_and!; [by rewrite app_nil_r|by destruct l1|done].
  - exists (l1 ++ [x]), (y :: l2). rewrite <- !app_assoc. done.
Qed.

Lemma rot_nodup l : rot l → NoDup l.*1.
Proof.
  intros (l1 & l2 & -> & _ & Hs). rewrite (Permutation_app_comm l2 l1).
  induction (l1 ++ l2) as [|x l IH]; cbn; [apply NoDup_nil_2|].
  apply StronglySorted_cons in Hs as [Hx Hs]. apply NoDup_cons. split; [|by apply IH].
  intros (y & Ey & Hy)%list_elem_of_fmap. rewrite Forall_forall in Hx. destruct (Hx y Hy). lia.
Qed.

(** The largest block address below a bound. *)
Lemma last_below (l : list (Z * Z)) bp :
  (∃ e, e ∈ l ∧ e.1 < bp) → (∀ e, e ∈ l → e.1 ≠ bp) →
  ∃ t, t ∈ l ∧ t.1 < bp ∧ ∀ e, e ∈ l → e.1 ≤ t.1 ∨ bp < e.1.
Proof.
  induction l as [|x l IH]; intros (e & He & Hlt) Hne; [by apply elem_of_nil in He|].
  assert (Hne' : ∀ e, e ∈ l → e.1 ≠ bp) by (intros; apply Hne; set_solver).
  destruct (decide (Exists (λ e, e.1 < bp) l)) as [Hex|Hno]; rewrite Exists_exists in *.
  2: { assert (∀ e, e ∈ l → bp < e.1) as Hall.
       { intros e' He'. pose proof (Hne' e' He'). destruct (decide (bp < e'.1)); [done|]. destruct Hno. exists e'. split; [done|lia]. }
       apply elem_of_cons in He as [->|He]; [|specialize (Hall e He); lia].
       exists x. split; [set_solver|]. split; [done|]. intros e' [->|He']%elem_of_cons; [left; lia|right; auto]. }
  destruct (IH Hex Hne') as (t & Ht & Htl & Hall). pose proof (Hne x ltac:(set_solver)).
  destruct (decide (t.1 < x.1 < bp)).
  - exists x. split; [set_solver|]. split; [lia|]. intros e' [->|He']%elem_of_cons; [left; lia|]. destruct (Hall e' He'); [left|right]; lia.
  - exists t. split; [set_solver|]. split; [done|]. intros e' [->|He']%elem_of_cons; [lia|auto].
Qed.

Lemma sorted_merge l1 a k k' l2 :
  0 ≤ k' → StronglySorted gap (l1 ++ (a, k) :: (a + k, k') :: l2) → StronglySorted gap (l1 ++ (a, k + k') :: l2).
Proof.
  intros Hk (H1 & H2 & H3)%StronglySorted_app. apply StronglySorted_cons in H3 as [H3 H4].
  apply StronglySorted_cons in H4 as [H4 H5]. rewrite Forall_forall in H3, H4.
  destruct (H3 (a + k, k') ltac:(set_solver)) as [_ Hpos]. cbn in Hpos. apply StronglySorted_app. split_and!; [|done|].
  - intros x y Hx [->|Hy]%elem_of_cons; [|apply H1; set_solver].
    destruct (H1 x (a, k)) as [? ?]; [done|set_solver|]. by split.
  - apply StronglySorted_cons. split; [|done]. rewrite Forall_forall. intros y Hy. destruct (H4 y Hy). split; cbn in *; lia.
Qed.

Lemma sorted_shrink l1 a k k' l2 :
  k' ≤ k → StronglySorted gap (l1 ++ (a, k) :: l2) → StronglySorted gap (l1 ++ (a, k') :: l2).
Proof.
  intros Hk (H1 & H2 & H3)%StronglySorted_app. apply StronglySorted_cons in H3 as [H3 H4]. rewrite Forall_forall in H3.
  apply StronglySorted_app. split_and!; [|done|].
  - intros x y Hx [->|Hy]%elem_of_cons; [|apply H1; set_solver]. destruct (H1 x (a, k)) as [? ?]; [done|set_solver|]. by split.
  - apply StronglySorted_cons. split; [|done]. rewrite Forall_forall. intros y Hy. destruct (H3 y Hy). split; cbn in *; lia.
Qed.

Lemma sorted_remove l1 x l2 : StronglySorted gap (l1 ++ x :: l2) → StronglySorted gap (l1 ++ l2).
Proof.
  intros (H1 & H2 & H3)%StronglySorted_app. apply StronglySorted_cons in H3 as [_ H4].
  apply StronglySorted_app. split_and!; [|done|done]. intros y z Hy Hz. apply H1; set_solver.
Qed.

(** The block behind the first one, taken out or made smaller. *)
Lemma rot_remove x y r : rot (x :: y :: r) → rot (x :: r).
Proof.
  intros (l1 & [|z l2] & E & Hs)%rot_head.
  - cbn in E. subst l1. apply rot_head. exists r, []. split; [done|]. by apply (sorted_remove []) in Hs.
  - injection E as <- ->. apply rot_head. exists l1, l2. split; [done|].
    replace (l1 ++ x :: y :: l2) with ((l1 ++ [x]) ++ y :: l2) in Hs by (by rewrite <- app_assoc).
    apply sorted_remove in Hs. by rewrite <- app_assoc in Hs.
Qed.

Lemma rot_shrink x a k k' r : k' ≤ k → rot (x :: (a, k) :: r) → rot (x :: (a, k') :: r).
Proof.
  intros Hk (l1 & [|z l2] & E & Hs)%rot_head.
  - cbn in E. subst l1. apply rot_head. exists ((a, k') :: r), []. split; [done|]. by apply (sorted_shrink [] a k k').
  - injection E as <- ->. apply rot_head. exists l1, ((a, k') :: l2). split; [done|].
    replace (l1 ++ x :: (a, k) :: l2) with ((l1 ++ [x]) ++ (a, k) :: l2) in Hs by (by rewrite <- app_assoc).
    apply (sorted_shrink _ _ _ k') in Hs; [|done]. by rewrite <- app_assoc in Hs.
Qed.

(** Blocks of a ring do not overlap. *)
Lemma rot_overlap l a t a' t' x :
  rot l → (a, t) ∈ l → (a', t') ∈ l → a ≤ x < a + t → a' ≤ x < a' + t' → a = a' ∧ t = t'.
Proof.
  intros (l1 & l2 & -> & _ & Hs). rewrite (Permutation_app_comm l2 l1). intros Ha Ha' Hx Hx'. induction (l1 ++ l2) as [|z l IH]; [by apply elem_of_nil in Ha|].
  apply StronglySorted_cons in Hs as [Hz Hs]. rewrite Forall_forall in Hz.
  apply elem_of_cons in Ha as [<-|Ha], Ha' as [Ha'|Ha'].
  - by simplify_eq.
  - destruct (Hz _ Ha'). cbn in *. lia.
  - subst z. destruct (Hz _ Ha). cbn in *. lia.
  - by apply IH.
Qed.

Section flist.
Context (base lo : Z) (Hbase : 0 < base) (Hlo : base < lo).

(** [l] is the free list in memory [h], of a heap that ends at [b]. *)
Record flist (h : Z → header) (b : Z) (l : list (Z * Z)) : Prop := {
  fl_ring : ring h l;
  fl_rot : rot l;
  fl_base : (base, 0) ∈ l;
  fl_in : ∀ a s, (a, s) ∈ l → a = base ∧ s = 0 ∨ lo ≤ a ∧ 1 ≤ s ∧ a + s ≤ b;
  fl_apart : ∀ a s a' s', (a, s) ∈ l → (a', s') ∈ l → 1 ≤ s → a + s ≠ a'
}.

Lemma flist_rotate h b x l : flist h b (x :: l) → flist h b (l ++ [x]).
Proof.
  clear Hbase Hlo. intros []. split; [by apply ring_rotate|by apply rot_rotate|..].
  - set_solver.
  - intros a s Ha. apply fl_in0. set_solver.
  - intros a s a' s' Ha Ha'. apply (fl_apart0 a s a' s'); set_solver.
Qed.

Lemma flist_length h b l : flist h b l → lo ≤ b → (length l ≤ S (Z.to_nat b))%nat.
Proof.
  intros F Hb. assert (l.*1 ⊆+ base :: seqZ lo (b - lo)) as Hs.
  - apply NoDup_submseteq; [apply rot_nodup, F|]. intros z ([a s] & -> & Ha)%list_elem_of_fmap. cbn.
    destruct (fl_in _ _ _ F a s Ha) as [[-> _]|Hr]; [set_solver|]. apply elem_of_cons. right. apply elem_of_seqZ. lia.
  - apply submseteq_length in Hs. rewrite length_fmap in Hs. cbn in Hs. rewrite length_seqZ in Hs. lia.
Qed.

Lemma flist_ptr h b p s r : flist h b ((p, s) :: r) → h p = Hdr (first r p) s.
Proof. intros F. by destruct (fl_ring _ _ _ F) as [[H _] _]. Qed.

(** ** Where a block belongs *)

Section place.
Context (h : Z → header) (b bp n : Z) (Hn : 1 ≤ n) (Hbp : lo ≤ bp).

(** [bp] is free of the blocks in [l]. *)
Definition clear_of (l : list (Z * Z)) : Prop := ∀ a s, (a, s) ∈ l → a + s ≤ bp ∨ bp + n ≤ a.

(** The condition on which the search stops. *)
Definition stops (p q : Z) : Prop := p < bp ∧ bp < q ∨ q ≤ p ∧ (p < bp ∨ bp < q).

Lemma stops_here (t : Z * Z) r :
  flist h b (t :: r) → t.1 < bp → (∀ e, e ∈ t :: r → e.1 ≤ t.1 ∨ bp < e.1) → stops t.1 (first r t.1).
Proof.
  intros F Ht Hall. destruct (proj1 (rot_head _ _) (fl_rot _ _ _ F)) as (l1 & [|y l2] & -> & Hs).
  - right. split; [|by left]. rewrite app_nil_l. destruct l1 as [|y l1]; [done|]. cbn. destruct y as [y sy].
    apply StronglySorted_cons in Hs as [Hs _]. rewrite Forall_forall in Hs.
    destruct (Hs t ltac:(set_solver)). cbn in *. lia.
  - left. split; [done|]. apply StronglySorted_app in Hs as (_ & _ & Hs). apply StronglySorted_cons in Hs as [Hs _].
    rewrite Forall_forall in Hs. destruct (Hs y ltac:(set_solver)). destruct y as [y sy]. cbn in *.
    destruct (Hall (y, sy)); [set_solver|cbn in *; lia|done].
Qed.

(** At a block where the search stops, [bp] belongs behind it. *)
Lemma stops_place p s r :
  flist h b ((p, s) :: r) → clear_of ((p, s) :: r) → stops p (first r p) →
  ∃ l1 l2, r = l2 ++ l1 ∧ p < bp ∧ p + s ≤ bp ∧ StronglySorted gap (l1 ++ (p, s) :: (bp, n) :: l2).
Proof.
  intros F Hc Hst. destruct (proj1 (rot_head _ _) (fl_rot _ _ _ F)) as (l1 & l2 & -> & Hs). exists l1, l2. split; [done|].
  pose proof Hs as (H12 & S1 & S2)%StronglySorted_app. apply StronglySorted_cons in S2 as [Hp S2]. rewrite Forall_forall in Hp.
  assert (p < bp ∧ ∀ y, y ∈ l2 → bp < y.1) as [Hlt Hl2].
  { destruct l2 as [|[y sy] l2]; cbn [first app] in Hst.
    - split; [|intros y []%elem_of_nil]. destruct Hst as [[? _]|[Hq [?|Hq']]]; [done..|]. exfalso.
      assert (first l1 p ≤ base) as Hm; [|lia]. pose proof (fl_base _ _ _ F) as Hb0. cbn [app] in Hb0.
      destruct l1 as [|[z sz] l1]; [apply list_elem_of_singleton in Hb0; injection Hb0 as <- <-; cbn; lia|].
      cbn [first]. apply StronglySorted_cons in S1 as [Hz _]. rewrite Forall_forall in Hz.
      apply elem_of_cons in Hb0 as [Hb0|[Hb0|Hb0]%elem_of_cons].
      + injection Hb0 as <- <-. destruct (H12 (z, sz) (base, 0)); [set_solver..|]. cbn in *. lia.
      + injection Hb0 as <- <-. lia.
      + destruct (Hz _ Hb0). cbn in *. lia.
    - destruct (Hp (y, sy) ltac:(set_solver)) as [_ Hpy]. cbn in Hpy. assert (p < bp ∧ bp < y) as [? ?] by (destruct Hst; lia).
      split; [done|]. intros e [->|He]%elem_of_cons; [done|]. apply StronglySorted_cons in S2 as [Hy _].
      rewrite Forall_forall in Hy. destruct (Hy e He). cbn in *. lia. }
  assert (Hps : p + s ≤ bp).
  { destruct (Hc p s) as [?|?]; [set_solver|done|lia]. }
  split_and!; [done..|]. apply StronglySorted_app. split_and!; [|done|].
  - intros x y Hx [->|[->|Hy]%elem_of_cons]%elem_of_cons; [apply H12; set_solver| |apply H12; set_solver].
    destruct (H12 x (p, s)) as [G1 G2]; [done|set_solver|]. split; cbn in *; lia.
  - apply StronglySorted_cons. split.
    + rewrite Forall_forall. intros y [->|Hy]%elem_of_cons; [split; cbn; lia|by apply Hp].
    + apply StronglySorted_cons. split; [|done]. rewrite Forall_forall. intros [y sy] Hy.
      pose proof (Hl2 _ Hy). destruct (Hc y sy) as [G|G]; [set_solver| |split; cbn in *; lia].
      destruct (fl_in _ _ _ F y sy) as [[-> ->]|?]; [set_solver|cbn in *; lia|cbn in *; lia].
Qed.
End place.

(** ** The search *)

#[local] Instance stops_dec bp p q : Decision (stops bp p q).
Proof. unfold stops. apply _. Defined.

Lemma free_search_turn m bp a s q :
  hd m a = Hdr q s → free_search bp a m = Done (if decide (stops bp a q) then inr a else inl q) m.
Proof.
  intros Ha. unfold free_search, get_ptr, bind, gets. rewrite Ha. cbn [h_ptr]. unfold stops.
  destruct ((a <? bp) && (bp <? q)) eqn:E1; [rewrite decide_True by lia; done|].
  destruct ((q <=? a) && ((a <? bp) || (bp <? q))) eqn:E2; [rewrite decide_True by lia; done|]. by rewrite decide_False by lia.
Qed.

Lemma free_search_ok bp n m l :
  flist (hd m) (brk m) l → first l 0 = freep m → lo ≤ brk m → lo ≤ bp → 1 ≤ n → clear_of bp n l →
  ∃ p s r, loop (S (Z.to_nat (brk m))) (free_search bp) (freep m) m = Done p m ∧
    flist (hd m) (brk m) ((p, s) :: r) ∧ (p, s) :: r ≡ₚ l ∧ stops bp p (first r p).
Proof.
  intros F Hf Hlb Hbp Hn Hc.
  destruct (last_below l bp) as (t & Ht & Htl & Hall).
  { exists (base, 0). split; [apply F|cbn; lia]. }
  { intros [a s] Ha. cbn. destruct (Hc a s Ha) as [?|?]; [|lia]. destruct (fl_in _ _ _ F a s Ha) as [[-> ->]|?]; lia. }
  pose proof (flist_length _ _ _ F Hlb) as Hlen. apply list_elem_of_split in Ht as (pre & post & ->).
  rewrite length_app in Hlen. cbn in Hlen. rewrite <- Hf. clear Hf.
  assert (Hfu : (length pre < S (Z.to_nat (brk m)))%nat) by lia. clear Hlen.
  revert post F Hall Hc Hfu. generalize (S (Z.to_nat (brk m))) as fuel.
  induction pre as [|[a s] pre IH]; intros fuel post F Hall Hc Hfu; (destruct fuel as [|fuel]; [lia|]).
  - destruct t as [t ts]. exists t, ts, post. change ([] ++ (t, ts) :: post) with ((t, ts) :: post) in *.
    assert (Hst : stops bp (t, ts).1 (first post t)) by (eapply stops_here; eassumption). split_and!; [|done|done|done].
    cbn [loop first]. unfold bind. rewrite (free_search_turn _ _ _ _ _ (flist_ptr _ _ _ _ _ F)). by rewrite decide_True.
  - change (((a, s) :: pre) ++ t :: post) with ((a, s) :: (pre ++ t :: post)) in *. cbn [first].
    pose proof (free_search_turn _ bp _ _ _ (flist_ptr _ _ _ _ _ F)) as Hturn. cbn [loop]. unfold bind. rewrite Hturn.
    destruct (decide (stops bp a _)) as [Hst|Hst]; [by exists a, s, (pre ++ t :: post)|].
    destruct (IH fuel (post ++ [(a, s)])) as (p & ps & r & Hrun & F' & HP & Hst').
    + replace (pre ++ t :: post ++ [(a, s)]) with ((pre ++ t :: post) ++ [(a, s)]) by (by rewrite <- app_assoc).
      by apply flist_rotate.
    + intros e He. apply Hall. set_solver.
    + intros a' s' Ha'. apply Hc. set_solver.
    + cbn in Hfu. lia.
    + exists p, ps, r. split_and!; [|done|rewrite HP; solve_Permutation|done].
      replace (first (pre ++ t :: post) a) with (first (pre ++ t :: post ++ [(a, s)]) 0); [exact Hrun|].
      by destruct pre as [|[]]; [destruct t|].
Qed.

(** ** Linking a block in *)

Section link.
Context (h : Z → header) (b bp n p s : Z) (r : list (Z * Z)).
Context (F : flist h b ((p, s) :: r)) (Hc : clear_of bp n ((p, s) :: r)) (Hst : stops bp p (first r p))
  (Hbp : lo ≤ bp) (Hn : 1 ≤ n) (Hend : bp + n ≤ b).

(** After the upper neighbour: [bp] has size [n'] and is followed by [r']. *)
Record upper (n' : Z) (r' l1 l2 : list (Z * Z)) : Prop := {
  up_split : r' = l2 ++ l1;
  up_sorted : StronglySorted gap (l1 ++ (p, s) :: (bp, n') :: l2);
  up_size : n ≤ n' ∧ bp + n' ≤ b;
  up_p : p < bp ∧ p + s ≤ bp;
  up_sub : ∀ e, e ∈ r' → e ∈ r;
  up_base : (base, 0) ∈ (p, s) :: r';
  up_cover : ∀ x, inb x ((bp, n') :: r') ↔ bp ≤ x < bp + n ∨ inb x r;
  up_apart : ∀ a' s', (a', s') ∈ (p, s) :: r' → bp + n' ≠ a';
  up_linked : linked h r' p
}.

Lemma link_upper :
  (bp + n = first r p ∧ ∃ n' r' l1 l2, upper n' r' l1 l2 ∧ h (first r p) = Hdr (first r' p) (n' - n)) ∨
  (bp + n ≠ first r p ∧ ∃ l1 l2, upper n r l1 l2).
Proof.
  destruct (stops_place h b bp n Hn Hbp p s r F Hc Hst) as (l1 & l2 & Er & Hlt & Hps & Hs).
  destruct (fl_ring _ _ _ F) as [[_ Hl] _]. cbn [first] in Hl.
  pose proof Hs as (H12 & S1 & S2)%StronglySorted_app. apply StronglySorted_cons in S2 as [Hp S2].
  apply StronglySorted_cons in S2 as [Hb2 S2]. rewrite Forall_forall in Hp, Hb2.
  assert (Hl1 : ∀ e, e ∈ l1 → e.1 < p) by (intros e He; destruct (H12 e (p, s)); [done|set_solver|done]).
  destruct (decide (bp + n = first r p)) as [E|E]; [left|right]; (split; [done|]).
  - destruct l2 as [|[q t] l2].
    { exfalso. rewrite Er in E. cbn in E. destruct l1 as [|[z zs] l1]; cbn in E; [lia|].
      pose proof (Hl1 (z, zs) ltac:(set_solver)). cbn in *. lia. }
    rewrite Er in E, Hl |- *. cbn in E, Hl. destruct Hl as [Hq Hl]. subst q.
    assert (Ht : 1 ≤ t ∧ bp + n + t ≤ b).
    { destruct (fl_in _ _ _ F (bp + n) t) as [[? _]|?]; [rewrite Er; set_solver|lia|lia]. }
    exists (n + t), (l2 ++ l1), l1, l2. split; [|cbn; rewrite Hq; f_equal; lia]. split; try done.
    + assert (Hs' : StronglySorted gap ((l1 ++ [(p, s)]) ++ (bp, n) :: (bp + n, t) :: l2)) by (by rewrite <- app_assoc).
      apply sorted_merge in Hs'; [|lia]. by rewrite <- app_assoc in Hs'.
    + lia.
    + rewrite Er. set_solver.
    + pose proof (fl_base _ _ _ F) as Hb0. rewrite Er in Hb0. cbn in Hb0.
      assert ((base, 0) ≠ (bp + n, t)) by (intros [= ? ?]; lia). set_solver.
    + intros x. rewrite Er. cbn [app]. rewrite !inb_cons.
      assert (bp ≤ x < bp + (n + t) ↔ bp ≤ x < bp + n ∨ bp + n ≤ x < bp + n + t) as -> by lia. tauto.
    + intros a' s' Ha'. rewrite Z.add_assoc. apply (fl_apart _ _ _ F (bp + n) t a' s'); [..|lia]; rewrite Er; set_solver.
  - exists l1, l2. split; try done.
    + apply F.
    + intros x. by rewrite inb_cons.
    + intros a' s' [[= -> ->]|Ha']%elem_of_cons Ea; [lia|]. rewrite Er in Ha'. apply elem_of_app in Ha' as [Ha'|Ha'].
      * destruct l2 as [|[q t] l2]; [by apply elem_of_nil in Ha'|]. rewrite Er in E. cbn in E.
        destruct (Hb2 (q, t)) as [G _]; [set_solver|]. cbn in G. apply elem_of_cons in Ha' as [[= -> ->]|Ha']; [lia|].
        apply StronglySorted_cons in S2 as [S2 _]. rewrite Forall_forall in S2. destruct (S2 _ Ha'). cbn in *. lia.
      * pose proof (Hl1 _ Ha'). cbn in *. lia.
Qed.
End link.
End flist.

Arguments fl_ring {base lo h b l} _.
Arguments fl_rot {base lo h b l} _.
Arguments fl_base {base lo h b l} _.
Arguments fl_in {base lo h b l} _.
Arguments fl_apart {base lo h b l} _.
Arguments up_split {base h b bp n p s r n' r' l1 l2} _.
Arguments up_sorted {base h b bp n p s r n' r' l1 l2} _.
Arguments up_size {base h b bp n p s r n' r' l1 l2} _.
Arguments up_p {base h b bp n p s r n' r' l1 l2} _.
Arguments up_sub {base h b bp n p s r n' r' l1 l2} _.
Arguments up_base {base h b bp n p s r n' r' l1 l2} _.
Arguments up_cover {base h b bp n p s r n' r' l1 l2} _.
Arguments up_apart {base h b bp n p s r n' r' l1 l2} _.
Arguments up_linked {base h b bp n p s r n' r' l1 l2} _.
