(* ===== verification/UmallocTheorems.v ===== *)
(** * The user memory allocator keeps its blocks apart *)

From stdpp Require Import sorting.
From S2P Require Import Prelude Umalloc UmallocList.

Section lower.
Context (base lo : Z) (Hbase : 0 < base) (Hlo : base < lo).
Context (h : Z → header) (b bp n p s : Z) (r : list (Z * Z)).
Context (F : flist base lo h b ((p, s) :: r)) (Hbp : lo ≤ bp) (Hn : 1 ≤ n).
Context (n' : Z) (r' l1 l2 : list (Z * Z)) (U : upper base h b bp n p s r n' r' l1 l2).

(** The lower neighbour is not the block itself, nor are the others. *)
Lemma upper_fresh a t : (a, t) ∈ r' → a ≠ p ∧ a ≠ bp.
Proof.
  intros Ha. assert (Hr : rot ((p, s) :: (bp, n') :: r')).
  { exists l1, ((p, s) :: (bp, n') :: l2). split; [by rewrite (up_split U)|]. split; [done|]. apply U. }
  apply rot_nodup in Hr. cbn in Hr. apply NoDup_cons in Hr as [H1 [H2 _]%NoDup_cons].
  assert (a ∈ r'.*1) by (apply list_elem_of_fmap; by exists (a, t)). split; intros ->; set_solver.
Qed.

Lemma upper_in a t : (a, t) ∈ (p, s) :: r' → a = base ∧ t = 0 ∨ lo ≤ a ∧ 1 ≤ t ∧ a + t ≤ b.
Proof.
  intros Ha. apply (fl_in F). apply elem_of_cons in Ha as [->|Ha]; [set_solver|].
  apply elem_of_cons. right. by apply (up_sub U).
Qed.

Lemma upper_below a t : (a, t) ∈ r' → a + t = bp → False.
Proof.
  intros Ha E. pose proof (up_sorted U) as (H12 & _ & S2)%StronglySorted_app.
  apply StronglySorted_cons in S2 as [Hp S2]. apply StronglySorted_cons in S2 as [Hb _]. rewrite Forall_forall in Hb.
  destruct (up_p U). destruct (up_size U).
  rewrite (up_split U) in Ha. apply elem_of_app in Ha as [Ha|Ha].
  - destruct (Hb _ Ha). assert (0 ≤ t); [|cbn in *; lia].
    destruct (upper_in a t) as [[_ ->]|?]; [rewrite (up_split U); set_solver|lia|lia].
  - destruct (H12 (a, t) (p, s)); [done|set_solver|]. cbn in *. lia.
Qed.

Lemma upper_apart_old a t a' t' : (a, t) ∈ (p, s) :: r' → (a', t') ∈ (p, s) :: r' → 1 ≤ t → a + t ≠ a'.
Proof.
  pose proof (up_sub U) as Hs. intros Ha Ha'. apply (fl_apart F a t a' t'); set_solver.
Qed.

Lemma lower_apart : p + s ≠ bp → ∀ h',
  (∀ x, x ≠ p → x ≠ bp → h' x = h x) → h' p = Hdr bp s → h' bp = Hdr (first r' p) n' →
  flist base lo h' b ((p, s) :: (bp, n') :: r').
Proof.
  intros Hpb h' Hf Hp Hb. destruct (up_size U). split.
  - split; [|done]. cbn. split; [done|]. split; [done|]. apply (linked_frame h); [|apply U].
    intros a t Ha. apply Hf; by apply (upper_fresh a t).
  - exists l1, ((p, s) :: (bp, n') :: l2). rewrite (up_split U). split; [done|]. split; [done|]. apply U.
  - pose proof (up_base U). set_solver.
  - intros a t Ha. destruct (decide ((a, t) = (bp, n'))) as [[= -> ->]|Hne]; [right; lia|].
    apply upper_in. set_solver.
  - intros a t a' t' Ha Ha' Ht. destruct (decide ((a, t) = (bp, n'))) as [[= -> ->]|Hne].
    + destruct (decide ((a', t') = (bp, n'))) as [[= -> ->]|Hne']; [lia|].
      apply (up_apart U a' t'). set_solver.
    + destruct (decide ((a', t') = (bp, n'))) as [[= -> ->]|Hne']; [|apply (upper_apart_old a t a' t'); set_solver].
      assert ((a, t) ∈ (p, s) :: r') as [[= -> ->]|Ha2]%elem_of_cons by set_solver; [done|].
      intros E. by eapply upper_below.
Qed.

Lemma lower_merge : p + s = bp → ∀ h',
  (∀ x, x ≠ p → x ≠ bp → h' x = h x) → h' p = Hdr (first r' p) (s + n') →
  flist base lo h' b ((p, s + n') :: r').
Proof.
  intros Hpb h' Hf Hp. destruct (up_size U) as [? ?].
  destruct (upper_in p s) as [[? ?]|Hps]; [set_solver|lia|].
  pose proof (up_sorted U) as Hs. rewrite <- Hpb in Hs. apply sorted_merge in Hs; [|lia].
  assert (Hother : ∀ a t, (a, t) ∈ (p, s + n') :: r' → (a, t) = (p, s + n') ∨ (a, t) ∈ r') by set_solver.
  split.
  - split; [|done]. cbn. split; [done|]. apply (linked_frame h); [|apply U].
    intros a t Ha. apply Hf; by apply (upper_fresh a t).
  - exists l1, ((p, s + n') :: l2). rewrite (up_split U). done.
  - pose proof (up_base U) as [[= -> ->]|?]%elem_of_cons; [lia|set_solver].
  - intros a t [[= -> ->]|Ha]%Hother; [right; lia|]. apply upper_in. set_solver.
  - intros a t a' t' [[= -> ->]|Ha]%Hother [[= -> ->]|Ha']%Hother Ht; [lia|..].
    + replace (p + (s + n')) with (bp + n') by lia. apply (up_apart U a' t'). set_solver.
    + apply (upper_apart_old a t p s); set_solver.
    + apply (upper_apart_old a t a' t'); set_solver.
Qed.
End lower.

Section free.
Context (base lo : Z) (Hbase : 0 < base) (Hlo : base < lo).

(** The sizes of a heap below 2^28 units fit an [int] of bytes. *)
Definition small_heap (b : Z) : Prop := lo ≤ b ∧ b - lo < 2^27.

Lemma free_upper_ok m bp n p s r :
  flist base lo (hd m) (brk m) ((p, s) :: r) → clear_of bp n ((p, s) :: r) → stops bp p (first r p) →
  lo ≤ bp → 1 ≤ n → bp + n ≤ brk m → small_heap (brk m) → h_size (hd m bp) = n →
  wp (free_upper bp p) m (λ _ m', ∃ n' r' l1 l2, upper base (hd m) (brk m) bp n p s r n' r' l1 l2 ∧
    hd m' bp = Hdr (first r' p) n' ∧ (∀ x, x ≠ bp → hd m' x = hd m x) ∧ freep m' = freep m ∧ brk m' = brk m).
Proof.
  intros F Hc Hst Hbp Hn Hend Hsm Hsz. unfold free_upper.
  apply wp_bind, wp_get_size. rewrite Hsz. apply wp_bind, wp_get_ptr. rewrite (flist_ptr _ _ _ _ _ _ _ F). cbn [h_ptr].
  destruct (link_upper base lo Hbase Hlo (hd m) (brk m) bp n p s r F Hc Hst Hbp Hn Hend)
    as [[E (n' & r' & l1 & l2 & U & Hq)]|[E (l1 & l2 & U)]].
  - rewrite (proj2 (Z.eqb_eq _ _) E). apply wp_bind, wp_get_size. rewrite Hq. cbn [h_size].
    destruct (up_size U) as [U1 U2]. destruct Hsm. rewrite u32_small by lia.
    apply wp_bind, wp_set_size. intros h1 H1 H1'. apply wp_bind, wp_get_ptr. cbn [hd].
    rewrite H1' by lia. rewrite Hq. cbn [h_ptr]. apply wp_set_ptr. cbn [hd freep brk]. intros h2 H2 H2'. rewrite H1 in H2.
    exists n', r', l1, l2. split_and!; [done|cbn; rewrite H2; cbn; f_equal; lia| |done|done].
    intros x Hx. cbn. by rewrite H2', H1'.
  - rewrite (proj2 (Z.eqb_neq _ _) E). apply wp_set_ptr. intros h1 H1 H1'. rewrite Hsz in H1. by exists n, r, l1, l2.
Qed.

(** A large enough block, for a caller that needs one. *)
Definition has_block (l : list (Z * Z)) (n : Z) : Prop := ∃ a s, (a, s) ∈ l ∧ n ≤ s.

Lemma free_lower_ok m m1 bp n p s r n' r' l1 l2 :
  flist base lo (hd m) (brk m) ((p, s) :: r) → lo ≤ bp → 1 ≤ n → small_heap (brk m) →
  upper base (hd m) (brk m) bp n p s r n' r' l1 l2 →
  hd m1 bp = Hdr (first r' p) n' → (∀ x, x ≠ bp → hd m1 x = hd m x) →
  wp (free_lower bp p) m1 (λ _ m', ∃ l', flist base lo (hd m') (brk m) l' ∧ first l' 0 = p ∧ has_block l' n ∧
    (∀ x, inb x l' ↔ inb x ((p, s) :: r) ∨ bp ≤ x < bp + n) ∧
    (∀ x, x ≠ p → x ≠ bp → hd m' x = hd m x) ∧ freep m' = freep m1 ∧ brk m' = brk m1).
Proof.
  intros F Hbp Hn [Hs1 Hs2] U Hb Hother. destruct (up_p U) as [P1 P2], (up_size U) as [N1 N2].
  assert (Hp : hd m1 p = Hdr (first r p) s) by (rewrite Hother by lia; by eapply flist_ptr).
  assert (Hcov : ∀ x, inb x ((p, s) :: (bp, n') :: r') ↔ inb x ((p, s) :: r) ∨ bp ≤ x < bp + n).
  { intros x. rewrite inb_cons, (up_cover U), inb_cons. tauto. }
  unfold free_lower. apply wp_bind, wp_get_size. rewrite Hp. cbn [h_size]. destruct (decide (p + s = bp)) as [E|E].
  - rewrite (proj2 (Z.eqb_eq _ _) E). apply wp_bind, wp_get_size. rewrite Hb. cbn [h_size].
    destruct (fl_in F p s) as [[? ?]|?]; [set_solver|lia|].
    rewrite u32_small by lia. apply wp_bind, wp_set_size. intros h1 H1 H1'. apply wp_bind, wp_get_ptr. cbn [hd].
    rewrite H1' by lia. rewrite Hb. cbn [h_ptr]. apply wp_set_ptr. cbn [hd freep brk]. intros h2 H2 H2'. rewrite H1 in H2.
    cbn [h_size] in H2. exists ((p, s + n') :: r'). cbn [hd]. split_and!; try done.
    + apply (lower_merge base lo) with (h := hd m) (bp := bp) (n := n) (r := r) (l1 := l1) (l2 := l2); try done.
      intros x Hx Hx'. by rewrite H2', H1', Hother.
    + exists p, (s + n'). split; [set_solver|lia].
    + intros x. rewrite <- Hcov, !inb_cons. assert (p ≤ x < p + (s + n') ↔ p ≤ x < p + s ∨ bp ≤ x < bp + n') as -> by lia. tauto.
    + intros x Hx Hx'. by rewrite H2', H1', Hother.
  - rewrite (proj2 (Z.eqb_neq _ _) E). apply wp_set_ptr. intros h1 H1 H1'. rewrite Hp in H1. cbn [h_size] in H1.
    exists ((p, s) :: (bp, n') :: r'). cbn [hd]. split_and!; try done.
    + apply (lower_apart base lo) with (h := hd m) (n := n) (r := r) (l1 := l1) (l2 := l2); try done.
      * intros x Hx Hx'. by rewrite H1', Hother.
      * by rewrite H1' by lia.
    + exists bp, n'. split; [set_solver|lia].
    + intros x Hx Hx'. by rewrite H1', Hother.
Qed.

Lemma free_ok m l bp n :
  flist base lo (hd m) (brk m) l → first l 0 = freep m → small_heap (brk m) →
  lo ≤ bp → 1 ≤ n → bp + n ≤ brk m → clear_of bp n l → h_size (hd m bp) = n →
  wp (free (bp + 1)) m (λ _ m', ∃ l', flist base lo (hd m') (brk m) l' ∧ first l' 0 = freep m' ∧ has_block l' n ∧
    (∀ x, inb x l' ↔ inb x l ∨ bp ≤ x < bp + n) ∧
    (∀ x, ¬ inb x l → x ≠ base → x ≠ bp → hd m' x = hd m x) ∧ brk m' = brk m).
Proof.
  intros F Hf Hsm Hbp Hn Hend Hc Hsz. unfold free. replace (bp + 1 - 1) with bp by lia.
  apply wp_bind, wp_gets, wp_bind, wp_gets, wp_bind.
  destruct (free_search_ok base lo Hbase Hlo bp n m l F Hf (proj1 Hsm) Hbp Hn Hc) as (p & s & r & Hrun & F' & HP & Hst).
  unfold wp at 1. rewrite Hrun. apply wp_bind.
  eapply wp_mono; [apply (free_upper_ok m bp n p s r); try done; intros a t Ha; apply Hc; by rewrite <- HP|].
  intros [] m1 (n' & r' & l1 & l2 & U & Hb & Hother & _ & Hbrk). apply wp_bind.
  eapply wp_mono; [by apply (free_lower_ok m m1 bp n p s r n' r' l1 l2)|].
  intros [] m2 (l' & F2 & Hh & Hbl & Hcov & Hfr & _ & Hbrk2). apply wp_modify. exists l'. cbn [hd freep brk].
  assert (Hinb : ∀ x, inb x ((p, s) :: r) ↔ inb x l) by (intros x; unfold inb; by setoid_rewrite HP).
  split_and!; try done.
  - intros x. by rewrite Hcov, Hinb.
  - intros x Hx Hxb Hxbp. apply Hfr; [|done]. intros ->. destruct (fl_in F' p s) as [[? _]|?]; [set_solver|done|].
    apply Hx, Hinb. exists p, s. split; [set_solver|lia].
  - congruence.
Qed.
End free.

(** ** Taking a block *)

Section take.
Context (base lo : Z) (Hbase : 0 < base) (Hlo : base < lo).
Context (h : Z → header) (b q ps p s : Z) (r : list (Z * Z)).
Context (F : flist base lo h b ((q, ps) :: (p, s) :: r)) (Hs : 1 ≤ s).

Lemma second_in : lo ≤ p ∧ p + s ≤ b ∧ p ≠ base.
Proof. destruct (fl_in F p s) as [[? ?]|?]; [set_solver|lia|lia]. Qed.

(** No other block starts inside the second one. *)
Lemma second_alone a t : (a, t) ∈ (q, ps) :: r → ¬ p ≤ a < p + s.
Proof.
  intros Ha Hr. pose proof second_in as [? _]. destruct (fl_in F a t) as [[-> ->]|?]; [set_solver|lia|].
  destruct (rot_overlap _ a t p s a (fl_rot F)) as [-> ->]; [set_solver|set_solver|lia|lia|].
  pose proof (rot_nodup _ (fl_rot F)) as Hn. cbn in Hn. apply NoDup_cons in Hn as [H1 [H2 _]%NoDup_cons].
  apply elem_of_cons in Ha as [[= -> ->]|Ha]; [set_solver|]. apply H2, list_elem_of_fmap. by exists (p, s).
Qed.

Lemma linked_rest : linked h r q ∧ h q = Hdr p ps ∧ h p = Hdr (first r q) s ∧ ∀ a t, (a, t) ∈ r → a ≠ q.
Proof.
  destruct (fl_ring F) as [(H1 & H2 & H3) _]. split_and!; try done. intros a t Ha ->.
  pose proof (rot_nodup _ (fl_rot F)) as Hn. cbn in Hn. apply NoDup_cons in Hn as [Hn _]. apply Hn.
  apply elem_of_cons. right. apply list_elem_of_fmap. by exists (q, t).
Qed.

Lemma take_all h' :
  h' q = Hdr (first r q) ps → (∀ x, x ≠ q → h' x = h x) → flist base lo h' b ((q, ps) :: r).
Proof.
  intros Hq Hf. destruct linked_rest as (H1 & H2 & H3 & H4). split.
  - split; [|done]. cbn. split; [done|]. apply (linked_frame h); [|done]. intros a t Ha. apply Hf. by eapply H4.
  - by eapply rot_remove, F.
  - pose proof (fl_base F) as Hb0. assert ((base, 0) ≠ (p, s)) by (intros [= _ ?]; lia). set_solver.
  - intros a t Ha. apply (fl_in F). set_solver.
  - intros a t a' t' Ha Ha'. apply (fl_apart F a t a' t'); set_solver.
Qed.

Lemma take_part n h' :
  1 ≤ n < s → h' p = Hdr (first r q) (s - n) → (∀ x, x ≠ p → x ≠ p + (s - n) → h' x = h x) →
  flist base lo h' b ((q, ps) :: (p, s - n) :: r).
Proof.
  intros Hn Hp Hf. destruct linked_rest as (H1 & H2 & H3 & H4). pose proof second_in as (S1 & S2 & S3).
  assert (Hout : ∀ a t, (a, t) ∈ (q, ps) :: r → h' a = h a).
  { intros a t Ha. pose proof (second_alone a t Ha). apply Hf; lia. }
  assert (Hcase : ∀ a t, (a, t) ∈ (q, ps) :: (p, s - n) :: r → (a, t) = (p, s - n) ∨ (a, t) ∈ (q, ps) :: r) by set_solver.
  split.
  - split; [|done]. cbn. split; [rewrite (Hout q ps); [done|set_solver]|]. split; [done|]. apply (linked_frame h); [|done].
    intros a t Ha. apply (Hout a t). set_solver.
  - by eapply (rot_shrink _ _ s); [lia|apply F].
  - pose proof (fl_base F) as Hb0. assert ((base, 0) ≠ (p, s)) by (intros [= _ ?]; lia). set_solver.
  - intros a t [[= -> ->]|Ha]%Hcase; [right; lia|]. apply (fl_in F). set_solver.
  - intros a t a' t' [[= -> ->]|Ha]%Hcase [[= -> ->]|Ha']%Hcase Ht; [lia|..].
    + intros <-. apply (second_alone _ _ Ha'). lia.
    + apply (fl_apart F a t p s); set_solver.
    + apply (fl_apart F a t a' t'); set_solver.
Qed.
End take.

Lemma malloc_take_ok base lo m q ps p s r n :
  0 < base → base < lo → flist base lo (hd m) (brk m) ((q, ps) :: (p, s) :: r) → small_heap lo (brk m) → 1 ≤ n ≤ s →
  wp (malloc_take n q p) m (λ v m', ∃ a l', v = a + 1 ∧ flist base lo (hd m') (brk m) l' ∧ first l' 0 = freep m' ∧
    h_size (hd m' a) = n ∧ lo ≤ a ∧ a + n ≤ brk m ∧
    (∀ x, inb x ((q, ps) :: (p, s) :: r) ↔ inb x l' ∨ a ≤ x < a + n) ∧ (∀ x, inb x l' → ¬ a ≤ x < a + n) ∧
    (∀ x, ¬ inb x ((q, ps) :: (p, s) :: r) → x ≠ base → hd m' x = hd m x) ∧ brk m' = brk m).
Proof.
  intros Hbase Hlo F [Hsm1 Hsm2] Hn. assert (Hs : 1 ≤ s) by lia.
  destruct (second_in base lo Hbase Hlo _ _ _ _ _ _ _ F Hs) as (S1 & S2 & S3).
  destruct (linked_rest _ _ _ _ _ _ _ _ _ F) as (_ & Hq & Hp & _).
  assert (Hqin : q ≠ base → inb q ((q, ps) :: (p, s) :: r)).
  { intros Hqb. destruct (fl_in F q ps) as [[? _]|?]; [set_solver|done|]. apply inb_cons. lia. }
  assert (Hover : ∀ x, inb x ((q, ps) :: r) → ¬ p ≤ x < p + s).
  { intros x (a & t & Ha & Hx) Hx'. destruct (rot_overlap _ a t p s x (fl_rot F)) as [-> ->]; [set_solver..|done|done|].
    eapply second_alone; [done..|]. lia. }
  unfold malloc_take. apply wp_bind, wp_get_size. rewrite Hp. cbn [h_size]. apply wp_bind. destruct (Z.eqb_spec s n) as [->|Hne].
  - apply wp_bind, wp_get_ptr. rewrite Hp. cbn [h_ptr]. apply wp_bind, wp_set_ptr. intros h1 H1 H1'. rewrite Hq in H1.
    apply wp_ret, wp_bind, wp_modify, wp_ret. cbn [hd freep brk]. exists p, ((q, ps) :: r). split_and!; try done.
    + by eapply take_all.
    + rewrite H1'; [by rewrite Hp|]. intros ->. eapply (second_alone base lo Hbase Hlo); [done|done|apply elem_of_cons; by left|lia].
    + intros x. rewrite !inb_cons. tauto.
    + intros x Hx Hxb. apply H1'. intros ->. auto.
  - apply wp_bind, wp_set_size. rewrite u32_small by lia. intros h1 H1 H1'. rewrite Hp in H1. cbn [h_ptr] in H1.
    apply wp_bind, wp_get_size. cbn [hd]. rewrite H1. cbn [h_size]. apply wp_bind, wp_set_size. cbn [hd freep brk]. intros h2 H2 H2'.
    apply wp_ret, wp_bind, wp_modify, wp_ret. cbn [hd freep brk]. exists (p + (s - n)), ((q, ps) :: (p, s - n) :: r).
    split_and!; try done; try lia.
    + apply (take_part base lo) with (h := hd m); try done; [lia|..].
      * by rewrite H2' by lia.
      * intros x Hx Hx'. by rewrite H2', H1'.
    + by rewrite H2.
    + intros x. rewrite !inb_cons. assert (p ≤ x < p + s ↔ p ≤ x < p + (s - n) ∨ p + (s - n) ≤ x < p + (s - n) + n) as -> by lia. tauto.
    + intros x. rewrite inb_cons, inb_cons. intros Hx Hx'. assert (inb x ((q, ps) :: r)) as Hx2 by (rewrite inb_cons; tauto || (destruct Hx as [?|[?|?]]; [tauto|lia|tauto])).
      apply (Hover x Hx2). lia.
    + intros x Hx Hxb. rewrite !inb_cons in Hx. assert (x ≠ p ∧ x ≠ p + (s - n)) as [? ?] by (split; intros ->; apply Hx; right; left; lia).
      by rewrite H2', H1'.
Qed.

(** ** The heap *)

Section heap.
Context (base lo limit : Z) (Hbase : 0 < base) (Hlo : base < lo) (Hlimit : limit - lo < 2^27).

(** [x] lies in an allocated block; [al] maps their addresses to their sizes. *)
Definition ina (x : Z) (al : gmap Z Z) : Prop := ∃ a n, al !! a = Some n ∧ a ≤ x < a + n.

(** Every unit of the heap is in exactly one block, free or allocated. *)
Record heap (m : mst) (l : list (Z * Z)) (al : gmap Z Z) : Prop := {
  hp_list : flist base lo (hd m) (brk m) l;
  hp_freep : first l 0 = freep m;
  hp_brk : lo ≤ brk m ≤ limit;
  hp_al : ∀ a n, al !! a = Some n → h_size (hd m a) = n ∧ 1 ≤ n ∧ lo ≤ a ∧ a + n ≤ brk m;
  hp_cover : ∀ x, lo ≤ x < brk m → inb x l ∨ ina x al;
  hp_disj : ∀ x, inb x l → ¬ ina x al;
  hp_al_disj : ∀ a n a' n' x, al !! a = Some n → al !! a' = Some n' → a ≤ x < a + n → a' ≤ x < a' + n' → a = a'
}.

(** Memory in allocated blocks, headers included, is left alone. *)
Definition untouched (al : gmap Z Z) (m m' : mst) : Prop := ∀ x, ina x al → hd m' x = hd m x.

Lemma heap_small m l al : heap m l al → small_heap lo (brk m).
Proof. intros []. unfold small_heap. lia. Qed.

Lemma ina_insert x a n al : al !! a = None → ina x (<[a := n]> al) ↔ a ≤ x < a + n ∨ ina x al.
Proof.
  intros Ha. unfold ina. split.
  - intros (a' & n' & [[<- <-]|[? ?]]%lookup_insert_Some & Hx); [by left|]. right. by exists a', n'.
  - intros [Hx|(a' & n' & Ha' & Hx)].
    + exists a, n. by rewrite lookup_insert_eq.
    + exists a', n'. rewrite lookup_insert_ne; [done|]. congruence.
Qed.

Lemma ina_delete x a n al : al !! a = Some n → ina x al → ¬ a ≤ x < a + n → ina x (delete a al).
Proof.
  intros Ha (a' & n' & Ha' & Hx) Hn. exists a', n'. split; [|done]. rewrite lookup_delete_ne; [done|]. intros ->. congruence.
Qed.

Lemma ina_delete_1 x a al : ina x (delete a al) → ina x al.
Proof. intros (a' & n' & [? ?]%lookup_delete_Some & Hx). by exists a', n'. Qed.

(** An allocated block is clear of the free ones. *)
Lemma heap_clear m l al a n : heap m l al → al !! a = Some n → clear_of a n l.
Proof.
  intros H Ha b s Hb. destruct (hp_al _ _ _ H a n Ha) as (_ & Hn & Hla & _).
  destruct (fl_in (hp_list _ _ _ H) b s Hb) as [[-> ->]|Hs]; [left; lia|].
  destruct (decide (b + s ≤ a)) as [|H1]; [by left|]. destruct (decide (a + n ≤ b)) as [|H2]; [by right|]. exfalso.
  apply (hp_disj _ _ _ H (Z.max a b)).
  - exists b, s. split; [done|lia].
  - exists a, n. split; [done|lia].
Qed.

Lemma heap_free m l al a n :
  heap m l al → al !! a = Some n →
  wp (free (a + 1)) m (λ _ m', ∃ l', heap m' l' (delete a al) ∧ has_block l' n ∧
    untouched (delete a al) m m' ∧ brk m' = brk m).
Proof.
  intros H Ha. pose proof (hp_al _ _ _ H a n Ha) as (Hsz & Hn & Hla & Hend).
  eapply wp_mono; [apply (free_ok base lo Hbase Hlo m l a n); try done; [apply H|apply H|by eapply heap_small|by eapply heap_clear]|].
  intros [] m' (l' & F & Hf & Hbl & Hcov & Hfr & Hbrk). exists l'.
  assert (Hother : ∀ x, ina x (delete a al) → ¬ a ≤ x < a + n).
  { intros x (a' & n' & [Hne Ha']%lookup_delete_Some & Hx') Hx. apply Hne. by eapply (hp_al_disj _ _ _ H). }
  assert (Hun : untouched (delete a al) m m').
  { intros x Hx. pose proof (Hother x Hx). apply ina_delete_1 in Hx as Hx2. apply Hfr.
    - intros Hb. by apply (hp_disj _ _ _ H x).
    - destruct Hx2 as (a' & n' & (_ & ? & ? & _)%(hp_al _ _ _ H) & ?). lia.
    - lia. }
  split_and!; [|done..]. split; rewrite ?Hbrk; try done.
  - apply H.
  - intros a' n' Ha'. pose proof Ha' as [_ Ha2]%lookup_delete_Some.
    destruct (hp_al _ _ _ H a' n' Ha2) as (H1 & H2 & H3 & H4). rewrite Hun; [done|]. exists a', n'. split; [done|lia].
  - intros x Hx. rewrite Hcov. destruct (decide (a ≤ x < a + n)) as [|Hne]; [tauto|].
    destruct (hp_cover _ _ _ H x Hx) as [|Hx']; [tauto|]. right. by eapply ina_delete.
  - intros x. rewrite Hcov. intros [Hx|Hx] Hx'; [|by eapply Hother]. apply (hp_disj _ _ _ H x Hx). by eapply ina_delete_1.
  - intros a1 n1 a2 n2 x [_ H1]%lookup_delete_Some [_ H2]%lookup_delete_Some. by apply (hp_al_disj _ _ _ H).
Qed.

Lemma heap_take m l al q ps p s r n :
  heap m l al → flist base lo (hd m) (brk m) ((q, ps) :: (p, s) :: r) → (q, ps) :: (p, s) :: r ≡ₚ l → 1 ≤ n ≤ s →
  wp (malloc_take n q p) m (λ v m', ∃ l', al !! (v - 1) = None ∧ heap m' l' (<[v - 1 := n]> al) ∧
    untouched al m m' ∧ v ≠ 0).
Proof.
  intros H F HP Hn. eapply wp_mono; [by apply (malloc_take_ok base lo m q ps p s r n); [..|by eapply heap_small|]|].
  intros v m' (a & l' & -> & F' & Hf & Hsz & Ha & Hend & Hcov & Hdisj & Hfr & Hbrk). replace (a + 1 - 1) with a by lia.
  assert (Hinb : ∀ x, inb x ((q, ps) :: (p, s) :: r) ↔ inb x l) by (intros x; unfold inb; by setoid_rewrite HP).
  setoid_rewrite Hinb in Hcov. setoid_rewrite Hinb in Hfr.
  assert (Hnew : ∀ x, a ≤ x < a + n → ¬ ina x al) by (intros x Hx; apply (hp_disj _ _ _ H), Hcov; by right).
  assert (Hnone : al !! a = None).
  { destruct (al !! a) as [k|] eqn:E; [|done]. destruct (hp_al _ _ _ H a k E) as (_ & ? & _). exfalso.
    apply (Hnew a); [lia|]. exists a, k. split; [done|lia]. }
  assert (Hun : untouched al m m').
  { intros x Hx. apply Hfr; [intros Hb; by apply (hp_disj _ _ _ H x)|].
    destruct Hx as (a' & n' & (_ & ? & ? & _)%(hp_al _ _ _ H) & ?). lia. }
  exists l'. split_and!; [done| |done|lia]. split; rewrite ?Hbrk; try done.
  - apply H.
  - intros a' n' [[<- <-]|[Hne Ha']]%lookup_insert_Some; [split_and!; (done || lia)|].
    destruct (hp_al _ _ _ H a' n' Ha') as (H1 & H2 & H3 & H4). rewrite Hun; [done|]. exists a', n'. split; [done|lia].
  - intros x Hx. rewrite ina_insert by done. destruct (hp_cover _ _ _ H x Hx) as [Hb%Hcov|]; tauto.
  - intros x Hx. rewrite ina_insert by done. intros [Hx'|Hx']; [by eapply Hdisj|].
    apply (hp_disj _ _ _ H x); [|done]. apply Hcov. by left.
  - intros a1 n1 a2 n2 x [[<- <-]|[Hne1 H1]]%lookup_insert_Some [[<- <-]|[Hne2 H2]]%lookup_insert_Some Hx1 Hx2; [done|..].
    + exfalso. apply (Hnew x Hx1). by exists a2, n2.
    + exfalso. apply (Hnew x Hx2). by exists a1, n1.
    + by eapply (hp_al_disj _ _ _ H).
Qed.

(** New memory, as an allocated block that is then freed. *)
Lemma heap_grow m l al n h' :
  heap m l al → 1 ≤ n → brk m + n ≤ limit → h_size (h' (brk m)) = n → (∀ x, x ≠ brk m → h' x = hd m x) →
  heap (Mst h' (freep m) (brk m + n)) l (<[brk m := n]> al) ∧ al !! brk m = None.
Proof.
  intros H Hn Hle Hsz Hf. pose proof (hp_brk _ _ _ H).
  assert (Hnone : al !! brk m = None).
  { destruct (al !! brk m) as [k|] eqn:E; [|done]. destruct (hp_al _ _ _ H _ k E) as (_ & ? & ? & ?). lia. }
  assert (Hal : ∀ x, ina x al → x < brk m) by (intros x (a & k & (_ & _ & _ & ?)%(hp_al _ _ _ H) & ?); lia).
  assert (Hl : ∀ a s, (a, s) ∈ l → a ≠ brk m).
  { intros a s Ha. destruct (fl_in (hp_list _ _ _ H) a s Ha) as [[-> ->]|?]; lia. }
  split; [|done]. split; cbn [hd freep brk].
  - destruct (hp_list _ _ _ H) as [[R1 R2] ? ? Hin ?]. split; try done.
    + split; [|done]. apply (linked_frame (hd m)); [|done]. intros a s Ha. apply Hf. by eapply Hl.
    + intros a s Ha. destruct (Hin a s Ha); [by left|right; lia].
  - apply H.
  - lia.
  - intros a k [[<- <-]|[Hne Ha]]%lookup_insert_Some; [split_and!; (done || lia)|].
    destruct (hp_al _ _ _ H a k Ha) as (H1 & H2 & H3 & H4). rewrite Hf by done. split_and!; (done || lia).
  - intros x Hx. rewrite ina_insert by done. destruct (decide (x < brk m)); [|right; left; lia].
    destruct (hp_cover _ _ _ H x ltac:(lia)); tauto.
  - intros x Hx. rewrite ina_insert by done. intros [Hx'|Hx']; [|by apply (hp_disj _ _ _ H x)].
    destruct Hx as (a & s & Ha & ?). destruct (fl_in (hp_list _ _ _ H) a s Ha) as [[-> ->]|?]; lia.
  - intros a1 n1 a2 n2 x [[<- <-]|[Hne1 H1]]%lookup_insert_Some [[<- <-]|[Hne2 H2]]%lookup_insert_Some Hx1 Hx2; [done|..].
    + destruct (hp_al _ _ _ H _ _ H2) as (_ & _ & _ & ?). lia.
    + destruct (hp_al _ _ _ H _ _ H1) as (_ & _ & _ & ?). lia.
    + by eapply (hp_al_disj _ _ _ H).
Qed.

Lemma morecore_ok m l al nu :
  heap m l al → 1 ≤ nu < 2^27 →
  wp (morecore limit nu) m (λ v m',
    v = 0 ∧ m' = m ∧ limit < brk m + Z.max 4096 nu ∨
    v ≠ 0 ∧ ∃ l', heap m' l' al ∧ freep m' = v ∧ has_block l' nu ∧ untouched al m m' ∧ brk m' = brk m + Z.max 4096 nu).
Proof.
  intros H Hnu. unfold morecore. set (n := if nu <? 4096 then 4096 else nu).
  assert (En : n = Z.max 4096 nu) by (unfold n; destruct (Z.ltb_spec nu 4096); lia). clearbody n. subst n.
  set (n := Z.max 4096 nu). assert (Hn : 4096 ≤ n < 2^27) by lia. pose proof (hp_brk _ _ _ H).
  unfold SIZEOF_HEADER. rewrite i32_small by lia. apply wp_bind. unfold sbrk. apply wp_bind, wp_get.
  unfold SIZEOF_HEADER. rewrite Z.div_mul by done. rewrite (proj2 (Z.leb_le _ _)) by lia.
  destruct (Z.ltb_spec limit (brk m + n)) as [Hlt|Hle]; [apply wp_ret; cbn; by left|].
  apply wp_bind, wp_modify, wp_ret. rewrite (proj2 (Z.eqb_neq _ _)) by lia.
  apply wp_bind, wp_set_size. cbn [hd freep brk]. intros h' H1 H2.
  destruct (heap_grow m l al n h') as [H' Hnone]; [done|lia|lia|by rewrite H1|done|].
  apply wp_bind. eapply wp_mono; [by eapply (heap_free _ _ _ (brk m) n); [|apply lookup_insert_eq]|].
  intros [] m' (l' & H3 & Hbl & Hun & Hbrk). apply wp_gets. right. rewrite delete_insert_id in H3, Hun by done. split.
  - rewrite <- (hp_freep _ _ _ H3). destruct (hp_list _ _ _ H3) as [_ _ _ Hin _]. destruct l' as [|[a s] l'].
    + destruct Hbl as (a & s & []%elem_of_nil & _).
    + cbn. destruct (Hin a s) as [[-> _]|?]; [set_solver|lia|lia].
  - exists l'. split_and!; [done|done| | |done].
    + destruct Hbl as (a & s & Ha & ?). exists a, s. split; [done|lia].
    + intros x Hx. rewrite Hun by done. apply H2. destruct Hx as (a & k & (_ & _ & _ & ?)%(hp_al _ _ _ H) & ?). lia.
Qed.

(** ** The search for a block *)

Lemma fits_second m q ps r n :
  flist base lo (hd m) (brk m) ((q, ps) :: r) → 1 ≤ n ≤ h_size (hd m (first r q)) →
  ∃ p s r', r = (p, s) :: r' ∧ n ≤ s.
Proof.
  intros F Hn. destruct (fl_ring F) as [Hr _]. destruct r as [|[p s] r].
  - cbn in Hn. rewrite (linked_size _ _ _ q ps Hr) in Hn by set_solver. pose proof (fl_base F) as [= <- <-]%list_elem_of_singleton. lia.
  - cbn in Hn. rewrite (linked_size _ _ _ p s Hr) in Hn by set_solver. exists p, s, r. split; [done|lia].
Qed.

Lemma malloc_walk n m Q pre : ∀ (fuel : nat) q ps r t post,
  1 ≤ n → flist base lo (hd m) (brk m) ((q, ps) :: r) → r ++ [(q, ps)] = pre ++ t :: post →
  (∀ e, e ∈ pre → e.1 ≠ freep m) → (length pre ≤ fuel)%nat →
  (∀ q' ps' p' s' r', flist base lo (hd m) (brk m) ((q', ps') :: (p', s') :: r') →
     (q', ps') :: (p', s') :: r' ≡ₚ (q, ps) :: r → 1 ≤ n ≤ s' → wp (malloc_take n q' p') m Q) →
  (∀ q' ps' r', flist base lo (hd m) (brk m) ((q', ps') :: r') → (q', ps') :: r' ≡ₚ (q, ps) :: r → first r' q' = t.1 →
     wp (loop (fuel - length pre) (malloc_turn limit n) (q', t.1)) m Q) →
  wp (loop fuel (malloc_turn limit n) (q, first r q)) m Q.
Proof.
  induction pre as [|[a k] pre IH]; intros fuel q ps r t post Hn F E Hpre Hfuel Htake Hat.
  - rewrite Nat.sub_0_r in Hat. replace (first r q) with t.1.
    + apply (Hat q ps r); [done|done|]. destruct r as [|[]]; cbn in E; by injection E as <- _.
    + destruct r as [|[]]; cbn in E; by injection E as <- _.
  - destruct r as [|[p s] r]; [destruct pre; cbn in E; congruence|]. injection E as -> -> E. cbn [first].
    destruct fuel as [|fuel]; [cbn in Hfuel; lia|]. cbn [loop]. apply wp_bind. unfold malloc_turn at 1.
    destruct (fl_ring F) as [Hr _]. apply wp_bind, wp_get_size. rewrite (linked_size _ _ _ a k Hr) by set_solver.
    destruct (Z.leb_spec n k) as [Hle|Hgt].
    + apply wp_bind. eapply wp_mono; [by apply (Htake q ps a k r)|]. intros v m' Hv. by apply wp_ret.
    + apply wp_bind, wp_gets. rewrite (proj2 (Z.eqb_neq _ _)) by (apply (Hpre (a, k)); set_solver).
      apply wp_bind, wp_get_ptr, wp_ret. pose proof F as F'. apply flist_rotate in F'. cbn [app] in F'.
      rewrite (flist_ptr _ _ _ _ _ _ _ F'). cbn [h_ptr].
      assert (HP : (a, k) :: r ++ [(q, ps)] ≡ₚ (q, ps) :: (a, k) :: r) by solve_Permutation.
      apply (IH fuel a k (r ++ [(q, ps)]) t (post ++ [(a, k)])); [done|done|by rewrite E, <- app_assoc| |cbn in Hfuel; lia|..].
      * intros e He. apply Hpre. set_solver.
      * intros q' ps' p' s' r' G1 G2. apply (Htake q' ps' p' s' r' G1). by rewrite G2.
      * intros q' ps' r' G1 G2 G3. apply (Hat q' ps' r' G1); [by rewrite G2|done].
Qed.

(** What a call of malloc does to the heap. *)
Definition malloced (n : Z) (al : gmap Z Z) (m : mst) (v : Z) (m' : mst) : Prop :=
  untouched al m m' ∧
  (v = 0 ∧ limit < brk m + Z.max 4096 n ∧ (∃ l', heap m' l' al) ∨
   v ≠ 0 ∧ al !! (v - 1) = None ∧ ∃ l', heap m' l' (<[v - 1 := n]> al)).

Lemma heap_take_malloced n al m0 m l q ps p s r :
  untouched al m0 m → heap m l al → flist base lo (hd m) (brk m) ((q, ps) :: (p, s) :: r) →
  (q, ps) :: (p, s) :: r ≡ₚ l → 1 ≤ n ≤ s → wp (malloc_take n q p) m (malloced n al m0).
Proof.
  intros Hun H F HP Hn. eapply wp_mono; [by apply (heap_take m l al q ps p s r n)|].
  intros v m' (l' & H1 & H2 & H3 & H4). split; [intros x Hx; by rewrite H3, Hun|]. right. split_and!; [done|done|by exists l'].
Qed.

(** The freed block that starts the ring is where the search ends. *)
Lemma freep_last m l al q ps r : heap m l al → l = (q, ps) :: r → freep m = q ∧ ∀ e, e ∈ r → e.1 ≠ freep m.
Proof.
  intros H ->. pose proof (hp_freep _ _ _ H) as Hf. cbn in Hf. split; [done|]. intros e He E.
  pose proof (rot_nodup _ (fl_rot (hp_list _ _ _ H))) as Hn. cbn in Hn. apply NoDup_cons in Hn as [Hn _]. apply Hn.
  rewrite Hf, <- E. apply list_elem_of_fmap. by exists e.
Qed.

(** Around the ring once, with a block in it that is large enough. *)
Lemma malloc_second n al m0 m l (fuel : nat) :
  untouched al m0 m → heap m l al → 1 ≤ n → has_block l n → (length l ≤ fuel)%nat →
  wp (loop fuel (malloc_turn limit n) (freep m, h_ptr (hd m (freep m)))) m (malloced n al m0).
Proof.
  intros Hun H Hn (a & s & Ha & Hle) Hfuel. pose proof (hp_list _ _ _ H) as F.
  destruct l as [|[q ps] r]; [by apply elem_of_nil in Ha|]. destruct (freep_last m _ al q ps r H eq_refl) as [Hf Hlast].
  rewrite Hf, (flist_ptr _ _ _ _ _ _ _ F). cbn [h_ptr].
  assert (Ha' : (a, s) ∈ r ++ [(q, ps)]) by set_solver. apply list_elem_of_split in Ha' as (pre & post & E).
  assert (Hpre : ∀ e, e ∈ pre → e ∈ r ∧ (length pre < length ((q, ps) :: r))%nat).
  { intros e He. assert (length (r ++ [(q, ps)]) = length (pre ++ (a, s) :: post)) as El by congruence.
    rewrite !length_app in El. cbn in El |- *. split; [|lia]. assert (pre = take (length pre) r) as Ep; [|rewrite <- (take_drop (length pre) r), <- Ep; set_solver].
    transitivity (take (length pre) (r ++ [(q, ps)])); [rewrite E, take_app_length; done|]. rewrite take_app_le; [done|lia]. }
  assert (Hlen : (length pre < fuel)%nat).
  { destruct pre as [|e pre]; [cbn in *; lia|]. destruct (Hpre e ltac:(set_solver)). lia. }
  apply (malloc_walk n m _ pre fuel q ps r (a, s) post); try done; [|lia|..].
  - intros e He. apply Hlast. by apply Hpre.
  - intros q' ps' p' s' r' F' HP Hs. by apply (heap_take_malloced n al m0 m ((q, ps) :: r) q' ps' p' s' r').
  - intros q' ps' r' F' HP Ef. destruct (fuel - length pre)%nat as [|k] eqn:Ek; [lia|]. cbn [loop fst]. apply wp_bind.
    unfold malloc_turn at 1. apply wp_bind, wp_get_size.
    assert (h_size (hd m a) = s) as Hsz by (destruct (fl_ring F') as [Hr _]; apply (linked_size _ _ _ a s Hr); rewrite HP; set_solver).
    rewrite Hsz, (proj2 (Z.leb_le _ _)) by done. destruct (fits_second m q' ps' r' n F') as (p' & s' & r'' & -> & Hs').
    { cbn [fst] in Ef. rewrite Ef. lia. }
    cbn in Ef. subst p'. apply wp_bind. eapply wp_mono; [by apply (heap_take_malloced n al m0 m ((q, ps) :: r) q' ps' a s' r'')|].
    intros v m' Hv. by apply wp_ret.
Qed.

Lemma malloc_loop_ok n al m l (fuel : nat) :
  heap m l al → 1 ≤ n < 2^27 → (2 * S (Z.to_nat (brk m + Z.max 4096 n)) ≤ fuel)%nat →
  wp (loop fuel (malloc_turn limit n) (freep m, h_ptr (hd m (freep m)))) m (malloced n al m).
Proof.
  intros H Hn Hfuel. pose proof (hp_list _ _ _ H) as F. destruct (hp_brk _ _ _ H) as [Hb1 Hb2].
  assert (Hlen : (length l ≤ S (Z.to_nat (brk m)))%nat) by (eapply (flist_length base lo); eassumption).
  destruct l as [|[q ps] r]; [by destruct (fl_ring F)|]. destruct (freep_last m _ al q ps r H eq_refl) as [Hf Hlast].
  rewrite Hf, (flist_ptr _ _ _ _ _ _ _ F). cbn [h_ptr]. cbn in Hlen.
  apply (malloc_walk n m _ r fuel q ps r (q, ps) []); try done; [lia|lia|..].
  - intros q' ps' p' s' r' F' HP Hs. by apply (heap_take_malloced n al m m ((q, ps) :: r) q' ps' p' s' r').
  - intros q' ps' r' F' HP Ef. destruct (fuel - length r)%nat as [|k] eqn:Ek; [lia|]. cbn [loop fst] in *. apply wp_bind.
    unfold malloc_turn at 1. apply wp_bind, wp_get_size. destruct (Z.leb_spec n (h_size (hd m q))) as [Hle|Hgt].
    + destruct (fits_second m q' ps' r' n F') as (p' & s' & r'' & -> & Hs'); [rewrite Ef; lia|]. cbn in Ef. subst p'.
      apply wp_bind. eapply wp_mono; [apply (heap_take_malloced n al m m ((q, ps) :: r) q' ps' q s' r''); (done || lia)|].
      intros v m' Hv. by apply wp_ret.
    + apply wp_bind, wp_gets. rewrite Hf, Z.eqb_refl. apply wp_bind. eapply wp_mono; [by apply (morecore_ok m ((q, ps) :: r) al n)|].
      intros v m' [(-> & -> & Hlim)|(Hv & l' & H' & Hf' & Hbl & Hun & Hbrk)].
      * apply wp_ret. split; [by intros x Hx|]. left. split_and!; [done|done|by eexists].
      * rewrite (proj2 (Z.eqb_neq _ _)) by done. apply wp_bind, wp_get_ptr, wp_ret. subst v.
        apply (malloc_second n al m m' l'); [done|done|lia|done|]. pose proof (hp_brk _ _ _ H').
        transitivity (S (Z.to_nat (brk m'))); [|lia]. eapply (flist_length base lo); [eassumption|eassumption|apply H'|lia].
Qed.

(** Before the first call the list does not exist. *)
Definition heap_ok (m : mst) (al : gmap Z Z) : Prop :=
  freep m = 0 ∧ al = ∅ ∧ brk m = lo ∨ ∃ l, heap m l al.

Lemma heap_init h : lo ≤ limit → h base = Hdr base 0 → heap (Mst h base lo) [(base, 0)] ∅.
Proof.
  intros Hl Hh. split; cbn [hd freep brk]; try done.
  - split; [done| |set_solver|..].
    + exists [], [(base, 0)]. split_and!; [done..|]. by repeat constructor.
    + intros a s [= -> ->]%list_elem_of_singleton. by left.
    + intros a s a' s' [= -> ->]%list_elem_of_singleton. lia.
  - lia.
  - intros x _ (a & n & [=] & _).
Qed.

Lemma malloc_ok m al nbytes :
  lo ≤ limit → heap_ok m al → 0 ≤ nbytes ≤ 2^31 - 64 →
  wp (malloc base limit nbytes) m (λ v m', malloced ((nbytes + 15) `div` 16 + 1) al m v m').
Proof.
  intros Hl H Hnb. unfold malloc, SIZEOF_HEADER. replace (nbytes + 16 - 1) with (nbytes + 15) by lia.
  set (n := (nbytes + 15) `div` 16 + 1). assert (Hn : 1 ≤ n < 2^27) by (unfold n; Z.to_euclidean_division_equations; lia). rewrite u32_small by lia.
  clearbody n. apply wp_bind, wp_gets, wp_bind. destruct H as [(Hf & -> & Hb)|[l H]].
  - rewrite Hf, Z.eqb_refl. apply wp_bind, wp_set_ptr. intros h1 H1 H1'. apply wp_bind, wp_modify, wp_bind, wp_set_size.
    cbn [hd freep brk]. intros h2 H2 H2'. apply wp_ret, wp_bind, wp_get_ptr, wp_bind, wp_gets. cbn [hd freep brk].
    rewrite H1 in H2. cbn in H2. rewrite Hb. pose proof (heap_init h2 Hl H2) as H.
    eapply wp_mono; [apply (malloc_loop_ok n ∅ (Mst h2 base lo) [(base, 0)]); [done|done|cbn; lia]|].
    intros v m' [_ Hm]. cbn [brk] in Hm. split; [|by rewrite Hb]. intros x (a & k & [=] & _).
  - assert (freep m ≠ 0) as Hne.
    { rewrite <- (hp_freep _ _ _ H). pose proof (hp_list _ _ _ H) as F. destruct l as [|[a s] l]; [by destruct (fl_ring F)|].
      cbn. destruct (fl_in F a s) as [[-> _]|?]; [set_solver|lia|lia]. }
    rewrite (proj2 (Z.eqb_neq _ _)) by done. apply wp_ret, wp_bind, wp_get_ptr, wp_bind, wp_gets.
    apply (malloc_loop_ok n al m l); [done|done|lia].
Qed.
End heap.

(** C35. malloc and free manage the heap without overlap, loss or
    interference. With the heap partitioned into the free blocks of the
    circular list and the allocated blocks [al], malloc of up to 2^31 - 64
    bytes ends; it returns 0, with nothing allocated, only when sbrk has no
    memory left for the request, and otherwise a new block with room for the
    bytes that the partition now has as allocated. free of an allocated block
    ends and returns it to the free blocks, merged with its neighbours. No
    unit of any other allocated block is written. *)
Theorem malloc_free_partition base lo limit m al :
  0 < base → base < lo → lo ≤ limit → limit - lo < 2^27 → heap_ok base lo limit m al →
  (∀ nbytes, 0 ≤ nbytes ≤ 2^31 - 64 →
    ∃ v m', malloc base limit nbytes m = Done v m' ∧ untouched al m m' ∧
      (v = 0 ∧ heap_ok base lo limit m' al ∧ limit < brk m + Z.max 4096 ((nbytes + 15) `div` 16 + 1) ∨
       ∃ n, nbytes ≤ (n - 1) * SIZEOF_HEADER ∧ al !! (v - 1) = None ∧ heap_ok base lo limit m' (<[v - 1 := n]> al))) ∧
  (∀ a n, al !! a = Some n →
    ∃ m', free (a + 1) m = Done tt m' ∧ heap_ok base lo limit m' (delete a al) ∧ untouched (delete a al) m m').
Proof.
  intros H1 H2 H3 H4 H. split.
  - intros nbytes Hnb. pose proof (malloc_ok base lo limit H1 H2 H4 m al nbytes H3 H Hnb) as Hm.
    apply wp_done in Hm as (v & m' & Hrun & Hun & Hm). exists v, m'. split_and!; [done|done|].
    destruct Hm as [(-> & Hlim & l' & Hl)|(_ & Hnone & l' & Hl)]; [left|right].
    + split_and!; [done|right; by exists l'|done].
    + eexists. split_and!; [|done|right; by exists l']. unfold SIZEOF_HEADER. Z.to_euclidean_division_equations. lia.
  - intros a n Ha. destruct H as [(_ & -> & _)|[l H]]; [done|].
    pose proof (heap_free base lo limit H1 H2 H4 m l al a n H Ha) as Hm.
    apply wp_done in Hm as ([] & m' & Hrun & l' & Hl & _ & Hun & _). exists m'. split_and!; [done|right; by exists l'|done].
Qed.

Definition ex_mst : mst := Mst (λ _, Hdr 0 0) 0 1024.

Lemma malloc_free_partition_witness :
  ∃ v m', malloc 512 100000 1000 ex_mst = Done v m' ∧ ∃ n, 1000 ≤ (n - 1) * SIZEOF_HEADER ∧ heap_ok 512 1024 100000 m' {[v - 1 := n]}.
Proof.
  destruct (malloc_free_partition 512 1024 100000 ex_mst ∅) as [H _]; [lia|lia|lia|lia|by left|].
  destruct (H 1000) as (v & m' & Hrun & _ & [(_ & _ & Hlim)|(n & Hn & _ & Hok)]); [lia|by vm_compute in Hlim|].
  exists v, m'. split; [exact Hrun|]. by exists n.
Defined.

(** The size of a request is cut to the [int] argument of sbrk: a request for
    2^32 - 1 bytes gets one unit, and malloc returns it as a block of
    2^28 + 1 units. *)
Lemma malloc_huge_unbacked :
  ∃ v m', malloc 512 100000 (2^32 - 1) ex_mst = Done v m' ∧ v ≠ 0 ∧ h_size (hd m' (v - 1)) = 2^28 + 1 ∧ brk m' = brk ex_mst + 1.
Proof.
  set (h := <[512 := Hdr 512 0]> (<[512 := Hdr 512 0]> (λ _, Hdr 0 0)) : Z → header).
  assert (∃ k, (2 * S (Z.to_nat (1024 + Z.max 4096 (2^28 + 1))))%nat = S (S (S k))) as [k Hk].
  { exists (2 * S (Z.to_nat (1024 + Z.max 4096 (2^28 + 1))) - 3)%nat. lia. }
  assert (malloc 512 100000 (2^32 - 1) ex_mst =
    loop (S (S (S k))) (malloc_turn 100000 (2^28 + 1)) (512, 512) (Mst h 512 1024)) as -> by (rewrite <- Hk; reflexivity).
  clear Hk. eexists _, _. split; [vm_compute; reflexivity|]. by vm_compute.
Qed.
