(* ===== verification/User.v ===== *)
(** * What a user program sees of the kernel

    A process is a table of descriptors. The calls that change it are
    functions on the table, as kernel/sysfile.c does them: a new descriptor is
    the lowest free one (Fcntl.free_fd, the search of fdalloc). What else the
    kernel answers, success or failure, is given by [os]. A program that only
    starts other programs is the tree of what its processes do. *)

From S2P Require Import Prelude Fcntl.
From stdpp Require Import strings.

(** What a descriptor stands for. A pipe is named by the process that made
    it; a process is named by its path in the tree of forks. *)
Definition pname : Type := list nat.
Inductive desc :=
| DFile (path : list Z) (mode : Z)
| DPipeRead (p : pname)
| DPipeWrite (p : pname).

Definition table : Type := list (option desc).

Definition fd_close (fd : Z) (o : table) : table := <[Z.to_nat fd := None]> o.

Definition fd_new (d : desc) (o : table) : option (Z * table) :=
  match free_fd o 0 with
  | Some fd => Some (fd, <[Z.to_nat fd := Some d]> o)
  | None => None
  end.

(** dup(fd), where the result is not looked at. *)
Definition fd_dup (fd : Z) (o : table) : table :=
  match o !! Z.to_nat fd with
  | Some (Some d) =>
      match fd_new d o with
      | Some (_, o) => o
      | None => o
      end
  | _ => o
  end.

(** pipe(p) of process [me]: [p[0]], [p[1]] and the table. *)
Definition fd_pipe (me : pname) (o : table) : option (Z * Z * table) :=
  match fd_new (DPipeRead me) o with
  | Some (fd0, o1) =>
      match fd_new (DPipeWrite me) o1 with
      | Some (fd1, o2) => Some (fd0, fd1, o2)
      | None => None
      end
  | None => None
  end.

(** Which calls succeed. Every call has an answer of its own: a process calls
    exec and pipe at most once, the other calls are counted in each process. *)
Record os := Os {
  can_open : pname → nat → list Z → Z → bool;   (* the nth open of a process *)
  can_exec : pname → list Z → bool;
  can_fork : pname → nat → bool;                (* the nth fork *)
  can_pipe : pname → bool;
  can_chdir : pname → nat → list Z → bool       (* the nth chdir *)
}.

(** What a process does, with [T] for what is known of its descriptors. *)
Inductive trace (T : Type) :=
| Exits (code : Z)
| Becomes (argv : list (list Z)) (fds : T)
| Forks (child parent : trace T)
| Waits (fds : T) (next : trace T)
| Prints (fd : Z) (msg : list Z) (next : trace T)
| Chdirs (path : list Z) (next : trace T).
Arguments Exits {T} code.
Arguments Becomes {T} argv fds.
Arguments Forks {T} child parent.
Arguments Waits {T} fds next.
Arguments Prints {T} fd msg next.
Arguments Chdirs {T} path next.

(** The programs that the processes of a tree become, in the order of the
    forks, with their descriptors. *)
Fixpoint execs {T} (t : trace T) : list (list (list Z) * T) :=
  match t with
  | Exits _ => []
  | Becomes argv fds => [(argv, fds)]
  | Forks c p => execs c ++ execs p
  | Waits _ t | Prints _ _ t | Chdirs _ t => execs t
  end.

(** The descriptors of the processes that wait. *)
Fixpoint waits {T} (t : trace T) : list T :=
  match t with
  | Exits _ | Becomes _ _ => []
  | Forks c p => waits c ++ waits p
  | Waits fds t => fds :: waits t
  | Prints _ _ t | Chdirs _ t => waits t
  end.
