(* ===== verification/Sh.v ===== *)
(** * The shell's parser, user/sh.c

    A command line is the list of its bytes before the NUL; [*ps] is an index
    into it and the parser's state. Commands hold words as the pairs of
    indices that the C code keeps as [q] and [eq]; nulterminate ends them in
    the buffer. The shell's panic prints a message and exits. *)

From S2P Require Import Prelude Fcntl.

Definition MAXARGS : nat := 10.

(** A command, with words of type [W]. *)
Inductive cmd (W : Type) :=
| ExecCmd (argv : list W)
| RedirCmd (c : cmd W) (file : W) (mode fd : Z)
| PipeCmd (left right : cmd W)
| ListCmd (left right : cmd W)
| BackCmd (c : cmd W).
Arguments ExecCmd {W} argv.
Arguments RedirCmd {W} c file mode fd.
Arguments PipeCmd {W} left right.
Arguments ListCmd {W} left right.
Arguments BackCmd {W} c.

(** A word in the buffer: from [q] up to [eq]. *)
Definition span : Type := nat * nat.

Definition whitespace : list Z := [32; 9; 13; 10; 11].
Definition symbols : list Z := [60; 124; 62; 38; 59; 40; 41].   (* <|>&;() *)

(** strchr(s, c) != 0, for a string without NUL: it never finds a NUL. *)
Definition strchr (s : list Z) (c : Z) : bool := bool_decide (c ∈ s).

Section parse.
(** The line; [es] is its length. *)
Variable buf : list Z.
Definition es : nat := length buf.
Definition byte (i : nat) : Z := default 0 (buf !! i).

(** [while(s < es && f( *s )) s++], from [s] on, where [n] bytes are left. *)
Fixpoint skip_while (f : Z → bool) (n s : nat) : nat :=
  match n with
  | O => s
  | S n => if f (byte s) then skip_while f n (S s) else s
  end.
Definition skip (f : Z → bool) (s : nat) : nat := skip_while f (es - s) s.

Definition skip_space (s : nat) : nat := skip (strchr whitespace) s.
Definition in_word (c : Z) : bool := negb (strchr whitespace c) && negb (strchr symbols c).

(** The token's code and its end. *)
Definition token_at (s : nat) : Z * nat :=
  let c := byte s in
  if c =? 0 then (0, s)
  else if (c =? 124) || (c =? 40) || (c =? 41) || (c =? 59) || (c =? 38) || (c =? 60) then (c, S s)
  else if c =? 62 then
    if byte (S s) =? 62 then (43, S (S s)) else (62, S s)
  else (97, skip in_word s).

(** Returns the code, [q] and [eq]. *)
Definition gettoken : M nat (Z * span) :=
  let* i := get in
  let q := skip_space i in
  let '(ret_, eq) := token_at q in
  modify (λ _, skip_space eq) ;;;
  ret (ret_, (q, eq)).

Definition peek (toks : list Z) : M nat bool :=
  let* i := get in
  let s := skip_space i in
  modify (λ _, s) ;;;
  ret (negb (byte s =? 0) && strchr toks (byte s)).

Definition parseredirs (fuel : nat) (c : cmd span) : M nat (cmd span) :=
  loop fuel (λ c,
    let* p := peek [60; 62] in
    if (p : bool) then
      let* t := gettoken in
      let* w := gettoken in
      if negb (w.1 =? 97) then panic "missing file for redirection"
      else
        ret (inl (match t.1 with
                  | 60 => RedirCmd c w.2 O_RDONLY 0
                  | 62 => RedirCmd c w.2 (Z.lor (Z.lor O_WRONLY O_CREATE) O_TRUNC) 1
                  | 43 => RedirCmd c w.2 (Z.lor O_WRONLY O_CREATE) 1
                  | _ => c
                  end))
    else ret (inr c)) c.

(** [cmd->argv[argc] = q]: the exec command stays where it is inside the
    redirections that were put around it. *)
Fixpoint add_arg (w : span) (c : cmd span) : cmd span :=
  match c with
  | ExecCmd argv => ExecCmd (argv ++ [w])
  | RedirCmd c f m fd => RedirCmd (add_arg w c) f m fd
  | c => c
  end.

(** The loop of parseexec: the number of arguments and the command. *)
Definition parseexec_turn (fuel : nat) (x : nat * cmd span) : M nat ((nat * cmd span) + cmd span) :=
  let '(argc, r) := x in
  let* stop := peek [124; 41; 38; 59] in
  if (stop : bool) then ret (inr r)
  else
    let* t := gettoken in
    if t.1 =? 0 then ret (inr r)
    else if negb (t.1 =? 97) then panic "syntax"
    else
      let r := add_arg t.2 r in
      let argc := S argc in
      if (MAXARGS <=? argc)%nat then panic "too many args"
      else
        let* r := parseredirs fuel r in
        ret (inl (argc, r)).

(** [parseline] and [parsepipe] with what they call; [fuel] bounds the depth
    of the recursion and the iterations of each loop. *)
Fixpoint parseline (fuel : nat) : M nat (cmd span) :=
  match fuel with
  | O => λ _, OutOfFuel
  | S fuel =>
      let* c := parsepipe fuel in
      let* c := loop (S fuel) (λ c,
        let* p := peek [38] in
        if (p : bool) then
          let* _ := gettoken in
          ret (inl (BackCmd c))
        else ret (inr c)) c in
      let* p := peek [59] in
      if (p : bool) then
        let* _ := gettoken in
        let* c' := parseline fuel in
        ret (ListCmd c c')
      else ret c
  end
with parsepipe (fuel : nat) : M nat (cmd span) :=
  match fuel with
  | O => λ _, OutOfFuel
  | S fuel =>
      let* c := parseexec fuel in
      let* p := peek [124] in
      if (p : bool) then
        let* _ := gettoken in
        let* c' := parsepipe fuel in
        ret (PipeCmd c c')
      else ret c
  end
with parseexec (fuel : nat) : M nat (cmd span) :=
  match fuel with
  | O => λ _, OutOfFuel
  | S fuel =>
      let* b := peek [40] in
      if (b : bool) then parseblock fuel
      else
        let* r := parseredirs (S fuel) (ExecCmd []) in
        loop (S fuel) (parseexec_turn (S fuel)) (0%nat, r)
  end
with parseblock (fuel : nat) : M nat (cmd span) :=
  match fuel with
  | O => λ _, OutOfFuel
  | S fuel =>
      let* b := peek [40] in
      if negb b then panic "parseblock"
      else
        let* _ := gettoken in
        let* c := parseline fuel in
        let* b := peek [41] in
        if negb b then panic "syntax - missing )"
        else
          let* _ := gettoken in
          parseredirs (S fuel) c
  end.

(** Every nested call has moved the index or is one of four. *)
Definition parse_fuel : nat := 4 * S es.

(** The bytes at the ends of the words become NUL. *)
Fixpoint ends (c : cmd span) : list nat :=
  match c with
  | ExecCmd argv => map snd argv
  | RedirCmd c f _ _ => ends c ++ [f.2]
  | PipeCmd l r | ListCmd l r => ends l ++ ends r
  | BackCmd c => ends c
  end.
Definition nulterminate (c : cmd span) : list Z := foldl (λ b i, <[i := 0]> b) (buf ++ [0]) (ends c).

(** The tree and the buffer after nulterminate. The message with the
    leftovers of the line is left out. *)
Definition parsecmd : M nat (cmd span * list Z) :=
  let* c := parseline parse_fuel in
  let* _ := peek [] in
  let* s := get in
  if negb (s =? es)%nat then panic "syntax" else ret (c, nulterminate c).
End parse.

(** The C string at [q] of a buffer. *)
Fixpoint until_nul (l : list Z) : list Z :=
  match l with
  | [] => []
  | c :: l => if c =? 0 then [] else c :: until_nul l
  end.
Definition c_string (b : list Z) (q : nat) : list Z := until_nul (drop q b).

(** The command with its words as strings. *)
Fixpoint words (b : list Z) (c : cmd span) : cmd (list Z) :=
  match c with
  | ExecCmd argv => ExecCmd (map (λ w, c_string b w.1) argv)
  | RedirCmd c f m fd => RedirCmd (words b c) (c_string b f.1) m fd
  | PipeCmd l r => PipeCmd (words b l) (words b r)
  | ListCmd l r => ListCmd (words b l) (words b r)
  | BackCmd c => BackCmd (words b c)
  end.
