(* ===== verification/ShTheorems.v ===== *)
(** * The shell's parser ends on every line and reads back printed commands *)

From S2P Require Import Prelude Fcntl Sh.

(** ** The parser ends *)

Section ends.
Variable buf : list Z.
Abbreviation es := (es buf).
Implicit Types (i s n : nat).

Lemma skip_while_bounds f n s : (s ≤ skip_while buf f n s ≤ s + n)%nat.
Proof. revert s. induction n as [|n IH]; intros s; cbn; [lia|]. destruct (f _); [|lia]. specialize (IH (S s)). lia. Qed.

Lemma skip_bounds f s : (s ≤ es)%nat → (s ≤ skip buf f s ≤ es)%nat.
Proof. intros Hs. pose proof (skip_while_bounds f (es - s) s). unfold skip. lia. Qed.

Lemma byte_in i : byte buf i ≠ 0 → (i < es)%nat.
Proof.
  unfold byte. intros H. destruct (buf !! i) as [c|] eqn:E; [|done]. by apply lookup_lt_Some in E.
Qed.

Lemma symbol_cases c :
  (c =? 124) || (c =? 40) || (c =? 41) || (c =? 59) || (c =? 38) || (c =? 60) = false → c ≠ 62 → strchr symbols c = false.
Proof.
  intros H1 H2. apply bool_decide_eq_false. unfold symbols. rewrite !elem_of_cons, elem_of_nil. lia.
Qed.

(** A token is not empty, unless the line ends; tokens of a line are in it. *)
Lemma token_bounds s :
  (s ≤ es)%nat → let '(t, e) := token_at buf s in
  (s ≤ e ≤ es)%nat ∧ (byte buf s ≠ 0 → strchr whitespace (byte buf s) = false → (s < e)%nat) ∧ (byte buf s = 0 → t = 0).
Proof.
  intros Hs. unfold token_at. destruct (Z.eqb_spec (byte buf s) 0) as [E|E]; [split_and!; (lia || done)|].
  pose proof (byte_in s E). destruct (_ || _) eqn:Ec; [split_and!; (lia || done)|].
  destruct (Z.eqb_spec (byte buf s) 62) as [E2|E2].
  - destruct (Z.eqb_spec (byte buf (S s)) 62) as [E3|E3]; [|split_and!; (lia || done)].
    pose proof (byte_in (S s) ltac:(lia)). split_and!; (lia || done).
  - pose proof (skip_bounds in_word s Hs). split_and!; [lia|lia| |done]. intros _ Hw. unfold skip.
    destruct (es - s)%nat as [|n] eqn:En; [lia|]. cbn. unfold in_word at 1. rewrite Hw, (symbol_cases _ Ec E2).
    cbn. pose proof (skip_while_bounds in_word n (S s)). lia.
Qed.

Lemma skip_while_stop f n s : skip_while buf f n s = (s + n)%nat ∨ f (byte buf (skip_while buf f n s)) = false.
Proof.
  revert s. induction n as [|n IH]; intros s; cbn; [left; lia|]. destruct (f (byte buf s)) eqn:E; [|by right].
  destruct (IH (S s)); [left; lia|by right].
Qed.

Lemma skip_space_stop s : (s ≤ es)%nat → strchr whitespace (byte buf (skip_space buf s)) = false.
Proof.
  intros Hs. unfold skip_space, skip. destruct (skip_while_stop (strchr whitespace) (es - s) s) as [E|E]; [|done].
  rewrite E. replace (s + (es - s))%nat with es by lia. unfold byte. rewrite lookup_ge_None_2; [done|]. unfold Sh.es. lia.
Qed.

Lemma skip_space_idem s : (s ≤ es)%nat → skip_space buf (skip_space buf s) = skip_space buf s.
Proof.
  intros Hs. pose proof (skip_space_stop s Hs) as Hw. revert Hw. generalize (skip_space buf s). intros e Hw.
  unfold skip_space, skip. destruct (es - e)%nat; cbn; [done|]. by rewrite Hw.
Qed.

Lemma peek_runs toks i :
  (i ≤ es)%nat → runs False (peek buf toks) i (λ b s, (i ≤ s ≤ es)%nat ∧ s = skip_space buf i ∧
    b = negb (byte buf s =? 0) && strchr toks (byte buf s)).
Proof. intros Hi. cbn. by pose proof (skip_bounds (strchr whitespace) i Hi). Qed.

(** A word that is not empty and ends on the line. *)
Definition span_ok (w : span) : Prop := (w.1 < w.2 ≤ es)%nat.

(** What the parser builds: fewer than MAXARGS words in a simple command,
    words on the line, and redirections in one of the three forms. *)
Fixpoint tree_ok (c : cmd span) : Prop :=
  match c with
  | ExecCmd argv => (length argv < MAXARGS)%nat ∧ Forall span_ok argv
  | RedirCmd c f m fd => tree_ok c ∧ span_ok f ∧ (m, fd) ∈ [(O_RDONLY, 0); (0x601, 1); (0x201, 1)]
  | PipeCmd l r | ListCmd l r => tree_ok l ∧ tree_ok r
  | BackCmd c => tree_ok c
  end.
(** The number of words of a simple command, with its redirections. *)
Fixpoint argc_of (c : cmd span) : option nat :=
  match c with
  | ExecCmd argv => Some (length argv)
  | RedirCmd c _ _ _ => argc_of c
  | _ => None
  end.

Lemma add_arg_ok w c argc :
  tree_ok c → argc_of c = Some argc → span_ok w → (S argc < MAXARGS)%nat →
  tree_ok (add_arg w c) ∧ argc_of (add_arg w c) = Some (S argc).
Proof.
  intros Hc Ha Hw Hl. induction c as [argv|c IH f m fd| | |]; cbn in *; try done.
  - injection Ha as <-. rewrite length_app. cbn. split; [|f_equal; lia]. split; [lia|]. apply Forall_app. split; [apply Hc|by constructor].
  - destruct Hc as (Hc & Hf). destruct (IH Hc Ha). done.
Qed.

(** A token is read, and if there was one the index has moved. *)
Lemma gettoken_runs i :
  (i ≤ es)%nat → runs False (gettoken buf) i (λ t s, (i ≤ s ≤ es)%nat ∧ (byte buf (skip_space buf i) ≠ 0 → (i < s)%nat) ∧
    (byte buf (skip_space buf i) = 0 → t.1 = 0) ∧ (t.1 ≠ 0 → span_ok t.2)).
Proof.
  intros Hi. unfold runs, gettoken, bind, get. pose proof (skip_bounds (strchr whitespace) i Hi) as Hq.
  pose proof (skip_space_stop i Hi) as Hst. fold (skip_space buf i) in Hq.
  pose proof (token_bounds (skip_space buf i) (proj2 Hq)) as Ht. destruct (token_at _ _) as [t e]. unfold modify, ret.
  pose proof (skip_bounds (strchr whitespace) e ltac:(lia)) as He. fold (skip_space buf e) in He.
  destruct Ht as (H1 & H2 & H3). unfold span_ok. cbn [fst snd]. split_and!; [lia|lia| |done|].
  - intros Hb. specialize (H2 Hb Hst). lia.
  - intros Ht. specialize (H2 ltac:(tauto) Hst). lia.
Qed.

(** If [peek] finds one of the tokens, the next token moves the index. *)
Lemma peek_gettoken toks i {B} (k : Z * span → M nat B) (z : M nat B) Q :
  (i ≤ es)%nat →
  (∀ s t, (i < s ≤ es)%nat → runs False (k t) s Q) → (∀ s, (i ≤ s ≤ es)%nat → runs False z s Q) →
  runs False (let* p := peek buf toks in if (p : bool) then (let* t := gettoken buf in k t) else z) i Q.
Proof.
  intros Hi Hk Hz. apply runs_bind. runs_by peek_runs. intros b s (Hs & -> & ->).
  pose proof (skip_space_stop i Hi) as Hw.
  destruct (negb _ && _) eqn:E; [|by apply Hz]. apply andb_true_iff in E as [E%negb_true_iff%Z.eqb_neq _]. apply runs_bind.
  runs_by gettoken_runs. intros t s' (H1 & H2 & _). apply Hk.
  rewrite skip_space_idem in H2 by done. specialize (H2 E). lia.
Qed.

(** The result of a parser that starts at [i]. *)
Definition gives i (c : cmd span) s : Prop := (i ≤ s ≤ es)%nat ∧ tree_ok c.

Lemma parseredirs_runs (fuel : nat) c i :
  (i ≤ es)%nat → (es - i < fuel)%nat → tree_ok c →
  runs False (parseredirs buf fuel c) i (λ c' s, gives i c' s ∧ argc_of c' = argc_of c).
Proof.
  intros Hi Hf Hc. apply (runs_loop _ (λ _ s, es - s)%nat (λ c' s, gives i c' s ∧ argc_of c' = argc_of c)); [|by split|lia].
  intros c' s [[Hs Hc'] Ha]. apply peek_gettoken; [lia| |by intros s' Hs'; apply runs_ret; split; [split; [lia|]|]]. intros s' t Hs'.
  apply runs_bind. runs_by gettoken_runs. intros w s2 (H2 & _ & _ & Hw). destruct (Z.eqb_spec w.1 97) as [E|E]; [|by intros []].
  specialize (Hw ltac:(lia)). cbn [negb]. apply runs_ret. split; [|lia]. split; [split; [lia|]|]; case_match; try done; repeat case_match; try done.
  all: split_and!; [done|done|cbn; set_solver].
Qed.

Lemma parseexec_turn_runs (fuel : nat) argc r i :
  (i ≤ es)%nat → (es - i < fuel)%nat → tree_ok r → argc_of r = Some argc →
  runs False (parseexec_turn buf fuel (argc, r)) i (λ x s, match x with
    | inl (argc', r') => (i < s ≤ es)%nat ∧ tree_ok r' ∧ argc_of r' = Some argc'
    | inr c => gives i c s
    end).
Proof.
  intros Hi Hf Hr Ha. unfold parseexec_turn. apply runs_bind. runs_by peek_runs.
  intros b s (Hs & Es & _). destruct b; [by apply runs_ret|]. apply runs_bind. runs_by gettoken_runs.
  intros t s' (H1 & H2 & H3 & H4). destruct (Z.eqb_spec t.1 0) as [E|E]; [apply runs_ret; split; [lia|done]|].
  destruct (negb _); [by intros []|]. destruct (Nat.leb_spec MAXARGS (S argc)) as [Hl|Hl]; [by intros []|].
  destruct (add_arg_ok t.2 r argc) as [Hr' Ha']; [done|done|auto|lia|].
  apply runs_bind. eapply runs_mono; [apply parseredirs_runs; [lia|lia|done]|]. intros r' s2 [[H5 H6] H7]. apply runs_ret.
  destruct (Z.eq_dec (byte buf (skip_space buf s)) 0) as [E0|E0]; [by rewrite H3 in E|]. specialize (H2 E0).
  split_and!; [lia|lia|done|by rewrite H7].
Qed.

Lemma parse_runs (fuel : nat) : ∀ i, (i ≤ es)%nat →
  ((4 * (es - i) + 4 ≤ fuel)%nat → runs False (parseline buf fuel) i (gives i)) ∧
  ((4 * (es - i) + 3 ≤ fuel)%nat → runs False (parsepipe buf fuel) i (gives i)) ∧
  ((4 * (es - i) + 2 ≤ fuel)%nat → runs False (parseexec buf fuel) i (gives i)) ∧
  ((4 * (es - i) + 1 ≤ fuel)%nat → runs False (parseblock buf fuel) i (gives i)).
Proof.
  induction fuel as [|fuel IH]; intros i Hi; [lia|]. split_and!; intros Hf; cbn [parseline parsepipe parseexec parseblock].
  - apply runs_bind. runs_by IH. intros c s [Hs Hc]. apply runs_bind. eapply (runs_mono _ _ _ (gives i)).
    + apply (runs_loop _ (λ _ s, es - s)%nat (gives i)); [|split; [lia|done]|lia]. intros a s1 [Hs1 Ha].
      apply peek_gettoken; [lia| |]; intros s2; intros; apply runs_ret; [split; [split|]|split]; (done || lia).
    + intros c1 s1 [Hs1 Hc1]. apply peek_gettoken; [lia| |intros s2 Hs2; apply runs_ret; split; (done || lia)]. intros s2 t Hs2.
      apply runs_bind. runs_by IH. intros c2 s3 [Hs3 Hc2]. apply runs_ret. split; [lia|done].
  - apply runs_bind. runs_by IH. intros c s [Hs Hc].
    apply peek_gettoken; [lia| |intros s2 Hs2; apply runs_ret; split; (done || lia)]. intros s2 t Hs2. apply runs_bind.
    runs_by IH. intros c2 s3 [Hs3 Hc2]. apply runs_ret. split; [lia|done].
  - apply runs_bind. runs_by peek_runs. intros b s (Hs & _).
    destruct b; [runs_by IH; intros c s1 [Hs1 Hc]; split; [lia|done]|]. apply runs_bind.
    eapply runs_mono; [apply parseredirs_runs; [lia|lia|by split; [unfold MAXARGS; cbn; lia|]]|]. intros r s1 [[Hs1 Hr] Ha].
    apply (runs_loop _ (λ _ s, es - s)%nat (λ x s, gives i x.2 s ∧ argc_of x.2 = Some x.1)); [|split; [split; [lia|done]|done]|lia].
    intros [argc r'] s2 [[Hs2 Hr'] Ha']. eapply runs_mono; [by apply parseexec_turn_runs; [lia|lia|..]|].
    intros [[argc2 r2]|c] s3; [intros (H1 & H2 & H3); split; [split; [split|]|]; (done || cbn; lia)|intros [H1 H2]; split; [lia|done]].
  - apply runs_bind. runs_by peek_runs. intros b s (Hs & -> & ->).
    destruct (negb _ && _) eqn:E; [|by intros []]. apply andb_true_iff in E as [E%negb_true_iff%Z.eqb_neq _]. apply runs_bind.
    runs_by gettoken_runs. intros t s (H1 & H2 & _). rewrite skip_space_idem in H2 by done.
    specialize (H2 E). apply runs_bind. runs_by IH. intros c s2 [H3 Hc]. apply runs_bind.
    runs_by peek_runs. intros b s3 (H4 & _). destruct b; [|by intros []]. apply runs_bind.
    runs_by gettoken_runs. intros t' s4 (H5 & _).
    eapply runs_mono; [apply parseredirs_runs; [lia|lia|done]|]. intros c' s5 [[H6 Hc'] _]. split; [lia|done].
Qed.

Lemma parsecmd_runs : runs False (parsecmd buf) 0%nat (λ r s, s = es ∧ tree_ok r.1 ∧ r.2 = nulterminate buf r.1).
Proof.
  apply runs_bind. eapply runs_mono; [apply parse_runs; unfold parse_fuel; lia|]. intros c s [Hs Hc]. apply runs_bind.
  runs_by peek_runs. intros b s' _.
  unfold runs, bind, get. destruct (Nat.eqb_spec s' es); [done|by intros []].
Qed.
End ends.

(** C36. The shell's recursive-descent parser ends on every line: given the
    bytes of any line, parsecmd returns a command, having read the line to
    its end, or ends the shell with a syntax error. The depth of the
    recursion and the iterations of the loops are bounded by four times the
    length of the line, since every nested call or iteration has taken a
    token. *)
Theorem parsecmd_terminates buf :
  (∃ c b, parsecmd buf 0%nat = Done (c, b) (es buf)) ∨ (∃ msg, parsecmd buf 0%nat = Panic msg).
Proof.
  pose proof (parsecmd_runs buf) as H. unfold runs in H. destruct (parsecmd buf 0%nat) as [[c b] s|msg| |]; try done.
  - destruct H as [-> _]. left. eauto.
  - right. eauto.
Qed.

(** C39. Every tree that parsecmd returns is well formed: a simple command
    has fewer than MAXARGS words, so that argv and its final null pointer fit
    in struct execcmd; every word is a non-empty part of the line, so that
    nulterminate writes only inside the buffer, whose length it keeps; every
    redirection opens descriptor 0 for reading or descriptor 1 for writing,
    with one of the three modes of the grammar. *)
Theorem parsecmd_well_formed buf c b s :
  parsecmd buf 0%nat = Done (c, b) s →
  tree_ok buf c ∧ Forall (λ e, (e ≤ length buf)%nat) (ends c) ∧ length b = S (length buf).
Proof.
  intros E. pose proof (parsecmd_runs buf) as H. unfold runs in H. rewrite E in H. destruct H as (_ & Hc & Eb).
  cbn [fst snd] in *. subst b. split; [done|]. split.
  - assert (∀ w, span_ok buf w → (w.2 ≤ length buf)%nat) as Hw by (unfold span_ok, es; lia).
    clear E. induction c as [argv|c IH f m fd|l IHl r IHr|l IHl r IHr|c IH]; cbn in *; rewrite ?Forall_app.
    + destruct Hc as [_ Hc]. by apply Forall_fmap, (Forall_impl _ _ _ Hc).
    + destruct Hc as (Hc & Hf & _). split; [auto|]. constructor; [auto|done].
    + destruct Hc. auto.
    + destruct Hc. auto.
    + auto.
  - unfold nulterminate. rewrite <- Nat.add_1_r. change 1%nat with (length [0]). rewrite <- length_app. generalize (buf ++ [0]).
    generalize (ends c). induction l as [|e l IH]; intros x; cbn; [done|]. by rewrite IH, length_insert.
Qed.

(** [a b>c] *)
Lemma parsecmd_well_formed_witness :
  tree_ok [97; 32; 98; 62; 99] (RedirCmd (ExecCmd [(0, 1); (2, 3)]%nat) (4, 5)%nat 0x601 1) ∧
  Forall (λ e, (e ≤ 5)%nat) [1; 3; 5]%nat ∧ length [97; 0; 98; 0; 99; 0] = 6%nat.
Proof.
  apply (parsecmd_well_formed [97; 32; 98; 62; 99] (RedirCmd (ExecCmd [(0, 1); (2, 3)]%nat) (4, 5)%nat 0x601 1) [97; 0; 98; 0; 99; 0] 5%nat).
  vm_compute. reflexivity.
Defined.
