(* ===== verification/ShPrint.v ===== *)
(** * Commands of the shell as text, and that the parser reads it back *)

From S2P Require Import Prelude Fcntl Sh ShTheorems.

(** ** The text of a command *)

(** A redirection: the file, the mode and the descriptor. *)
Definition redir : Type := list Z * (Z * Z).

Definition op (mode : Z) : list Z :=
  if mode =? O_RDONLY then [60] else if mode =? 0x601 then [62] else [62; 62].
Definition paren (b : bool) (s : list Z) : list Z := if b then [40] ++ s ++ [41] else s.
Definition print_words (ws : list (list Z)) : list Z := concat (map (λ w, w ++ [32]) ws).
Definition print_redir (r : redir) : list Z := op r.2.1 ++ r.1 ++ [32].

(** Level 0: the text of a parseexec; 1: parsepipe; 2: parsepipe and
    ampersands; 3: parseline. What is of a higher level is in parentheses. *)
Fixpoint print (k : nat) (c : cmd (list Z)) : list Z :=
  match c with
  | ExecCmd argv => print_words argv
  | RedirCmd c f m fd => print 0 c ++ print_redir (f, (m, fd))
  | PipeCmd l r => paren (k <? 1)%nat (print 0 l ++ [124] ++ print 1 r)
  | BackCmd c => paren (k <? 2)%nat (print 2 c ++ [38])
  | ListCmd l r => paren (k <? 3)%nat (print 2 l ++ [59] ++ print 3 r)
  end.

Definition word_byte (c : Z) : Prop := c ≠ 0 ∧ in_word c = true.
Definition word_ok (w : list Z) : Prop := w ≠ [] ∧ Forall word_byte w.
Definition redir_ok (r : redir) : Prop :=
  word_ok r.1 ∧ r.2 ∈ [(O_RDONLY, 0); (0x601, 1); (0x201, 1)].

Fixpoint cmd_ok (c : cmd (list Z)) : Prop :=
  match c with
  | ExecCmd argv => (length argv < MAXARGS)%nat ∧ Forall word_ok argv
  | RedirCmd c f m fd => cmd_ok c ∧ redir_ok (f, (m, fd))
  | PipeCmd l r | ListCmd l r => cmd_ok l ∧ cmd_ok r
  | BackCmd c => cmd_ok c
  end.

Definition wrap (rs : list redir) (c : cmd (list Z)) : cmd (list Z) :=
  foldl (λ c r, RedirCmd c r.1 r.2.1 r.2.2) c rs.

Lemma print_wrap rs c : print 0 (wrap rs c) = print 0 c ++ concat (map print_redir rs).
Proof.
  revert c. induction rs as [|[f [m fd]] rs IH]; intros c; [by cbn; rewrite app_nil_r|].
  change (wrap _ c) with (wrap rs (RedirCmd c f m fd)). rewrite IH. cbn. by rewrite <- app_assoc.
Qed.

(** ** The text that is left *)

Fixpoint strip (l : list Z) : list Z :=
  match l with
  | [] => []
  | c :: l' => if strchr whitespace c then strip l' else l
  end.
Definition first (t : list Z) : Z := default 0 (head (strip t)).

Lemma strip_idem l : strip (strip l) = strip l.
Proof. induction l as [|c l IH]; cbn; [done|]. destruct (strchr _ c) eqn:E; [done|]. cbn. by rewrite E. Qed.

Section read.
Variable buf : list Z.
Abbreviation es := (es buf).
Implicit Types (i s n : nat).

(** From index [i] on the line is [t], white space aside. *)
Definition here i (t : list Z) : Prop := (i ≤ es)%nat ∧ strip (drop i buf) = strip t.

(** The span is the word [w], which something that is not part of a word follows. *)
Definition word_at (sp : span) (w : list Z) : Prop :=
  drop sp.1 buf = w ++ drop sp.2 buf ∧ Forall word_byte w ∧ in_word (byte buf sp.2) = false.

Lemma byte_drop i : byte buf i = default 0 (head (drop i buf)).
Proof. unfold byte. by rewrite <- (Nat.add_0_r i) at 1; rewrite <- lookup_drop, head_lookup. Qed.

Lemma drop_byte i : (i < es)%nat → drop i buf = byte buf i :: drop (S i) buf.
Proof.
  intros Hi. destruct (lookup_lt_is_Some_2 buf i Hi) as [c E]. unfold byte. rewrite E. by apply drop_S.
Qed.

Lemma drop_skip_space i : (i ≤ es)%nat → drop (skip_space buf i) buf = strip (drop i buf).
Proof.
  unfold skip_space, skip. intros Hi. remember (es - i)%nat as n eqn:En. revert i Hi En.
  induction n as [|n IH]; intros i Hi En; cbn.
  - rewrite drop_ge by (unfold Sh.es in *; lia). done.
  - rewrite (drop_byte i) by lia. cbn. destruct (strchr _ _) eqn:E; [apply IH; lia|]. apply drop_byte. lia.
Qed.

Lemma here_first i t : here i t → byte buf (skip_space buf i) = first t.
Proof. intros [Hi E]. by rewrite byte_drop, drop_skip_space, E. Qed.

Lemma here_skip i t : here i t → (i ≤ skip_space buf i)%nat ∧ here (skip_space buf i) t.
Proof.
  intros [Hi E]. pose proof (skip_bounds buf (strchr whitespace) i Hi) as H. fold (skip_space buf i) in H.
  split; [lia|]. split; [lia|]. by rewrite drop_skip_space, strip_idem.
Qed.

Lemma wp_peek toks i t :
  here i t → wp (peek buf toks) i (λ b s, b = negb (first t =? 0) && strchr toks (first t) ∧ (i ≤ s)%nat ∧ here s t).
Proof.
  intros H. unfold wp, peek, bind, get, modify, ret. rewrite (here_first _ _ H). split; [done|]. by apply here_skip.
Qed.

(** ** Tokens *)

Lemma drop_cons_inv i c t : drop i buf = c :: t → byte buf i = c ∧ drop (S i) buf = t ∧ (i < es)%nat.
Proof.
  intros E. assert (i < es)%nat as Hi.
  { apply Nat.nle_gt. intros Hi. rewrite drop_ge in E; [done|]. unfold Sh.es in Hi. lia. }
  rewrite drop_byte in E by done. by injection E as -> ->.
Qed.

Lemma wp_gettoken i t0 code e t :
  here i t0 → token_at buf (skip_space buf i) = (code, e) → (e ≤ es)%nat → strip (drop e buf) = strip t →
  wp (gettoken buf) i (λ r s, r = (code, (skip_space buf i, e)) ∧ (i ≤ s)%nat ∧ (code ≠ 0 → (i < s)%nat) ∧ here s t).
Proof.
  intros H Ht He Ed. pose proof (gettoken_runs buf i (proj1 H)) as Hs. revert Hs.
  unfold runs, wp, gettoken, bind, get. rewrite Ht. cbn. intros (H1 & H2 & H3 & _). split; [done|]. split; [lia|]. split.
  - intros Hc. destruct (Z.eq_dec (byte buf (skip_space buf i)) 0) as [E|E]; [by rewrite H3 in Hc|by apply H2].
  - by apply here_skip.
Qed.

Lemma here_cons i c t : here i (c :: t) → strchr whitespace c = false → drop (skip_space buf i) buf = c :: t.
Proof. intros [Hi E] Hc. rewrite drop_skip_space, E by done. cbn. by rewrite Hc. Qed.

Lemma wp_symbol c i t :
  c ∈ [124; 40; 41; 59; 38; 60] → here i (c :: t) → wp (gettoken buf) i (λ r s, r.1 = c ∧ (i < s)%nat ∧ here s t).
Proof.
  intros Hc H. assert (strchr whitespace c = false ∧ c ≠ 0 ∧
    (c =? 124) || (c =? 40) || (c =? 41) || (c =? 59) || (c =? 38) || (c =? 60) = true) as (Hw & H0 & Hs).
  { set_unfold in Hc. destruct_or! Hc; subst c; done. }
  destruct (drop_cons_inv _ _ _ (here_cons _ _ _ H Hw)) as (Eb & Ed & Hi).
  eapply wp_mono; [apply (wp_gettoken _ _ c (S (skip_space buf i)) t H)|].
  - unfold token_at. by rewrite Eb, Hs, (proj2 (Z.eqb_neq _ _) H0).
  - lia.
  - by rewrite Ed.
  - intros r s (-> & _ & H1 & H2). auto.
Qed.

Lemma wp_gt i t :
  default 0 (head t) ≠ 62 → here i (62 :: t) →
  wp (gettoken buf) i (λ r s, r.1 = 62 ∧ (i < s)%nat ∧ here s t).
Proof.
  intros Ht H. destruct (drop_cons_inv _ _ _ (here_cons _ _ _ H eq_refl)) as (Eb & Ed & Hi).
  eapply wp_mono; [apply (wp_gettoken _ _ 62 (S (skip_space buf i)) t H)|].
  - unfold token_at. rewrite Eb. cbn. by rewrite byte_drop, Ed, (proj2 (Z.eqb_neq _ _) Ht).
  - lia.
  - by rewrite Ed.
  - intros r s (-> & _ & H1 & H2). split_and!; [done|by apply H1|done].
Qed.

Lemma wp_gtgt i t :
  here i (62 :: 62 :: t) → wp (gettoken buf) i (λ r s, r.1 = 43 ∧ (i < s)%nat ∧ here s t).
Proof.
  intros H. destruct (drop_cons_inv _ _ _ (here_cons _ _ _ H eq_refl)) as (Eb & Ed & Hi).
  destruct (drop_cons_inv _ _ _ Ed) as (Eb2 & Ed2 & Hi2).
  eapply wp_mono; [apply (wp_gettoken _ _ 43 (S (S (skip_space buf i))) t H)|].
  - unfold token_at. by rewrite Eb, Eb2.
  - lia.
  - by rewrite Ed2.
  - intros r s (-> & _ & H1 & H2). split_and!; [done|by apply H1|done].
Qed.

Lemma skip_word w c t i :
  drop i buf = w ++ c :: t → Forall word_byte w → in_word c = false → skip buf in_word i = (i + length w)%nat.
Proof.
  unfold skip. intros Ed Hw Hc. remember (es - i)%nat as n eqn:En. revert i n Ed En.
  induction Hw as [|b w [_ Hb] _ IH]; intros i n Ed En; apply drop_cons_inv in Ed as (Eb & Ed & Hi);
    (destruct n as [|n]; [lia|]); cbn [skip_while]; rewrite Eb.
  - rewrite Hc. cbn. lia.
  - rewrite Hb, (IH (S i)) by (done || lia). cbn. lia.
Qed.

Lemma wp_word w i t :
  word_ok w → here i (w ++ 32 :: t) →
  wp (gettoken buf) i (λ r s, r.1 = 97 ∧ word_at r.2 w ∧ (i < s)%nat ∧ here s t).
Proof.
  intros [Hne Hw] H. destruct w as [|c w]; [done|]. pose proof (Forall_inv Hw) as [H0 Hc].
  apply andb_true_iff in Hc as [Hsp%negb_true_iff Hsy%negb_true_iff]. pose proof (here_cons _ _ _ H Hsp) as Ed.
  destruct (drop_cons_inv _ _ _ Ed) as (Eb & _ & Hi). pose proof (skip_word (c :: w) 32 t _ Ed Hw eq_refl) as Es.
  assert (drop (skip_space buf i + length (c :: w)) buf = 32 :: t) as Ed2.
  { rewrite <- drop_drop, Ed. apply (drop_app_length (c :: w)). }
  destruct (drop_cons_inv _ _ _ Ed2) as (Eb2 & _ & Hi2).
  eapply wp_mono; [apply (wp_gettoken _ _ 97 (skip_space buf i + length (c :: w)) t H)|].
  - unfold token_at. rewrite Eb, Es, (proj2 (Z.eqb_neq _ _) H0).
    apply bool_decide_eq_false in Hsy. unfold symbols in Hsy. set_unfold in Hsy. rewrite (proj2 (Z.eqb_neq c 62)) by lia.
    by replace (_ || _) with false by lia.
  - lia.
  - by rewrite Ed2.
  - intros r s (-> & _ & H1 & H2). split_and!; [done| |by apply H1|done]. split_and!; [|done|].
    + cbn [fst snd]. by rewrite Ed2, Ed.
    + cbn [fst snd]. by rewrite Eb2.
Qed.

Lemma wp_end i t : first t = 0 → here i t → wp (gettoken buf) i (λ r s, r.1 = 0 ∧ (i ≤ s)%nat ∧ here s t).
Proof.
  intros Hf H. destruct (here_skip _ _ H) as [_ [Hq Eq]].
  eapply wp_mono; [apply (wp_gettoken _ _ 0 (skip_space buf i) t H)|].
  - unfold token_at. by rewrite (here_first _ _ H), Hf.
  - done.
  - done.
  - intros r s (-> & H1 & _ & H2). auto.
Qed.

(** ** Redirections and arguments *)

(** The tree of spans is the command, word by word. *)
Inductive matches : cmd span → cmd (list Z) → Prop :=
| matches_exec ws argv : Forall2 word_at ws argv → matches (ExecCmd ws) (ExecCmd argv)
| matches_redir c' c w f m fd : matches c' c → word_at w f → matches (RedirCmd c' w m fd) (RedirCmd c f m fd)
| matches_pipe l' l r' r : matches l' l → matches r' r → matches (PipeCmd l' r') (PipeCmd l r)
| matches_list l' l r' r : matches l' l → matches r' r → matches (ListCmd l' r') (ListCmd l r)
| matches_back c' c : matches c' c → matches (BackCmd c') (BackCmd c).

(** What the parse of [c] from [i] gives, before the text [t]. *)
Definition parsed i (t : list Z) (c : cmd (list Z)) (r : cmd span) s : Prop :=
  (i ≤ s)%nat ∧ here s t ∧ matches r c.

Lemma peek_no toks i t {B} (k1 k2 : M nat B) Q :
  here i t → negb (first t =? 0) && strchr toks (first t) = false →
  (∀ s, (i ≤ s)%nat → here s t → wp k2 s Q) →
  wp (let* p := peek buf toks in if (p : bool) then k1 else k2) i Q.
Proof.
  intros H E Hk. apply wp_bind. eapply wp_mono; [by apply wp_peek|]. intros b s (-> & Hs & Ht). rewrite E. auto.
Qed.

Lemma peek_yes toks i t {B} (k1 k2 : M nat B) Q :
  here i t → negb (first t =? 0) && strchr toks (first t) = true →
  (∀ s, (i ≤ s)%nat → here s t → wp k1 s Q) →
  wp (let* p := peek buf toks in if (p : bool) then k1 else k2) i Q.
Proof.
  intros H E Hk. apply wp_bind. eapply wp_mono; [by apply wp_peek|]. intros b s (-> & Hs & Ht). rewrite E. auto.
Qed.

Lemma first_cons c t : strchr whitespace c = false → first (c :: t) = c.
Proof. intros E. unfold first. cbn. by rewrite E. Qed.

Lemma word_head w t : word_ok w → ∃ c w', w ++ t = c :: w' ∧ word_byte c.
Proof. intros [Hne Hw]. destruct w as [|c w]; [done|]. exists c, (w ++ t). split; [done|]. by inversion Hw. Qed.

Lemma first_word w t : word_ok w → word_byte (first (w ++ t)).
Proof.
  intros H. destruct (word_head w t H) as (c & w' & -> & Hc). rewrite first_cons; [done|].
  destruct Hc as [_ Hc]. by apply andb_true_iff in Hc as [Hc%negb_true_iff _].
Qed.

(** A byte of a word is none of the symbols. *)
Lemma word_byte_no toks c : word_byte c → toks ⊆ symbols → negb (c =? 0) && strchr toks c = false.
Proof.
  intros [_ [_ Hc%negb_true_iff]%andb_true_iff] Hs. apply bool_decide_eq_false in Hc.
  apply andb_false_iff. right. apply bool_decide_eq_false. set_solver.
Qed.

(** The operator token of a redirection. *)
Lemma wp_op r i t :
  redir_ok r → here i (op r.2.1 ++ r.1 ++ 32 :: t) →
  wp (gettoken buf) i (λ o s, (i < s)%nat ∧ here s (r.1 ++ 32 :: t) ∧ ∀ c w,
    match o.1 with
    | 60 => RedirCmd c w O_RDONLY 0
    | 62 => RedirCmd c w (Z.lor (Z.lor O_WRONLY O_CREATE) O_TRUNC) 1
    | 43 => RedirCmd c w (Z.lor O_WRONLY O_CREATE) 1
    | _ => c
    end = RedirCmd (W := span) c w r.2.1 r.2.2).
Proof.
  destruct r as [f [m fd]]. intros [Hf Hr] H. cbn [fst snd] in *. set_unfold in Hr. destruct_or! Hr; injection Hr as -> ->.
  - eapply wp_mono; [apply (wp_symbol 60); [set_solver|exact H]|]. intros [o sp] s (E & H1 & H2). cbn in E. subst o. by split_and!.
  - eapply wp_mono; [apply wp_gt; [|exact H]|].
    + destruct (word_head f (32 :: t) Hf) as (c & w' & -> & Hc). cbn. intros ->. by destruct Hc.
    + intros [o sp] s (E & H1 & H2). cbn in E. subst o. by split_and!.
  - eapply wp_mono; [apply wp_gtgt; exact H|]. intros [o sp] s (E & H1 & H2). cbn in E. subst o. by split_and!.
Qed.

Lemma first_op m t : first (op m ++ t) ∈ [60; 62].
Proof. unfold op. destruct (m =? O_RDONLY); [set_solver|]. destruct (m =? _); set_solver. Qed.

Definition redirs_text (rs : list redir) : list Z := concat (map print_redir rs).

Lemma redirs_text_cons r rs t : redirs_text (r :: rs) ++ t = op r.2.1 ++ r.1 ++ 32 :: redirs_text rs ++ t.
Proof. unfold redirs_text. cbn. unfold print_redir at 1. by rewrite <- !app_assoc. Qed.

Lemma print_words_cons w ws t : print_words (w :: ws) ++ t = w ++ 32 :: print_words ws ++ t.
Proof. unfold print_words. cbn. by rewrite <- !app_assoc. Qed.

Lemma wp_parseredirs rs : Forall redir_ok rs → ∀ fuel c' c i t,
  here i (redirs_text rs ++ t) → negb (first t =? 0) && strchr [60; 62] (first t) = false → matches c' c →
  (es - i < fuel)%nat → wp (parseredirs buf fuel c') i (parsed i t (wrap rs c)).
Proof.
  intros Hrs. unfold parseredirs. induction Hrs as [|r rs Hr Hrs IH]; intros fuel c' c i t H Ht Hm Hf;
    (destruct fuel as [|fuel]; [lia|]); cbn [loop]; apply wp_bind.
  - eapply peek_no; [exact H|done|]. intros s Hs Hh. apply wp_ret, wp_ret. by split_and!.
  - rewrite redirs_text_cons in H. eapply peek_yes; [exact H| |].
    { pose proof (first_op r.2.1 (r.1 ++ 32 :: redirs_text rs ++ t)) as Hop. set_unfold in Hop. by destruct Hop as [->|[->| ]]. }
    intros s Hs Hh. apply wp_bind. eapply wp_mono; [by apply wp_op|]. intros o s1 (H1 & Hh1 & Eo). apply wp_bind.
    eapply wp_mono; [apply wp_word; [apply Hr|exact Hh1]|]. intros w s2 (E2 & Hw & H2 & Hh2). pose proof (proj1 Hh2).
    rewrite E2. apply wp_ret. rewrite Eo. eapply wp_mono; [eapply IH; [exact Hh2|done|exact (matches_redir _ _ _ _ _ _ Hm Hw)|lia]|].
    intros r' s3 (H3 & Hh3 & Hm3). split_and!; [lia|done|done].
Qed.

Definition stops : list Z := [124; 41; 38; 59].

Lemma exec_stops argc fuel fuel2 r i t :
  here i t → first t = 0 ∨ first t ∈ stops → (es - i < fuel)%nat →
  wp (loop fuel (parseexec_turn buf fuel2) (argc, r)) i (λ r' s, r' = r ∧ (i ≤ s)%nat ∧ here s t).
Proof.
  intros H Ht Hf. destruct fuel as [|fuel]; [lia|]. cbn [loop]. apply wp_bind. unfold parseexec_turn.
  destruct (decide (first t = 0)) as [E|E].
  - eapply peek_no; [exact H|by rewrite E|]. intros s Hs Hh. apply wp_bind. eapply wp_mono; [by apply wp_end|].
    intros o s1 (Eo & H1 & Hh1). rewrite Eo. apply wp_ret, wp_ret. split_and!; [done|lia|done].
  - destruct Ht as [Ht|Ht]; [done|]. eapply peek_yes; [exact H| |].
    { rewrite (proj2 (Z.eqb_neq _ _) E). by apply bool_decide_eq_true. }
    intros s Hs Hh. by apply wp_ret, wp_ret.
Qed.

(** The words of a command, and the redirections after the last of them. *)
Lemma wp_args rs fuel2 ws : Forall redir_ok rs → Forall word_ok ws → ∀ fuel args' args i t,
  ws ≠ [] → here i (print_words ws ++ redirs_text rs ++ t) → first t = 0 ∨ first t ∈ stops →
  (length args + length ws < MAXARGS)%nat → Forall2 word_at args' args → (es - i < fuel)%nat → (es - i < fuel2)%nat →
  wp (loop fuel (parseexec_turn buf fuel2) (length args, ExecCmd args')) i (parsed i t (wrap rs (ExecCmd (args ++ ws)))).
Proof.
  intros Hrs Hws. induction Hws as [|w ws Hw Hws IH]; intros fuel args' args i t Hne H Ht Hl Ha Hf Hf2; [done|].
  destruct fuel as [|fuel]; [lia|]. cbn [loop]. apply wp_bind. unfold parseexec_turn at 1.
  rewrite print_words_cons in H. eapply peek_no; [exact H| |].
  { apply word_byte_no; [by apply first_word|]. unfold symbols. set_solver. }
  intros s Hs Hh. apply wp_bind. eapply wp_mono; [by apply wp_word|]. intros o s1 (Eo & Hw1 & H1 & Hh1). rewrite Eo. cbn [Z.eqb negb Pos.eqb].
  cbn in Hl. rewrite (proj2 (Nat.leb_gt _ _)) by lia. apply wp_bind. cbn [add_arg].
  assert (Forall2 word_at (args' ++ [o.2]) (args ++ [w])) as Ha2 by (apply Forall2_app; auto).
  destruct ws as [|w2 ws].
  - eapply wp_mono; [eapply (wp_parseredirs rs); [done|exact Hh1| |by constructor|lia]|].
    { destruct Ht as [-> | Ht]; [done|]. unfold stops in Ht. set_unfold in Ht. by destruct_or! Ht; rewrite Ht. }
    intros r s2 (H2 & Hh2 & Hm2). pose proof (proj1 Hh2). apply wp_ret. eapply wp_mono; [by apply exec_stops; [done..|lia]|].
    intros r' s3 (-> & H3 & Hh3). split_and!; [lia|done|done].
  - eapply wp_mono; [eapply (wp_parseredirs []); [done|exact Hh1| |by constructor|lia]|].
    { apply word_byte_no; [|unfold symbols; set_solver]. rewrite print_words_cons. apply first_word. by inversion Hws. }
    intros r s2 (H2 & Hh2 & Hm2). pose proof (proj1 Hh2). apply wp_ret. cbn in Hm2. inversion Hm2 as [ws2 ? Ha3| | | |]; subst.
    replace (S (length args)) with (length (args ++ [w])) by (rewrite length_app; cbn; lia).
    eapply wp_mono; [apply (IH fuel ws2 (args ++ [w]) s2 t); [done|done|done| |done|lia|lia]|].
    { rewrite length_app. cbn. cbn in Hl. lia. }
    intros r s3 (H3 & Hh3 & Hm3). rewrite <- app_assoc in Hm3. split_and!; [lia|done|done].
Qed.

(** ** The levels of the grammar *)

Definition follows (F : list Z) (t : list Z) : Prop := first t = 0 ∨ first t ∈ F.

Definition ok_exec (c : cmd (list Z)) : Prop := ∀ fuel i t,
  here i (print 0 c ++ t) → follows stops t → (4 * (es - i) + 2 ≤ fuel)%nat → wp (parseexec buf fuel) i (parsed i t c).
Definition ok_pipe (c : cmd (list Z)) : Prop := ∀ fuel i t,
  here i (print 1 c ++ t) → follows [41; 38; 59] t → (4 * (es - i) + 3 ≤ fuel)%nat →
  wp (parsepipe buf fuel) i (parsed i t c).
(** A pipeline and the ampersands after it: the first half of parseline. *)
Definition ok_back (c : cmd (list Z)) : Prop := ∀ n fuel i t,
  here i (print 2 c ++ replicate n 38 ++ t) → follows [41; 59] t → (4 * (es - i) + 3 ≤ fuel)%nat →
  wp (parsepipe buf fuel) i (λ c' s,
    wp (loop (S fuel) (λ c, let* p := peek buf [38] in
                            if (p : bool) then gettoken buf ;;; ret (inl (BackCmd c)) else ret (inr c)) c') s
       (parsed i t (Nat.iter n BackCmd c))).
Definition ok_line (c : cmd (list Z)) : Prop := ∀ fuel i t,
  here i (print 3 c ++ t) → follows [41] t → (4 * (es - i) + 4 ≤ fuel)%nat → wp (parseline buf fuel) i (parsed i t c).

Lemma follows_no toks F t : follows F t → (∀ c, c ∈ F → c ∉ toks) → negb (first t =? 0) && strchr toks (first t) = false.
Proof.
  intros [->|H] Hd; [done|]. apply andb_false_iff. right. apply bool_decide_eq_false. by apply Hd.
Qed.

Lemma follows_weaken F F' t : F ⊆ F' → follows F t → follows F' t.
Proof. intros Hs [H|H]; [by left|right; by apply Hs]. Qed.

Lemma exec_simple rs argv :
  Forall redir_ok rs → (length argv < MAXARGS)%nat → Forall word_ok argv → ok_exec (wrap rs (ExecCmd argv)).
Proof.
  intros Hrs Hl Hw fuel i t H Ht Hf. destruct fuel as [|fuel]; [lia|]. cbn [parseexec].
  rewrite print_wrap in H. fold (redirs_text rs) in H. cbn [print] in H. rewrite <- app_assoc in H.
  assert (negb (first t =? 0) && strchr [60; 62] (first t) = false) as Hn by (eapply follows_no; [exact Ht|unfold stops; set_solver]).
  assert (negb (first (print_words argv ++ redirs_text rs ++ t) =? 0) && strchr [40] (first (print_words argv ++ redirs_text rs ++ t)) = false) as Hp.
  { destruct argv as [|w ws]; [destruct rs as [|r rs]|].
    - eapply follows_no; [exact Ht|unfold stops; set_solver].
    - cbn [print_words map concat app]. rewrite redirs_text_cons. pose proof (first_op r.2.1 (r.1 ++ 32 :: redirs_text rs ++ t)) as Ho.
      set_unfold in Ho. by destruct Ho as [->|[->| ]].
    - rewrite print_words_cons. apply word_byte_no; [apply first_word; by inversion Hw|unfold symbols; set_solver]. }
  eapply peek_no; [exact H|exact Hp|]. intros s Hs Hh. apply wp_bind. destruct argv as [|w ws].
  - eapply wp_mono; [eapply (wp_parseredirs rs); [done|exact Hh|done|by apply matches_exec|lia]|].
    intros r s1 (H1 & Hh1 & Hm1). pose proof (proj1 Hh1). eapply wp_mono; [by apply exec_stops; [done..|lia]|].
    intros r' s2 (-> & H2 & Hh2). split_and!; [lia|done|done].
  - eapply wp_mono; [eapply (wp_parseredirs []); [done|exact Hh| |by apply matches_exec|lia]|].
    { rewrite print_words_cons. apply word_byte_no; [apply first_word; by inversion Hw|unfold symbols; set_solver]. }
    intros r s1 (H1 & Hh1 & Hm1). pose proof (proj1 Hh1). inversion Hm1 as [ws2 ? Ha| | | |]; subst. apply Forall2_nil_inv_r in Ha as ->.
    eapply wp_mono; [apply (wp_args rs _ (w :: ws) Hrs Hw _ [] [] s1 t); try done; lia|].
    intros r' s2 (H2 & Hh2 & Hm2). split_and!; [lia|done|done].
Qed.

(** A command in parentheses, with its redirections. *)
Lemma exec_block rs c :
  Forall redir_ok rs → print 0 c = [40] ++ print 3 c ++ [41] → ok_line c → ok_exec (wrap rs c).
Proof.
  intros Hrs Ep Hc fuel i t H Ht Hf. do 2 (destruct fuel as [|fuel]; [lia|]). cbn [parseexec parseblock].
  rewrite print_wrap, Ep in H. fold (redirs_text rs) in H. rewrite <- !app_assoc in H.
  eapply peek_yes; [exact H|done|]. intros s Hs Hh. apply wp_bind. eapply wp_mono; [by apply wp_peek|].
  intros b s1 (-> & H1 & Hh1). change (negb (_ && _)) with false.
  apply wp_bind. eapply wp_mono; [apply (wp_symbol 40); [set_solver|exact Hh1]|]. intros o s2 (_ & H2 & Hh2). pose proof (proj1 Hh2).
  apply wp_bind. eapply wp_mono; [apply (Hc _ _ _ Hh2); [right; cbn; set_solver|lia]|]. intros r s3 (H3 & Hh3 & Hm3).
  apply wp_bind. eapply wp_mono; [by apply wp_peek|]. intros b s4 (-> & H4 & Hh4). change (negb (_ && _)) with false.
  apply wp_bind. eapply wp_mono; [apply (wp_symbol 41); [set_solver|exact Hh4]|]. intros o' s5 (_ & H5 & Hh5). pose proof (proj1 Hh5).
  eapply wp_mono; [eapply (wp_parseredirs rs); [done|exact Hh5| |done|lia]|].
  { eapply follows_no; [exact Ht|unfold stops; set_solver]. }
  intros r' s6 (? & Hh6 & Hm6). split_and!; [lia|done|done].
Qed.

Lemma pipe_of_exec c : print 1 c = print 0 c → ok_exec c → ok_pipe c.
Proof.
  intros Ep Hc fuel i t H Ht Hf. destruct fuel as [|fuel]; [lia|]. cbn [parsepipe]. rewrite Ep in H. apply wp_bind.
  eapply wp_mono; [apply (Hc _ _ _ H); [by eapply follows_weaken; [|exact Ht]; unfold stops; set_solver|lia]|].
  intros r s (H1 & Hh1 & Hm). eapply peek_no; [exact Hh1|eapply follows_no; [exact Ht|set_solver]|].
  intros s2 H2 Hh2. apply wp_ret. split_and!; [lia|done|done].
Qed.

Lemma pipe_of_pipe l r : ok_exec l → ok_pipe r → ok_pipe (PipeCmd l r).
Proof.
  intros Hl Hr fuel i t H Ht Hf. destruct fuel as [|fuel]; [lia|]. cbn [parsepipe].
  change (print 1 (PipeCmd l r)) with (print 0 l ++ [124] ++ print 1 r) in H. rewrite <- !app_assoc in H. apply wp_bind.
  eapply wp_mono; [apply (Hl _ _ _ H); [right; cbn; unfold stops; set_solver|lia]|].
  intros l' s (H1 & Hh1 & Hm). eapply peek_yes; [exact Hh1|done|]. intros s2 H2 Hh2. apply wp_bind.
  eapply wp_mono; [apply (wp_symbol 124); [set_solver|exact Hh2]|]. intros o s3 (_ & H3 & Hh3). pose proof (proj1 Hh3).
  apply wp_bind. eapply wp_mono; [apply (Hr _ _ _ Hh3); [done|lia]|]. intros r' s4 (? & Hh4 & Hm4). apply wp_ret.
  split_and!; [lia|done|by constructor].
Qed.

Lemma wp_backs n : ∀ fuel c' c i t,
  here i (replicate n 38 ++ t) → follows [41; 59] t → matches c' c → (es - i < fuel)%nat →
  wp (loop fuel (λ c, let* p := peek buf [38] in
                      if (p : bool) then gettoken buf ;;; ret (inl (BackCmd c)) else ret (inr c)) c') i
     (parsed i t (Nat.iter n BackCmd c)).
Proof.
  induction n as [|n IH]; intros fuel c' c i t H Ht Hm Hf; (destruct fuel as [|fuel]; [lia|]); cbn [loop]; apply wp_bind.
  - eapply peek_no; [exact H|eapply follows_no; [exact Ht|set_solver]|]. intros s Hs Hh. apply wp_ret, wp_ret. by split_and!.
  - eapply peek_yes; [exact H|done|]. intros s Hs Hh. apply wp_bind.
    eapply wp_mono; [apply (wp_symbol 38); [set_solver|exact Hh]|]. intros o s1 (_ & H1 & Hh1). pose proof (proj1 Hh1).
    apply wp_ret. eapply wp_mono; [eapply (IH _ _ (BackCmd c)); [exact Hh1|done|by constructor|lia]|].
    intros r s2 (? & Hh2 & Hm2). rewrite Nat.iter_succ_r. split_and!; [lia|done|done].
Qed.

Lemma back_of_pipe c : print 2 c = print 1 c → ok_pipe c → ok_back c.
Proof.
  intros Ep Hc n fuel i t H Ht Hf. rewrite Ep in H. eapply wp_mono; [apply (Hc _ _ _ H)|].
  - destruct n; [by eapply follows_weaken; [|exact Ht]; set_solver|]. right. cbn. set_solver.
  - lia.
  - intros c' s (H1 & Hh1 & Hm). eapply wp_mono; [eapply wp_backs; [done|done|done|lia]|].
    intros r s2 (H2 & Hh2 & Hm2). split_and!; [lia|done|done].
Qed.

Lemma back_of_back c : ok_back c → ok_back (BackCmd c).
Proof.
  intros Hc n fuel i t H Ht Hf. change (print 2 (BackCmd c)) with (print 2 c ++ [38]) in H. rewrite <- app_assoc in H.
  eapply wp_mono; [by apply (Hc (S n) fuel i t H)|]. intros c' s H2. by rewrite Nat.iter_succ_r in H2.
Qed.

Lemma line_of_back c : print 3 c = print 2 c → ok_back c → ok_line c.
Proof.
  intros Ep Hc fuel i t H Ht Hf. destruct fuel as [|fuel]; [lia|]. cbn [parseline]. rewrite Ep in H. apply wp_bind.
  eapply wp_mono; [apply (Hc 0%nat _ _ _ H); [by eapply follows_weaken; [|exact Ht]; set_solver|lia]|].
  intros c' s Hl. apply wp_bind. eapply wp_mono; [exact Hl|]. intros r s1 (H1 & Hh1 & Hm1).
  eapply peek_no; [exact Hh1|eapply follows_no; [exact Ht|set_solver]|]. intros s2 H2 Hh2. apply wp_ret. split_and!; [lia|done|done].
Qed.

Lemma line_of_list l r : ok_back l → ok_line r → ok_line (ListCmd l r).
Proof.
  intros Hl Hr fuel i t H Ht Hf. destruct fuel as [|fuel]; [lia|]. cbn [parseline].
  change (print 3 (ListCmd l r)) with (print 2 l ++ [59] ++ print 3 r) in H. rewrite <- !app_assoc in H. apply wp_bind.
  eapply wp_mono; [apply (Hl 0%nat _ _ _ H); [right; cbn; set_solver|lia]|].
  intros l' s Hb. apply wp_bind. eapply wp_mono; [exact Hb|]. intros l2 s1 (H1 & Hh1 & Hm1).
  eapply peek_yes; [exact Hh1|done|]. intros s2 H2 Hh2. apply wp_bind.
  eapply wp_mono; [apply (wp_symbol 59); [set_solver|exact Hh2]|]. intros o s3 (_ & H3 & Hh3). pose proof (proj1 Hh3).
  apply wp_bind. eapply wp_mono; [apply (Hr _ _ _ Hh3); [done|lia]|]. intros r' s4 (? & Hh4 & Hm4). apply wp_ret.
  split_and!; [lia|done|by constructor].
Qed.

(** Every level reads its text back. *)
Lemma parse_print c : cmd_ok c → (∀ rs, Forall redir_ok rs → ok_exec (wrap rs c)) ∧ ok_pipe c ∧ ok_back c ∧ ok_line c.
Proof.
  induction c as [argv|c IH f m fd|l IHl r IHr|l IHl r IHr|c IH]; cbn [cmd_ok].
  - intros [Hl Hw]. assert (∀ rs, Forall redir_ok rs → ok_exec (wrap rs (ExecCmd argv))) as He by (intros; by apply exec_simple).
    pose proof (pipe_of_exec (ExecCmd argv) eq_refl (He [] (Forall_nil_2 _))) as Hp. pose proof (back_of_pipe (ExecCmd argv) eq_refl Hp) as Hb.
    split_and!; [done..|]. by apply line_of_back.
  - intros [Hc Hr]. destruct (IH Hc) as [IH0 _].
    assert (∀ rs, Forall redir_ok rs → ok_exec (wrap rs (RedirCmd c f m fd))) as He.
    { intros rs Hrs. apply (IH0 ((f, (m, fd)) :: rs)). by constructor. }
    pose proof (pipe_of_exec (RedirCmd c f m fd) eq_refl (He [] (Forall_nil_2 _))) as Hp. pose proof (back_of_pipe (RedirCmd c f m fd) eq_refl Hp) as Hb.
    split_and!; [done..|]. by apply line_of_back.
  - intros [Hl Hr]. destruct (IHl Hl) as (Hel & _), (IHr Hr) as (_ & Hpr & _).
    pose proof (pipe_of_pipe l r (Hel [] (Forall_nil_2 _)) Hpr) as Hp. pose proof (back_of_pipe (PipeCmd l r) eq_refl Hp) as Hb.
    pose proof (line_of_back (PipeCmd l r) eq_refl Hb) as Hli. split_and!; [|done..]. intros rs Hrs. by apply exec_block.
  - intros [Hl Hr]. destruct (IHl Hl) as (_ & _ & Hbl & _), (IHr Hr) as (_ & _ & _ & Hlr).
    pose proof (line_of_list l r Hbl Hlr) as Hli.
    assert (∀ rs, Forall redir_ok rs → ok_exec (wrap rs (ListCmd l r))) as He by (intros; by apply exec_block).
    pose proof (pipe_of_exec (ListCmd l r) eq_refl (He [] (Forall_nil_2 _))) as Hp. split_and!; [done..| |done]. by apply back_of_pipe.
  - intros Hc. destruct (IH Hc) as (_ & _ & Hb & _). apply back_of_back in Hb. pose proof (line_of_back (BackCmd c) eq_refl Hb) as Hli.
    assert (∀ rs, Forall redir_ok rs → ok_exec (wrap rs (BackCmd c))) as He by (intros; by apply exec_block).
    split_and!; [done| |done|done]. by apply (pipe_of_exec (BackCmd c) eq_refl (He [] (Forall_nil_2 _))).
Qed.

(** ** The buffer after nulterminate *)

Lemma nul_keep l : ∀ (b : list Z) k, k ∉ l → foldl (λ b i, <[i := 0]> b) b l !! k = b !! k.
Proof.
  induction l as [|e l IH]; intros b k Hk; cbn; [done|]. rewrite IH by set_solver. apply list_lookup_insert_ne. set_solver.
Qed.

Lemma nul_zero l : ∀ (b : list Z) k, k ∈ l → (k < length b)%nat → foldl (λ b i, <[i := 0]> b) b l !! k = Some 0.
Proof.
  induction l as [|e l IH]; intros b k Hk Hl; [set_solver|]. cbn. destruct (decide (k ∈ l)) as [H|H].
  - apply IH; [done|]. by rewrite length_insert.
  - rewrite nul_keep by done. apply elem_of_cons in Hk as [->|]; [|done]. by apply list_lookup_insert_eq.
Qed.

Lemma word_end sp w : word_at sp w → (sp.2 < es)%nat.
Proof. intros (_ & _ & H). apply byte_in. intros E. by rewrite E in H. Qed.

Lemma c_string_word b sp w :
  word_at sp w → (∀ k, (k < es)%nat → in_word (byte buf k) = true → b !! k = buf !! k) → b !! sp.2 = Some 0 →
  c_string b sp.1 = w.
Proof.
  intros Hw. pose proof (word_end _ _ Hw) as He. destruct sp as [q e], Hw as (Ed & Hw & _). cbn [fst snd] in *.
  intros Hb Hz. unfold c_string. revert q Ed. induction Hw as [|c w [H0 Hc] _ IH]; intros q Ed.
  - assert (q = e) as ->.
    { apply (f_equal length) in Ed. cbn in Ed. rewrite !length_drop in Ed. unfold Sh.es in He. lia. }
    rewrite (drop_S b 0 e) by done. done.
  - destruct (drop_cons_inv _ _ _ Ed) as (Eb & Ed2 & Hq).
    rewrite (drop_S b c q).
    + cbn. rewrite (proj2 (Z.eqb_neq c 0)) by done. f_equal. by apply IH.
    + rewrite Hb by (done || by rewrite Eb). unfold byte in Eb.
      destruct (lookup_lt_is_Some_2 buf q Hq) as [x E]. rewrite E in *. by cbn in Eb; subst.
Qed.

Lemma ends_out c' c : matches c' c → ∀ e, e ∈ ends c' → in_word (byte buf e) = false ∧ (e < es)%nat.
Proof.
  assert (∀ sp w, word_at sp w → in_word (byte buf sp.2) = false ∧ (sp.2 < es)%nat) as Hsp.
  { intros sp w H. split; [apply H|by eapply word_end]. }
  induction 1 as [ws argv H|c' c w f m fd _ IH Hw| | |]; cbn; intros e He; [|set_solver..].
  apply list_elem_of_fmap in He as (sp & -> & Hin). apply list_elem_of_lookup in Hin as [k Hk].
  destruct (Forall2_lookup_l _ _ _ _ _ H Hk) as (w & _ & Hw). eauto.
Qed.

Lemma words_matches b c' c :
  matches c' c → (∀ k, (k < es)%nat → in_word (byte buf k) = true → b !! k = buf !! k) →
  (∀ e, e ∈ ends c' → b !! e = Some 0) → words b c' = c.
Proof.
  intros Hm Hb. induction Hm as [ws argv H|c' c w f m fd _ IH Hw|l' l r' r _ IHl _ IHr|l' l r' r _ IHl _ IHr|c' c _ IH];
    cbn; intros Hz.
  - f_equal. induction H as [|sp w ws argv Hw _ IH]; cbn; [done|]. f_equal; [|apply IH; set_solver].
    eapply c_string_word; [done|done|]. apply Hz. cbn. set_solver.
  - f_equal; [apply IH; set_solver|]. eapply c_string_word; [done|done|]. apply Hz. set_solver.
  - f_equal; [apply IHl; set_solver|apply IHr; set_solver].
  - f_equal; [apply IHl; set_solver|apply IHr; set_solver].
  - f_equal. by apply IH.
Qed.

Lemma words_nulterminate c' c : matches c' c → words (nulterminate buf c') c' = c.
Proof.
  intros Hm. apply words_matches; [done| |].
  - intros k Hk Hw. unfold nulterminate. rewrite nul_keep; [by apply lookup_app_l|]. intros Hin.
    destruct (ends_out _ _ Hm k Hin) as [E _]. congruence.
  - intros e He. apply nul_zero; [done|]. destruct (ends_out _ _ Hm e He) as [_ Hl]. rewrite length_app. unfold Sh.es in Hl. lia.
Qed.
End read.

(** C37. The shell's parser reads back the text of a command: if the words
    of [c] are words (bytes that are neither white space, symbols nor NUL),
    every simple command has fewer than MAXARGS of them and redirections are
    in one of the three forms of the grammar, then parsecmd on the text of
    [c], in which commands that bind weaker are put in parentheses, reads
    the whole line, and the tree with the strings that its pointers name in
    the buffer after nulterminate is [c]. *)
Theorem parsecmd_print c :
  cmd_ok c → ∃ c' b s, parsecmd (print 3 c) 0%nat = Done (c', b) s ∧ words b c' = c.
Proof.
  intros Hc. destruct (parse_print (print 3 c) c Hc) as (_ & _ & _ & Hl).
  assert (wp (parsecmd (print 3 c)) 0%nat (λ r _, words r.2 r.1 = c)) as H.
  { apply wp_bind. eapply wp_mono; [apply (Hl _ 0%nat [])|].
    - split; [lia|]. by rewrite app_nil_r.
    - by left.
    - unfold parse_fuel. lia.
    - intros r s (_ & Hh & Hm). apply wp_bind. unfold wp, peek, bind, get, modify, ret.
      destruct (here_skip _ _ _ Hh) as [_ [Hs1 _]]. pose proof (drop_skip_space _ _ (proj1 Hh)) as Ed. rewrite (proj2 Hh) in Ed.
      apply (f_equal length) in Ed. rewrite length_drop in Ed. cbn in Ed. unfold es in *.
      rewrite (proj2 (Nat.eqb_eq _ _)) by lia. cbn. by apply words_nulterminate. }
  apply wp_done in H as ([c' b] & s & E & H). eauto.
Qed.

(** [ls a > b | ( wc & ; cat < f )] *)
Definition sample_cmd : cmd (list Z) :=
  PipeCmd (RedirCmd (ExecCmd [[108; 115]; [97]]) [98] 0x601 1)
    (ListCmd (BackCmd (ExecCmd [[119; 99]])) (RedirCmd (ExecCmd [[99; 97; 116]]) [102] 0 0)).

Lemma parsecmd_print_witness :
  ∃ c' b s, parsecmd (print 3 sample_cmd) 0%nat = Done (c', b) s ∧ words b c' = sample_cmd.
Proof.
  apply (parsecmd_print sample_cmd). cbn. unfold MAXARGS, redir_ok, word_ok, word_byte. cbn.
  repeat split; repeat constructor; (done || lia || set_solver).
Defined.
