(* ===== verification/ShRun.v ===== *)
(** * The shell's runcmd and main, user/sh.c *)

From S2P Require Import Prelude Fcntl User Sh ShTheorems.

(** A command whose words are strings. *)
Definition scmd : Type := cmd (list Z).

Section run.
Variable w : os.

(** panic(s) *)
Definition sh_panic (s : list Z) : trace table := Prints 2 (s ++ [10]) (Exits 1).

(** runcmd(cmd) in process [me], which has forked [n] times and called open
    [k] times, with the descriptors [o]. It never returns. *)
Fixpoint runcmd (me : pname) (n k : nat) (o : table) (c : scmd) : trace table :=
  match c with
  | ExecCmd [] => Exits 1
  | ExecCmd (a :: l) =>
      if can_exec w me a then Becomes (a :: l) o
      else Prints 2 (str "exec " ++ a ++ str " failed" ++ [10]) (Exits 0)
  | RedirCmd c file mode fd =>
      let o := fd_close fd o in
      match (if can_open w me k file mode then fd_new (DFile file mode) o else None) with
      | None => Prints 2 (str "open " ++ file ++ str " failed" ++ [10]) (Exits 1)
      | Some (_, o) => runcmd me n (S k) o c
      end
  | ListCmd l r =>
      if negb (can_fork w me n) then sh_panic (str "fork")
      else Forks (runcmd (me ++ [n]) 0 0 o l) (Waits o (runcmd me (S n) k o r))
  | PipeCmd l r =>
      match (if can_pipe w me then fd_pipe me o else None) with
      | None => sh_panic (str "pipe")
      | Some (p0, p1, o) =>
          if negb (can_fork w me n) then sh_panic (str "fork")
          else
            Forks (let o := fd_close 1 o in
                   let o := fd_dup p1 o in
                   let o := fd_close p0 o in
                   let o := fd_close p1 o in
                   runcmd (me ++ [n]) 0 0 o l)
              (if negb (can_fork w me (S n)) then sh_panic (str "fork")
               else
                 Forks (let o := fd_close 0 o in
                        let o := fd_dup p0 o in
                        let o := fd_close p0 o in
                        let o := fd_close p1 o in
                        runcmd (me ++ [S n]) 0 0 o r)
                   (let o := fd_close p0 o in
                    let o := fd_close p1 o in
                    Waits o (Waits o (Exits 0))))
      end
  | BackCmd c =>
      if negb (can_fork w me n) then sh_panic (str "fork")
      else Forks (runcmd (me ++ [n]) 0 0 o c) (Exits 0)
  end.

(** [runcmd(parsecmd(buf))] *)
Definition run_line (me : pname) (o : table) (buf : list Z) : trace table :=
  match parsecmd buf 0%nat with
  | Done (c, b) _ => runcmd me 0 0 o (words b c)
  | Panic msg => sh_panic (str msg)
  | _ => sh_panic []
  end.

(** Lines of the input as gets(buf, 100) delivers them. *)
Fixpoint gets (max : nat) (input : list Z) : list Z * list Z :=
  match max, input with
  | S (S max), c :: input =>
      if (c =? 10) || (c =? 13) then ([c], input)
      else let '(l, r) := gets (S max) input in (c :: l, r)
  | _, _ => ([], input)
  end.

(** [while((fd = open("console", O_RDWR)) >= 0) if(fd >= 3){ close(fd); break; }] *)
Definition console : list Z := str "console".
Fixpoint open_three (fuel : nat) (me : pname) (k : nat) (o : table) : table :=
  match fuel with
  | O => o
  | S fuel =>
      match (if can_open w me k console O_RDWR then fd_new (DFile console O_RDWR) o else None) with
      | None => o
      | Some (fd, o) => if 3 <=? fd then fd_close fd o else open_three fuel me (S k) o
      end
  end.

(** The part of a line before a NUL. *)
Definition chop (l : list Z) : list Z := take (length l - 1) l.

(** The loop over the input of process [me], which has forked [n] times and
    called chdir [k] times. *)
Fixpoint read_eval (fuel : nat) (me : pname) (n k : nat) (o : table) (input : list Z) : trace table :=
  match fuel with
  | O => Exits 0
  | S fuel =>
      let '(line, rest) := gets 100 input in
      let buf := until_nul line in
      Prints 2 (str "$ ") (
      if bool_decide (buf = []) then Exits 0
      else if bool_decide (take 3 buf = str "cd ") then
        let path := drop 3 (chop buf) in
        Chdirs path
          (if can_chdir w me k path then read_eval fuel me n (S k) o rest
           else Prints 2 (str "cannot cd " ++ path ++ [10]) (read_eval fuel me n (S k) o rest))
      else if negb (can_fork w me n) then sh_panic (str "fork")
      else Forks (run_line (me ++ [n]) o buf) (Waits o (read_eval fuel me (S n) k o rest)))
  end.

Definition main (me : pname) (o : table) (input : list Z) : trace table :=
  read_eval (S (length input)) me 0 0 (open_three (S (length o)) me 0 o) input.
End run.

(** ** The descriptors of the programs that the shell starts *)

(** Standard input, output and error; all other descriptors are closed. *)
Record std := Std { s_in : desc; s_out : desc; s_err : desc }.
Definition std_table (io : std) : table :=
  [Some (s_in io); Some (s_out io); Some (s_err io)] ++ replicate 13 None.

(** Which simple commands a command stands for, and where their input and
    output go: the reference for runcmd. A pipe is named by the process that
    makes it. *)
Fixpoint wiring (me : pname) (n : nat) (io : std) (c : scmd) : list (list (list Z) * std) :=
  match c with
  | ExecCmd [] => []
  | ExecCmd argv => [(argv, io)]
  | RedirCmd c f m fd =>
      wiring me n (if fd =? 0 then Std (DFile f m) (s_out io) (s_err io) else Std (s_in io) (DFile f m) (s_err io)) c
  | ListCmd l r => wiring (me ++ [n]) 0 io l ++ wiring me (S n) io r
  | PipeCmd l r =>
      wiring (me ++ [n]) 0 (Std (s_in io) (DPipeWrite me) (s_err io)) l ++
      wiring (me ++ [S n]) 0 (Std (DPipeRead me) (s_out io) (s_err io)) r
  | BackCmd c => wiring (me ++ [n]) 0 io c
  end.

(** Redirections are of descriptors 0 and 1. *)
Fixpoint fds_ok {W} (c : cmd W) : Prop :=
  match c with
  | ExecCmd _ => True
  | RedirCmd c _ _ fd => fds_ok c ∧ (fd = 0 ∨ fd = 1)
  | PipeCmd l r | ListCmd l r => fds_ok l ∧ fds_ok r
  | BackCmd c => fds_ok c
  end.

Lemma tree_ok_fds buf b c : tree_ok buf c → fds_ok (words b c).
Proof.
  induction c as [argv|c IH f m fd|l IHl r IHr|l IHl r IHr|c IH]; cbn; try tauto.
  intros (Hc & _ & Hm). split; [auto|]. set_unfold in Hm. naive_solver.
Qed.

(** All calls succeed. *)
Definition succeeds (w : os) : Prop :=
  (∀ p k f m, can_open w p k f m = true) ∧ (∀ p a, can_exec w p a = true) ∧ (∀ p n, can_fork w p n = true) ∧ (∀ p, can_pipe w p = true).

Definition with_table (x : list (list Z) * std) : list (list Z) * table := (x.1, std_table x.2).

(** The programs, and the tables of the processes that wait, in a trace. *)
Definition wired (t : trace table) (l : list (list (list Z) * std)) : Prop :=
  execs t `sublist_of` map with_table l ∧ Forall (λ o, ∃ io, o = std_table io) (waits t).

Lemma wired_none t l : execs t = [] → waits t = [] → wired t l.
Proof. intros E1 E2. split; [rewrite E1; apply sublist_nil_l|by rewrite E2]. Qed.

Lemma wired_forks c p l1 l2 : wired c l1 → wired p l2 → wired (Forks c p) (l1 ++ l2).
Proof. intros [H1 H2] [H3 H4]. split; cbn; [rewrite map_app; by apply sublist_app|by apply Forall_app]. Qed.

(** The calls on the table of a shell. *)
Definition pipe_table (me : pname) (io : std) : table :=
  [Some (s_in io); Some (s_out io); Some (s_err io); Some (DPipeRead me); Some (DPipeWrite me)] ++ replicate 11 None.

Lemma redirect io d :
  fd_new d (fd_close 0 (std_table io)) = Some (0, std_table (Std d (s_out io) (s_err io))) ∧
  fd_new d (fd_close 1 (std_table io)) = Some (1, std_table (Std (s_in io) d (s_err io))).
Proof. done. Qed.

Lemma pipe_fds me io : fd_pipe me (std_table io) = Some (3, 4, pipe_table me io).
Proof. done. Qed.

Lemma pipe_ends me io :
  fd_close 4 (fd_close 3 (fd_dup 4 (fd_close 1 (pipe_table me io)))) = std_table (Std (s_in io) (DPipeWrite me) (s_err io)) ∧
  fd_close 4 (fd_close 3 (fd_dup 3 (fd_close 0 (pipe_table me io)))) = std_table (Std (DPipeRead me) (s_out io) (s_err io)) ∧
  fd_close 4 (fd_close 3 (pipe_table me io)) = std_table io.
Proof. by destruct io. Qed.

#[local] Opaque str std_table pipe_table fd_new fd_close fd_dup fd_pipe.

Lemma runcmd_wired w c : ∀ me n k io, fds_ok c →
  wired (runcmd w me n k (std_table io) c) (wiring me n io c) ∧
  (succeeds w → execs (runcmd w me n k (std_table io) c) = map with_table (wiring me n io c)).
Proof.
  induction c as [argv|c IH f m fd|l IHl r IHr|l IHl r IHr|c IH]; intros me n k io Hc; cbn [runcmd wiring].
  - destruct argv as [|a l]; [split; [by apply wired_none|done]|]. destruct (can_exec w me a) eqn:E; cbn.
    + split; [split; cbn; [done|constructor]|done].
    + split; [by apply wired_none|]. intros (_ & H & _). congruence.
  - destruct Hc as [Hc Hfd]. destruct (can_open w me k f m) eqn:E.
    + destruct (redirect io (DFile f m)) as [E0 E1]. destruct Hfd as [-> | ->]; [rewrite E0|rewrite E1]; by apply IH.
    + split; [by apply wired_none|]. intros [H _]. congruence.
  - destruct Hc as [Hl Hr]. destruct (can_pipe w me) eqn:E.
    2: { split; [by apply wired_none|]. intros (_ & _ & _ & H). congruence. }
    destruct (IHl (me ++ [n]) 0%nat 0%nat (Std (s_in io) (DPipeWrite me) (s_err io)) Hl) as [L1 L2].
    destruct (IHr (me ++ [S n]) 0%nat 0%nat (Std (DPipeRead me) (s_out io) (s_err io)) Hr) as [R1 R2].
    rewrite pipe_fds. destruct (pipe_ends me io) as (P1 & P2 & P3). rewrite P1, P2, P3.
    destruct (can_fork w me n) eqn:E1; cbn [negb].
    2: { split; [by apply wired_none|]. intros (_ & _ & H & _). congruence. }
    destruct (can_fork w me (S n)) eqn:E2; cbn [negb].
    2: { split; [|intros (_ & _ & H & _); congruence]. apply wired_forks; [exact L1|by apply wired_none]. }
    split.
    + apply wired_forks; [exact L1|]. rewrite <- (app_nil_r (wiring _ _ _ r)). apply wired_forks; [exact R1|].
      split; [apply sublist_nil_l|]. repeat constructor; by exists io.
    + intros H. cbn [execs]. by rewrite L2, R2, app_nil_r, map_app.
  - destruct Hc as [Hl Hr]. destruct (IHl (me ++ [n]) 0%nat 0%nat io Hl) as [L1 L2]. destruct (IHr me (S n) k io Hr) as [[R1 R3] R2].
    destruct (can_fork w me n) eqn:E; cbn [negb].
    2: { split; [by apply wired_none|]. intros (_ & _ & H & _). congruence. }
    split.
    + apply wired_forks; [exact L1|]. split; [exact R1|]. constructor; [by exists io|exact R3].
    + intros H. cbn [execs]. by rewrite L2, R2, map_app.
  - destruct (IH (me ++ [n]) 0%nat 0%nat io Hc) as [L1 L2]. destruct (can_fork w me n) eqn:E; cbn [negb].
    2: { split; [by apply wired_none|]. intros (_ & _ & H & _). congruence. }
    split; [|intros H; cbn [execs]; by rewrite app_nil_r, L2]. rewrite <- (app_nil_r (wiring _ _ _ c)). apply wired_forks; [exact L1|by apply wired_none].
Qed.

(** ** A session *)

(** The commands of the lines of the input, as main reads them. *)
Fixpoint session (fuel : nat) (me : pname) (n : nat) (io : std) (input : list Z) : list (list (list Z) * std) :=
  match fuel with
  | O => []
  | S fuel =>
      let '(line, rest) := gets 100 input in
      let buf := until_nul line in
      if bool_decide (buf = []) then []
      else if bool_decide (take 3 buf = str "cd ") then session fuel me n io rest
      else
        match parsecmd buf 0%nat with
        | Done (c, b) _ => wiring (me ++ [n]) 0 io (words b c)
        | _ => []
        end ++ session fuel me (S n) io rest
  end.

Lemma run_line_wired w me io buf :
  let l := match parsecmd buf 0%nat with
           | Done (c, b) _ => wiring me 0 io (words b c)
           | _ => []
           end in
  wired (run_line w me (std_table io) buf) l ∧
  (succeeds w → execs (run_line w me (std_table io) buf) = map with_table l).
Proof.
  pose proof (parsecmd_runs buf) as H. unfold runs in H. unfold run_line.
  destruct (parsecmd buf 0%nat) as [[c b] s|msg| |]; try (split; [by apply wired_none|done]).
  destruct H as (_ & Hc & _). apply runcmd_wired. by eapply tree_ok_fds.
Qed.

Lemma read_eval_wired w me io (fuel : nat) : ∀ n k input,
  wired (read_eval w fuel me n k (std_table io) input) (session fuel me n io input) ∧
  (succeeds w → execs (read_eval w fuel me n k (std_table io) input) = map with_table (session fuel me n io input)).
Proof.
  induction fuel as [|fuel IH]; intros n k input; cbn [read_eval session]; [split; [by apply wired_none|done]|].
  destruct (gets 100 input) as [line rest]. case_bool_decide; [split; [by apply wired_none|done]|].
  case_bool_decide.
  - destruct (can_chdir w _ _ _); apply IH.
  - destruct (can_fork w me n) eqn:E; cbn [negb].
    2: { split; [by apply wired_none|]. intros (_ & _ & H' & _). congruence. }
    destruct (run_line_wired w (me ++ [n]) io (until_nul line)) as [L1 L2]. destruct (IH (S n) k rest) as [[R1 R3] R2]. split.
    + apply (wired_forks _ (Waits _ _)); [exact L1|]. split; [exact R1|]. constructor; [by exists io|exact R3].
    + intros Hw. cbn [execs]. by rewrite L2, R2, map_app.
Qed.

(** The bound on the lines of the input is never reached. *)
Lemma gets_length max : ∀ input, (length (gets max input).1 + length (gets max input).2 = length input)%nat.
Proof.
  induction max as [|[|max] IH]; intros [|c input]; try done.
  change (gets (S (S max)) (c :: input)) with (if (c =? 10) || (c =? 13) then ([c], input) else
    let '(l, r) := gets (S max) input in (c :: l, r)). destruct ((c =? 10) || (c =? 13)); [done|].
  specialize (IH input). destruct (gets (S max) input) as [l r]. cbn in *. lia.
Qed.

Lemma read_eval_fuel w me o (fuel fuel' : nat) : ∀ n k input,
  (length input < fuel)%nat → (length input < fuel')%nat →
  read_eval w fuel me n k o input = read_eval w fuel' me n k o input.
Proof.
  revert fuel'. induction fuel as [|fuel IH]; intros [|fuel'] n k input H1 H2; [lia..|]. cbn [read_eval].
  pose proof (gets_length 100 input) as Hl. destruct (gets 100 input) as [line rest]. cbn [fst snd] in Hl.
  case_bool_decide as E; [done|]. assert (length rest < length input)%nat by (destruct line; [done|cbn in Hl; lia]).
  assert (∀ n k, read_eval w fuel me n k o rest = read_eval w fuel' me n k o rest) as E2 by (intros; apply IH; lia).
  by rewrite !E2.
Qed.

Lemma open_three_std w me k io (fuel : nat) : open_three w (S fuel) me k (std_table io) = std_table io.
Proof. cbn [open_three]. destruct (can_open w me k console O_RDWR); [|done]. by destruct io. Qed.
#[local] Transparent str std_table pipe_table fd_new fd_close fd_dup fd_pipe.

(** C40. The shell gives the programs it starts the right descriptors. Take a
    shell that is started, as init does it, with descriptors 0, 1 and 2 open
    and no others. For every input, and whichever calls of open, exec, fork,
    pipe and chdir fail, the answers differing from call to call, the programs
    that the processes of the shell become are, in the order of the forks, some of the
    simple commands of the lines, each with exactly three descriptors open:
    its input, output and error as the wiring of the line says (pipes between
    the two sides of a pipeline, the file of the innermost redirection, else
    those of the shell). If no call fails they are all of them. Every process
    that waits for a child has only its own three descriptors open, so that a
    pipe has no writers but the programs on its left. *)
Theorem shell_wires_commands w me io input :
  let t := main w me (std_table io) input in
  let l := session (S (length input)) me 0 io input in
  execs t `sublist_of` map with_table l ∧ (succeeds w → execs t = map with_table l) ∧
  Forall (λ o, ∃ io', o = std_table io') (waits t).
Proof.
  unfold main. rewrite open_three_std. destruct (read_eval_wired w me io (S (length input)) 0 0 input) as [[H1 H2] H3]. done.
Qed.

(** [a|b>c], read by a shell whose descriptors are the console. *)
Definition ex_tty : desc := DFile console O_RDWR.
Example session_pipeline :
  session 7 [] 0 (Std ex_tty ex_tty ex_tty) [97; 124; 98; 62; 99; 10] =
    [([[97]], Std ex_tty (DPipeWrite [0%nat]) ex_tty); ([[98]], Std (DPipeRead [0%nat]) (DFile [99] 0x601) ex_tty)].
Proof. vm_compute. reflexivity. Qed.
