(* ===== verification/Mkfs.v ===== *)
(** * Building the file system image, mkfs/mkfs.c

    The image file is the blocks written so far: [img] and, in blocks,
    [img_len]. The host is little-endian; its file system has room for
    [room] blocks, beyond which write fails. An assertion that fails and die
    end the program: they are panics. A file to copy is the sequence of the
    buffers that read returns for it, or nothing if open fails. *)

From S2P Require Import Prelude Riscv Mem Kalloc Vm Block FsFormat Log Txn Fs.

Definition FSSIZE : Z := 2000.
Definition NINODES : Z := 200.

Definition nbitmap : Z := FSSIZE `div` (BSIZE * 8) + 1.
Definition ninodeblocks : Z := NINODES `div` IPB + 1.
Definition nlog : Z := LOGSIZE.
Definition nmeta : Z := 2 + nlog + ninodeblocks + nbitmap.
Definition nblocks : Z := FSSIZE - nmeta.

(** The bytes of the result are those of [x], lowest first. *)
Definition xshort (x : Z) : Z := little_endian_to_Z 8 [u8 x; u8 (Z.shiftr x 8)].
Definition xint (x : Z) : Z :=
  little_endian_to_Z 8 [u8 x; u8 (Z.shiftr x 8); u8 (Z.shiftr x 16); u8 (Z.shiftr x 24)].

(** [sb], as main sets it before the first use. *)
Definition sb : superblock :=
  Superblock FSMAGIC (xint FSSIZE) (xint nblocks) (xint NINODES) (xint nlog) (xint 2)
    (xint (2 + nlog)) (xint (2 + nlog + ninodeblocks)).

(** The bytes of [sb] in a block. *)
Definition put_superblock (d : block) (s : superblock) : block :=
  put_list d 0 [sb_magic s; sb_size s; sb_nblocks s; sb_ninodes s; sb_nlog s; sb_logstart s; sb_inodestart s; sb_bmapstart s].

Record mkst := Mkst {
  img : Z → block;
  img_len : Z;
  freeinode : Z;
  freeblock : Z
}.

(** Before main: the image is open and empty. *)
Definition mk_start : mkst := Mkst (λ _, zero_block) 0 1 0.

Section mkfs.
Variable room : Z.

Definition wsect (sec : Z) (buf : block) : M mkst unit := λ s,
  let o := u32 (sec * BSIZE) `div` BSIZE in
  if room <=? o then Panic "write"
  else Done tt (Mkst (<[o := buf]> (img s)) (Z.max (img_len s) (o + 1)) (freeinode s) (freeblock s)).

Definition rsect (sec : Z) : M mkst block := λ s,
  let o := u32 (sec * BSIZE) `div` BSIZE in
  if img_len s <=? o then Panic "read" else Done (img s o) s.

Definition winode (inum : Z) (ip : dinode) : M mkst unit :=
  let bn := IBLOCK inum sb in
  let* buf := rsect bn in
  wsect bn (put_dinode buf (inum `mod` IPB) ip).

Definition rinode (inum : Z) : M mkst dinode :=
  let bn := IBLOCK inum sb in
  let* buf := rsect bn in
  ret (get_dinode buf (inum `mod` IPB)).

Definition set_freeinode (n : Z) : M mkst unit := modify (λ s, Mkst (img s) (img_len s) n (freeblock s)).
Definition set_freeblock (n : Z) : M mkst unit := modify (λ s, Mkst (img s) (img_len s) (freeinode s) n).

Definition ialloc (type : Z) : M mkst Z :=
  let* inum := gets freeinode in
  set_freeinode (u32 (inum + 1)) ;;;
  let din := Dinode (xshort type) 0 0 (xshort 1) (xint 0) (replicate (Z.to_nat (NDIRECT + 1)) 0) in
  winode inum din ;;;
  ret inum.

Definition balloc (used : Z) : M mkst unit :=
  if negb (used <? BSIZE * 8) then panic "assert"
  else wsect (sb_bmapstart sb) (foldl mark_bit zero_block (seqZ 0 used)).

(** [xint(freeblock++)] *)
Definition take_block : M mkst Z :=
  let* b := gets freeblock in
  set_freeblock (u32 (b + 1)) ;;;
  ret (xint b).

(** The disk block for block [fbn] of the file, allocated if there is none. *)
Definition file_block (din : dinode) (fbn : Z) : M mkst (dinode * Z) :=
  if fbn <? NDIRECT then
    let* din := (if xint (d_addrs din !!! Z.to_nat fbn) =? 0 then
                   let* b := take_block in
                   ret (set_addr fbn b din)
                 else ret din) in
    ret (din, xint (d_addrs din !!! Z.to_nat fbn))
  else
    let* din := (if xint (d_addrs din !!! Z.to_nat NDIRECT) =? 0 then
                   let* b := take_block in
                   ret (set_addr NDIRECT b din)
                 else ret din) in
    let a := xint (d_addrs din !!! Z.to_nat NDIRECT) in
    let* indirect := rsect a in
    let o := 4 * (fbn - NDIRECT) in
    let* indirect := (if le32 indirect o =? 0 then
                        let* b := take_block in
                        let indirect := put32 indirect o b in
                        wsect a indirect ;;;
                        ret indirect
                      else ret indirect) in
    ret (din, xint (le32 indirect o)).

(** The loop: the inode, the offset and the bytes that are left. *)
Definition iappend_turn (x : dinode * Z * list Z) : M mkst ((dinode * Z * list Z) + (dinode * Z)) :=
  let '(din, off, p) := x in
  if length p =? 0 then ret (inr (din, off))
  else
    let fbn := off `div` BSIZE in
    if negb (fbn <? MAXFILE) then panic "assert"
    else
      let* r := file_block din fbn in
      let '(din, x) := r in
      let n1 := Z.min (length p) ((fbn + 1) * BSIZE - off) in
      let* buf := rsect x in
      wsect x (put_bytes buf (off - fbn * BSIZE) (take (Z.to_nat n1) p)) ;;;
      ret (inl (din, u32 (off + n1), drop (Z.to_nat n1) p)).

Definition iappend (inum : Z) (p : list Z) : M mkst unit :=
  let* din := rinode inum in
  let off := xint (d_size din) in
  let* r := loop (S (length p)) iappend_turn (din, off, p) in
  winode inum (set_size (xint r.2) r.1).

(** A directory entry; [strncpy] fills the name with NULs. *)
Definition dirent (inum : Z) (name : list Z) : list Z :=
  let n := xshort inum in
  [u8 n; u8 (Z.shiftr n 8)] ++ take (Z.to_nat DIRSIZ) (name ++ replicate (Z.to_nat DIRSIZ) 0).

(** The name in the image of a file given as [arg]: without the leading
    [user/] and, after the assertion on slashes, without a leading [_]. *)
Definition shortname (arg : list Z) : list Z :=
  if decide (take 5 arg = [117; 115; 101; 114; 47]) then drop 5 arg else arg.
Definition skip_underscore (n : list Z) : list Z :=
  match n with
  | c :: n' => if c =? 95 then n' else n
  | [] => []
  end.

(** A file to copy. *)
Definition source : Type := list Z * option (list (list Z)).

Definition add_file (rootino : Z) (f : source) : M mkst unit :=
  let '(arg, contents) := f in
  let name := shortname arg in
  if decide (47 ∈ name) then panic "assert"
  else
    match contents with
    | None => panic "open"
    | Some bufs =>
        let name := skip_underscore name in
        let* inum := ialloc T_FILE in
        iappend rootino (dirent inum name) ;;;
        for_each bufs (iappend inum)
    end.

Definition main (files : list source) : M mkst unit :=
  set_freeblock nmeta ;;;
  for_each (seqZ 0 FSSIZE) (λ i, wsect i zero_block) ;;;
  wsect 1 (put_superblock zero_block sb) ;;;
  let* rootino := ialloc T_DIR in
  if negb (rootino =? ROOTINO) then panic "assert"
  else
    iappend rootino (dirent rootino [46]) ;;;
    iappend rootino (dirent rootino [46; 46]) ;;;
    for_each files (add_file rootino) ;;;
    let* din := rinode rootino in
    let off := xint (d_size din) in
    let off := u32 ((off `div` BSIZE + 1) * BSIZE) in
    winode rootino (set_size (xint off) din) ;;;
    let* used := gets freeblock in
    balloc used.
End mkfs.
