(* ===== verification/MkfsInv.v ===== *)
(** * The image that mkfs is building

    What holds of the blocks written so far: the files, as the kernel reads
    them, and the blocks they own. *)

From S2P Require Import Prelude Riscv Mem Kalloc Vm Block FsFormat Txn Fs FsBlocks FsInode FsFile FsWrite Mkfs.

(** ** One file *)

(** A file: its bytes, how many blocks it has, and whether it has an indirect
    block. *)
Record finfo := Finfo { f_data : list Z; f_nb : Z; f_hasind : bool }.

(** The inode [di] is the file [f], in blocks below [fb]. *)
Record file_at (D : Z → block) (fb : Z) (di : dinode) (f : finfo) : Prop := {
  fa_di : di_ok di;
  fa_nb : 0 ≤ f_nb f ≤ MAXFILE;
  fa_len : length (f_data f) ≤ f_nb f * BSIZE;
  fa_slots j : 0 ≤ j < MAXFILE → islot D di j ≠ 0 ↔ j < f_nb f;
  fa_ind : ind di ≠ 0 ↔ f_hasind f = true;
  fa_has : NDIRECT < f_nb f → f_hasind f = true;
  fa_range j : 0 ≤ j ≤ MAXFILE → islot D di j ≠ 0 → nmeta ≤ islot D di j < fb;
  fa_inj i j : 0 ≤ i ≤ MAXFILE → 0 ≤ j ≤ MAXFILE → islot D di i = islot D di j → islot D di i ≠ 0 → i = j;
  fa_bytes o : 0 ≤ o < f_nb f * BSIZE → fbyte D di o = default 0 (f_data f !! Z.to_nat o)
}.

Lemma owned_slot D di j : 0 ≤ j ≤ MAXFILE → islot D di j ≠ 0 → owned D di (islot D di j).
Proof. intros Hj Hne. split; [done|]. by exists j. Qed.

(** A file depends only on its own blocks. *)
Lemma islot_owned D D' di j :
  0 ≤ j ≤ MAXFILE → (∀ b, owned D di b → D' b = D b) → islot D' di j = islot D di j.
Proof.
  intros Hj H. apply islot_ext. intros Hne. apply H. apply (owned_slot D di MAXFILE); [done|]. by rewrite islot_ind.
Qed.

Lemma block_range o nb : 0 ≤ o < nb * BSIZE → 0 ≤ o `div` BSIZE < nb.
Proof. unfold BSIZE. intros H. split; [apply Z.div_pos; lia|apply Z.div_lt_upper_bound; lia]. Qed.

Lemma file_at_ext D D' fb fb' di f :
  file_at D fb di f → fb ≤ fb' → (∀ b, owned D di b → D' b = D b) → file_at D' fb' di f.
Proof.
  intros [H1 H2 H3 H4 H5 H6 H7 H8 H9] Hfb H.
  assert (∀ j, 0 ≤ j ≤ MAXFILE → islot D' di j = islot D di j) as Hs by (intros; by apply islot_owned).
  split; try done.
  - intros j Hj. rewrite Hs by lia. by apply H4.
  - intros j Hj. rewrite Hs by lia. intros Hne. specialize (H7 j Hj Hne). lia.
  - intros i j Hi Hj. rewrite !Hs by lia. by apply H8.
  - intros o Ho. rewrite <- H9 by done. unfold fbyte. pose proof (block_range _ _ Ho). rewrite Hs by lia.
    rewrite H; [done|]. apply owned_slot; [lia|]. apply H4; lia.
Qed.

(** The next block of the file becomes [fb], which is zero. *)
Lemma file_at_slot D D' fb di di' f :
  file_at D fb di f → di_ok di' → f_nb f < MAXFILE → (NDIRECT ≤ f_nb f → f_hasind f = true) →
  (∀ j, 0 ≤ j ≤ MAXFILE → islot D' di' j = if decide (j = f_nb f) then fb else islot D di j) →
  (∀ j, 0 ≤ j < MAXFILE → islot D di j ≠ 0 → D' (islot D di j) = D (islot D di j)) →
  D' fb = zero_block → nmeta ≤ fb →
  file_at D' (fb + 1) di' (Finfo (f_data f) (f_nb f + 1) (f_hasind f)).
Proof.
  intros [H1 H2 H3 H4 H5 H6 H7 H8 H9] Hdi Hnb Hi Hs Hd Hz Hfb. assert (0 < nmeta) by done.
  split; cbn [f_data f_nb f_hasind]; try done; try lia.
  - unfold BSIZE in *. lia.
  - intros j Hj. rewrite Hs by lia. case_decide; [lia|]. rewrite H4 by done. lia.
  - rewrite <- (islot_ind D'), Hs, decide_False, islot_ind by lia. done.
  - intros Hl. apply Hi. lia.
  - intros j Hj. rewrite Hs by done. case_decide; [lia|]. intros Hne. specialize (H7 j Hj Hne). lia.
  - intros i j Hi' Hj. rewrite !Hs by done. repeat case_decide; subst; try done.
    + intros E. rewrite E. intros Hne. specialize (H7 j Hj Hne). lia.
    + intros E Hne. specialize (H7 i Hi' Hne). lia.
    + by apply H8.
  - intros o Ho. unfold fbyte. pose proof (block_range _ _ Ho). rewrite Hs by lia. case_decide as E.
    + rewrite Hz, (lookup_ge_None_2 (f_data f)).
      * unfold zero_block. cbn [default]. apply lookup_total_replicate_2. pose proof (mod_bsize o). lia.
      * pose proof (Z.div_mod o BSIZE ltac:(done)). pose proof (mod_bsize o). unfold BSIZE in *. lia.
    + assert (0 ≤ o < f_nb f * BSIZE) as Ho2.
      { pose proof (Z.div_mod o BSIZE ltac:(done)). pose proof (mod_bsize o). unfold BSIZE in *. lia. }
      rewrite Hd by (lia || apply H4; lia). by apply H9.
Qed.

(** ** The four ways in which iappend changes a file *)

Lemma file_at_ind D fb di f :
  file_at D fb di f → f_hasind f = false → D fb = zero_block → nmeta ≤ fb < 2^32 →
  file_at D (fb + 1) (set_addr NDIRECT fb di) (Finfo (f_data f) (f_nb f) true) ∧
  ∀ j, 0 ≤ j < MAXFILE → islot D (set_addr NDIRECT fb di) j = islot D di j.
Proof.
  intros [H1 H2 H3 H4 H5 H6 H7 H8 H9] Hi Hz Hfb. assert (0 < nmeta) by done.
  assert (f_nb f ≤ NDIRECT) as Hnb by (destruct (decide (NDIRECT < f_nb f)); [by rewrite H6 in Hi|lia]).
  assert (ind di = 0) as Ei.
  { destruct (decide (ind di = 0)) as [|Hne]; [done|]. apply H5 in Hne. congruence. }
  assert (ind (set_addr NDIRECT fb di) = fb) as Ei'.
  { rewrite ind_set_addr by (apply H1 || done). by rewrite decide_True. }
  assert (∀ j, 0 ≤ j < MAXFILE → islot D (set_addr NDIRECT fb di) j = islot D di j) as Hs.
  { intros j Hj. unfold islot. rewrite Ei', Ei. destruct (Z.ltb_spec j NDIRECT).
    - cbn [set_addr d_addrs]. unfold NDIRECT in *. by rewrite list_lookup_total_insert_ne by lia.
    - destruct (j <? MAXFILE) eqn:E; [|lia]. rewrite (proj2 (Z.eqb_neq fb 0)) by lia. rewrite Hz. by apply field_zero. }
  split; [|done]. split; cbn [f_data f_nb f_hasind]; try done.
  - apply di_ok_set_addr; [done|lia].
  - intros j Hj. rewrite Hs by done. by apply H4.
  - rewrite Ei'. split; [done|lia].
  - intros j Hj. destruct (decide (j = MAXFILE)) as [->|]; [rewrite islot_ind; lia|].
    rewrite Hs by lia. intros Hne. specialize (H7 j Hj Hne). lia.
  - intros i j Hi' Hj. destruct (decide (i = MAXFILE)) as [->|], (decide (j = MAXFILE)) as [->|]; try done;
      rewrite ?islot_ind, ?Hs by lia.
    + rewrite Ei'. intros E Hne. specialize (H7 j Hj). lia.
    + rewrite Ei'. intros E Hne. specialize (H7 i Hi' Hne). lia.
    + by apply H8.
  - intros o Ho. unfold fbyte. pose proof (block_range _ _ Ho). rewrite Hs by lia. by apply H9.
Qed.

Lemma file_at_direct D fb di f :
  file_at D fb di f → f_nb f < NDIRECT → D fb = zero_block → nmeta ≤ fb < 2^32 →
  file_at D (fb + 1) (set_addr (f_nb f) fb di) (Finfo (f_data f) (f_nb f + 1) (f_hasind f)) ∧
  ∀ j, 0 ≤ j ≤ MAXFILE → islot D (set_addr (f_nb f) fb di) j = if decide (j = f_nb f) then fb else islot D di j.
Proof.
  intros Hf Hnb Hz Hfb. assert (0 < nmeta) by done. pose proof (fa_nb _ _ _ _ Hf) as Hn. pose proof (fa_di _ _ _ _ Hf) as Hdi.
  assert (∀ j, 0 ≤ j ≤ MAXFILE → islot D (set_addr (f_nb f) fb di) j = if decide (j = f_nb f) then fb else islot D di j) as Hs.
  { intros j Hj. unfold islot. rewrite ind_set_addr by (apply (dk_len _ Hdi) || lia). rewrite (decide_False (P := f_nb f = NDIRECT)) by lia.
    destruct (Z.ltb_spec j NDIRECT); [|by rewrite decide_False by lia]. cbn [set_addr d_addrs]. case_decide as E.
    - subst j. rewrite list_lookup_total_insert_eq; [done|]. rewrite (dk_len _ Hdi). lia.
    - rewrite list_lookup_total_insert_ne; [done|lia]. }
  split; [|done]. apply (file_at_slot D D fb di); try done; try lia.
  - apply di_ok_set_addr; [done|lia].
  - assert (MAXFILE = 268 ∧ NDIRECT = 12) as [EM EN] by done. lia.
Qed.

Lemma file_at_indirect D fb di f :
  (∀ b, block_ok (D b)) → file_at D fb di f → NDIRECT ≤ f_nb f < MAXFILE → f_hasind f = true →
  D fb = zero_block → nmeta ≤ fb < 2^32 →
  let D' := <[ind di := put32 (D (ind di)) (4 * (f_nb f - NDIRECT)) fb]> D in
  file_at D' (fb + 1) di (Finfo (f_data f) (f_nb f + 1) true) ∧
  ∀ j, 0 ≤ j ≤ MAXFILE → islot D' di j = if decide (j = f_nb f) then fb else islot D di j.
Proof.
  intros HD Hf Hnb Hi Hz Hfb D'. assert (0 < nmeta) by done.
  assert (ind di ≠ 0) as Hne by (by apply (fa_ind _ _ _ _ Hf)).
  pose proof (fa_range _ _ _ _ Hf MAXFILE) as Hr. rewrite islot_ind in Hr. specialize (Hr ltac:(done) Hne).
  assert (∀ j, 0 ≤ j ≤ MAXFILE → islot D' di j = if decide (j = f_nb f) then fb else islot D di j) as Hs.
  { intros j Hj. unfold islot. destruct (Z.ltb_spec j NDIRECT); [by rewrite decide_False by lia|].
    destruct (Z.ltb_spec j MAXFILE); [|by rewrite decide_False by lia]. rewrite (proj2 (Z.eqb_neq (ind di) 0)) by done.
    unfold D', le32, put32. rewrite fn_lookup_insert. assert (MAXFILE = 268 ∧ NDIRECT = 12) as [EM EN] by done. case_decide as E.
    - subst j. rewrite field_set_eq by (apply HD || unfold BSIZE; lia). change (2^(4 * 8)) with (2^32). apply Z.mod_small. lia.
    - rewrite field_set_ne by (apply HD || unfold BSIZE; lia). done. }
  split; [|done]. rewrite <- Hi. apply (file_at_slot D D' fb di di f); try done; try lia.
  - by apply (fa_di _ _ _ _ Hf).
  - intros j Hj Hj2. unfold D'. apply fn_lookup_insert_ne. intros E. rewrite <- (islot_ind D) in E.
    apply (fa_inj _ _ _ _ Hf) in E; (done || lia || by rewrite islot_ind).
  - unfold D'. rewrite fn_lookup_insert_ne by lia. done.
Qed.

Lemma file_at_fill D fb di f p :
  (∀ b, block_ok (D b)) → file_at D fb di f → p ≠ [] →
  let off := length (f_data f) in
  let x := islot D di (off `div` BSIZE) in
  off `div` BSIZE < f_nb f → off `mod` BSIZE + length p ≤ BSIZE →
  let D' := <[x := put_bytes (D x) (off `mod` BSIZE) p]> D in
  file_at D' fb di (Finfo (f_data f ++ p) (f_nb f) (f_hasind f)) ∧
  ∀ j, 0 ≤ j ≤ MAXFILE → islot D' di j = islot D di j.
Proof.
  intros HD Hf Hp off x Hlt Hp2 D'. pose proof Hf as [H1 H2 H3 H4 H5 H6 H7 H8 H9].
  assert (0 ≤ off `div` BSIZE) as H0 by (apply Z.div_pos; unfold off, BSIZE; lia).
  assert (x ≠ 0) as Hx by (apply H4; lia).
  assert (∀ j, 0 ≤ j ≤ MAXFILE → islot D' di j = islot D di j) as Hs.
  { intros j Hj. apply islot_ext. intros Hne. unfold D'. apply fn_lookup_insert_ne. intros E. rewrite <- (islot_ind D) in E.
    apply H8 in E; [lia|lia|lia|done]. }
  pose proof (Z.div_mod off BSIZE ltac:(done)) as Ed. pose proof (mod_bsize off) as Hm.
  split; [|done]. split; cbn [f_data f_nb f_hasind]; try done.
  - rewrite length_app. fold off. unfold BSIZE in *. nia.
  - intros j Hj. rewrite Hs by lia. by apply H4.
  - intros j Hj. rewrite Hs by lia. by apply H7.
  - intros i j Hi Hj. rewrite !Hs by lia. by apply H8.
  - intros o Ho. pose proof (block_range _ _ Ho). unfold fbyte. rewrite Hs by lia. unfold D'.
    pose proof (Z.div_mod o BSIZE ltac:(done)) as Eo. pose proof (mod_bsize o) as Hmo. pose proof (HD x) as [Hlx _].
    destruct (decide (o `div` BSIZE = off `div` BSIZE)) as [E|E].
    + rewrite E. fold x. rewrite fn_lookup_insert, lookup_put_bytes by (lia || unfold BSIZE in *; lia).
      case_decide as Ec.
      * rewrite lookup_app_r by (fold off; unfold BSIZE in *; lia). rewrite list_lookup_total_alt.
        replace (Z.to_nat (o `mod` BSIZE - off `mod` BSIZE)) with (Z.to_nat o - length (f_data f))%nat; [|unfold off, BSIZE in *; lia].
        destruct (lookup_lt_is_Some_2 p (Z.to_nat o - length (f_data f))) as [y ->]; [unfold off, BSIZE in *; lia|done].
      * pose proof (H9 o Ho) as Hb. unfold fbyte in Hb. rewrite E in Hb. fold x in Hb. etrans; [exact Hb|].
        destruct (decide (o < off)).
        -- by rewrite lookup_app_l by (unfold off in *; lia).
        -- rewrite !lookup_ge_None_2; [done|rewrite length_app; unfold off, BSIZE in *; lia|unfold off in *; lia].
    + rewrite fn_lookup_insert_ne by (intros E2; apply H8 in E2; (lia || done)).
      fold (fbyte D di o). rewrite H9 by done. destruct (decide (o < off)).
      * by rewrite lookup_app_l by (unfold off in *; lia).
      * rewrite !lookup_ge_None_2; [done|rewrite length_app; unfold off, BSIZE in *; lia|unfold off in *; lia].
Qed.

(** ** All files *)

(** The inodes [1 ≤ i < fi] are the files [f i], and share no block; every
    block between the metadata and [fb] belongs to one of them, and blocks from
    [fb] on are untouched. *)
Record files (D : Z → block) (fb fi : Z) (t : Z → dinode) (f : Z → finfo) : Prop := {
  fl_at i : 1 ≤ i < fi → file_at D fb (t i) (f i);
  fl_disj i j b : 1 ≤ i < fi → 1 ≤ j < fi → owned D (t i) b → owned D (t j) b → i = j;
  fl_zero b : fb ≤ b → D b = zero_block;
  fl_blk b : block_ok (D b);
  fl_fb : nmeta ≤ fb;
  fl_cover b : nmeta ≤ b < fb → ∃ i, 1 ≤ i < fi ∧ owned D (t i) b
}.

Lemma file_at_owned D fb di f b : file_at D fb di f → owned D di b → nmeta ≤ b < fb.
Proof. intros Hf (Hne & j & Hj & <-). by apply (fa_range _ _ _ _ Hf). Qed.

Lemma files_ext D fb fi t t' f f' :
  files D fb fi t f → (∀ i, 1 ≤ i < fi → t' i = t i ∧ f' i = f i) → files D fb fi t' f'.
Proof.
  intros [H1 H2 H3 H4 H5 H6] H. split; try done.
  - intros i Hi. destruct (H i Hi) as [-> ->]. auto.
  - intros i j b Hi Hj. rewrite (proj1 (H i Hi)), (proj1 (H j Hj)). by apply H2.
  - intros b Hb. destruct (H6 b Hb) as (i & Hi & Ho). exists i. by rewrite (proj1 (H i Hi)).
Qed.

(** A file whose slots keep their blocks keeps its blocks. *)
Lemma owned_keep D D' di di' b :
  (∀ j, 0 ≤ j ≤ MAXFILE → islot D di j ≠ 0 → islot D' di' j = islot D di j) → owned D di b → owned D' di' b.
Proof. intros H (Hne & j & Hj & <-). split; [done|]. exists j. split; [done|by apply H]. Qed.

(** One file changes, in its own blocks or in fresh ones. *)
Lemma files_step D D' fb fb' fi t f i di' f' :
  files D fb fi t f → 1 ≤ i < fi → fb ≤ fb' → file_at D' fb' di' f' →
  (∀ b, owned D' di' b → owned D (t i) b ∨ fb ≤ b) →
  (∀ b, owned D (t i) b ∨ fb ≤ b < fb' → owned D' di' b) →
  (∀ b, b < fb → ¬ owned D (t i) b → D' b = D b) →
  (∀ b, fb' ≤ b → D' b = zero_block) → (∀ b, block_ok (D' b)) →
  files D' fb' fi (<[i := di']> t) (<[i := f']> f).
Proof.
  intros [H1 H2 H3 H4 H5 H6] Hi Hfb Hf Ho Hkeep Hd Hz Hb.
  assert (∀ j b, 1 ≤ j < fi → j ≠ i → owned D (t j) b → D' b = D b) as Hk.
  { intros j b Hj Hne Hob. apply Hd; [by apply (file_at_owned _ _ _ _ _ (H1 j Hj))|]. intros Hoi. by apply Hne, (H2 j i b). }
  assert (∀ j b, 1 ≤ j < fi → j ≠ i → owned D' (t j) b → owned D (t j) b) as Hown.
  { intros j b Hj Hne (Hb0 & k & Hkr & E). split; [done|]. exists k. split; [done|]. rewrite <- E. symmetry.
    apply islot_owned; [done|]. intros b' Hob. by apply (Hk j). }
  assert (∀ j b, 1 ≤ j < fi → j ≠ i → owned D' di' b → owned D' (t j) b → False) as Hdisj.
  { intros j b Hj Hne Hb1 Hb2. apply Hown in Hb2; [|done..]. destruct (Ho b Hb1) as [Hoi|Hge].
    - by apply Hne, (H2 j i b).
    - pose proof (file_at_owned _ _ _ _ _ (H1 j Hj) Hb2). lia. }
  split; try done; [| |lia|].
  - intros j Hj. destruct (decide (j = i)) as [->|Hne]; [by rewrite !fn_lookup_insert|].
    rewrite !fn_lookup_insert_ne by done. apply (file_at_ext D _ fb); [auto|done|]. intros b Hob. by apply (Hk j).
  - intros j k b Hj Hk'. destruct (decide (j = i)) as [->|Hj'], (decide (k = i)) as [->|Hk2]; try done;
      rewrite ?fn_lookup_insert, ?(fn_lookup_insert_ne t) by done; intros Hb1 Hb2.
    + by destruct (Hdisj k b).
    + by destruct (Hdisj j b).
    + by eapply H2; [..|apply Hown|apply Hown].
  - intros b Hbr. destruct (decide (fb ≤ b)) as [Hge|Hlt].
    { exists i. rewrite fn_lookup_insert. split; [done|]. apply Hkeep. right. lia. }
    destruct (H6 b ltac:(lia)) as (j & Hj & Hob). exists j. split; [done|].
    destruct (decide (j = i)) as [->|Hne]; [rewrite fn_lookup_insert; apply Hkeep; by left|].
    rewrite fn_lookup_insert_ne by done. eapply owned_keep; [|exact Hob]. intros k Hk1 _.
    apply islot_owned; [done|]. intros b' Hob'. by apply (Hk j).
Qed.

(** A change of the blocks before the files. *)
Lemma files_meta D D' fb fi t f :
  files D fb fi t f → (∀ b, nmeta ≤ b → D' b = D b) → (∀ b, block_ok (D' b)) → files D' fb fi t f.
Proof.
  intros [H1 H2 H3 H4 H5 H6] Hd Hb.
  assert (∀ i b, 1 ≤ i < fi → owned D (t i) b → D' b = D b) as Hk.
  { intros i b Hi Ho. apply Hd. by apply (file_at_owned _ _ _ _ _ (H1 i Hi)). }
  split; try done.
  - intros i Hi. apply (file_at_ext D _ fb); [auto|done|]. intros b Ho. by apply (Hk i).
  - intros i j b Hi Hj (Hb0 & k & Hkr & Ek) (_ & l & Hlr & El). apply (H2 i j b Hi Hj).
    + split; [done|]. exists k. split; [done|]. rewrite <- Ek. symmetry. apply islot_owned; [done|]. intros; by apply (Hk i).
    + split; [done|]. exists l. split; [done|]. rewrite <- El. symmetry. apply islot_owned; [done|]. intros; by apply (Hk j).
  - intros b Hb'. rewrite Hd by lia. auto.
  - intros b Hb'. destruct (H6 b Hb') as (i & Hi & Ho). exists i. split; [done|]. eapply owned_keep; [|exact Ho].
    intros k Hk1 _. apply islot_owned; [done|]. intros b' Hob'. by apply (Hk i).
Qed.

(** A new inode, without blocks. *)
Definition empty_file : finfo := Finfo [] 0 false.

Lemma islot_zero D di j :
  d_addrs di = replicate (Z.to_nat (NDIRECT + 1)) 0 → 0 ≤ j ≤ MAXFILE → islot D di j = 0.
Proof.
  intros E Hj. assert (ind di = 0) as Ei by (unfold ind; by rewrite E). unfold islot. rewrite Ei.
  destruct (Z.ltb_spec j NDIRECT); [|by destruct (j <? MAXFILE)]. rewrite E. apply lookup_total_replicate_2.
  unfold NDIRECT in *. lia.
Qed.

Lemma files_ialloc D fb fi t f di :
  files D fb fi t f → 1 ≤ fi → di_ok di → d_addrs di = replicate (Z.to_nat (NDIRECT + 1)) 0 →
  files D fb (fi + 1) (<[fi := di]> t) (<[fi := empty_file]> f).
Proof.
  intros [H1 H2 H3 H4 H5 H6] Hfi Hdi Ha.
  assert (∀ j, 0 ≤ j ≤ MAXFILE → islot D di j = 0) as Hz by (intros; by apply islot_zero).
  assert (∀ b, ¬ owned D di b) as Hno by (intros b (Hne & j & Hj & E); rewrite Hz in E by done; congruence).
  split; try done.
  - intros i Hi. destruct (decide (i = fi)) as [->|Hne].
    + rewrite !fn_lookup_insert. split; cbn; try done; try (intros; lia).
      * intros j Hj. rewrite Hz by lia. lia.
      * rewrite <- (islot_ind D), Hz by done. done.
      * intros j Hj. by rewrite Hz.
      * intros i j Hi' Hj. by rewrite !Hz.
    + rewrite !fn_lookup_insert_ne by done. apply H1. lia.
  - intros i j b Hi Hj. destruct (decide (i = fi)) as [->|], (decide (j = fi)) as [->|]; try done;
      rewrite ?fn_lookup_insert, ?(fn_lookup_insert_ne t) by done; try (by intros ? ?%Hno); try (by intros ?%Hno).
    apply H2; lia.
  - intros b Hb. destruct (H6 b Hb) as (i & Hi & Ho). exists i. rewrite fn_lookup_insert_ne by lia. split; [lia|done].
Qed.

(** The four changes of a file, among the others. *)
Section changes.
Variables (D : Z → block) (fb fi : Z) (t : Z → dinode) (f : Z → finfo) (i : Z).
Hypothesis Hfl : files D fb fi t f.
Hypothesis Hi : 1 ≤ i < fi.
Hypothesis Hfb : fb < 2^32.

Lemma owned_slots D' di di' :
  (∀ j, 0 ≤ j ≤ MAXFILE → islot D' di' j = fb ∨ islot D' di' j = islot D di j) →
  ∀ b, owned D' di' b → owned D di b ∨ fb ≤ b.
Proof.
  intros H b (Hne & j & Hj & E). destruct (H j Hj) as [E'|E']; [right; lia|left]. split; [done|]. exists j. split; [done|]. congruence.
Qed.

(** The slot [k], which was empty, gets the block [fb]. *)
Lemma owned_fresh D' di di' k :
  nmeta ≤ fb → 0 ≤ k ≤ MAXFILE → islot D di k = 0 → islot D' di' k = fb →
  (∀ j, 0 ≤ j ≤ MAXFILE → j ≠ k → islot D' di' j = islot D di j) →
  ∀ b, owned D di b ∨ fb ≤ b < fb + 1 → owned D' di' b.
Proof.
  intros Hm Hk Hz Hs Ho b [Hb|Hb].
  - eapply owned_keep; [|exact Hb]. intros j Hj Hne. apply Ho; [done|]. by intros ->.
  - assert (b = fb) as -> by lia. assert (0 < nmeta) by done. split; [lia|]. by exists k.
Qed.

Lemma files_addind :
  f_hasind (f i) = false →
  files D (fb + 1) fi (<[i := set_addr NDIRECT fb (t i)]> t) (<[i := Finfo (f_data (f i)) (f_nb (f i)) true]> f).
Proof using Hfl Hi Hfb.
  intros Hh. destruct Hfl as [H1 H2 H3 H4 H5 H6].
  destruct (file_at_ind D fb (t i) (f i)) as [Hf Hs]; [auto|done|apply H3; lia|lia|].
  assert (islot D (set_addr NDIRECT fb (t i)) MAXFILE = fb) as Em.
  { rewrite islot_ind, ind_set_addr; [by rewrite decide_True| |done]. apply (dk_len _ (fa_di _ _ _ _ (H1 i Hi))). }
  assert (islot D (t i) MAXFILE = 0) as Ez.
  { rewrite islot_ind. destruct (decide (ind (t i) = 0)) as [|Hne]; [done|]. apply (fa_ind _ _ _ _ (H1 i Hi)) in Hne. congruence. }
  apply (files_step D D fb); try done; [lia| | |intros; apply H3; lia].
  - apply owned_slots. intros j Hj. destruct (decide (j = MAXFILE)) as [->|]; [by left|right; apply Hs; lia].
  - apply (owned_fresh D (t i) _ MAXFILE); try done. intros j Hj Hne. apply Hs. lia.
Qed.

Lemma next_empty : f_nb (f i) < MAXFILE → islot D (t i) (f_nb (f i)) = 0.
Proof using Hfl Hi.
  intros Hn. pose proof (fl_at _ _ _ _ _ Hfl i Hi) as Hf. pose proof (fa_nb _ _ _ _ Hf).
  destruct (decide (islot D (t i) (f_nb (f i)) = 0)) as [|Hne]; [done|]. apply (fa_slots _ _ _ _ Hf) in Hne; lia.
Qed.

Lemma files_direct :
  f_nb (f i) < NDIRECT →
  files D (fb + 1) fi (<[i := set_addr (f_nb (f i)) fb (t i)]> t)
    (<[i := Finfo (f_data (f i)) (f_nb (f i) + 1) (f_hasind (f i))]> f) ∧
  islot D (set_addr (f_nb (f i)) fb (t i)) (f_nb (f i)) = fb.
Proof using Hfl Hi Hfb.
  intros Hh. destruct Hfl as [H1 H2 H3 H4 H5 H6]. pose proof (fa_nb _ _ _ _ (H1 i Hi)) as Hn.
  destruct (file_at_direct D fb (t i) (f i)) as [Hf Hs]; [auto|done|apply H3; lia|lia|].
  split; [|by rewrite Hs, decide_True by lia].
  apply (files_step D D fb); try done; [lia| | |intros; apply H3; lia].
  - apply owned_slots. intros j Hj. rewrite Hs by done. case_decide; auto.
  - apply (owned_fresh D (t i) _ (f_nb (f i))); [done|lia|apply next_empty; assert (MAXFILE = 268 ∧ NDIRECT = 12) as [-> ?] by done; lia|by rewrite Hs, decide_True by lia|].
    intros j Hj Hne. by rewrite Hs, decide_False.
Qed.

Lemma files_indirect D' :
  NDIRECT ≤ f_nb (f i) < MAXFILE → f_hasind (f i) = true →
  D' = <[ind (t i) := put32 (D (ind (t i))) (4 * (f_nb (f i) - NDIRECT)) fb]> D →
  files D' (fb + 1) fi t (<[i := Finfo (f_data (f i)) (f_nb (f i) + 1) true]> f) ∧ islot D' (t i) (f_nb (f i)) = fb.
Proof using Hfl Hi Hfb.
  intros Hn Hh ->. destruct Hfl as [H1 H2 H3 H4 H5 H6].
  assert (MAXFILE = 268 ∧ NDIRECT = 12) as [EM EN] by done.
  destruct (file_at_indirect D fb (t i) (f i)) as [Hf Hs]; [auto|auto|done|done|apply H3; lia|lia|].
  assert (owned D (t i) (ind (t i))) as Ho.
  { rewrite <- (islot_ind D). apply owned_slot; [done|]. by apply (fa_ind _ _ _ _ (H1 i Hi)). }
  pose proof (file_at_owned _ _ _ _ _ (H1 i Hi) Ho).
  split; [|by rewrite Hs, decide_True by lia].
  eapply files_ext; [apply (files_step D _ fb (fb + 1) fi t f i (t i)); try done|].
  - lia.
  - apply owned_slots. intros j Hj. rewrite Hs by done. case_decide; auto.
  - apply (owned_fresh _ (t i) _ (f_nb (f i))); [done|lia|apply next_empty; lia|by rewrite Hs, decide_True by lia|].
    intros j Hj Hne. by rewrite Hs, decide_False.
  - intros b Hb Hno. apply fn_lookup_insert_ne. intros <-. done.
  - intros b Hb. rewrite fn_lookup_insert_ne by lia. apply H3. lia.
  - intros b. destruct (decide (b = ind (t i))) as [->|]; [|by rewrite fn_lookup_insert_ne].
    rewrite fn_lookup_insert. apply put_field_block; [done|unfold BSIZE; lia..].
  - intros j Hj. split; [|done]. destruct (decide (j = i)) as [->|]; [by rewrite fn_lookup_insert|by rewrite fn_lookup_insert_ne].
Qed.

Lemma files_fill p D' :
  let off := length (f_data (f i)) in
  let x := islot D (t i) (off `div` BSIZE) in
  p ≠ [] → off `div` BSIZE < f_nb (f i) → off `mod` BSIZE + length p ≤ BSIZE → Forall (λ b, 0 ≤ b < 256) p →
  D' = <[x := put_bytes (D x) (off `mod` BSIZE) p]> D →
  files D' fb fi t (<[i := Finfo (f_data (f i) ++ p) (f_nb (f i)) (f_hasind (f i))]> f).
Proof using Hfl Hi.
  intros off x Hp Hlt Hl Hby ->. destruct Hfl as [H1 H2 H3 H4 H5 H6].
  destruct (file_at_fill D fb (t i) (f i) p) as [Hf Hs]; [auto|auto|done|done|done|]. fold off x in Hf, Hs.
  assert (0 ≤ off `div` BSIZE) as H0 by (apply Z.div_pos; unfold off, BSIZE; lia).
  pose proof (fa_nb _ _ _ _ (H1 i Hi)) as Hnb. pose proof (mod_bsize off).
  assert (owned D (t i) x) as Ho.
  { apply owned_slot; [lia|]. apply (fa_slots _ _ _ _ (H1 i Hi)); lia. }
  pose proof (file_at_owned _ _ _ _ _ (H1 i Hi) Ho).
  eapply files_ext; [apply (files_step D _ fb fb fi t f i (t i)); try done|].
  - intros b (Hne & j & Hj & E). left. split; [done|]. exists j. split; [done|]. by rewrite <- E, Hs.
  - intros b [Hb|Hb]; [|lia]. eapply owned_keep; [|exact Hb]. intros j Hj _. by apply Hs.
  - intros b Hb Hno. apply fn_lookup_insert_ne. intros <-. done.
  - intros b Hb. rewrite fn_lookup_insert_ne by lia. by apply H3.
  - intros b. destruct (decide (b = x)) as [->|]; [|by rewrite fn_lookup_insert_ne].
    rewrite fn_lookup_insert. apply put_bytes_block; [done|lia|lia|done].
  - intros j Hj. split; [|done]. destruct (decide (j = i)) as [->|]; [by rewrite fn_lookup_insert|by rewrite fn_lookup_insert_ne].
Qed.
End changes.
