(* ===== verification/MkfsTheorems.v ===== *)
(** * mkfs builds a file system that the kernel accepts *)

From S2P Require Import Prelude Riscv Mem Kalloc Vm Block FsFormat Txn Fs FsBlocks FsInode FsFile FsWrite Mkfs MkfsInv.

(** ** Host byte order *)

Lemma xint_mod x : xint x = x `mod` 2^32.
Proof.
  change (2^32) with (2^(4 * 8)). rewrite <- (little_endian_to_Z_to_little_endian 4 8) by done. unfold xint. f_equal.
  change (Z_to_little_endian 4 8 x) with [Z.land x (Z.ones 8); Z.land (x ≫ 8) (Z.ones 8);
    Z.land ((x ≫ 8) ≫ 8) (Z.ones 8); Z.land (((x ≫ 8) ≫ 8) ≫ 8) (Z.ones 8)].
  by rewrite !Z.land_ones, !Z.shiftr_shiftr by done.
Qed.

Lemma xshort_mod x : xshort x = x `mod` 2^16.
Proof.
  change (2^16) with (2^(2 * 8)). rewrite <- (little_endian_to_Z_to_little_endian 2 8) by done. unfold xshort. f_equal.
  change (Z_to_little_endian 2 8 x) with [Z.land x (Z.ones 8); Z.land (x ≫ 8) (Z.ones 8)].
  by rewrite !Z.land_ones by done.
Qed.

Lemma xint_id x : 0 ≤ x < 2^32 → xint x = x.
Proof. intros H. rewrite xint_mod. by apply Z.mod_small. Qed.

(** ** Sectors *)

Lemma sector o : 0 ≤ o < 2^22 → u32 (o * BSIZE) `div` BSIZE = o.
Proof.
  unfold u32, BSIZE. intros H. rewrite Z.mod_small by lia. apply Z.div_mul. lia.
Qed.

Lemma runs_rsect B sec s Q :
  0 ≤ sec < 2^22 → (B → sec < img_len s) → (sec < img_len s → Q (img s sec) s) → runs B (rsect sec) s Q.
Proof.
  intros H Hl HQ. unfold runs, rsect. rewrite sector by done. destruct (Z.leb_spec (img_len s) sec); [|auto].
  intros HB. specialize (Hl HB). lia.
Qed.

Lemma runs_wsect B room sec buf s (Q : unit → mkst → Prop) :
  0 ≤ sec < 2^22 → (B → sec < room) →
  Q tt (Mkst (<[sec := buf]> (img s)) (Z.max (img_len s) (sec + 1)) (freeinode s) (freeblock s)) →
  runs B (wsect room sec buf) s Q.
Proof.
  intros H Hr HQ. unfold runs, wsect. rewrite sector by done. destruct (Z.leb_spec room sec); [|done].
  intros HB. specialize (Hr HB). lia.
Qed.

Lemma runs_take_block B s (Q : Z → mkst → Prop) :
  0 ≤ freeblock s < 2^31 → Q (freeblock s) (Mkst (img s) (img_len s) (freeinode s) (freeblock s + 1)) →
  runs B take_block s Q.
Proof.
  intros H HQ. unfold runs, take_block, gets, set_freeblock, modify, bind, ret. rewrite xint_id by lia.
  unfold u32. by rewrite Z.mod_small by lia.
Qed.

(** ** The block for the next bytes of a file *)

Definition blocks (c : list Z) : Z := (length c + BSIZE - 1) `div` BSIZE.

(** The file with the bytes [c] between two appends. *)
Definition whole (c : list Z) : finfo := Finfo c (blocks c) (NDIRECT <? blocks c).
(** The same when the block of its end is there. *)
Definition opened (c : list Z) : finfo :=
  let n := length c `div` BSIZE + 1 in Finfo c n (NDIRECT <? n).

(** How many blocks a file takes, its indirect block included. *)
Definition cost (f : finfo) : Z := f_nb f + if f_hasind f then 1 else 0.

Lemma blocks_aligned c : length c `mod` BSIZE = 0 → blocks c = length c `div` BSIZE.
Proof.
  unfold blocks, BSIZE. intros H. pose proof (Z.div_mod (length c) 1024 ltac:(done)).
  symmetry. apply (Z.div_unique _ _ _ 1023); lia.
Qed.

Lemma blocks_append c p :
  p ≠ [] → length c `mod` BSIZE + length p ≤ BSIZE → blocks (c ++ p) = length c `div` BSIZE + 1.
Proof.
  unfold blocks, BSIZE. intros Hp H. pose proof (Z.div_mod (length c) 1024 ltac:(done)).
  assert (0 < length p) by (destruct p; cbn; [done|lia]). pose proof (Z.mod_pos_bound (length c) 1024).
  symmetry. rewrite length_app. apply (Z.div_unique _ _ _ (length c `mod` 1024 + length p - 1)); lia.
Qed.

Lemma whole_opened c : length c `mod` BSIZE ≠ 0 → whole c = opened c.
Proof.
  intros H. unfold whole, opened. replace (blocks c) with (length c `div` BSIZE + 1); [done|].
  unfold blocks, BSIZE in *. pose proof (Z.div_mod (length c) 1024 ltac:(done)). pose proof (Z.mod_pos_bound (length c) 1024).
  apply (Z.div_unique _ _ _ (length c `mod` 1024 - 1)); lia.
Qed.

Lemma blocks_mono c c' : (length c ≤ length c')%nat → 0 ≤ blocks c ≤ blocks c'.
Proof. unfold blocks, BSIZE. intros H. split; [apply Z.div_pos; lia|apply Z.div_le_mono; lia]. Qed.

Lemma cost_mono c c' : (length c ≤ length c')%nat → 0 ≤ cost (whole c) ≤ cost (whole c').
Proof.
  intros H. pose proof (blocks_mono _ _ H). unfold cost, whole. cbn.
  destruct (Z.ltb_spec NDIRECT (blocks c)), (Z.ltb_spec NDIRECT (blocks c')); lia.
Qed.

(** The blocks of the inodes [1] to [n]. *)
Fixpoint total (cs : Z → list Z) (n : nat) : Z :=
  match n with
  | O => 0
  | S n => total cs n + cost (whole (cs (n + 1)))
  end.

Lemma total_mono cs cs' (n m : nat) :
  (n ≤ m)%nat → (∀ i, 1 ≤ i ≤ n → (length (cs i) ≤ length (cs' i))%nat) → 0 ≤ total cs n ≤ total cs' m.
Proof.
  intros Hnm H.
  assert (0 ≤ total cs n ≤ total cs' n) as Hn.
  { clear Hnm. induction n as [|n IH]; cbn [total]; [lia|]. pose proof (cost_mono _ _ (H (n + 1) ltac:(lia))).
    specialize (IH ltac:(intros; apply H; lia)). lia. }
  assert (total cs' n ≤ total cs' m); [|lia]. clear Hn H. induction Hnm as [|m _ IH]; [lia|]. cbn [total].
  pose proof (cost_mono (cs' (m + 1)) (cs' (m + 1)) ltac:(lia)). lia.
Qed.

Lemma total_ext cs cs' (n : nat) : (∀ i, 1 ≤ i ≤ n → cs' i = cs i) → total cs' n = total cs n.
Proof.
  induction n as [|n IH]; intros H; cbn [total]; [done|]. rewrite IH by (intros; apply H; lia). by rewrite H by lia.
Qed.

Lemma total_insert cs (n : nat) i c : 1 ≤ i ≤ n → total (<[i := c]> cs) n = total cs n + cost (whole c) - cost (whole (cs i)).
Proof.
  induction n as [|n IH]; intros Hi; cbn [total]; [lia|]. destruct (decide (i = n + 1)) as [->|Hne].
  - rewrite fn_lookup_insert. rewrite (total_ext cs); [lia|]. intros j Hj. apply fn_lookup_insert_ne. lia.
  - rewrite IH by lia. rewrite fn_lookup_insert_ne by done. lia.
Qed.

Section append.
Variable room : Z.
(** mkfs does not die if [B] holds. *)
Variable B : Prop.
Hypothesis Hroom : B → FSSIZE ≤ room.

(** What file_block returns: the disk block of the end of the file [c]. *)
Definition block_post (D : Z → block) (fb fi : Z) (t : Z → dinode) (f : Z → finfo) (i : Z) (c : list Z)
    (din : dinode) (r : dinode * Z) (s : mkst) : Prop :=
  ∃ D' fb', s = Mkst D' FSSIZE fi fb' ∧ files D' fb' fi (<[i := r.1]> t) (<[i := opened c]> f) ∧
    r.2 = islot D' r.1 (length c `div` BSIZE) ∧ (fb' ≤ FSSIZE ∨ fb' = r.2 + 1) ∧ fb' ≤ FSSIZE + 2 ∧
    fb' = fb + cost (opened c) - cost (f i) ∧ (∀ b, b < nmeta → D' b = D b) ∧ same_fields din r.1.

(** The part of file_block for a block that the indirect block points to. *)
Definition indirect_block (din : dinode) (fbn : Z) : M mkst (dinode * Z) :=
  let a := xint (d_addrs din !!! Z.to_nat NDIRECT) in
  let* indirect := rsect a in
  let o := 4 * (fbn - NDIRECT) in
  let* indirect := (if le32 indirect o =? 0 then
                      let* b := take_block in
                      let indirect := put32 indirect o b in
                      wsect room a indirect ;;;
                      ret indirect
                    else ret indirect) in
  ret (din, xint (le32 indirect o)).

Lemma islot_u32 D fb di f j : file_at D fb di f → 0 ≤ j ≤ MAXFILE → fb < 2^32 → 0 ≤ islot D di j < 2^32.
Proof.
  intros Hf Hj Hfb. destruct (decide (islot D di j = 0)) as [->|Hne]; [done|].
  pose proof (fa_range _ _ _ _ Hf j Hj Hne). assert (0 < nmeta) by done. lia.
Qed.

Lemma indirect_block_ok D fb fi t f i c :
  files D fb fi t f → 1 ≤ i < fi → fb ≤ FSSIZE + 1 →
  let fbn := length c `div` BSIZE in
  NDIRECT ≤ fbn < MAXFILE → f i = opened c ∧ fb ≤ FSSIZE ∨ f i = Finfo c fbn true →
  (B → fb + cost (opened c) - cost (f i) ≤ FSSIZE) →
  runs B (indirect_block (t i) fbn) (Mkst D FSSIZE fi fb) (block_post D fb fi t f i c (t i)).
Proof.
  intros Hfl Hi Hfb fbn Hn Hc HB. assert (0 < nmeta ∧ MAXFILE = 268 ∧ NDIRECT = 12 ∧ FSSIZE = 2000) as (Hm & EM & EN & EF) by done.
  pose proof (fl_at _ _ _ _ _ Hfl i Hi) as Hf.
  assert (f_hasind (f i) = true) as Hh by (destruct Hc as [[-> _]| ->]; [cbn; fold fbn; lia|done]).
  assert (cost (opened c) = fbn + 2) as Ec by (unfold cost, opened; cbn; fold fbn; rewrite (proj2 (Z.ltb_lt NDIRECT (fbn + 1))); lia).
  assert (ind (t i) ≠ 0) as Hne by (by apply (fa_ind _ _ _ _ Hf)).
  pose proof (fa_range _ _ _ _ Hf MAXFILE) as Hr. rewrite islot_ind in Hr. specialize (Hr ltac:(lia) Hne).
  pose proof (islot_u32 _ _ _ _ fbn Hf) as Hs. pose proof (fl_fb _ _ _ _ _ Hfl) as Hfb2.
  assert (islot D (t i) fbn = le32 (D (ind (t i))) (4 * (fbn - NDIRECT))) as Es.
  { unfold islot. destruct (Z.ltb_spec fbn NDIRECT); [lia|]. destruct (Z.ltb_spec fbn MAXFILE); [|lia].
    by rewrite (proj2 (Z.eqb_neq _ _) Hne). }
  unfold indirect_block. fold (ind (t i)). rewrite xint_id by lia. apply runs_bind, runs_rsect; [lia| |]; cbn [img img_len].
  { intros Hb. specialize (HB Hb). destruct Hc as [[Hc _]|Hc]; rewrite Hc in HB; [lia|]. unfold cost at 2 in HB. cbn in HB. lia. }
  intros Hlt. rewrite <- Es. apply runs_bind. destruct Hc as [[Hc Hfb3]|Hc].
  - assert (islot D (t i) fbn ≠ 0) as Hne2 by (apply (fa_slots _ _ _ _ Hf); [lia|]; rewrite Hc; cbn; fold fbn; lia).
    rewrite (proj2 (Z.eqb_neq _ _) Hne2). unfold runs, ret. rewrite <- Es, xint_id by (apply Hs; lia).
    exists D, fb. split_and!; try done; [|by left|lia|rewrite Hc; lia|apply same_fields_refl].
    eapply files_ext; [done|]. intros j Hj. destruct (decide (j = i)) as [->|]; [by rewrite !fn_lookup_insert|by rewrite !fn_lookup_insert_ne].
  - assert (islot D (t i) fbn = 0) as E0.
    { destruct (decide (islot D (t i) fbn = 0)) as [|Hne2]; [done|]. apply (fa_slots _ _ _ _ Hf) in Hne2; [|lia]. rewrite Hc in Hne2. cbn in Hne2. lia. }
    rewrite E0. cbn [Z.eqb]. apply runs_bind, runs_take_block; cbn [freeblock]; [lia|]. cbn [img img_len freeinode].
    apply runs_bind, runs_wsect; [lia|intros Hb; specialize (Hroom Hb); lia|]. cbn [img img_len freeinode freeblock].
    destruct (files_indirect D fb fi t f i Hfl Hi ltac:(lia) _ ltac:(rewrite Hc; cbn; lia) Hh eq_refl) as [Hfl' Es'].
    rewrite Hc in Hfl', Es'. cbn [f_nb f_data] in Hfl', Es'. unfold runs, ret. rewrite Z.max_l by lia.
    assert (le32 (put32 (D (ind (t i))) (4 * (fbn - NDIRECT)) fb) (4 * (fbn - NDIRECT)) = fb) as Ew.
    { unfold le32, put32. rewrite field_set_eq by (apply (fl_blk _ _ _ _ _ Hfl) || unfold BSIZE; lia).
      change (2^(4 * 8)) with (2^32). apply Z.mod_small. lia. }
    rewrite Ew, xint_id by lia. exists (<[ind (t i) := put32 (D (ind (t i))) (4 * (fbn - NDIRECT)) fb]> D), (fb + 1).
    split_and!; try done; [|right; done|lia|rewrite Ec, Hc; unfold cost; cbn; lia| |apply same_fields_refl].
    + eapply files_ext; [exact Hfl'|]. intros j Hj. unfold opened. fold fbn.
      replace (NDIRECT <? fbn + 1) with true by lia.
      destruct (decide (j = i)) as [->|]; [by rewrite !fn_lookup_insert|by rewrite !fn_lookup_insert_ne].
    + intros b Hb. apply fn_lookup_insert_ne. lia.
Qed.

(** [t] with the inode [t i] and [f] with the file [f i] put again. *)
Lemma files_same D fb fi t f i : files D fb fi t f → files D fb fi (<[i := t i]> t) (<[i := f i]> f).
Proof.
  intros H. eapply files_ext; [exact H|]. intros j Hj.
  destruct (decide (j = i)) as [->|]; [by rewrite !fn_lookup_insert|by rewrite !fn_lookup_insert_ne].
Qed.

Lemma files_twice D fb fi t f i di di' x x' :
  files D fb fi (<[i := di']> (<[i := di]> t)) (<[i := x']> (<[i := x]> f)) → files D fb fi (<[i := di']> t) (<[i := x']> f).
Proof.
  intros H. eapply files_ext; [exact H|]. intros j Hj.
  destruct (decide (j = i)) as [->|]; [by rewrite !fn_lookup_insert|by rewrite !fn_lookup_insert_ne].
Qed.

(** What the block for the end of an aligned file takes. *)
Lemma cost_aligned c :
  length c `mod` BSIZE = 0 →
  cost (opened c) - cost (whole c) = if decide (length c `div` BSIZE = NDIRECT) then 2 else 1.
Proof.
  intros H. unfold cost, opened, whole. cbn [f_nb f_hasind]. rewrite (blocks_aligned c H).
  destruct (Z.ltb_spec NDIRECT (length c `div` BSIZE + 1)), (Z.ltb_spec NDIRECT (length c `div` BSIZE)); case_decide; lia.
Qed.

(** A block that the inode itself points to. *)
Lemma file_block_direct D fb fi t f i c :
  files D fb fi t f → 1 ≤ i < fi → fb ≤ FSSIZE → f i = whole c → length c `div` BSIZE < NDIRECT →
  runs B (file_block room (t i) (length c `div` BSIZE)) (Mkst D FSSIZE fi fb) (block_post D fb fi t f i c (t i)).
Proof.
  intros Hfl Hi Hfb Hc Hd. assert (0 < nmeta ∧ MAXFILE = 268 ∧ NDIRECT = 12 ∧ FSSIZE = 2000) as (Hm & EM & EN & EF) by done.
  pose proof (fl_at _ _ _ _ _ Hfl i Hi) as Hf. pose proof (fl_fb _ _ _ _ _ Hfl) as Hfb2.
  set (fbn := length c `div` BSIZE) in *. assert (0 ≤ fbn) as H0 by (apply Z.div_pos; unfold BSIZE; lia).
  pose proof (islot_u32 _ _ _ _ fbn Hf ltac:(lia) ltac:(lia)) as Hs.
  unfold file_block. rewrite (proj2 (Z.ltb_lt _ _) Hd).
  assert (d_addrs (t i) !!! Z.to_nat fbn = islot D (t i) fbn) as Ea.
  { unfold islot. by rewrite (proj2 (Z.ltb_lt _ _) Hd). }
  rewrite Ea, xint_id by lia. destruct (decide (length c `mod` BSIZE = 0)) as [Ea0|Ea0].
  + assert (f_nb (f i) = fbn) as En by (rewrite Hc; apply blocks_aligned; done).
    assert (islot D (t i) fbn = 0) as E0.
    { destruct (decide (islot D (t i) fbn = 0)) as [|Hne2]; [done|]. apply (fa_slots _ _ _ _ Hf) in Hne2; lia. }
    rewrite E0. cbn [Z.eqb]. apply runs_bind, runs_bind, runs_take_block; cbn [freeblock]; [lia|]. cbn [img img_len freeinode].
    destruct (files_direct D fb fi t f i Hfl Hi ltac:(lia)) as [Hfl' Es']; [lia|]. rewrite En in Hfl', Es'. unfold runs, ret.
    assert (d_addrs (set_addr fbn fb (t i)) !!! Z.to_nat fbn = fb) as Ew.
    { unfold islot in Es'. by rewrite (proj2 (Z.ltb_lt _ _) Hd) in Es'. }
    rewrite Ew, xint_id by lia. exists D, (fb + 1).
    split_and!; try done; [|right; done|lia|pose proof (cost_aligned c Ea0) as Ec; rewrite decide_False in Ec by (fold fbn; lia); rewrite Hc; lia].
    replace (opened c) with (Finfo (f_data (f i)) (fbn + 1) (f_hasind (f i))); [done|].
    rewrite Hc. unfold opened, whole. cbn. rewrite (blocks_aligned c Ea0). fold fbn. f_equal. lia.
  + assert (islot D (t i) fbn ≠ 0) as Hne2.
    { apply (fa_slots _ _ _ _ Hf); [lia|]. rewrite Hc, (whole_opened c Ea0). cbn. fold fbn. lia. }
    rewrite (proj2 (Z.eqb_neq _ _) Hne2). apply runs_bind. unfold runs, ret. rewrite Ea, xint_id by lia.
    exists D, fb. split_and!; try done; [|by left|lia|rewrite Hc, whole_opened by done; lia|apply same_fields_refl].
    rewrite <- (whole_opened c Ea0), <- Hc. by apply files_same.
Qed.

Lemma file_block_ok D fb fi t f i c :
  files D fb fi t f → 1 ≤ i < fi → fb ≤ FSSIZE → f i = whole c → length c `div` BSIZE < MAXFILE →
  (B → fb + cost (opened c) - cost (whole c) ≤ FSSIZE) →
  runs B (file_block room (t i) (length c `div` BSIZE)) (Mkst D FSSIZE fi fb) (block_post D fb fi t f i c (t i)).
Proof.
  intros Hfl Hi Hfb Hc Hn HB. assert (0 < nmeta ∧ MAXFILE = 268 ∧ NDIRECT = 12 ∧ FSSIZE = 2000) as (Hm & EM & EN & EF) by done.
  destruct (decide (length c `div` BSIZE < NDIRECT)) as [Hd|Hd]; [by apply file_block_direct|].
  pose proof (fl_at _ _ _ _ _ Hfl i Hi) as Hf. pose proof (fl_fb _ _ _ _ _ Hfl) as Hfb2.
  pose proof (islot_u32 _ _ _ _ MAXFILE Hf ltac:(lia) ltac:(lia)) as Hsi. rewrite islot_ind in Hsi.
  set (fbn := length c `div` BSIZE) in *. unfold file_block. rewrite (proj2 (Z.ltb_nlt _ _) Hd).
  fold (ind (t i)). rewrite xint_id by lia.
  assert (f_hasind (f i) = (NDIRECT <? blocks c)) as Eh by (by rewrite Hc).
  destruct (decide (length c `mod` BSIZE = 0)) as [Ea0|Ea0].
  + rewrite (blocks_aligned c Ea0) in Eh. fold fbn in Eh. destruct (decide (fbn = NDIRECT)) as [En|En].
    * assert (f_hasind (f i) = false) as Eh' by (rewrite Eh; apply Z.ltb_ge; lia). assert (ind (t i) = 0) as Ei.
      { destruct (decide (ind (t i) = 0)) as [|Hne2]; [done|]. apply (fa_ind _ _ _ _ Hf) in Hne2. congruence. }
      rewrite Ei. cbn [Z.eqb]. apply runs_bind, runs_bind, runs_take_block; cbn [freeblock]; [lia|]. cbn [img img_len freeinode].
      pose proof (files_addind D fb fi t f i Hfl Hi ltac:(lia) Eh') as Hfl'.
      assert (f_data (f i) = c ∧ f_nb (f i) = fbn) as [E1 E2] by (rewrite Hc; split; [done|by apply blocks_aligned]).
      rewrite E1, E2 in Hfl'. unfold runs, ret at 1. cbn beta iota.
      pose proof (indirect_block_ok D (fb + 1) fi _ _ i c Hfl' Hi ltac:(lia) ltac:(fold fbn; lia)) as H.
      assert (cost (Finfo c fbn true) = cost (whole c) + 1) as Ec.
      { unfold cost. cbn [f_nb f_hasind]. rewrite <- Hc, Eh', E2. lia. }
      rewrite !fn_lookup_insert in H. specialize (H ltac:(by right)). unfold block_post in H. rewrite !fn_lookup_insert, Ec in H.
      eapply runs_mono; [apply H; intros Hb; specialize (HB Hb); lia|].
      intros r s (D' & fb' & -> & G1 & G2 & G3 & G4 & G5 & G6 & G7).
      exists D', fb'. split_and!; try done; [by apply files_twice in G1|rewrite Hc; lia].
    * assert (ind (t i) ≠ 0) as Hne by (apply (fa_ind _ _ _ _ Hf); rewrite Eh; apply Z.ltb_lt; lia). rewrite (proj2 (Z.eqb_neq _ _) Hne).
      apply runs_bind. unfold runs at 1, ret at 1. apply (indirect_block_ok D fb fi t f i c); [done|done|lia|fold fbn; lia| |by rewrite Hc].
      right. rewrite Hc. unfold whole. rewrite (blocks_aligned c Ea0). fold fbn. f_equal. apply Z.ltb_lt. lia.
  + assert (f i = opened c) as Ho by (rewrite Hc; by apply whole_opened).
    assert (ind (t i) ≠ 0) as Hne by (apply (fa_ind _ _ _ _ Hf); rewrite Ho; cbn; fold fbn; lia). rewrite (proj2 (Z.eqb_neq _ _) Hne).
    apply runs_bind. unfold runs at 1, ret at 1. apply (indirect_block_ok D fb fi t f i c); [done|done|lia|fold fbn; lia|by left|by rewrite Hc].
Qed.

(** ** Appending to a file *)

Definition bytes (p : list Z) : Prop := Forall (λ b, 0 ≤ b < 256) p.

(** What one turn of the loop of iappend does to the file [c]. *)
Definition turn_post (D : Z → block) (fb fi : Z) (t : Z → dinode) (f : Z → finfo) (i : Z) (c : list Z) (din : dinode)
    (p : list Z) (r : (dinode * Z * list Z) + (dinode * Z)) (s : mkst) : Prop :=
  match r with
  | inl (din', off', p') => ∃ q D' fb', p = q ++ p' ∧ q ≠ [] ∧ off' = length (c ++ q) ∧ s = Mkst D' FSSIZE fi fb' ∧
      files D' fb' fi (<[i := din']> t) (<[i := whole (c ++ q)]> f) ∧ fb' ≤ FSSIZE ∧
      fb' = fb + cost (whole (c ++ q)) - cost (whole c) ∧ (∀ b, b < nmeta → D' b = D b) ∧ same_fields din din'
  | inr (din', off') => p = [] ∧ din' = din ∧ off' = length c ∧ s = Mkst D FSSIZE fi fb
  end.

(** The bytes that go to the block of the end of the file. *)
Lemma piece_facts c p :
  p ≠ [] → let n1 := Z.min (length p) ((length c `div` BSIZE + 1) * BSIZE - length c) in
  let q := take (Z.to_nat n1) p in
  q ≠ [] ∧ Z.of_nat (length q) = n1 ∧ length c `mod` BSIZE + length q ≤ BSIZE ∧ blocks (c ++ q) = length c `div` BSIZE + 1 ∧
  cost (opened c) = cost (whole (c ++ q)) ∧ cost (opened c) ≤ cost (whole (c ++ p)).
Proof.
  intros Hp n1 q. assert (0 < length p) by (destruct p; cbn; [done|lia]).
  pose proof (Z.div_mod (length c) BSIZE ltac:(done)) as Ed. pose proof (mod_bsize (length c)) as Hmod.
  assert (0 < n1 ≤ length p ∧ length c `mod` BSIZE + n1 ≤ BSIZE) as (Hn1 & Hn2) by (unfold n1, BSIZE in *; lia).
  assert (Z.of_nat (length q) = n1) as Eq by (unfold q; rewrite length_take; lia).
  assert (q ≠ []) as Hq by (intros Eq2; rewrite Eq2 in Eq; cbn in Eq; lia).
  assert (blocks (c ++ q) = length c `div` BSIZE + 1) as Eb by (apply blocks_append; [done|lia]).
  assert (cost (opened c) = cost (whole (c ++ q))) as Ec by (unfold cost, whole, opened; cbn [f_nb f_hasind]; by rewrite Eb).
  split_and!; try done; [lia|]. rewrite Ec. apply cost_mono. rewrite !length_app. lia.
Qed.

Lemma iappend_turn_ok D fb fi t f i c din p :
  files D fb fi (<[i := din]> t) (<[i := whole c]> f) → 1 ≤ i < fi → fb ≤ FSSIZE → bytes p →
  (B → fb + cost (whole (c ++ p)) - cost (whole c) ≤ FSSIZE ∧ length (c ++ p) ≤ MAXFILE * BSIZE) →
  runs B (iappend_turn room (din, Z.of_nat (length c), p)) (Mkst D FSSIZE fi fb) (turn_post D fb fi t f i c din p).
Proof.
  intros Hfl Hi Hfb Hp HB. assert (0 < nmeta ∧ MAXFILE = 268 ∧ FSSIZE = 2000) as (Hm & EM & EF) by done.
  unfold iappend_turn. destruct (Z.eqb_spec (length p) 0) as [E|E].
  { destruct p; [|done]. by unfold runs, ret, turn_post. }
  destruct (piece_facts c p) as (Hq & El & Hl & Eb & Ec & Hc); [by destruct p|].
  set (fbn := length c `div` BSIZE) in *. set (n1 := Z.min (length p) ((fbn + 1) * BSIZE - length c)) in *. set (q := take (Z.to_nat n1) p) in *.
  pose proof (Z.div_mod (length c) BSIZE ltac:(done)) as Ed. fold fbn in Ed. pose proof (mod_bsize (length c)) as Hmod.
  destruct (Z.ltb_spec fbn MAXFILE) as [Hn|Hn]; cbn [negb].
  2: { intros Hb. destruct (HB Hb) as [_ Hmax]. rewrite length_app in Hmax. unfold BSIZE in *. lia. }
  pose proof (file_block_ok D fb fi _ _ i c Hfl Hi Hfb) as H. unfold block_post in H. rewrite !fn_lookup_insert in H.
  specialize (H eq_refl Hn ltac:(intros Hb; destruct (HB Hb); lia)).
  apply runs_bind. eapply runs_mono; [exact H|]. intros [din' x] s (D' & fb' & -> & G1 & G2 & G3 & G4 & G5 & G6 & G7).
  cbn [Datatypes.fst Datatypes.snd] in *. apply files_twice in G1. fold fbn in G2.
  pose proof (fl_at _ _ _ _ _ G1 i Hi) as Hf. rewrite !fn_lookup_insert in Hf.
  assert (0 ≤ fbn) as H0 by (apply Z.div_pos; unfold BSIZE; lia).
  assert (nmeta ≤ x < fb') as Hx.
  { rewrite G2. apply (fa_range _ _ _ _ Hf); [lia|]. apply (fa_slots _ _ _ _ Hf); [lia|]. cbn. fold fbn. lia. }
  apply runs_bind, runs_rsect; cbn [img img_len]; [lia|intros Hb; destruct (HB Hb); lia|]. intros Hlt.
  apply runs_bind, runs_wsect; [lia|intros Hb; specialize (Hroom Hb); lia|]. cbn [img img_len freeinode freeblock]. unfold runs, ret.
  assert (length (c ++ q) = u32 (length c + n1) :> Z) as El2.
  { rewrite length_app. unfold u32. rewrite Z.mod_small; unfold BSIZE in *; lia. }
  exists q, (<[x := put_bytes (D' x) (length c - fbn * BSIZE) q]> D'), fb'. split_and!; try done; try lia.
  - symmetry. apply take_drop.
  - f_equal. lia.
  - pose proof (files_fill D' fb' fi _ _ i G1 Hi q) as Hfill. rewrite !fn_lookup_insert in Hfill.
    unfold opened in Hfill. cbn [f_data f_nb f_hasind] in Hfill. fold fbn in Hfill. rewrite <- G2 in Hfill.
    replace (length c - fbn * BSIZE) with (length c `mod` BSIZE) by lia.
    specialize (Hfill _ Hq ltac:(lia) ltac:(lia) ltac:(by apply Forall_take) eq_refl).
    eapply files_ext; [exact Hfill|]. intros j Hj. split; [done|]. unfold whole. rewrite Eb.
    destruct (decide (j = i)) as [->|]; [by rewrite !fn_lookup_insert|by rewrite !fn_lookup_insert_ne].
  - intros b Hb. rewrite fn_lookup_insert_ne by lia. by apply G6.
Qed.

(** ** The inode table *)

(** The inode blocks have room for this many inodes. *)
Definition inode_room : Z := ninodeblocks * IPB.

Lemma IBLOCK_mkfs i : 0 ≤ i < inode_room → IBLOCK i sb = i `div` IPB + 32 ∧ 32 ≤ IBLOCK i sb < 45.
Proof.
  change inode_room with 208. unfold IBLOCK. change (sb_inodestart sb) with 32. change IPB with 16. intros Hi.
  assert (0 ≤ i `div` 16 < 13) by (split; [apply Z.div_pos; lia|apply Z.div_lt_upper_bound; lia]).
  unfold u32. rewrite Z.mod_small; lia.
Qed.

Lemma put_dinode_block d k di : block_ok d → 0 ≤ k < IPB → di_ok di → block_ok (put_dinode d k di).
Proof.
  change IPB with 16. intros Hd Hk Hdi. pose proof (dk_len _ Hdi) as Hlen.
  unfold put_dinode, put16, put32, SIZEOF_DINODE. unfold NDIRECT in Hlen.
  apply put_list_block; [blk|lia|unfold BSIZE; lia].
Qed.

Lemma disk_inode_put D i j di :
  (∀ b, block_ok (D b)) → di_ok di → 0 ≤ i < inode_room → 0 ≤ j < inode_room →
  disk_inode sb (<[IBLOCK i sb := put_dinode (D (IBLOCK i sb)) (i `mod` IPB) di]> D) j =
    if decide (j = i) then di else disk_inode sb D j.
Proof.
  intros HD Hdi Hi Hj. unfold disk_inode. destruct (IBLOCK_mkfs i Hi) as [Ei _], (IBLOCK_mkfs j Hj) as [Ej _].
  assert (∀ x, 0 ≤ x `mod` IPB < IPB) as Hm by (intros; by apply Z.mod_pos_bound). case_decide as E.
  - subst j. rewrite fn_lookup_insert. by apply get_put_dinode.
  - destruct (decide (IBLOCK j sb = IBLOCK i sb)) as [Eb|Eb]; [|by rewrite fn_lookup_insert_ne].
    rewrite Eb, fn_lookup_insert. apply get_put_dinode_ne; [done|done|apply Hm| |apply (dk_len _ Hdi)].
    intros Em. apply E. rewrite (Z.div_mod i IPB), (Z.div_mod j IPB) by done. rewrite Em. f_equal. f_equal. lia.
Qed.

Lemma runs_winode i di D fi fb (Q : unit → mkst → Prop) :
  0 ≤ i < inode_room →
  Q tt (Mkst (<[IBLOCK i sb := put_dinode (D (IBLOCK i sb)) (i `mod` IPB) di]> D) FSSIZE fi fb) →
  runs B (winode room i di) (Mkst D FSSIZE fi fb) Q.
Proof.
  intros Hi HQ. destruct (IBLOCK_mkfs i Hi) as [_ Hb]. assert (FSSIZE = 2000) as EF by done.
  apply runs_bind, runs_rsect; cbn [img_len]; [lia|lia|]. intros _.
  apply runs_wsect; [lia|intros HB; specialize (Hroom HB); lia|]. cbn [img img_len freeinode freeblock].
  by rewrite Z.max_l by lia.
Qed.

Definition kind (i : Z) : Z := if decide (i = ROOTINO) then T_DIR else T_FILE.
Definition free_inode : dinode := Dinode 0 0 0 0 0 (replicate (Z.to_nat (NDIRECT + 1)) 0).

(** Between two calls in main: the files have the bytes [cs]. *)
Record mk_ok (s : mkst) (t : Z → dinode) (cs : Z → list Z) : Prop := {
  mo_files : files (img s) (freeblock s) (freeinode s) t (λ i, whole (cs i));
  mo_len : img_len s = FSSIZE;
  mo_fb : freeblock s ≤ FSSIZE;
  mo_count : freeblock s = nmeta + total cs (Z.to_nat (freeinode s - 1));
  mo_fi : 1 ≤ freeinode s ≤ NINODES;
  mo_tab i : 1 ≤ i < inode_room → disk_inode sb (img s) i = t i;
  mo_free i : freeinode s ≤ i < inode_room → t i = free_inode;
  mo_sb : superblock_of (img s 1) = sb;
  mo_inode i : 1 ≤ i < freeinode s → ∃ addrs, t i = Dinode (kind i) 0 0 1 (length (cs i)) addrs
}.

Lemma iappend_loop D0 fi t f i c0 (fuel : nat) : ∀ D fb c din p,
  files D fb fi (<[i := din]> t) (<[i := whole c]> f) → 1 ≤ i < fi → fb ≤ FSSIZE → bytes p → c ++ p = c0 →
  (∀ b, b < nmeta → D b = D0 b) → same_fields (t i) din → (length p < fuel)%nat →
  (B → fb + cost (whole c0) - cost (whole c) ≤ FSSIZE ∧ length c0 ≤ MAXFILE * BSIZE) →
  runs B (loop fuel (iappend_turn room) (din, Z.of_nat (length c), p)) (Mkst D FSSIZE fi fb)
    (λ r s, ∃ D' fb', s = Mkst D' FSSIZE fi fb' ∧ files D' fb' fi (<[i := r.1]> t) (<[i := whole c0]> f) ∧
       fb' ≤ FSSIZE ∧ fb' = fb + cost (whole c0) - cost (whole c) ∧
       (∀ b, b < nmeta → D' b = D0 b) ∧ same_fields (t i) r.1 ∧ r.2 = length c0).
Proof.
  induction fuel as [|fuel IH]; intros D fb c din p Hfl Hi Hfb Hp Hc Hd Hsf Hl HB; [lia|]. cbn [loop]. apply runs_bind.
  eapply runs_mono; [by apply (iappend_turn_ok D fb fi t f i c din p); rewrite ?Hc|].
  intros [[[din' off'] p']|[din' off']] s; cbn [turn_post].
  - intros (q & D' & fb' & -> & Hq & -> & -> & G1 & G2 & G2' & G3 & G4). apply Forall_app in Hp as [_ Hp].
    replace (fb + cost (whole c0) - cost (whole c)) with (fb' + cost (whole c0) - cost (whole (c ++ q))) in HB |- * by lia.
    apply IH; try done.
    + by rewrite <- app_assoc.
    + intros b Hb. rewrite G3 by done. auto.
    + unfold same_fields in *. rewrite G4, Hsf. done.
    + rewrite length_app in Hl. destruct q; [done|]. cbn in Hl. lia.
  - intros (-> & -> & -> & ->). rewrite app_nil_r in Hc. subst c0. unfold runs, ret.
    exists D, fb. split_and!; try done. lia.
Qed.

Lemma files_size D fb fi t f i di n :
  files D fb fi (<[i := di]> t) f → 1 ≤ i < fi → 0 ≤ n < 2^32 → files D fb fi (<[i := set_size n di]> t) f.
Proof.
  intros [H1 H2 H3 H4 H5 H6] Hi Hn. split; try done.
  - intros j Hj. specialize (H1 j Hj). destruct (decide (j = i)) as [->|]; [|by rewrite fn_lookup_insert_ne in *].
    rewrite fn_lookup_insert in *. destruct H1 as [[] ? ? ? ? ? ? ? ?]. split; try done.
  - intros j k b Hj Hk. specialize (H2 j k b Hj Hk). destruct (decide (j = i)) as [->|], (decide (k = i)) as [->|];
      rewrite ?fn_lookup_insert, ?(fn_lookup_insert_ne t) in * by done; exact H2.
  - intros b Hb. destruct (H6 b Hb) as (j & Hj & Ho). exists j. split; [done|].
    destruct (decide (j = i)) as [->|]; [|by rewrite fn_lookup_insert_ne in *]. by rewrite fn_lookup_insert in *.
Qed.

Lemma mk_size s t cs i : mk_ok s t cs → 1 ≤ i < freeinode s → length (cs i) ≤ MAXFILE * BSIZE.
Proof.
  intros Hs Hi. pose proof (fl_at _ _ _ _ _ (mo_files _ _ _ Hs) i Hi) as Hf.
  pose proof (fa_len _ _ _ _ Hf) as H1. pose proof (fa_nb _ _ _ _ Hf) as H2. cbn in H1, H2. unfold BSIZE in *. lia.
Qed.

(** The inode table and the files after [i] was written. *)
Lemma mk_winode D fi fb t cs i di c :
  files D fb fi (<[i := di]> t) (<[i := whole c]> (λ i, whole (cs i))) → 1 ≤ i < fi → fi ≤ NINODES → fb ≤ FSSIZE →
  fb = nmeta + total (<[i := c]> cs) (Z.to_nat (fi - 1)) → (∀ j, 1 ≤ j < inode_room → disk_inode sb D j = t j) → (∀ j, fi ≤ j < inode_room → t j = free_inode) →
  superblock_of (D 1) = sb →
  (∀ j, 1 ≤ j < fi → j ≠ i → ∃ addrs, t j = Dinode (kind j) 0 0 1 (length (cs j)) addrs) →
  (∃ addrs, di = Dinode (kind i) 0 0 1 (length c) addrs) →
  mk_ok (Mkst (<[IBLOCK i sb := put_dinode (D (IBLOCK i sb)) (i `mod` IPB) di]> D) FSSIZE fi fb) (<[i := di]> t) (<[i := c]> cs).
Proof.
  intros Hfl Hi Hfi Hfb Hcnt Htab Hfree Hsb Hin Hdi. assert (inode_room = 208 ∧ NINODES = 200 ∧ nmeta = 46) as (ER & EN & EM) by done.
  destruct (IBLOCK_mkfs i ltac:(lia)) as [_ Hb]. pose proof (fl_blk _ _ _ _ _ Hfl) as HD.
  pose proof (fa_di _ _ _ _ (fl_at _ _ _ _ _ Hfl i Hi)) as Hdk. rewrite fn_lookup_insert in Hdk.
  assert (0 ≤ i `mod` IPB < IPB) as Hm by (by apply Z.mod_pos_bound). split; cbn [img img_len freeinode freeblock]; try done; try lia.
  - eapply files_ext; [apply (files_meta D); [exact Hfl| |]|].
    + intros b Hb'. apply fn_lookup_insert_ne. lia.
    + intros b. destruct (decide (b = IBLOCK i sb)) as [->|]; [|by rewrite fn_lookup_insert_ne].
      rewrite fn_lookup_insert. by apply put_dinode_block.
    + intros j Hj. split; [done|]. destruct (decide (j = i)) as [->|]; [by rewrite !fn_lookup_insert|by rewrite !fn_lookup_insert_ne].
  - intros j Hj. rewrite disk_inode_put by (done || lia). case_decide; [subst; by rewrite fn_lookup_insert|].
    rewrite fn_lookup_insert_ne by done. auto.
  - intros j Hj. rewrite fn_lookup_insert_ne by lia. auto.
  - rewrite fn_lookup_insert_ne by lia. done.
  - intros j Hj. destruct (decide (j = i)) as [->|Hne]; [by rewrite !fn_lookup_insert|]. rewrite !fn_lookup_insert_ne by done. auto.
Qed.

Lemma iappend_ok s t cs i p :
  mk_ok s t cs → 1 ≤ i < freeinode s → bytes p →
  (B → nmeta + total (<[i := cs i ++ p]> cs) (Z.to_nat (freeinode s - 1)) ≤ FSSIZE ∧ length (cs i ++ p) ≤ MAXFILE * BSIZE) →
  runs B (iappend room i p) s (λ _ s', freeinode s' = freeinode s ∧ ∃ t', mk_ok s' t' (<[i := cs i ++ p]> cs)).
Proof.
  intros Hs Hi Hp HB. pose proof (mk_size _ _ _ _ Hs Hi) as Hsz. destruct s as [D len fi fb], Hs as [H1 H2 H3 Hcnt H4 H5 H6 H7 H8].
  cbn [img img_len freeinode freeblock] in *. subst len.
  assert (inode_room = 208 ∧ NINODES = 200 ∧ MAXFILE * BSIZE = 274432 ∧ FSSIZE = 2000 ∧ nmeta = 46) as (ER & EN & EM & EF & Em) by done.
  destruct (IBLOCK_mkfs i ltac:(lia)) as [_ Hb]. destruct (H8 i Hi) as [a0 Et].
  unfold iappend. apply runs_bind. unfold rinode. apply runs_bind, runs_rsect; cbn [img img_len]; [lia|lia|]. intros _. unfold runs at 1, ret at 1.
  change (get_dinode (D (IBLOCK i sb)) (i `mod` IPB)) with (disk_inode sb D i). rewrite H5 by lia.
  replace (xint (d_size (t i))) with (Z.of_nat (length (cs i))) by (rewrite Et; cbn [d_size]; rewrite xint_id; lia).
  apply runs_bind. eapply runs_mono.
  - apply (iappend_loop D fi t (λ i, whole (cs i)) i (cs i ++ p)); [|done|done|done|done|done|apply same_fields_refl|lia|].
    2: { intros Hb'. rewrite total_insert in HB by lia. destruct (HB Hb'). split; [lia|done]. }
    apply (files_same D fb fi t (λ i, whole (cs i)) i H1).
  - intros [din' off'] s (D' & fb' & -> & G1 & G2 & G2' & G3 & G4 & G5). cbn [Datatypes.fst Datatypes.snd] in *. subst off'.
    pose proof (fl_at _ _ _ _ _ G1 i Hi) as Hf. rewrite !fn_lookup_insert in Hf. pose proof (fa_len _ _ _ _ Hf) as L1.
    pose proof (fa_nb _ _ _ _ Hf) as L2. cbn [whole f_data f_nb] in L1, L2.
    assert (length (cs i ++ p) ≤ 274432) as L3 by (unfold BSIZE in *; lia).
    rewrite xint_id by lia. apply runs_winode; [lia|]. split; [done|]. eexists. apply (mk_winode D' fi fb' t cs); try done; try lia.
    + apply files_size; [done|done|lia].
    + rewrite total_insert by lia. lia.
    + intros j Hj. unfold disk_inode. rewrite G3; [by apply H5|]. destruct (IBLOCK_mkfs j ltac:(lia)). lia.
    + by rewrite G3 by lia.
    + intros j Hj _. by apply H8.
    + unfold same_fields in G4. rewrite Et in G4. rewrite G4. by eexists.
Qed.

Lemma mk_ok_ext s t cs cs' : mk_ok s t cs → (∀ i, 1 ≤ i < freeinode s → cs' i = cs i) → mk_ok s t cs'.
Proof.
  intros [H1 H2 H3 Hcnt H4 H5 H6 H7 H8] H. split; try done.
  - eapply files_ext; [exact H1|]. intros i Hi. split; [done|]. cbn. by rewrite H.
  - rewrite (total_ext cs); [done|]. intros i Hi. apply H. lia.
  - intros i Hi. rewrite H by done. auto.
Qed.

Lemma ialloc_ok s t cs :
  mk_ok s t cs → freeinode s < NINODES →
  runs B (ialloc room (kind (freeinode s))) s (λ inum s', inum = freeinode s ∧ freeinode s' = freeinode s + 1 ∧
    ∃ t', mk_ok s' t' (<[inum := []]> cs)).
Proof.
  intros Hs Hlt. destruct s as [D len fi fb], Hs as [H1 H2 H3 Hcnt H4 H5 H6 H7 H8].
  cbn [img img_len freeinode freeblock] in *. subst len.
  assert (inode_room = 208 ∧ NINODES = 200) as (ER & EN) by done.
  unfold ialloc. apply runs_bind. unfold runs at 1, gets. cbn [freeinode]. apply runs_bind.
  unfold runs at 1, set_freeinode, modify. cbn [img img_len freeinode freeblock]. unfold u32. rewrite Z.mod_small by lia.
  assert (xshort (kind fi) = kind fi) as -> by (rewrite xshort_mod; unfold kind; by case_decide).
  apply runs_bind, runs_winode; [lia|]. unfold runs, ret. split; [done|]. split; [done|]. eexists.
  change (xshort 1) with 1. change (xint 0) with 0. apply (mk_winode D (fi + 1) fb t cs); try done; try lia.
  - apply (files_ialloc D fb fi t (λ i, whole (cs i))); [done|lia| |done].
    split; cbn; try done; try lia; [unfold kind, T_DIR, T_FILE; case_decide; lia|]. apply Forall_replicate. lia.
  - replace (Z.to_nat (fi + 1 - 1)) with (S (Z.to_nat (fi - 1))) by lia. cbn [total].
    replace (Z.to_nat (fi - 1) + 1) with fi by lia. rewrite fn_lookup_insert, (total_ext cs).
    + change (cost (whole [])) with 0. lia.
    + intros j Hj. apply fn_lookup_insert_ne. lia.
  - intros j Hj. apply H6. lia.
  - intros j Hj Hne. apply H8. lia.
  - by eexists.
Qed.

Lemma append_bufs i bufs : ∀ s t cs, mk_ok s t cs → 1 ≤ i < freeinode s → Forall bytes bufs →
  (B → nmeta + total (<[i := cs i ++ concat bufs]> cs) (Z.to_nat (freeinode s - 1)) ≤ FSSIZE ∧
       length (cs i ++ concat bufs) ≤ MAXFILE * BSIZE) →
  runs B (for_each bufs (iappend room i)) s
    (λ _ s', freeinode s' = freeinode s ∧ ∃ t', mk_ok s' t' (<[i := cs i ++ concat bufs]> cs)).
Proof.
  induction bufs as [|p bufs IH]; intros s t cs Hs Hi Hb HB; cbn [for_each concat].
  - unfold runs, ret. split; [done|]. exists t. eapply mk_ok_ext; [exact Hs|]. intros j Hj. rewrite app_nil_r.
    destruct (decide (j = i)) as [->|]; [by rewrite fn_lookup_insert|by rewrite fn_lookup_insert_ne].
  - apply Forall_cons in Hb as [Hp Hb]. apply runs_bind. eapply runs_mono; [apply (iappend_ok s t cs); [done|done|done|]|].
    { intros Hb'. cbn [concat] in HB. rewrite total_insert in HB |- * by lia. destruct (HB Hb') as [L1 L2].
      pose proof (cost_mono (cs i ++ p) (cs i ++ p ++ concat bufs)) as Hm. rewrite !length_app in *. lia. }
    intros _ s' (E & t' & Hs'). eapply runs_mono; [apply (IH s' t' _ Hs'); [lia|done|]|].
    { rewrite fn_lookup_insert, <- app_assoc, E. cbn [concat] in HB. rewrite !total_insert in * by lia. rewrite fn_lookup_insert.
      intros Hb'. specialize (HB Hb'). lia. }
    intros _ s2 (E2 & t2 & Hs2). split; [lia|]. exists t2. eapply mk_ok_ext; [exact Hs2|]. intros j Hj.
    rewrite fn_lookup_insert, <- app_assoc.
    destruct (decide (j = i)) as [->|]; [by rewrite !fn_lookup_insert|by rewrite !fn_lookup_insert_ne].
Qed.

(** ** The whole image *)

(** The bytes of a file, its entry in the root directory, and the directory. *)
Definition data (f : source) : list Z :=
  match f.2 with
  | Some bufs => concat bufs
  | None => []
  end.
Definition entry (k : nat) (f : source) : list Z := dirent (k + 2) (skip_underscore (shortname f.1)).
Definition root_dir (fs : list source) : list Z :=
  dirent ROOTINO [46] ++ dirent ROOTINO [46; 46] ++ concat (imap entry fs).
(** The contents of the inodes. *)
Definition tree (fs : list source) (i : Z) : list Z :=
  if decide (i = ROOTINO) then root_dir fs
  else match fs !! Z.to_nat (i - 2) with
       | Some f => data f
       | None => []
       end.

(** Names and contents are bytes. *)
Definition source_ok (f : source) : Prop := bytes f.1 ∧ bytes (data f).

Lemma dirent_bytes i n : bytes n → bytes (dirent i n).
Proof.
  intros Hn. unfold bytes, dirent. apply Forall_app. split.
  - repeat constructor; apply u8_range.
  - apply Forall_take, Forall_app. split; [done|]. apply Forall_replicate. lia.
Qed.

Lemma name_bytes n : bytes n → bytes (skip_underscore (shortname n)).
Proof.
  intros Hn. assert (bytes (shortname n)) as H by (unfold shortname; case_decide; [by apply Forall_drop|done]).
  destruct (shortname n) as [|c l]; [done|]. cbn. destruct (c =? 95); [|done]. by apply Forall_cons in H as [_ H].
Qed.

Lemma tree_snoc fs f i :
  1 ≤ i < length fs + 3 →
  tree (fs ++ [f]) i = <[length fs + 2 := data f]> (<[ROOTINO := root_dir fs ++ entry (length fs) f]> (tree fs)) i.
Proof.
  intros Hi. unfold tree. case_decide as E.
  - subst i. unfold ROOTINO. rewrite fn_lookup_insert_ne by lia. rewrite fn_lookup_insert. unfold root_dir.
    rewrite imap_app, concat_app. cbn. rewrite Nat.add_0_r, app_nil_r. by rewrite <- !app_assoc.
  - destruct (decide (i = length fs + 2)) as [->|Hne].
    + rewrite fn_lookup_insert. replace (Z.to_nat (length fs + 2 - 2)) with (length fs) by lia.
      by rewrite lookup_app_r, Nat.sub_diag by lia.
    + rewrite !fn_lookup_insert_ne by done. unfold ROOTINO in E. rewrite lookup_app_l by lia. by rewrite decide_False.
Qed.

(** The files are small enough and fit on the disk. *)
Definition tree_fits (fs : list source) : Prop :=
  nmeta + total (tree fs) (S (length fs)) ≤ FSSIZE ∧
  ∀ i, 1 ≤ i ≤ S (length fs) → length (tree fs i) ≤ MAXFILE * BSIZE.
(** The file can be opened and its name has no slash. *)
Definition source_there (f : source) : Prop := (47 ∉ shortname f.1) ∧ is_Some f.2.

(** A smaller tree fits as well. *)
Lemma tree_fits_mono fs cs (n : nat) :
  tree_fits fs → (n ≤ S (length fs))%nat → (∀ i, 1 ≤ i ≤ n → (length (cs i) ≤ length (tree fs i))%nat) →
  nmeta + total cs n ≤ FSSIZE ∧ ∀ i, 1 ≤ i ≤ n → length (cs i) ≤ MAXFILE * BSIZE.
Proof.
  intros [H1 H2] Hn Hi. pose proof (total_mono cs (tree fs) n (S (length fs)) Hn Hi). split; [lia|].
  intros i Hi'. specialize (Hi i Hi'). specialize (H2 i). lia.
Qed.

Lemma tree_fits_app fs fs' : tree_fits (fs ++ fs') → tree_fits fs.
Proof.
  intros H. apply (tree_fits_mono (fs ++ fs')); [done|rewrite length_app; lia|]. intros i Hi. unfold tree. case_decide.
  - unfold root_dir. rewrite imap_app, concat_app, !length_app. lia.
  - unfold ROOTINO in *. by rewrite lookup_app_l by lia.
Qed.

Lemma add_file_ok fs f s t :
  mk_ok s t (tree fs) → freeinode s = length fs + 2 → length fs + 2 < NINODES → source_ok f →
  (B → tree_fits (fs ++ [f]) ∧ source_there f) →
  runs B (add_file room ROOTINO f) s
    (λ _ s', freeinode s' = length fs + 3 ∧ ∃ t', mk_ok s' t' (tree (fs ++ [f]))).
Proof.
  intros Hs Hfi Hlt [Hn Hd] HB. destruct f as [arg [bufs|]]; unfold add_file; case_decide as Hsl;
    try (by intros Hb; destruct (HB Hb) as [_ [? [? ?]]]). cbn in Hn, Hd.
  assert (1 ≤ ROOTINO < 2) as Hr by (unfold ROOTINO; lia).
  assert (T_FILE = kind (freeinode s)) as -> by (unfold kind; rewrite decide_False by lia; done).
  apply runs_bind. eapply runs_mono; [apply (ialloc_ok s t _ Hs); lia|]. intros inum s1 (-> & E1 & t1 & Hs1). rewrite Hfi in *.
  set (f := (arg, Some bufs)) in *. set (cs := <[length fs + 2 := []]> (tree fs)) in *.
  assert (cs ROOTINO = root_dir fs) as Er by (unfold cs; by rewrite fn_lookup_insert_ne by lia).
  set (R := <[ROOTINO := root_dir fs ++ entry (length fs) f]> cs).
  assert (∀ i, 1 ≤ i < length fs + 3 → i ≠ length fs + 2 → R i = tree (fs ++ [f]) i) as HR.
  { intros i Hi Hne. rewrite tree_snoc by lia. unfold R, cs. rewrite (fn_lookup_insert_ne _ (length fs + 2)) by done.
    destruct (decide (i = ROOTINO)) as [->|]; [by rewrite !fn_lookup_insert|by rewrite !fn_lookup_insert_ne]. }
  assert (R (length fs + 2) = []) as HR0 by (unfold R, cs; rewrite fn_lookup_insert_ne by lia; by rewrite fn_lookup_insert).
  assert (tree (fs ++ [f]) (length fs + 2) = concat bufs) as Ef by (rewrite tree_snoc by lia; by rewrite fn_lookup_insert).
  apply runs_bind. eapply runs_mono; [apply (iappend_ok s1 t1 _ ROOTINO _ Hs1); [lia|by apply dirent_bytes, name_bytes|]|].
  { rewrite Er. intros Hb. destruct (HB Hb) as [Hfit _].
    destruct (tree_fits_mono (fs ++ [f]) R (Z.to_nat (freeinode s1 - 1)) Hfit) as [L1 L2].
    - rewrite length_app. cbn. lia.
    - intros i Hi. destruct (decide (i = length fs + 2)) as [->|]; [rewrite HR0; cbn; lia|]. rewrite HR; [done|lia|done].
    - split; [exact L1|]. specialize (L2 ROOTINO ltac:(lia)). unfold R in L2. by rewrite fn_lookup_insert in L2. }
  intros _ s2 (E2 & t2 & Hs2). rewrite Er in Hs2. change (mk_ok s2 t2 R) in Hs2.
  assert (∀ i, 1 ≤ i < length fs + 3 → <[length fs + 2 := concat bufs]> R i = tree (fs ++ [f]) i) as HT.
  { intros i Hi. destruct (decide (i = length fs + 2)) as [->|]; [by rewrite fn_lookup_insert|]. rewrite fn_lookup_insert_ne by done. by apply HR. }
  eapply runs_mono; [apply (append_bufs (length fs + 2) bufs s2 t2 R Hs2); [lia|by apply Forall_concat|]|].
  - rewrite HR0. cbn [app]. intros Hb. destruct (HB Hb) as [Hfit _]. rewrite E2.
    destruct (tree_fits_mono (fs ++ [f]) (<[length fs + 2 := concat bufs]> R) (Z.to_nat (freeinode s1 - 1)) Hfit) as [L1 L2].
    + rewrite length_app. cbn. lia.
    + intros i Hi. by rewrite HT by lia.
    + split; [exact L1|]. specialize (L2 (length fs + 2) ltac:(lia)). by rewrite fn_lookup_insert in L2.
  - rewrite HR0. intros _ s3 (E3 & t3 & Hs3). split; [lia|]. exists t3. eapply mk_ok_ext; [exact Hs3|]. intros i Hi.
    symmetry. apply HT. lia.
Qed.

Lemma add_files_ok rest : ∀ fs s t,
  mk_ok s t (tree fs) → freeinode s = length fs + 2 → length fs + length rest + 2 ≤ NINODES → Forall source_ok rest →
  (B → tree_fits (fs ++ rest) ∧ Forall source_there rest) →
  runs B (for_each rest (add_file room ROOTINO)) s
    (λ _ s', freeinode s' = length fs + length rest + 2 ∧ ∃ t', mk_ok s' t' (tree (fs ++ rest))).
Proof.
  induction rest as [|f rest IH]; intros fs s t Hs Hfi Hlt Hok HB; cbn [for_each length] in *.
  - unfold runs, ret. split; [lia|]. exists t. by rewrite app_nil_r.
  - apply Forall_cons in Hok as [Hf Hok]. apply runs_bind. replace (fs ++ f :: rest) with ((fs ++ [f]) ++ rest) in HB by (by rewrite <- app_assoc).
    eapply runs_mono; [apply (add_file_ok fs f s t); [done|done|lia|done|]|].
    { intros Hb. destruct (HB Hb) as [Hfit Hth]. split; [by eapply tree_fits_app|by inversion Hth]. }
    intros _ s1 (E1 & t1 & Hs1). eapply runs_mono; [apply (IH (fs ++ [f]) s1 t1 Hs1); rewrite ?length_app; cbn; [lia|lia|done|]|].
    { intros Hb. destruct (HB Hb) as [Hfit Hth]. split; [done|by inversion Hth]. }
    intros _ s2 (E2 & t2 & Hs2). rewrite <- app_assoc in Hs2. rewrite length_app in E2. cbn in E2. split; [lia|]. by exists t2.
Qed.

Lemma zero_image fb (n : nat) : ∀ a D, (∀ b, D b = zero_block) → 0 ≤ a → a + n ≤ FSSIZE →
  runs B (for_each (seqZ a n) (λ i, wsect room i zero_block)) (Mkst D a 1 fb)
    (λ _ s, ∃ D', s = Mkst D' (a + n) 1 fb ∧ ∀ b, D' b = zero_block).
Proof.
  induction n as [|n IH]; intros a D HD Ha Hn.
  - exists D. split; [f_equal; lia|done].
  - assert (FSSIZE = 2000) by done. rewrite seqZ_cons by lia. cbn [for_each]. apply runs_bind, runs_wsect; [lia|intros HB; specialize (Hroom HB); lia|].
    cbn [img img_len freeinode freeblock]. rewrite Z.max_r by lia. replace (Z.pred (S n)) with (Z.of_nat n) by lia.
    replace (a + 1) with (Z.succ a) by lia. eapply runs_mono; [apply (IH (Z.succ a)); [|lia|lia]|].
    + intros b. destruct (decide (b = a)) as [->|]; [by rewrite fn_lookup_insert|by rewrite fn_lookup_insert_ne].
    + intros _ s (D' & -> & HD'). exists D'. split; [f_equal; lia|done].
Qed.

(** The image after the super block was written. *)
Lemma start_ok D :
  (∀ b, D b = zero_block) →
  mk_ok (Mkst (<[1 := put_superblock zero_block sb]> D) FSSIZE 1 nmeta) (λ _, free_inode) (λ _, []).
Proof.
  intros HD. assert (inode_room = 208 ∧ nmeta = 46 ∧ FSSIZE = 2000 ∧ NINODES = 200) as (ER & EM & EF & EN) by done.
  split; cbn [img img_len freeinode freeblock]; try done; try lia.
  - split; try (intros; lia).
    + intros b Hb. rewrite fn_lookup_insert_ne by lia. apply HD.
    + intros b. destruct (decide (b = 1)) as [->|].
      * rewrite fn_lookup_insert. apply put_list_block; [apply zero_block_ok|lia|done].
      * rewrite fn_lookup_insert_ne, HD by done. apply zero_block_ok.
  - intros i Hi. unfold disk_inode. destruct (IBLOCK_mkfs i ltac:(lia)) as [_ Hb]. rewrite fn_lookup_insert_ne, HD by lia.
    unfold get_dinode, le16, le32. rewrite !field_zero. rewrite (list_fmap_ext _ (λ _, 0)) by (intros; apply field_zero). done.
Qed.

(** main with [k] after the last file. *)
Definition build (fs : list source) (k : Z → M mkst unit) : M mkst unit :=
  set_freeblock nmeta ;;;
  for_each (seqZ 0 FSSIZE) (λ i, wsect room i zero_block) ;;;
  wsect room 1 (put_superblock zero_block sb) ;;;
  let* rootino := ialloc room T_DIR in
  if negb (rootino =? ROOTINO) then panic "assert"
  else
    iappend room rootino (dirent rootino [46]) ;;;
    iappend room rootino (dirent rootino [46; 46]) ;;;
    for_each fs (add_file room rootino) ;;;
    k rootino.

Lemma build_ok fs k Q :
  length fs + 2 ≤ NINODES → Forall source_ok fs → (B → tree_fits fs ∧ Forall source_there fs) →
  (∀ s t, freeinode s = length fs + 2 → mk_ok s t (tree fs) → runs B (k ROOTINO) s Q) → runs B (build fs k) mk_start Q.
Proof.
  intros Hl Hok HB HQ. assert (FSSIZE = 2000 ∧ NINODES = 200) as (EF & EN) by done.
  unfold build. apply runs_bind. unfold runs at 1, set_freeblock, modify, mk_start. cbn [img img_len freeinode freeblock].
  apply runs_bind. eapply runs_mono; [apply (zero_image nmeta (Z.to_nat FSSIZE) 0); [done|lia|done]|].
  intros _ s (D & -> & HD). apply runs_bind, runs_wsect; [done|intros Hb; specialize (Hroom Hb); lia|]. cbn [img img_len freeinode freeblock].
  change (Z.max (0 + Z.to_nat FSSIZE) (1 + 1)) with FSSIZE. apply runs_bind.
  eapply runs_mono; [apply (ialloc_ok _ _ _ (start_ok D HD)); cbn; lia|]. cbn [freeinode].
  intros inum s1 (-> & E1 & t1 & Hs1). cbn [negb Z.eqb Pos.eqb ROOTINO]. apply runs_bind.
  eapply runs_mono; [apply (iappend_ok s1 t1 _ 1 _ Hs1); [lia|by apply dirent_bytes; repeat constructor|rewrite E1; by vm_compute]|].
  intros _ s2 (E2 & t2 & Hs2). apply runs_bind.
  eapply runs_mono; [apply (iappend_ok s2 t2 _ 1 _ Hs2); [lia|by apply dirent_bytes; repeat constructor|rewrite E2, E1; by vm_compute]|].
  intros _ s3 (E3 & t3 & Hs3). apply runs_bind.
  eapply runs_mono; [apply (add_files_ok fs [] s3 t3); [|cbn; lia|cbn; lia|done|done]|].
  - eapply mk_ok_ext; [exact Hs3|]. intros i Hi. assert (i = 1) as -> by lia. rewrite !fn_lookup_insert. by vm_compute.
  - intros _ s4 (E4 & t4 & Hs4). cbn in E4. apply (HQ s4 t4); [lia|done].
Qed.

(** The bit map. *)
Lemma mark_bit_ok d b : block_ok d → block_ok (mark_bit d b).
Proof. intros [H1 H2]. split; [by rewrite <- H1; apply length_insert|]. apply Forall_insert; [done|apply u8_range]. Qed.

Lemma marks_ok (n : nat) : n ≤ BPB →
  block_ok (foldl mark_bit zero_block (seqZ 0 n)) ∧
  ∀ b, 0 ≤ b < BPB → bit_set (foldl mark_bit zero_block (seqZ 0 n)) b = (b <? n).
Proof.
  induction n as [|n IH]; intros Hn.
  - split; [apply zero_block_ok|]. intros b Hb. change (seqZ 0 0%nat) with (@nil Z). cbn [foldl]. rewrite bit_set_testbit.
    assert (zero_block !!! Z.to_nat (b `div` 8) = 0) as -> by (apply lookup_total_replicate_2; by apply bit_index).
    rewrite Z.testbit_0_l. symmetry. apply Z.ltb_ge. lia.
  - rewrite Nat2Z.inj_succ, <- Z.add_1_r, seqZ_app, foldl_app by lia. destruct (IH ltac:(lia)) as [Hb1 Hb2].
    change (seqZ (0 + n) 1) with [0 + n]. cbn [foldl]. split; [by apply mark_bit_ok|].
    intros b Hb. rewrite bit_mark, Hb2 by (done || lia). destruct (bool_decide_reflect (0 + n = b)), (Z.ltb_spec b n), (Z.ltb_spec b (n + 1)); cbn; lia.
Qed.

(** What mkfs leaves: a block is in use if it holds metadata or belongs to an
    inode, which is the case for the blocks below [fb], and inode [k + 2] is
    the [k]th file. *)
Record image (fs : list source) (D : Z → block) (fb : Z) : Prop := {
  im_sb : superblock_of (D 1) = sb;
  im_fb : nmeta ≤ fb ≤ FSSIZE;
  im_below b : 0 ≤ b < FSSIZE → used sb D b = (b <? fb);
  im_used b : 0 ≤ b < FSSIZE → used sb D b = true ↔
    b < nmeta ∨ ∃ i, 1 ≤ i < length fs + 2 ∧ owned D (disk_inode sb D i) b;
  im_root : let di := disk_inode sb D ROOTINO in
    di = Dinode T_DIR 0 0 1 ((length (root_dir fs) `div` BSIZE + 1) * BSIZE) (d_addrs di) ∧ inode_wf sb D di ∧
    (∀ o, 0 ≤ o < blocks (root_dir fs) * BSIZE → fbyte D di o = default 0 (root_dir fs !! Z.to_nat o)) ∧
    (no_holes D di ↔ (length fs + 2) `mod` 64 ≠ 0);
  im_file (k : nat) f : fs !! k = Some f → let di := disk_inode sb D (k + 2) in
    di = Dinode T_FILE 0 0 1 (length (data f)) (d_addrs di) ∧ inode_wf sb D di ∧ no_holes D di ∧
    (∀ o : nat, (o < length (data f))%nat → data f !! o = Some (fbyte D di o));
  im_disjoint i j b : 1 ≤ i < length fs + 2 → 1 ≤ j < length fs + 2 →
    owned D (disk_inode sb D i) b → owned D (disk_inode sb D j) b → i = j;
  im_free i : length fs + 2 ≤ i < NINODES → disk_inode sb D i = free_inode
}.

Lemma length_dirent i n : length (dirent i n) = 16%nat.
Proof.
  unfold dirent. rewrite length_app, length_take, length_app, length_replicate.
  change (Z.to_nat DIRSIZ) with 14%nat. cbn [length]. lia.
Qed.

Lemma length_root_dir fs : length (root_dir fs) = 16 * (length fs + 2) :> Z.
Proof.
  unfold root_dir. rewrite !length_app, !length_dirent.
  assert (∀ k, length (concat (imap (λ n, entry (k + n)) fs)) = 16 * length fs :> Z) as H.
  { induction fs as [|f fs IH]; intros k; [done|]. rewrite imap_cons. cbn [concat length]. rewrite length_app. unfold entry at 1.
    rewrite length_dirent. specialize (IH (S k)).
    rewrite (imap_ext _ (λ n, entry (S k + n))) by (intros; unfold compose; f_equal; lia). lia. }
  specialize (H 0%nat). change (λ n, entry (0 + n)) with entry in H. lia.
Qed.

Lemma in_blocks c bn : 0 ≤ bn → bn < blocks c ↔ bn * BSIZE < length c.
Proof. unfold blocks, BSIZE. intros H. split; intros; Z.to_euclidean_division_equations; lia. Qed.

(** A file that file_at describes, as the kernel's invariant. *)
Lemma file_at_wf D fb di f :
  file_at D fb di f → fb ≤ FSSIZE → (∀ b, 0 ≤ b < FSSIZE → used sb D b = (b <? fb)) → inode_wf sb D di.
Proof.
  intros Hf Hfb Hu. split.
  - apply (fa_di _ _ _ _ Hf).
  - intros j Hj Hne. pose proof (fa_range _ _ _ _ Hf j Hj Hne) as Hr. change (meta sb) with nmeta. change (sb_size sb) with FSSIZE.
    assert (0 < nmeta) by done. split; [lia|]. rewrite Hu by lia. apply Z.ltb_lt. lia.
  - intros i j Hi Hj. by apply (fa_inj _ _ _ _ Hf).
Qed.

Lemma file_no_holes D fb di c : file_at D fb di (whole c) → d_size di = length c → no_holes D di.
Proof.
  intros Hf Hsz bn Hbn Hlt. rewrite Hsz in Hlt. apply in_blocks in Hlt; [|done].
  pose proof (fa_nb _ _ _ _ Hf) as Hn. cbn in Hn. apply (fa_slots _ _ _ _ Hf); cbn; lia.
Qed.

Lemma file_bytes D fb di c (o : nat) : file_at D fb di (whole c) → (o < length c)%nat → c !! o = Some (fbyte D di o).
Proof.
  intros Hf Ho. rewrite (fa_bytes _ _ _ _ Hf); cbn.
  - rewrite Nat2Z.id. by destruct (lookup_lt_is_Some_2 c o Ho) as [x ->].
  - unfold blocks, BSIZE. Z.to_euclidean_division_equations; lia.
Qed.

Lemma root_no_holes D fb di fs :
  file_at D fb di (whole (root_dir fs)) → d_size di = (length (root_dir fs) `div` BSIZE + 1) * BSIZE →
  length fs + 2 ≤ NINODES → no_holes D di ↔ (length fs + 2) `mod` 64 ≠ 0.
Proof.
  intros Hf Hsz Hl. unfold NINODES in Hl. pose proof (length_root_dir fs) as HL. pose proof (fa_nb _ _ _ _ Hf) as Hn. cbn in Hn.
  set (n := length (root_dir fs) `div` BSIZE) in *.
  assert (0 ≤ n) as Hn0 by (apply Z.div_pos; unfold BSIZE; lia).
  assert (n < blocks (root_dir fs) ↔ (length fs + 2) `mod` 64 ≠ 0) as <-.
  { rewrite in_blocks by done. unfold n, BSIZE. rewrite HL. Z.to_euclidean_division_equations; lia. }
  assert (MAXFILE = 268) as EM by done. assert (0 ≤ n < 268) as Hn2.
  { unfold n, BSIZE. rewrite HL. Z.to_euclidean_division_equations; lia. }
  split.
  - intros H. apply (fa_slots _ _ _ _ Hf n); [lia|]. apply H; [lia|]. rewrite Hsz. unfold BSIZE. lia.
  - intros H bn Hbn Hlt. rewrite Hsz in Hlt. apply (fa_slots _ _ _ _ Hf); cbn [whole f_nb]; unfold BSIZE in *; lia.
Qed.

(** The last steps of main: the size of the root directory and the bit map. *)
Lemma finish_files fs s t D2 :
  mk_ok s t (tree fs) → freeinode s = length fs + 2 →
  let n := (length (root_dir fs) `div` BSIZE + 1) * BSIZE in
  D2 = <[45 := foldl mark_bit zero_block (seqZ 0 (freeblock s))]>
        (<[IBLOCK ROOTINO sb := put_dinode (img s (IBLOCK ROOTINO sb)) (ROOTINO `mod` IPB) (set_size n (t ROOTINO))]> (img s)) →
  let t' := <[ROOTINO := set_size n (t ROOTINO)]> t in
  files D2 (freeblock s) (length fs + 2) t' (λ i, whole (tree fs i)) ∧
  (∀ j, 1 ≤ j < inode_room → disk_inode sb D2 j = t' j) ∧
  (∀ b, 0 ≤ b < FSSIZE → used sb D2 b = (b <? freeblock s)) ∧ D2 1 = img s 1.
Proof.
  intros Hs Hfi n -> t'. pose proof (mk_size s t (tree fs) ROOTINO Hs ltac:(unfold ROOTINO; lia)) as Hsz.
  destruct s as [D len fi fb], Hs as [H1 H2 H3 Hcnt H4 H5 H6 H7 H8]. cbn [img img_len freeinode freeblock] in *. subst len fi.
  assert (inode_room = 208 ∧ NINODES = 200 ∧ nmeta = 46 ∧ ROOTINO = 1 ∧ FSSIZE = 2000) as (ER & EN & EM & E1 & EF) by done.
  assert (0 ≤ n < 2^32) as Hn.
  { change (tree fs ROOTINO) with (root_dir fs) in Hsz. change (MAXFILE * BSIZE) with 274432 in Hsz. unfold n, BSIZE in *.
    Z.to_euclidean_division_equations; lia. }
  pose proof (fl_fb _ _ _ _ _ H1) as Hfb. pose proof (fl_blk _ _ _ _ _ H1) as HD.
  destruct (marks_ok (Z.to_nat fb)) as [Hmb Hmu]; [unfold BPB, BSIZE; lia|]. rewrite Z2Nat.id in Hmb, Hmu by lia.
  destruct (IBLOCK_mkfs ROOTINO ltac:(lia)) as [_ Hib].
  set (D1 := <[IBLOCK ROOTINO sb := put_dinode (D (IBLOCK ROOTINO sb)) (ROOTINO `mod` IPB) (set_size n (t ROOTINO))]> D).
  set (D2 := <[45 := _]> D1).
  assert (files D fb (length fs + 2) t' (λ i, whole (tree fs i))) as G0.
  { apply files_size; [|lia|done]. eapply files_ext; [exact H1|]. intros j Hj. split; [|done].
    destruct (decide (j = ROOTINO)) as [->|]; [by rewrite fn_lookup_insert|by rewrite fn_lookup_insert_ne]. }
  assert (di_ok (set_size n (t ROOTINO))) as Hdi.
  { pose proof (fa_di _ _ _ _ (fl_at _ _ _ _ _ G0 ROOTINO ltac:(lia))) as Hd. unfold t' in Hd. by rewrite fn_lookup_insert in Hd. }
  assert (∀ b, block_ok (D1 b)) as HD1.
  { intros b. unfold D1. destruct (decide (b = IBLOCK ROOTINO sb)) as [->|]; [|by rewrite fn_lookup_insert_ne].
    rewrite fn_lookup_insert. by apply put_dinode_block. }
  assert (files D2 fb (length fs + 2) t' (λ i, whole (tree fs i))) as G.
  { apply (files_meta D); [done| |].
    - intros b Hb. unfold D2, D1. by rewrite !fn_lookup_insert_ne by lia.
    - intros b. unfold D2. destruct (decide (b = 45)) as [->|]; [by rewrite fn_lookup_insert|by rewrite fn_lookup_insert_ne]. }
  assert (∀ j, 1 ≤ j < inode_room → disk_inode sb D2 j = t' j) as Gt.
  { intros j Hj. unfold disk_inode at 1, D2. destruct (IBLOCK_mkfs j ltac:(lia)) as [_ Hjb]. rewrite fn_lookup_insert_ne by lia.
    fold (disk_inode sb D1 j). unfold D1. rewrite disk_inode_put by (done || lia). unfold t'.
    case_decide; [subst; by rewrite fn_lookup_insert|]. rewrite fn_lookup_insert_ne by done. auto. }
  split_and!; [done|done| |unfold D2, D1; by rewrite !fn_lookup_insert_ne by lia].
  intros b Hb. unfold used, BBLOCK. change (sb_bmapstart sb) with 45. change BPB with 8192 in *. rewrite Z.div_small, Z.mod_small by lia.
  change (u32 (0 + 45)) with 45. unfold D2. rewrite fn_lookup_insert. apply Hmu. lia.
Qed.

Lemma finish_image fs s t D :
  mk_ok s t (tree fs) → freeinode s = length fs + 2 →
  let n := (length (root_dir fs) `div` BSIZE + 1) * BSIZE in
  D = <[45 := foldl mark_bit zero_block (seqZ 0 (freeblock s))]>
        (<[IBLOCK ROOTINO sb := put_dinode (img s (IBLOCK ROOTINO sb)) (ROOTINO `mod` IPB) (set_size n (t ROOTINO))]> (img s)) →
  image fs D (freeblock s).
Proof.
  intros Hs Hfi n HD. destruct (finish_files fs s t D Hs Hfi HD) as (G & Gt & Gu & G1). clear HD. fold n in G, Gt.
  destruct Hs as [H1 H2 H3 Hcnt H4 H5 H6 H7 H8]. pose proof (fl_fb _ _ _ _ _ H1) as Hfb. rewrite Hfi in *.
  assert (inode_room = 208 ∧ NINODES = 200 ∧ ROOTINO = 1) as (ER & EN & E1) by done.
  assert (∀ i, 1 ≤ i < length fs + 2 → file_at D (freeblock s) (disk_inode sb D i) (whole (tree fs i))) as Hf.
  { intros i Hi. rewrite Gt by lia. apply (fl_at _ _ _ _ _ G i Hi). }
  split; try done; try lia.
  - by rewrite G1.
  - intros b Hb. rewrite Gu, Z.ltb_lt by done. split.
    + intros Hlt. destruct (decide (b < nmeta)) as [|Hge]; [by left|right].
      destruct (fl_cover _ _ _ _ _ G b ltac:(lia)) as (i & Hi & Ho). exists i. split; [done|]. by rewrite Gt by lia.
    + intros [?|(i & Hi & Ho)]; [lia|]. rewrite Gt in Ho by lia.
      by apply (file_at_owned _ _ _ _ _ (fl_at _ _ _ _ _ G i Hi) Ho).
  - specialize (Hf ROOTINO ltac:(lia)). change (tree fs ROOTINO) with (root_dir fs) in Hf.
    assert (disk_inode sb D ROOTINO = Dinode T_DIR 0 0 1 n (d_addrs (disk_inode sb D ROOTINO))) as Ed.
    { rewrite Gt by lia. rewrite fn_lookup_insert. destruct (H8 ROOTINO ltac:(lia)) as [a ->]. done. }
    split_and!; [done|by eapply file_at_wf| |].
    + apply (fa_bytes _ _ _ _ Hf).
    + eapply root_no_holes; [exact Hf|by rewrite Ed|lia].
  - intros k f Hk. pose proof (lookup_lt_Some _ _ _ Hk) as Hlt. specialize (Hf (k + 2) ltac:(lia)).
    assert (tree fs (k + 2) = data f) as Et.
    { unfold tree. rewrite decide_False by lia. replace (Z.to_nat (k + 2 - 2)) with k by lia. by rewrite Hk. }
    rewrite Et in Hf.
    assert (disk_inode sb D (k + 2) = Dinode T_FILE 0 0 1 (length (data f)) (d_addrs (disk_inode sb D (k + 2)))) as Ed.
    { rewrite Gt by lia. rewrite fn_lookup_insert_ne by lia. destruct (H8 (k + 2) ltac:(lia)) as [a ->].
      unfold kind. rewrite decide_False by lia. by rewrite Et. }
    split_and!; [done|by eapply file_at_wf|eapply file_no_holes; [exact Hf|by rewrite Ed]|].
    intros o Ho. by eapply file_bytes.
  - intros i j b Hi Hj. rewrite !Gt by lia. by apply (fl_disj _ _ _ _ _ G).
  - intros i Hi. rewrite Gt by lia. rewrite fn_lookup_insert_ne by lia. apply H6. lia.
Qed.
Lemma main_ok fs :
  length fs + 2 ≤ NINODES → Forall source_ok fs → (B → tree_fits fs ∧ Forall source_there fs) →
  runs B (main room fs) mk_start (λ _ s, image fs (img s) (freeblock s)).
Proof.
  intros Hl Hok HB. apply (build_ok fs (λ rootino, let* din := rinode rootino in
        winode room rootino (set_size (xint (u32 ((xint (d_size din) `div` BSIZE + 1) * BSIZE))) din) ;;;
        let* used := gets freeblock in
        balloc room used)); [done|done|done|].
  intros s t Hfi Hs. pose proof (mk_size s t _ ROOTINO Hs ltac:(unfold ROOTINO; lia)) as Hsz.
  destruct s as [D len fi fb]. pose proof Hs as [H1 H2 H3 _ H4 H5 _ _ H8]. cbn [img img_len freeinode freeblock] in *. subst len.
  assert (inode_room = 208 ∧ ROOTINO = 1 ∧ FSSIZE = 2000) as (ER & E1 & EF) by done. pose proof (fl_fb _ _ _ _ _ H1) as Hfb.
  destruct (IBLOCK_mkfs ROOTINO ltac:(lia)) as [_ Hb]. apply runs_bind, runs_bind, runs_rsect; cbn [img img_len]; [lia|lia|]. intros _.
  unfold runs at 1, ret at 1. fold (disk_inode sb D ROOTINO). rewrite H5 by lia. destruct (H8 ROOTINO ltac:(lia)) as [a Et].
  change (tree fs ROOTINO) with (root_dir fs) in *. change (MAXFILE * BSIZE) with 274432 in Hsz.
  set (n := (length (root_dir fs) `div` BSIZE + 1) * BSIZE).
  assert (0 ≤ n < 2^32) as Hn by (unfold n, BSIZE; Z.to_euclidean_division_equations; lia).
  replace (xint (d_size (t ROOTINO))) with (Z.of_nat (length (root_dir fs))) by (rewrite Et; cbn [d_size]; rewrite xint_id; lia).
  fold n. replace (u32 n) with n by (symmetry; by apply Z.mod_small). rewrite xint_id by done.
  apply runs_bind, runs_winode; [lia|]. apply runs_bind. unfold runs at 1, gets. cbn [freeblock].
  unfold balloc. destruct (Z.ltb_spec fb (BSIZE * 8)); [|unfold BSIZE in *; lia]. cbn [negb].
  apply runs_wsect; [done|intros Hb'; specialize (Hroom Hb'); change (sb_bmapstart sb) with 45; lia|].
  cbn [img img_len freeinode freeblock]. change (sb_bmapstart sb) with 45. by apply (finish_image fs (Mkst D FSSIZE fi fb) t).
Qed.
End append.

(** The image that mkfs is asked for: the host has room for it, every file
    exists, has a name without slashes and is not larger than the file system
    allows, and all of them fit on the disk. *)
Record fits (room : Z) (fs : list source) : Prop := {
  ft_room : FSSIZE ≤ room;
  ft_there : Forall source_there fs;
  ft_tree : tree_fits fs
}.

(** C38. mkfs, given at most 198 files that fit, writes an image that the
    kernel's file system accepts; if they do not fit, it dies or does the
    same. The super block describes the layout; a block is marked in use
    exactly if it holds metadata or belongs to a file, and all of these are
    on the disk. Inode 1 is the root directory, with the entries of all files
    after [.] and [..]; it has no holes unless the number of entries is a
    multiple of 64. Inode [k + 2] is the [k]th file: its size and bytes are
    those of the source, its blocks satisfy the invariant that readi and
    writei rely on, and no two inodes share a block. All other inodes are
    free. *)
Theorem mkfs_builds_file_system room fs :
  length fs + 2 ≤ NINODES → Forall source_ok fs →
  (∃ s, main room fs mk_start = Done tt s ∧ image fs (img s) (freeblock s)) ∨
  (¬ fits room fs ∧ ∃ msg, main room fs mk_start = Panic msg).
Proof.
  intros Hl Hok.
  assert (runs (fits room fs) (main room fs) mk_start (λ _ s, image fs (img s) (freeblock s))) as H.
  { apply main_ok; [by intros []|done|done|by intros []]. }
  unfold runs in H. destruct (main room fs mk_start) as [[] s|msg| |]; try done; [left|right]; eauto.
Qed.

(** Two files, [user/_cat] and [README]. *)
Definition sample_files : list source :=
  [([117; 115; 101; 114; 47; 95; 99; 97; 116], Some [[1; 2; 3]; [4]]); ([82; 69; 65; 68; 77; 69], Some [[120; 118; 54]])].

Lemma sample_fits : fits 2000 sample_files.
Proof.
  split; [done| |split; [by vm_compute|]].
  - repeat constructor; try (intros H; set_unfold in H; lia); by eexists.
  - intros i Hi. assert (i = 1 ∨ i = 2 ∨ i = 3) as [-> | [-> | ->]] by (cbn in Hi; lia); by vm_compute.
Qed.

Lemma mkfs_builds_file_system_witness :
  ∃ s, main 2000 sample_files mk_start = Done tt s ∧ image sample_files (img s) (freeblock s).
Proof.
  destruct (mkfs_builds_file_system 2000 sample_files) as [H|[Hn _]].
  - done.
  - unfold source_ok, bytes. repeat constructor; cbn; lia.
  - exact H.
  - destruct Hn. exact sample_fits.
Defined.

(** With 62 files the root directory has 64 entries and fills its block, but
    mkfs makes it one block larger: readi, asked for the bytes in the hole,
    would allocate a block, and outside of a transaction that is a panic. *)
Lemma mkfs_root_hole fs D fb :
  image fs D fb → length fs = 62%nat → d_size (disk_inode sb D ROOTINO) = 2048 ∧ ¬ no_holes D (disk_inode sb D ROOTINO).
Proof.
  intros Hi Hl. destruct (im_root _ _ _ Hi) as (E & _ & _ & Hh). split.
  - rewrite E. cbn [d_size]. by rewrite length_root_dir, Hl.
  - rewrite Hh, Hl. by intros H.
Qed.

(** ialloc does not compare with NINODES: the 208th inode is in the block of
    the bit map, which balloc overwrites. *)
Lemma mkfs_inode_overflow : IBLOCK inode_room sb = sb_bmapstart sb.
Proof. vm_compute. reflexivity. Qed.
