(* ===== verification/Ulib.v ===== *)
(** * The C library of user programs, user/ulib.c

    On the byte-addressed memory of Mem.v; a user program's addresses are
    virtual. Loops that look for a NUL inspect at most [fuel] bytes. gets is
    in ShRun.v, on the bytes of the input. *)

From S2P Require Import Prelude Mem Uart Printf.

(** [while(( *s++ = *t++) != 0) ;] *)
Fixpoint strcpy (fuel : nat) (m : mem) (s t : Z) : option mem :=
  match fuel with
  | O => None
  | S fuel =>
      let c := load8 m t in
      let m := store8 m s c in
      if c =? 0 then Some m else strcpy fuel m (s + 1) (t + 1)
  end.

(** [while( *p && *p == *q) p++, q++;] *)
Fixpoint strcmp (fuel : nat) (m : mem) (p q : Z) : option Z :=
  match fuel with
  | O => None
  | S fuel =>
      if negb (load8 m p =? 0) && (load8 m p =? load8 m q) then strcmp fuel m (p + 1) (q + 1)
      else Some (load8 m p - load8 m q)
  end.

Definition strlen (fuel : nat) (m : mem) (s : Z) : option Z := strlen_loop m s 0 fuel.

Definition memset (m : mem) (dst c n : Z) : mem := memset_loop m dst c 0 (Z.to_nat n).

(** A pointer to the first [c], or 0. *)
Fixpoint strchr (fuel : nat) (m : mem) (s c : Z) : option Z :=
  match fuel with
  | O => None
  | S fuel =>
      if load8 m s =? 0 then Some 0
      else if load8 m s =? c then Some s
      else strchr fuel m (s + 1) c
  end.

Fixpoint atoi_loop (fuel : nat) (m : mem) (s n : Z) : option Z :=
  match fuel with
  | O => None
  | S fuel =>
      let c := load8 m s in
      if (48 <=? c) && (c <=? 57) then atoi_loop fuel m (s + 1) (i32 (n * 10 + c - 48)) else Some n
  end.
Definition atoi (fuel : nat) (m : mem) (s : Z) : option Z := atoi_loop fuel m s 0.

Definition memmove (m : mem) (vdst vsrc n : Z) : mem :=
  if vdst <? vsrc then memmove_up m vdst vsrc (Z.to_nat n)
  else memmove_down m (vdst + n) (vsrc + n) (Z.to_nat n).

Definition memcmp (m : mem) (s1 s2 n : Z) : Z := memcmp_loop m s1 s2 (Z.to_nat n).
Definition memcpy (m : mem) (dst src n : Z) : mem := memmove m dst src (i32 n).

(** ** Strings *)

(** The bytes [l], which are not NUL, and a NUL are at [s]. *)
Definition string_at (m : mem) (s : Z) (l : list Z) : Prop :=
  (∀ (i : nat) c, l !! i = Some c → c ≠ 0 ∧ load8 m (s + i) = c) ∧ load8 m (s + length l) = 0.

Lemma string_at_nil m s : string_at m s [] ↔ load8 m s = 0.
Proof. unfold string_at. cbn. rewrite Z.add_0_r. split; [tauto|]. intros H. split; [|done]. intros i c. by rewrite lookup_nil. Qed.

Lemma string_at_cons m s c l : string_at m s (c :: l) ↔ c ≠ 0 ∧ load8 m s = c ∧ string_at m (s + 1) l.
Proof.
  unfold string_at. split.
  - intros [H1 H2]. destruct (H1 0%nat c eq_refl) as [Hc Hl]. rewrite Z.add_0_r in Hl. split_and!; [done|done| |].
    + intros i d Hd. destruct (H1 (S i) d Hd) as [? Hi]. split; [done|]. rewrite <- Hi. f_equal. lia.
    + rewrite <- H2. f_equal. cbn. lia.
  - intros (Hc & Hl & H1 & H2). split.
    + intros [|i] d; cbn; [intros [= <-]; by rewrite Z.add_0_r|]. intros Hd. destruct (H1 i d Hd) as [? Hi]. split; [done|].
      rewrite <- Hi. f_equal. lia.
    + rewrite <- H2. f_equal. cbn. lia.
Qed.

(** strcmp compares strings. *)
Lemma strcmp_equal m p q l l' (fuel : nat) :
  string_at m p l → string_at m q l' → (length l < fuel)%nat → ∃ r, strcmp fuel m p q = Some r ∧ (r = 0 ↔ l = l').
Proof.
  revert p q l l'. induction fuel as [|fuel IH]; intros p q l l' Hp Hq Hf; [lia|]. cbn [strcmp].
  destruct l as [|c l], l' as [|d l']; rewrite ?string_at_nil, ?string_at_cons in *.
  - exists 0. rewrite Hp, Hq. done.
  - destruct Hq as (Hd & Hq & _). exists (0 - d). rewrite Hp, Hq. cbn. split; [done|]. split; [lia|done].
  - destruct Hp as (Hc & Hp & _). exists c. rewrite Hp, Hq. rewrite (proj2 (Z.eqb_neq c 0)) by done. cbn. split; [f_equal; lia|].
    split; [lia|done].
  - destruct Hp as (Hc & Hp & Hp'), Hq as (Hd & Hq & Hq'). rewrite Hp, Hq, (proj2 (Z.eqb_neq c 0)) by done. cbn [negb andb].
    destruct (Z.eqb_spec c d) as [->|Hne].
    + cbn in Hf. destruct (IH (p + 1) (q + 1) l l' Hp' Hq' ltac:(lia)) as (r & Er & Hr). exists r. split; [done|].
      rewrite Hr. split; [by intros ->|by intros [=]].
    + exists (c - d). split; [done|]. split; [lia|]. intros [=]. done.
Qed.

(** memmove of user programs is that of the kernel, also for overlapping
    areas. *)
Lemma user_memmove m dst src n x : 0 ≤ n → load8 (memmove m dst src n) x = load8 (Mem.memmove m dst src n) x.
Proof.
  intros Hn. rewrite load8_memmove by done. unfold memmove. destruct (Z.ltb_spec dst src).
  - rewrite memmove_up_spec by lia. by rewrite Z2Nat.id.
  - destruct (decide (dst = src)) as [->|].
    + assert (∀ k a y, load8 (memmove_down m a a k) y = load8 m y) as ->.
      { induction k as [|k IH] in m |- *; intros a y; cbn [memmove_down]; [done|]. rewrite IH, load8_store8, u8_load8. case_decide; by subst. }
      case_decide; [f_equal; lia|done].
    + rewrite memmove_down_spec by lia. rewrite Z2Nat.id by done. repeat case_decide; try lia; try done; f_equal; lia.
Qed.

(** ** atoi *)

Lemma value_snoc val base ds d : value val base (ds ++ [d]) = value val base ds + base ^ length ds * val d.
Proof.
  induction ds as [|e ds IH]; [cbn; lia|]. cbn [app value length]. rewrite IH, Nat2Z.inj_succ, Z.pow_succ_r by lia. lia.
Qed.

Lemma value_nonneg val base ds : 0 ≤ base → Forall (λ d, 0 ≤ val d) ds → 0 ≤ value val base ds.
Proof. intros Hb. induction 1; cbn [value]; nia. Qed.

Lemma atoi_loop_digits m (fuel : nat) : ∀ s ds n,
  string_at m s ds → Forall (λ c, 48 ≤ c ≤ 57) ds → (length ds < fuel)%nat → 0 ≤ n →
  n * 10 ^ length ds + value hexval 10 (reverse ds) < 2^31 →
  atoi_loop fuel m s n = Some (n * 10 ^ length ds + value hexval 10 (reverse ds)).
Proof.
  induction fuel as [|fuel IH]; intros s ds n Hs Hd Hf Hn Hlt; [lia|]. cbn [atoi_loop].
  destruct ds as [|c ds]; [rewrite string_at_nil in Hs; rewrite Hs; cbn; f_equal; lia|].
  apply string_at_cons in Hs as (_ & Hc & Hs). apply Forall_cons in Hd as [Hcd Hd]. rewrite Hc.
  rewrite (proj2 (Z.leb_le 48 c)), (proj2 (Z.leb_le c 57)) by lia. cbn [andb].
  assert (hexval c = c - 48) as Hx by (unfold hexval; destruct (Z.ltb_spec c 58); lia).
  rewrite reverse_cons, value_snoc, length_reverse, Hx in *. cbn [length] in *.
  rewrite Nat2Z.inj_succ, Z.pow_succ_r in * by lia.
  assert (0 ≤ value hexval 10 (reverse ds)).
  { apply value_nonneg; [lia|]. apply Forall_reverse. eapply Forall_impl; [exact Hd|]. cbv beta. intros d ?. unfold hexval. destruct (Z.ltb_spec d 58); lia. }
  assert (0 < 10 ^ length ds) by (apply Z.pow_pos_nonneg; lia).
  rewrite i32_small by nia. rewrite (IH _ ds); [f_equal; lia|done|done|lia|lia|nia].
Qed.

(** atoi reads back what printf of a user program writes for %d. *)
Lemma atoi_numeral m s n (fuel : nat) :
  0 ≤ n < 2^31 → string_at m s (numeral UPrintf.digits n 10 true) → (10 < fuel)%nat → atoi fuel m s = Some n.
Proof.
  intros Hn. unfold numeral. rewrite (proj2 (Z.ltb_ge n 0)) by lia. cbn [andb].
  assert (u32 n = n) as -> by (apply Z.mod_small; lia). set (ds := int_digits _ _ _ _). intros Hs Hf.
  assert (value hexval 10 ds = n) as Hv.
  { apply (int_digits_value _ udigits_good); [lia|]. split; [lia|]. eapply Z.lt_le_trans; [apply Hn|]. vm_compute. discriminate. }
  assert (length ds ≤ 10)%nat by (apply (int_digits_length UPrintf.digits 10); lia).
  unfold atoi. erewrite atoi_loop_digits; [|exact Hs|..|lia|]; rewrite ?reverse_involutive, ?length_reverse, ?Hv; [f_equal; lia| |lia|lia].
  apply Forall_reverse, Forall_forall. intros c (i & Hi & ->)%(int_digits_elem UPrintf.digits 10); [|lia].
  assert (i ∈ seqZ 0 10) as Hin by (apply elem_of_seqZ; lia). revert i Hi Hin.
  assert (Forall (λ i, 48 ≤ UPrintf.digits !!! Z.to_nat i ≤ 57) (seqZ 0 10)) as HF by (vm_compute; repeat constructor; discriminate).
  rewrite Forall_forall in HF. auto.
Qed.
