(* ===== verification/Uprogs.v ===== *)
(** * User programs: user/wc.c, user/cat.c, user/echo.c, user/primes.c, user/find.c

    A program's run is what it writes, in order, and the status it exits
    with, if it does. What system calls return is an argument: a file is the
    results of the reads on it, [None] for an error; after the last there is
    end of file. A [%d] of printf is [numeral], which PrintfTheorems.v shows
    vprintf to output. *)

From S2P Require Import Prelude Fs Printf.

Abbreviation run := (list (Z * list Z) * option Z)%type.
Abbreviation reads := (list (option (list Z))).

Definition emit (fd : Z) (s : list Z) : run := ([(fd, s)], None).
Definition exits (status : Z) : run := ([], Some status).
Definition andthen (r k : run) : run :=
  match r.2 with Some _ => r | None => (r.1 ++ k.1, k.2) end.
Definition nothing : run := ([], None).

(** ** wc *)

Module Wc.
Record counts := Counts { l : Z; w : Z; c : Z; inword : bool }.

(** [strchr(" \r\t\n\v", b)] *)
Definition space (b : Z) : bool := bool_decide (b ∈ [32; 13; 9; 10; 11]).

Definition byte (k : counts) (b : Z) : counts :=
  let l' := if b =? 10 then i32 (l k + 1) else l k in
  if space b then Counts l' (w k) (i32 (c k + 1)) false
  else if inword k then Counts l' (w k) (i32 (c k + 1)) true
  else Counts l' (i32 (w k + 1)) (i32 (c k + 1)) true.

(** The loop over the reads: the counts, and whether it ended with an error. *)
Fixpoint loop (k : counts) (rs : reads) : counts * bool :=
  match rs with
  | [] => (k, false)
  | None :: _ => (k, true)
  | Some [] :: _ => (k, false)
  | Some bs :: rs => loop (foldl byte k bs) rs
  end.

Definition text (k : counts) (name : list Z) : list Z :=
  numeral UPrintf.digits (l k) 10 true ++ [32] ++ numeral UPrintf.digits (w k) 10 true ++ [32] ++
  numeral UPrintf.digits (c k) 10 true ++ [32] ++ name ++ [10].

Definition wc (rs : reads) (name : list Z) : run :=
  match loop (Counts 0 0 0 false) rs with
  | (k, true) => andthen (emit 1 (str "wc: read error" ++ [10])) (exits 1)
  | (k, false) => emit 1 (text k name)
  end.

(** The loop over the arguments; [opens] is open of a name and the reads on
    the descriptor. *)
Fixpoint files (opens : list Z → option reads) (argv : list (list Z)) : run :=
  match argv with
  | [] => exits 0
  | a :: argv =>
      match opens a with
      | None => andthen (emit 1 (str "wc: cannot open " ++ a ++ [10])) (exits 1)
      | Some rs => andthen (wc rs a) (files opens argv)
      end
  end.

(** [argv] without the program's name. *)
Definition main (stdin : reads) (opens : list Z → option reads) (argv : list (list Z)) : run :=
  match argv with
  | [] => andthen (wc stdin []) (exits 0)
  | _ => files opens argv
  end.

(** *** What is counted *)

Definition lines (bs : list Z) : Z := length (filter (λ b, b = 10) bs).
(** The bytes at which a word starts: not a space, after a space or at the
    beginning. *)
Definition words (prev : Z) (bs : list Z) : Z :=
  length (filter (λ p, space p.1 = true ∧ space p.2 = false) (zip (prev :: bs) bs)).

Lemma words_cons prev b bs :
  words prev (b :: bs) = (if space prev && negb (space b) then 1 else 0) + words b bs.
Proof.
  unfold words. cbn [zip zip_with]. rewrite filter_cons. cbn [Datatypes.fst Datatypes.snd].
  destruct (space prev), (space b); cbn [andb negb]; case_decide as H; cbn [length]; naive_solver lia.
Qed.

Lemma foldl_byte bs : ∀ k prev,
  inword k = negb (space prev) → 0 ≤ l k → 0 ≤ w k → 0 ≤ c k →
  l k + length bs < 2^31 → w k + length bs < 2^31 → c k + length bs < 2^31 →
  ∃ inw, foldl byte k bs = Counts (l k + lines bs) (w k + words prev bs) (c k + length bs) inw.
Proof.
  induction bs as [|b bs IH]; intros k prev Hi ???; cbn [foldl length]; intros.
  { exists (inword k). change (lines []) with 0. change (words prev []) with 0. rewrite !Z.add_0_r. by destruct k. }
  assert (byte k b = Counts (l k + if b =? 10 then 1 else 0) (w k + if space prev && negb (space b) then 1 else 0)
                            (c k + 1) (negb (space b))) as ->.
  { unfold byte. rewrite Hi, !i32_small by lia. destruct (space b), (space prev), (b =? 10); cbn; f_equal; lia. }
  match goal with |- context [foldl byte ?k' _] => destruct (IH k' b) as (inw & ->) end; cbn [l w c inword].
  all: try (destruct (space b), (space prev), (b =? 10); cbn [andb negb]; (done || lia)).
  exists inw. rewrite words_cons. unfold lines. rewrite filter_cons.
  destruct (Z.eqb_spec b 10); case_decide; try done; cbn [length]; f_equal; lia.
Qed.

Lemma loop_concat rss : ∀ k, Forall (λ bs, bs ≠ []) rss → loop k (Some <$> rss) = (foldl byte k (concat rss), false).
Proof.
  induction rss as [|bs rss IH]; intros k Hne; [done|]. apply Forall_cons in Hne as [Hb Hne]. cbn [fmap list_fmap concat].
  rewrite foldl_app, <- IH by done. by destruct bs.
Qed.

(** However the reads cut the input, wc prints its lines, words and bytes. *)
Lemma wc_counts rss name :
  Forall (λ bs, bs ≠ []) rss → Z.of_nat (length (concat rss)) < 2^31 →
  wc (Some <$> rss) name =
    emit 1 (text (Counts (lines (concat rss)) (words 32 (concat rss)) (length (concat rss)) false) name).
Proof.
  intros Hne Hl. unfold wc. rewrite loop_concat by done.
  destruct (foldl_byte (concat rss) (Counts 0 0 0 false) 32) as (inw & ->); cbn [l w c inword]; try lia; [done|].
  unfold text. cbn [l w c]. by rewrite !Z.add_0_l.
Qed.
End Wc.

(** ** cat *)

Module Cat.
(** [wr bs] is the result of write on descriptor 1; so many bytes are written. *)
Fixpoint cat (wr : list Z → Z) (rs : reads) : run :=
  match rs with
  | [] => nothing
  | None :: _ => andthen (emit 2 (str "cat: read error" ++ [10])) (exits 1)
  | Some [] :: _ => nothing
  | Some bs :: rs =>
      andthen (emit 1 (take (Z.to_nat (wr bs)) bs))
        (if negb (wr bs =? length bs) then andthen (emit 2 (str "cat: write error" ++ [10])) (exits 1)
         else cat wr rs)
  end.

Fixpoint files (wr : list Z → Z) (opens : list Z → option reads) (argv : list (list Z)) : run :=
  match argv with
  | [] => exits 0
  | a :: argv =>
      match opens a with
      | None => andthen (emit 2 (str "cat: cannot open " ++ a ++ [10])) (exits 1)
      | Some rs => andthen (cat wr rs) (files wr opens argv)
      end
  end.

Definition main (wr : list Z → Z) (stdin : reads) (opens : list Z → option reads) (argv : list (list Z)) : run :=
  match argv with
  | [] => andthen (cat wr stdin) (exits 0)
  | _ => files wr opens argv
  end.

(** The bytes written to [fd]. *)
Definition written (fd : Z) (r : run) : list Z := concat (Datatypes.snd <$> filter (λ o, o.1 = fd) r.1).

Lemma written_andthen fd r k : written fd (andthen r k) = written fd r ++ match r.2 with Some _ => [] | None => written fd k end.
Proof.
  unfold written, andthen. destruct r as [o [e|]]; cbn; [by rewrite app_nil_r|].
  by rewrite filter_app, fmap_app, concat_app.
Qed.

Lemma cat_concat wr rss :
  (∀ bs, wr bs = length bs) → Forall (λ bs, bs ≠ []) rss →
  written 1 (cat wr (Some <$> rss)) = concat rss ∧ (cat wr (Some <$> rss)).2 = None.
Proof.
  intros Hw. induction 1 as [|bs rss Hb Hne IH]; [done|]. cbn [fmap list_fmap].
  destruct bs as [|b bs]; [done|]. cbn [cat]. rewrite Hw, Z.eqb_refl, Nat2Z.id, firstn_all. cbn [negb concat].
  destruct IH as [IH1 IH2]. rewrite written_andthen, IH1. split; [|done].
  change (written 1 (emit 1 (b :: bs))) with ((b :: bs) ++ []). by rewrite app_nil_r.
Qed.

(** cat writes the files one after the other. *)
Lemma cat_files wr opens argv (f : list Z → list (list Z)) :
  (∀ bs, wr bs = length bs) → (∀ a, a ∈ argv → opens a = Some (Some <$> f a) ∧ Forall (λ bs, bs ≠ []) (f a)) →
  written 1 (files wr opens argv) = concat ((λ a, concat (f a)) <$> argv) ∧ (files wr opens argv).2 = Some 0.
Proof.
  intros Hw Ha. induction argv as [|a argv IH]; [done|]. cbn [files fmap list_fmap concat].
  destruct (Ha a ltac:(left)) as [-> Hne]. destruct (cat_concat wr (f a) Hw Hne) as [H1 H2].
  destruct IH as [IH1 IH2]; [intros b Hb; apply Ha; by right|]. rewrite written_andthen, H1, H2, IH1. split; [done|].
  unfold andthen. by rewrite H2.
Qed.
End Cat.

(** ** echo *)

Fixpoint echo (argv : list (list Z)) : run :=
  match argv with
  | [] => exits 0
  | a :: argv => andthen (andthen (emit 1 a) (emit 1 (match argv with [] => [10] | _ => [32] end))) (echo argv)
  end.

(** ** primes *)

Module Primes.
(** findMin; -1 when no entry is 1. *)
Definition findMin (array : list Z) : Z :=
  match list_find (λ x, x = 1) (take 36 array) with Some (i, _) => Z.of_nat i | None => -1 end.

(** [for(i = min + 1; i < 36; i++) if(i % min == 0) array[i] = 0;] *)
Definition strike (min : Z) (array : list Z) : list Z :=
  foldl (λ a i, if i `mod` min =? 0 then <[Z.to_nat i := 0]> a else a) array (seqZ (min + 1) (36 - (min + 1))).

(** The processes of one family: the child of fork continues with its copy
    of the array while its parent waits for it, so their output is in the
    order of the calls. When help returns, in the child as in the parent, main
    exits. *)
Fixpoint help (fuel : nat) (array : list Z) : option (list (list Z)) :=
  match fuel with
  | O => None
  | S fuel =>
      let min := findMin array in
      if min =? -1 then Some []
      else
        let text := str "prime " ++ numeral UPrintf.digits min 10 true ++ [10] in
        let array := <[Z.to_nat min := 0]> array in
        if 36 <=? min + 1 then Some [text]
        else
          let array := strike min array in
          match help fuel array with Some o => Some (text :: o) | None => None end
  end.

Definition main : option (list (list Z)) := help 37 (0 :: 0 :: replicate 34 1).

Definition is_prime (n : Z) : bool := (2 <=? n) && forallb (λ d, negb (n `mod` d =? 0)) (seqZ 2 (n - 2)).

(** primes prints the primes below 36 in order. *)
Lemma primes_main :
  main = Some ((λ n, str "prime " ++ numeral UPrintf.digits n 10 true ++ [10]) <$>
               filter (λ n, is_prime n = true) (seqZ 0 36)).
Proof. vm_compute. reflexivity. Qed.
End Primes.

(** ** find *)

Module Find.

(** The bytes before the first [x]. *)
Fixpoint before (x : Z) (l : list Z) : list Z :=
  match l with [] => [] | b :: l => if b =? x then [] else b :: before x l end.

(** The bytes after the last slash. *)
Definition fmtnames (path : list Z) : list Z :=
  reverse (before 47 (reverse path)).

(** A name of a directory entry: the bytes before the first NUL; the code puts
    a NUL after the [DIRSIZ] bytes. *)
Definition cname (raw : list Z) : list Z := before 0 (take (Z.to_nat DIRSIZ) raw).

Section find.
(** Whether open of a path succeeds while so many directories are open, what fstat says of the type and the
    entries (inode number and name) that reads of the directory return. *)
Variable opens : nat → list Z → bool.
Variable fstat : list Z → option Z.
Variable entries : list Z → list (Z * list Z).

(** stat of ulib.c opens the file and closes it again. *)
Definition stat (depth : nat) (p : list Z) : option Z := if opens depth p then fstat p else None.

(** The loop over the entries of the directory [path]; [rec] is find. *)
Fixpoint each (rec : list Z → option (list (Z * list Z))) (depth : nat) (path file : list Z)
    (es : list (Z * list Z)) : option (list (Z * list Z)) :=
  match es with
  | [] => Some []
  | (inum, raw) :: es =>
      if inum =? 0 then each rec depth path file es
      else
        let buf := path ++ [47] ++ cname raw in
        match stat (S depth) buf with
        | None => o ← each rec depth path file es; Some ((1, str "ls: cannot stat " ++ buf ++ [10]) :: o)
        | Some ty =>
            let name := fmtnames buf in
            o1 ← (if (ty =? T_DIR) && negb (bool_decide (name = [46])) && negb (bool_decide (name = [46; 46]))
                  then rec buf else Some []);
            o2 ← each rec depth path file es;
            Some (o1 ++ (if bool_decide (name = file) then [(1, buf ++ [10])] else []) ++ o2)
        end
  end.

Fixpoint find (fuel depth : nat) (path file : list Z) : option (list (Z * list Z)) :=
  match fuel with
  | O => None
  | S fuel =>
      if negb (opens depth path) then Some [(2, str "ls: cannot open " ++ path ++ [10])]
      else
        match fstat path with
        | None => Some [(2, str "ls: cannot stat " ++ path ++ [10])]
        | Some ty =>
            if negb (ty =? T_DIR) then Some []
            else if 512 <? length path + 1 + DIRSIZ + 1 then Some [(1, str "ls: path too long" ++ [10])]
            else each (λ buf, find fuel (S depth) buf file) depth path file (entries path)
        end
  end.

Definition main (argv : list (list Z)) : option (list (Z * list Z)) * Z :=
  match argv with
  | path :: file :: _ => (find 513 0 path file, 0)
  | _ => (Some [(1, str "Usage: find path file..." ++ [10])], 1)
  end.

(** A path grows with each level, and a long one is not opened further. *)
Lemma find_terminates (fuel depth : nat) path file :
  512 < fuel + length path → (0 < fuel)%nat → is_Some (find fuel depth path file).
Proof.
  revert depth path. induction fuel as [|fuel IH]; intros depth path Hf Hpos; [lia|]. cbn [find].
  destruct (opens depth path); [|done]. destruct (fstat path) as [ty|]; [|done]. cbn [negb].
  destruct (ty =? T_DIR); [|done]. cbn [negb]. destruct (Z.ltb_spec 512 (length path + 1 + DIRSIZ + 1)) as [|Hlt]; [done|].
  unfold DIRSIZ in Hlt. induction (entries path) as [|[inum raw] es [o IHe]]; [done|]. cbn [each].
  destruct (inum =? 0); [by eexists|]. cbn zeta. rewrite IHe. destruct (stat _ _) as [ty'|]; [|done].
  assert (is_Some (find fuel (S depth) (path ++ [47] ++ cname raw) file)) as [o' ->].
  { apply IH; rewrite ?length_app; cbn [length app]; lia. }
  by destruct (_ && _).
Qed.

(** [q] is a live entry of type [ty] of the directory [p], which find reads
    at this depth. *)
Definition listed (depth : nat) (p q : list Z) (ty : Z) : Prop :=
  opens depth p = true ∧ fstat p = Some T_DIR ∧ length p + 1 + DIRSIZ + 1 ≤ 512 ∧
  (∃ inum raw, (inum, raw) ∈ entries p ∧ inum ≠ 0 ∧ q = p ++ [47] ++ cname raw) ∧ stat (S depth) q = Some ty.

(** The entries below [p]: its own and those of its subdirectories. *)
Inductive below : nat → list Z → list Z → Prop :=
| below_entry depth p q ty : listed depth p q ty → below depth p q
| below_sub depth p d q :
    listed depth p d T_DIR → fmtnames d ≠ [46] → fmtnames d ≠ [46; 46] → below (S depth) d q → below depth p q.

Lemma each_prints rec depth path file es o inum raw ty :
  each rec depth path file es = Some o → (inum, raw) ∈ es → inum ≠ 0 →
  stat (S depth) (path ++ [47] ++ cname raw) = Some ty →
  let buf := path ++ [47] ++ cname raw in
  (fmtnames buf = file → (1, buf ++ [10]) ∈ o) ∧
  (ty = T_DIR → fmtnames buf ≠ [46] → fmtnames buf ≠ [46; 46] → ∃ o', rec buf = Some o' ∧ o' ⊆ o).
Proof.
  revert o. induction es as [|[i r] es IH]; intros o He Hin Hi Hst buf; [by apply elem_of_nil in Hin|]. cbn [each] in He.
  apply elem_of_cons in Hin as [[= <- <-]|Hin].
  - rewrite (proj2 (Z.eqb_neq inum 0)) in He by done. cbn zeta in He. rewrite Hst in He. fold buf in He.
    apply bind_Some in He as (o1 & E1 & (o2 & E2 & [= <-])%bind_Some). split.
    + intros Hf. rewrite bool_decide_true by done. set_solver.
    + intros -> H1 H2. rewrite !bool_decide_false in E1 by done. cbn in E1. exists o1. split; [done|set_solver].
  - destruct (i =? 0); [by apply IH|]. cbn zeta in He. destruct (stat _ (_ ++ _ ++ cname r)).
    + apply bind_Some in He as (o1 & E1 & (o2 & E2 & [= <-])%bind_Some).
      destruct (IH o2 E2 Hin Hi Hst) as [IH1 IH2]. split; [intros; set_solver|].
      intros. destruct IH2 as (o' & ? & ?); [done..|]. exists o'. split; [done|set_solver].
    + apply bind_Some in He as (o2 & E2 & [= <-]). destruct (IH o2 E2 Hin Hi Hst) as [IH1 IH2]. split; [intros; set_solver|].
      intros. destruct IH2 as (o' & ? & ?); [done..|]. exists o'. split; [done|set_solver].
Qed.

(** find prints the path of every entry below its argument that has the name. *)
Lemma find_prints (fuel depth : nat) path file q o :
  find fuel depth path file = Some o → below depth path q → fmtnames q = file → (1, q ++ [10]) ∈ o.
Proof.
  intros Hf Hb. revert fuel o Hf.
  induction Hb as [depth p q ty (Ho & Hs & Hl & (inum & raw & Hin & Hi & ->) & Hst)
                  |depth p d q (Ho & Hs & Hl & (inum & raw & Hin & Hi & ->) & Hst) H1 H2 Hb IH];
    intros [|fuel] o Hf Hn; try done; cbn [find] in Hf;
    rewrite Ho, Hs in Hf; cbn [negb] in Hf; rewrite Z.eqb_refl in Hf; cbn [negb] in Hf;
    rewrite (proj2 (Z.ltb_ge _ _)) in Hf by exact Hl; destruct (each_prints _ _ _ _ _ _ _ _ _ Hf Hin Hi Hst) as [He Hd].
  - by apply He.
  - destruct (Hd eq_refl H1 H2) as (o' & Ho' & Hsub). apply Hsub. by eapply IH.
Qed.
End find.
End Find.

(** ** xargs *)

Module Xargs.
(** What xargs does: it prints, or a child calls exec with a path and the
    arguments that are set. The entries of args after the buffer are not
    initialised. *)
Inductive event :=
| Printed (s : list Z)
| Exec (path : list Z) (args : list (list Z)).

(** The arguments before the buffer; [argv] is without the program's name. *)
Definition fixed (argv : list (list Z)) : list (list Z) := if 2 <? length argv + 1 then argv else [].

(** The loop over the bytes of standard input, with [buf[0..index)] the bytes
    of the line so far; the 512-byte buffer is full of zeros after them.
    [None] when the store is outside the buffer or printf would read past it. *)
Fixpoint loop (path : list Z) (args : list (list Z)) (buf input : list Z) : option (list event) :=
  match input with
  | [] => Some []
  | c :: input =>
      if c =? 10 then
        es ← loop path args [] input; Some (Exec path (args ++ [Find.before 0 buf]) :: es)
      else
        let buf := buf ++ [c] in
        if 512 <=? length buf then None
        else
          es ← loop path args buf input; Some (Printed (str "now inner:" ++ Find.before 0 buf ++ [10]) :: es)
  end.

Definition main (argv : list (list Z)) (input : list Z) : option (list event) :=
  es ← loop (default [] (argv !! 0%nat)) (fixed argv) [] input;
  Some (Printed (str "begin to while..." ++ [10]) :: es).

Definition execs (es : list event) : list (list Z * list (list Z)) :=
  omap (λ e, match e with Exec p a => Some (p, a) | Printed _ => None end) es.

Lemma loop_line path args line : ∀ buf input es,
  Forall (λ c, c ≠ 10 ∧ c ≠ 0) line → Forall (λ c, c ≠ 0) buf → length buf + length line < 512 →
  loop path args [] input = Some es →
  ∃ es', loop path args buf (line ++ 10 :: input) = Some es' ∧ execs es' = (path, args ++ [buf ++ line]) :: execs es.
Proof.
  assert (∀ l, Forall (λ c, c ≠ 0) l → Find.before 0 l = l) as Hb.
  { induction 1 as [|c l Hc Hl IH]; [done|]. cbn [Find.before]. by rewrite (proj2 (Z.eqb_neq c 0)), IH. }
  induction line as [|c line IH]; intros buf input es Hl Hbuf Hlen He.
  - cbn [app loop]. change (10 =? 10) with true. cbn iota. rewrite He. eexists. split; [done|]. cbn. by rewrite Hb, app_nil_r.
  - apply Forall_cons in Hl as [[Hc Hc0] Hl]. cbn [length] in Hlen. cbn [app loop]. rewrite (proj2 (Z.eqb_neq c 10)) by done. cbn zeta.
    rewrite length_app. cbn [length]. destruct (Z.leb_spec 512 (length buf + 1)%nat); [lia|].
    destruct (IH (buf ++ [c]) input es) as (es' & -> & Hx); [done| |rewrite length_app; cbn [length]; lia|done|].
    { apply Forall_app. split; [done|]. by constructor. }
    eexists. split; [done|]. cbn. change (omap _ es') with (execs es'). by rewrite Hx, <- app_assoc.
Qed.

(** One exec for each line of the input. *)
Lemma xargs_lines argv lines :
  Forall (λ line, Forall (λ c, c ≠ 10 ∧ c ≠ 0) line ∧ (length line < 512)%nat) lines →
  ∃ es, main argv (concat ((λ line, line ++ [10]) <$> lines)) = Some es ∧
    execs es = (λ line, (default [] (argv !! 0%nat), fixed argv ++ [line])) <$> lines.
Proof.
  intros Hl. unfold main.
  assert (∃ es, loop (default [] (argv !! 0%nat)) (fixed argv) [] (concat ((λ line, line ++ [10]) <$> lines)) = Some es ∧
    execs es = (λ line, (default [] (argv !! 0%nat), fixed argv ++ [line])) <$> lines) as (es & -> & He).
  { induction Hl as [|line lines [H1 H2] Hl (es & E & He)]; [by exists []|]. cbn [fmap list_fmap concat]. rewrite <- app_assoc.
    destruct (loop_line (default [] (argv !! 0%nat)) (fixed argv) line [] (concat ((λ line, line ++ [10]) <$> lines)) es) as (es' & E' & Hx);
      [done|constructor|cbn [length]; lia|done|]. exists es'. split; [exact E'|]. by rewrite Hx, He. }
  eexists. split; [done|]. cbn. exact He.
Qed.

(** With only a command, its name is missing from the arguments. *)
Example xargs_drops_name : execs <$> main [str "echo"] (str "a" ++ [10]) = Some [(str "echo", [str "a"])].
Proof. reflexivity. Qed.
(** A last line without a newline is ignored. *)
Example xargs_drops_line : execs <$> main [str "echo"; str "b"] (str "a") = Some [].
Proof. reflexivity. Qed.
End Xargs.
