(* ===== verification/Machine.v ===== *)
(** * A RISC-V hart, for the assembly files and the boot code

    The registers and control registers of a hart, its privilege mode, and
    what the instructions in kernel/*.S do, after the RISC-V manuals. Loads,
    stores and instruction fetches go through physical memory protection and
    the Sv39 page table that satp points to, which is in the same memory
    (Mem.v) that the page table functions of Vm.v work on. A fault is [None].

    Not modelled: the accessed and dirty bits of page table entries, which
    nothing reads; MPRV, which is never set; stale entries of the TLB, since
    every change of satp is between two sfence.vma. *)

From S2P Require Import Prelude Riscv Mem Kalloc Vm VmTree VmCopy.

Inductive reg :=
| Zero | Ra | Sp | Gp | Tp | T0 | T1 | T2 | S0 | S1 | A0 | A1 | A2 | A3 | A4 | A5 | A6 | A7
| S2 | S3 | S4 | S5 | S6 | S7 | S8 | S9 | S10 | S11 | T3 | T4 | T5 | T6.
#[global] Instance reg_eq_dec : EqDecision reg.
Proof. solve_decision. Defined.

Inductive csr :=
| Mhartid | Mstatus | Mepc | Mtvec | Medeleg | Mideleg | Mie | Mip | Mscratch | Pmpaddr0 | Pmpcfg0
| Sstatus | Sie | Sip | Sepc | Stvec | Sscratch | Satp | Scause | Stval.
#[global] Instance csr_eq_dec : EqDecision csr.
Proof. solve_decision. Defined.

Inductive mode := User | Supervisor | Machine.
#[global] Instance mode_eq_dec : EqDecision mode.
Proof. solve_decision. Defined.

Inductive access := Read | Write | Fetch.

(** The fields of [cs] for sstatus, sie and sip are not used: these are views
    of mstatus, mie and mip. *)
Record hart := Hart { rg : reg → Z; cs : csr → Z; pm : mem; priv : mode; pc : Z }.

Definition with_rg (f : reg → Z) (s : hart) : hart := Hart f (cs s) (pm s) (priv s) (pc s).
Definition with_cs (f : csr → Z) (s : hart) : hart := Hart (rg s) f (pm s) (priv s) (pc s).
Definition with_pm (m : mem) (s : hart) : hart := Hart (rg s) (cs s) m (priv s) (pc s).
Definition with_pc (a : Z) (s : hart) : hart := Hart (rg s) (cs s) (pm s) (priv s) a.

(** Writes to the zero register have no effect. *)
Definition set_reg (r : reg) (v : Z) (s : hart) : hart :=
  if decide (r = Zero) then s else with_rg (<[r := u64 v]> (rg s)) s.

(** ** Control registers *)

(** The bits of mstatus that sstatus shows. *)
Definition SSTATUS_MASK : Z := 0x80000003000DE762.
(** The interrupts that can be delegated: supervisor software, timer and
    external. *)
Definition MIDELEG_MASK : Z := 0x222.
(** The bit of sip that supervisor code can write. *)
Definition SIP_SSIP : Z := 2.

(** [old] with the bits of [mask] taken from [new]. *)
Definition merge (mask old new : Z) : Z := Z.lor (Z.land old (Z.lnot mask)) (Z.land new mask).

Definition csr_read (c : csr) (f : csr → Z) : Z :=
  match c with
  | Sstatus => Z.land (f Mstatus) SSTATUS_MASK
  | Sie => Z.land (f Mie) (f Mideleg)
  | Sip => Z.land (f Mip) (f Mideleg)
  | c => f c
  end.

Definition csr_write (c : csr) (v : Z) (f : csr → Z) : csr → Z :=
  match c with
  | Mhartid => f
  | Sstatus => <[Mstatus := merge SSTATUS_MASK (f Mstatus) v]> f
  | Sie => <[Mie := merge (f Mideleg) (f Mie) v]> f
  | Sip => <[Mip := merge (Z.land (f Mideleg) SIP_SSIP) (f Mip) v]> f
  | Mideleg => <[Mideleg := Z.land v MIDELEG_MASK]> f
  | c => <[c := v]> f
  end.

(** Whether code in mode [p] may use the register. *)
Definition csr_allowed (p : mode) (c : csr) : bool :=
  match p, c with
  | Machine, _ => true
  | Supervisor, (Sstatus | Sie | Sip | Sepc | Stvec | Sscratch | Satp | Scause | Stval) => true
  | _, _ => false
  end.

(** ** Memory accesses *)

(** Entry 0 in the mode in which it grants what is below pmpaddr0, the mode
    that start chooses; other settings grant nothing here. *)
Definition pmp_ok (f : csr → Z) (acc : access) (pa len : Z) : bool :=
  (Z.land (Z.shiftr (f Pmpcfg0) 3) 3 =? 1) && (0 <=? pa) && (pa + len <=? 4 * f Pmpaddr0) &&
  Z.testbit (f Pmpcfg0) (match acc with Read => 0 | Write => 1 | Fetch => 2 end).

(** The leaf entry of [va] and its level. *)
Fixpoint sv39 (m : mem) (level : nat) (root va : Z) : option (Z * nat) :=
  let v := load64 m (root + 8 * PX level va) in
  if negb (has v PTE_V) || (negb (has v PTE_R) && has v PTE_W) || (2^54 <=? v) then None
  else if has v PTE_R || has v PTE_X then Some (v, level)
  else match level with
       | O => None
       | S level' => sv39 m level' (PTE2PA v) va
       end.

(** SUM and MXR of mstatus. *)
Definition MSTATUS_SUM : Z := 18.
Definition MSTATUS_MXR : Z := 19.

Definition pte_permits (mstatus : Z) (p : mode) (acc : access) (v : Z) : bool :=
  match acc with
  | Read => has v PTE_R || (Z.testbit mstatus MSTATUS_MXR && has v PTE_X)
  | Write => has v PTE_W
  | Fetch => has v PTE_X
  end &&
  match p with
  | User => has v PTE_U
  | _ => negb (has v PTE_U) ||
         (Z.testbit mstatus MSTATUS_SUM && match acc with Fetch => false | _ => true end)
  end.

(** A canonical address: bits 39 and up are copies of bit 38. *)
Definition canonical (va : Z) : bool :=
  ((0 <=? va) && (va <? 2^38)) || ((2^64 - 2^38 <=? va) && (va <? 2^64)).

Definition translate (f : csr → Z) (p : mode) (m : mem) (acc : access) (va : Z) : option Z :=
  match p with
  | Machine => Some va
  | _ =>
      let satp_mode := Z.shiftr (f Satp) 60 in
      if satp_mode =? 0 then Some va
      else if (satp_mode =? 8) && canonical va then
        match sv39 m 2 (Z.shiftl (Z.land (f Satp) (2^44 - 1)) 12) va with
        | Some (v, level) =>
            let size := 2^(12 + 9 * level) in
            if pte_permits (f Mstatus) p acc v && (PTE2PA v `mod` size =? 0) then Some (PTE2PA v + va `mod` size) else None
        | None => None
        end
      else None
  end.

(** The physical address of an access of [len] bytes; one that is not aligned
    faults. *)
Definition reach (f : csr → Z) (p : mode) (m : mem) (acc : access) (va len : Z) : option Z :=
  if va `mod` len =? 0 then
    pa ← translate f p m acc va;
    if bool_decide (p = Machine) || pmp_ok f acc pa len then Some pa else None
  else None.

(** ** Instructions *)

(** [Li] is also la, with the address of the symbol. The second argument of
    [Call] is the address of the next instruction. *)
Inductive instr :=
| Sd (src : reg) (off : Z) (base : reg)
| Ld (dst : reg) (off : Z) (base : reg)
| Addi (dst src : reg) (imm : Z)
| Add (dst r1 r2 : reg)
| Mul (dst r1 r2 : reg)
| Li (dst : reg) (v : Z)
| Csrr (dst : reg) (c : csr)
| Csrw (c : csr) (src : reg)
| Csrrw (dst : reg) (c : csr) (src : reg)
| SfenceVma
| Jr (r : reg)
| Call (target link : Z)
| Sret
| Mret.

Definition MSTATUS_SPP : Z := 8.
Definition MSTATUS_SPIE : Z := 5.
Definition MSTATUS_SIE : Z := 1.
Definition MSTATUS_MPIE : Z := 7.
Definition MSTATUS_MIE_BIT : Z := 3.

(** Bit [i] of [x] set to [b]. *)
Definition put_bit (i : Z) (b : bool) (x : Z) : Z := if b then Z.setbit x i else Z.clearbit x i.

Definition sret (s : hart) : hart :=
  let st := cs s Mstatus in
  let st' := put_bit MSTATUS_SPP false (put_bit MSTATUS_SPIE true (put_bit MSTATUS_SIE (Z.testbit st MSTATUS_SPIE) st)) in
  Hart (rg s) (<[Mstatus := st']> (cs s)) (pm s) (if Z.testbit st MSTATUS_SPP then Supervisor else User) (cs s Sepc).

(** The mode in the MPP field. *)
Definition mpp (st : Z) : mode :=
  if Z.testbit st 12 then Machine else if Z.testbit st 11 then Supervisor else User.

Definition mret (s : hart) : hart :=
  let st := cs s Mstatus in
  let st' := merge (Z.shiftl 3 11) (put_bit MSTATUS_MPIE true (put_bit MSTATUS_MIE_BIT (Z.testbit st MSTATUS_MPIE) st)) 0 in
  Hart (rg s) (<[Mstatus := st']> (cs s)) (pm s) (mpp st) (cs s Mepc).

(** A trap that is delegated to supervisor mode, at the instruction [pc s]. *)
Definition strap (cause tval : Z) (s : hart) : hart :=
  let st := cs s Mstatus in
  let st' := put_bit MSTATUS_SPP (negb (bool_decide (priv s = User)))
               (put_bit MSTATUS_SPIE (Z.testbit st MSTATUS_SIE) (put_bit MSTATUS_SIE false st)) in
  Hart (rg s) (<[Stval := tval]> (<[Scause := cause]> (<[Sepc := pc s]> (<[Mstatus := st']> (cs s)))))
    (pm s) Supervisor (cs s Stvec).

(** A trap to machine mode, such as a timer interrupt. *)
Definition mtrap (s : hart) : hart :=
  let st := cs s Mstatus in
  let mpp := match priv s with User => 0 | Supervisor => 1 | Machine => 3 end in
  let st' := merge (Z.shiftl 3 11) (put_bit MSTATUS_MPIE (Z.testbit st MSTATUS_MIE_BIT) (put_bit MSTATUS_MIE_BIT false st)) (Z.shiftl mpp 11) in
  Hart (rg s) (<[Mepc := pc s]> (<[Mstatus := st']> (cs s))) (pm s) Machine (cs s Mtvec).

Definition step (i : instr) (s : hart) : option hart :=
  match i with
  | Sd src off base =>
      pa ← reach (cs s) (priv s) (pm s) Write (u64 (rg s base + off)) 8;
      Some (with_pm (store64 (pm s) pa (rg s src)) s)
  | Ld dst off base =>
      pa ← reach (cs s) (priv s) (pm s) Read (u64 (rg s base + off)) 8;
      Some (set_reg dst (load64 (pm s) pa) s)
  | Addi dst src imm => Some (set_reg dst (rg s src + imm) s)
  | Add dst r1 r2 => Some (set_reg dst (rg s r1 + rg s r2) s)
  | Mul dst r1 r2 => Some (set_reg dst (rg s r1 * rg s r2) s)
  | Li dst v => Some (set_reg dst v s)
  | Csrr dst c => if csr_allowed (priv s) c then Some (set_reg dst (csr_read c (cs s)) s) else None
  | Csrw c src => if csr_allowed (priv s) c then Some (with_cs (csr_write c (rg s src) (cs s)) s) else None
  | Csrrw dst c src =>
      if csr_allowed (priv s) c
      then Some (set_reg dst (csr_read c (cs s)) (with_cs (csr_write c (rg s src) (cs s)) s)) else None
  | SfenceVma => Some s
  | Jr r => Some (with_pc (rg s r) s)
  | Call target link => Some (with_pc target (set_reg Ra link s))
  | Sret => if bool_decide (priv s = User) then None else Some (sret s)
  | Mret => if bool_decide (priv s = Machine) then Some (mret s) else None
  end.

(** Straight-line code in the page at the virtual address [vp], which must be
    at the physical address [pp] whenever an instruction is fetched. [pc] is
    where execution continues after the last instruction, a jump. *)
Fixpoint run (vp pp : Z) (code : list instr) (s : hart) : option hart :=
  match code with
  | [] => Some s
  | i :: code =>
      if bool_decide (reach (cs s) (priv s) (pm s) Fetch vp 4 = Some pp)
      then s' ← step i s; run vp pp code s'
      else None
  end.

(** ** Saving and restoring registers *)

(** [(r, o)]: register [r] is at offset [o]. *)
Definition saves (base : reg) (l : list (reg * Z)) : list instr := (λ ro, Sd ro.1 ro.2 base) <$> l.
Definition loads (base : reg) (l : list (reg * Z)) : list instr := (λ ro, Ld ro.1 ro.2 base) <$> l.

Definition saved (f : reg → Z) (p : Z) (l : list (reg * Z)) (m : mem) : mem :=
  foldl (λ m ro, store64 m (p + ro.2) (f ro.1)) m l.
Definition loaded (m : mem) (p : Z) (l : list (reg * Z)) (f : reg → Z) : reg → Z :=
  foldl (λ f ro, <[ro.1 := load64 m (p + ro.2)]> f) f l.

(** The offsets are those of distinct 64-bit fields of a structure of [n]
    bytes, and no register is the zero register. *)
Definition fields (n : Z) (l : list (reg * Z)) : Prop :=
  Forall (λ ro, ro.1 ≠ Zero ∧ 0 ≤ ro.2 ∧ ro.2 + 8 ≤ n ∧ ro.2 `mod` 8 = 0) l ∧ NoDup l.*2.
#[global] Instance fields_dec n l : Decision (fields n l).
Proof. unfold fields. apply _. Defined.

(** The memories differ at most in the [n] bytes at [p]. *)
Definition agree (p n : Z) (m m' : mem) : Prop := ∀ x, ¬ (p ≤ x < p + n) → load8 m' x = load8 m x.

Lemma agree_refl p n m : agree p n m m.
Proof. done. Qed.
Lemma agree_trans p n m1 m2 m3 : agree p n m1 m2 → agree p n m2 m3 → agree p n m1 m3.
Proof. intros H1 H2 x Hx. by rewrite H2, H1. Qed.
Lemma agree_store64 p n o m v : 0 ≤ o → o + 8 ≤ n → agree p n m (store64 m (p + o) v).
Proof. intros ?? x Hx. apply load8_store64_ne. lia. Qed.
#[export] Hint Resolve agree_refl : xv6.

(** Whatever is written to the [n] bytes at the physical address [p], the
    code in page [vp] can be fetched from [pp], and the virtual addresses from
    [b] on are those bytes. *)
Definition window (f : csr → Z) (pr : mode) (m : mem) (vp pp b p n : Z) : Prop :=
  ∀ m', agree p n m m' →
    reach f pr m' Fetch vp 4 = Some pp ∧
    (∀ acc o, acc ≠ Fetch → 0 ≤ o → o + 8 ≤ n → o `mod` 8 = 0 → reach f pr m' acc (u64 (b + o)) 8 = Some (p + o)).

Lemma window_agree f pr m m' vp pp b p n : window f pr m vp pp b p n → agree p n m m' → window f pr m' vp pp b p n.
Proof. intros Hw Ha m'' Ha'. apply Hw. by eapply agree_trans. Qed.

Lemma run_app vp pp c1 c2 s : run vp pp (c1 ++ c2) s = (s' ← run vp pp c1 s; run vp pp c2 s').
Proof.
  revert s. induction c1 as [|i c1 IH]; intros s; [done|]. cbn [app run]. case_bool_decide; [|done].
  destruct (step i s) as [s1|]; [|done]. cbn. apply IH.
Qed.

Lemma run_cons vp pp i c s s' :
  reach (cs s) (priv s) (pm s) Fetch vp 4 = Some pp → step i s = Some s' → run vp pp (i :: c) s = run vp pp c s'.
Proof. intros Hf Hs. cbn [run]. by rewrite bool_decide_true, Hs by done. Qed.

Section block.
Context (vp pp b p n : Z).

Lemma saved_agree f l m : fields n l → agree p n m (saved f p l m).
Proof.
  intros [HF _]. revert m. induction HF as [|[r o] l (_ & H1 & H2 & _) HF IH]; intros m; cbn [saved foldl]; [done|].
  eapply agree_trans; [by apply agree_store64|apply IH].
Qed.

Lemma run_saves base l s :
  window (cs s) (priv s) (pm s) vp pp b p n → rg s base = b → fields n l →
  run vp pp (saves base l) s = Some (with_pm (saved (rg s) p l (pm s)) s).
Proof.
  intros Hw Hb [HF _]. revert s Hw Hb. induction HF as [|[r o] l (_ & H1 & H2 & H3) HF IH]; intros s Hw Hb; [by destruct s|].
  cbn [saves fmap list_fmap]. destruct (Hw (pm s) ltac:(auto with xv6)) as [Hf Ha]. cbn [Datatypes.fst Datatypes.snd] in *.
  erewrite run_cons; [|exact Hf|cbn [step]; rewrite Hb, Ha by done; reflexivity].
  change (_ <$> l) with (saves base l). rewrite IH; [done| |done]. cbn. eapply window_agree; [done|]. by apply agree_store64.
Qed.

(** [base] may be among the registers if it is loaded with its own value. *)
Lemma run_loads base l s :
  window (cs s) (priv s) (pm s) vp pp b p n → rg s base = b → fields n l →
  (∀ o, (base, o) ∈ l → load64 (pm s) (p + o) = b) →
  run vp pp (loads base l) s = Some (with_rg (loaded (pm s) p l (rg s)) s).
Proof.
  intros Hw Hb [HF _] Hbase. revert s Hw Hb Hbase.
  induction HF as [|[r o] l (H0 & H1 & H2 & H3) HF IH]; intros s Hw Hb Hbase; [by destruct s|].
  cbn [loads fmap list_fmap]. destruct (Hw (pm s) ltac:(auto with xv6)) as [Hf Ha]. cbn [Datatypes.fst Datatypes.snd] in *.
  erewrite run_cons; [|exact Hf|cbn [step]; rewrite Hb, Ha by done; reflexivity].
  change (_ <$> l) with (loads base l). unfold set_reg. rewrite decide_False by done.
  rewrite (u64_small (load64 _ _)) by apply load64_range. rewrite IH; [done|done| |].
  - cbn. destruct (decide (r = base)) as [->|]; [rewrite fn_lookup_insert; apply Hbase; left|by rewrite fn_lookup_insert_ne].
  - intros o' Ho'. cbn. apply Hbase. by right.
Qed.
End block.

Lemma saved_other f p l m a :
  Forall (λ ro, a + 8 ≤ p + ro.2 ∨ p + ro.2 + 8 ≤ a) l → load64 (saved f p l m) a = load64 m a.
Proof.
  intros HF. revert m. induction HF as [|[r o] l Ho HF IH]; intros m; cbn [saved foldl]; [done|].
  change (foldl _ ?m l) with (saved f p l m). rewrite IH. apply load64_store64_ne. cbn [Datatypes.fst Datatypes.snd] in *. lia.
Qed.

Lemma saved_field n f p l m r o :
  fields n l → (r, o) ∈ l → load64 (saved f p l m) (p + o) = u64 (f r).
Proof.
  intros [HF Hnd]. revert m. induction l as [|[r' o'] l IH]; intros m Hin; [by apply elem_of_nil in Hin|].
  apply Forall_cons in HF as [(_ & _ & _ & Hm) HF]. cbn [fmap list_fmap] in Hnd. apply NoDup_cons in Hnd as [Hn Hnd].
  cbn [saved foldl]. change (foldl _ ?m l) with (saved f p l m). apply elem_of_cons in Hin as [[= -> ->]|Hin]; [|by apply IH].
  rewrite saved_other; [apply load64_store64_eq|]. apply Forall_forall. intros [r2 o2] H2. cbn [Datatypes.snd] in *.
  rewrite Forall_forall in HF. destruct (HF _ H2) as (_ & _ & _ & Hm2). cbn [Datatypes.snd] in Hm2.
  assert (o' ≠ o2) by (intros ->; apply Hn, list_elem_of_fmap; by exists (r2, o2)).
  Z.to_euclidean_division_equations; lia.
Qed.

Lemma loaded_other m p l f r : r ∉ l.*1 → loaded m p l f r = f r.
Proof.
  revert f. induction l as [|[r' o] l IH]; intros f Hr; [done|]. cbn [fmap list_fmap] in Hr.
  apply not_elem_of_cons in Hr as [Hne Hr]. cbn [loaded foldl]. change (foldl _ ?f l) with (loaded m p l f).
  rewrite IH by done. by rewrite fn_lookup_insert_ne.
Qed.

Lemma loaded_field m p l f r o : NoDup l.*1 → (r, o) ∈ l → loaded m p l f r = load64 m (p + o).
Proof.
  revert f. induction l as [|[r' o'] l IH]; intros f Hnd Hin; [by apply elem_of_nil in Hin|].
  cbn [fmap list_fmap] in Hnd. apply NoDup_cons in Hnd as [Hn Hnd]. cbn [loaded foldl]. change (foldl _ ?f l) with (loaded m p l f).
  apply elem_of_cons in Hin as [[= -> ->]|Hin]; [|by apply IH]. rewrite loaded_other by done. by rewrite fn_lookup_insert.
Qed.

(** ** What a translation depends on *)

(** The pages of the table that the translation of [va] reads. *)
Fixpoint sv39_path (m : mem) (level : nat) (root va : Z) : list Z :=
  root :: match level with
          | O => []
          | S level' => sv39_path m level' (PTE2PA (load64 m (root + 8 * PX level va))) va
          end.
Definition satp_root (f : csr → Z) : Z := Z.shiftl (Z.land (f Satp) (2^44 - 1)) 12.
Definition tables (f : csr → Z) (m : mem) (va : Z) : list Z := sv39_path m 2 (satp_root f) va.

Lemma entry_agree m m' root level va :
  (∀ x, in_page root x → load8 m' x = load8 m x) → 0 ≤ level →
  load64 m' (root + 8 * PX level va) = load64 m (root + 8 * PX level va).
Proof.
  intros H Hl. apply load64_ext. intros x Hx. apply H. pose proof (PX_range level va Hl). unfold in_page, PGSIZE. lia.
Qed.

Lemma sv39_agree m m' level root va :
  (∀ q x, q ∈ sv39_path m level root va → in_page q x → load8 m' x = load8 m x) →
  sv39 m' level root va = sv39 m level root va.
Proof.
  revert root. induction level as [|level IH]; intros root H; cbn [sv39 sv39_path] in *;
    (rewrite (entry_agree m m'); [|by intros x; apply (H root); left|lia]); [done|].
  rewrite IH; [done|]. intros q x Hq. apply H. by right.
Qed.

Lemma sv39_path_aligned m level root va : page_aligned root → Forall page_aligned (sv39_path m level root va).
Proof.
  revert root. induction level as [|level IH]; intros root Hr; cbn [sv39_path]; (apply Forall_cons; split; [done|]).
  - constructor.
  - apply IH, PTE2PA_aligned.
Qed.

Lemma satp_root_aligned f : page_aligned (satp_root f).
Proof. unfold page_aligned, satp_root, PGSIZE. rewrite Z.shiftl_mul_pow2 by lia. by apply Z_mod_mult. Qed.

(** Stores to a page that is not one of the table's do not change a translation. *)
Lemma translate_agree f pr m m' acc va p n :
  page_aligned p → n ≤ PGSIZE → p ∉ tables f m va → agree p n m m' →
  translate f pr m' acc va = translate f pr m acc va.
Proof.
  intros Hp Hn Hnin Ha. unfold translate. change (Z.shiftl _ 12) with (satp_root f).
  rewrite (sv39_agree m m'); [done|]. intros q x Hq Hx. apply Ha. intros Hpx. apply Hnin.
  pose proof (sv39_path_aligned m 2 _ va (satp_root_aligned f)) as HF. rewrite Forall_forall in HF.
  by rewrite (pages_disjoint p q x); [| |apply HF|unfold in_page; lia|].
Qed.

Lemma page_div b o k : page_aligned b → 0 ≤ o < PGSIZE → 0 ≤ k → (b + o) `div` 2^(12 + k) = b `div` 2^(12 + k).
Proof.
  unfold page_aligned, PGSIZE. intros Hb Ho Hk. rewrite Z.pow_add_r, <- !Z.div_div by lia. f_equal. change (2^12) with 4096.
  Z.to_euclidean_division_equations; lia.
Qed.

Lemma page_mod b o k : page_aligned b → 0 ≤ o < PGSIZE → 0 ≤ k → (b + o) `mod` 2^(12 + k) = b `mod` 2^(12 + k) + o.
Proof. intros Hb Ho Hk. rewrite !Z.mod_eq by lia. rewrite page_div by done. lia. Qed.

Lemma sv39_page m level root b o :
  page_aligned b → 0 ≤ o < PGSIZE → sv39 m level root (b + o) = sv39 m level root b.
Proof.
  intros Hb Ho. revert root. induction level as [|level IH]; intros root; cbn [sv39];
    rewrite !PX_spec, page_div by (done || lia); [done|]. by rewrite IH.
Qed.

(** The bytes of a virtual page are consecutive. *)
Lemma translate_page f pr m acc b o pa :
  page_aligned b → 0 ≤ o < PGSIZE → translate f pr m acc b = Some pa → translate f pr m acc (b + o) = Some (pa + o).
Proof.
  intros Hb Ho. unfold translate. rewrite sv39_page by done.
  assert (canonical (b + o) = canonical b) as ->.
  { unfold canonical, page_aligned, PGSIZE in *. apply eq_bool_prop_intro. rewrite !orb_True, !andb_True, !Is_true_true,
      !Z.leb_le, !Z.ltb_lt. Z.to_euclidean_division_equations; lia. }
  destruct pr; [| |by intros [= ->]]; (destruct (Z.shiftr _ _ =? 0); [by intros [= ->]|]; destruct (_ && _); [|done];
    destruct (sv39 _ _ _ _) as [[v level]|]; [|done]; cbv zeta; destruct (pte_permits _ _ _ _ && _); [|done];
    intros [= <-]; rewrite page_mod by (done || lia); f_equal; lia).
Qed.

(** Physical memory protection as start sets it: everything is granted. *)
Definition pmp_open (f : csr → Z) : Prop := f Pmpcfg0 = 0xf ∧ f Pmpaddr0 = 0x3fffffffffffff.

Lemma pmp_open_ok f acc pa len : pmp_open f → 0 ≤ pa → pa + len ≤ 2^56 - 4 → pmp_ok f acc pa len = true.
Proof.
  intros [Hc Ha] H1 H2. unfold pmp_ok. rewrite Hc, Ha. rewrite (proj2 (Z.leb_le 0 pa)), (proj2 (Z.leb_le (pa + len) _)) by lia.
  by destruct acc.
Qed.

(** Whatever is written to the [n] bytes at [p], code in page [vp] is fetched
    from [pp]. *)
Definition fetchable (f : csr → Z) (pr : mode) (m : mem) (vp pp p n : Z) : Prop :=
  ∀ m', agree p n m m' → reach f pr m' Fetch vp 4 = Some pp.

Lemma window_fetchable f pr m vp pp b p n : window f pr m vp pp b p n → fetchable f pr m vp pp p n.
Proof. intros Hw m' Ha. by apply Hw. Qed.

Lemma fetchable_agree f pr m m' vp pp p n : fetchable f pr m vp pp p n → agree p n m m' → fetchable f pr m' vp pp p n.
Proof. intros Hw Ha m'' Ha'. apply Hw. by eapply agree_trans. Qed.

(** A physical page below the limit of [pmp_open]. *)
Definition phys_page (p : Z) : Prop := page_aligned p ∧ 0 ≤ p ≤ 2^56 - 2 * PGSIZE.

Lemma fetchable_page f pr m vp pp p n :
  pmp_open f → page_aligned vp → phys_page pp → page_aligned p → n ≤ PGSIZE →
  translate f pr m Fetch vp = Some pp → p ∉ tables f m vp → fetchable f pr m vp pp p n.
Proof.
  intros Hpmp Hv [Hpa Hp] Hpp Hn Ht Hnin m' Ha. unfold reach. rewrite (translate_agree _ _ m m' _ _ p n), Ht by done. cbn.
  rewrite pmp_open_ok, orb_true_r by (done || unfold PGSIZE in *; lia).
  unfold page_aligned, PGSIZE in *. destruct (Z.eqb_spec (vp `mod` 4) 0); [done|]. Z.to_euclidean_division_equations; lia.
Qed.

Lemma window_page f pr m vp pp b p n :
  pmp_open f → page_aligned vp → phys_page pp → page_aligned b → 0 ≤ b < 2^64 - PGSIZE → phys_page p → n ≤ PGSIZE →
  translate f pr m Fetch vp = Some pp → p ∉ tables f m vp →
  translate f pr m Read b = Some p → translate f pr m Write b = Some p → p ∉ tables f m b →
  window f pr m vp pp b p n.
Proof.
  intros Hpmp Hv Hpp Hb Hbr [Hpa Hp] Hn Hf Hnf Hr Hw Hnb m' Ha.
  split; [by apply (fetchable_page f pr m vp pp p n)|]. intros acc o Hacc Ho1 Ho2 Ho3.
  unfold reach. rewrite u64_small by (unfold PGSIZE in *; lia).
  erewrite translate_page; [|done|unfold PGSIZE in *; lia|rewrite (translate_agree _ _ m m' _ _ p n) by done; by destruct acc].
  cbn. rewrite pmp_open_ok, orb_true_r by (done || unfold PGSIZE in *; lia).
  unfold page_aligned, PGSIZE in *. destruct (Z.eqb_spec ((b + o) `mod` 8) 0); [done|]. Z.to_euclidean_division_equations; lia.
Qed.

(** The control registers agree on what matters for an access. *)
Definition same_view (f g : csr → Z) : Prop :=
  (∀ c, c ∈ [Satp; Pmpcfg0; Pmpaddr0] → g c = f c) ∧
  (∀ i, i ∈ [MSTATUS_SUM; MSTATUS_MXR] → Z.testbit (g Mstatus) i = Z.testbit (f Mstatus) i).

Lemma same_view_insert f c v : c ∉ [Satp; Pmpcfg0; Pmpaddr0; Mstatus] → same_view f (<[c := v]> f).
Proof.
  intros Hc. rewrite !not_elem_of_cons in Hc. destruct Hc as (H1 & H2 & H3 & H4 & _).
  split; [|intros; by rewrite fn_lookup_insert_ne]. intros c' Hc'. rewrite fn_lookup_insert_ne; [done|]. intros <-.
  rewrite !elem_of_cons, elem_of_nil in Hc'. tauto.
Qed.

Lemma same_view_satp f g v : same_view f g → same_view (<[Satp := v]> f) (<[Satp := v]> g).
Proof.
  intros [H1 H2]. split; [|intros; rewrite !fn_lookup_insert_ne by done; auto]. intros c Hc.
  destruct (decide (c = Satp)) as [->|]; [by rewrite !fn_lookup_insert|]. rewrite !fn_lookup_insert_ne by done. auto.
Qed.

Lemma reach_ext f g pr m acc va len : same_view f g → reach g pr m acc va len = reach f pr m acc va len.
Proof.
  intros [H1 H2]. unfold reach, translate, pmp_ok, pte_permits.
  rewrite (H1 Satp), (H1 Pmpcfg0), (H1 Pmpaddr0), (H2 MSTATUS_SUM), (H2 MSTATUS_MXR) by (rewrite !elem_of_cons; tauto). done.
Qed.

Lemma window_ext f g pr m vp pp b p n : same_view f g → window f pr m vp pp b p n → window g pr m vp pp b p n.
Proof.
  intros H Hw m' Ha. destruct (Hw m' Ha) as [H1 H2]. split; [by rewrite (reach_ext f)|]. intros. by rewrite (reach_ext f); auto.
Qed.

Lemma fetchable_ext f g pr m vp pp p n : same_view f g → fetchable f pr m vp pp p n → fetchable g pr m vp pp p n.
Proof. intros H Hw m' Ha. by rewrite (reach_ext f); auto. Qed.

Lemma put_bit_spec i b x j : 0 ≤ i → 0 ≤ j → Z.testbit (put_bit i b x) j = if decide (i = j) then b else Z.testbit x j.
Proof.
  intros Hi Hj. unfold put_bit. destruct b; [rewrite Z.setbit_eqb by done|rewrite Z.clearbit_eqb by done];
    case_decide; subst; rewrite ?Z.eqb_refl, ?(proj2 (Z.eqb_neq i j)) by done; by destruct (Z.testbit x j).
Qed.

(** A trap does not change how memory is seen. *)
Lemma strap_view cause tval s : same_view (cs s) (cs (strap cause tval s)).
Proof.
  unfold strap. cbn [cs]. split.
  - intros c Hc. rewrite !elem_of_cons, elem_of_nil in Hc. by destruct Hc as [-> |[-> |[-> |[]]]].
  - intros i Hi. change (<[Stval := _]> _ Mstatus) with
      (put_bit MSTATUS_SPP (negb (bool_decide (priv s = User)))
        (put_bit MSTATUS_SPIE (Z.testbit (cs s Mstatus) MSTATUS_SIE) (put_bit MSTATUS_SIE false (cs s Mstatus)))).
    rewrite !elem_of_cons, elem_of_nil in Hi. destruct Hi as [-> |[-> |[]]]; by rewrite !put_bit_spec by done.
Qed.

(** Registers hold 64-bit words. *)
Definition regs_ok (s : hart) : Prop := ∀ r, 0 ≤ rg s r < 2^64.

(** Without paging, addresses are physical. *)
Lemma window_bare f pr m vp b n :
  Z.shiftr (f Satp) 60 = 0 → pmp_open f → vp `mod` 4 = 0 → 0 ≤ vp ≤ 2^56 - 8 → b `mod` 8 = 0 → 0 ≤ b → 0 ≤ n → b + n ≤ 2^56 - 4 →
  window f pr m vp vp b b n.
Proof.
  intros Hs Hp Hv Hvr Hb Hb0 Hn Hbn m' _.
  assert (∀ acc va, translate f pr m' acc va = Some va) as Ht by (intros; unfold translate; rewrite Hs; by destruct pr).
  split; [|intros acc o _ H1 H2 H3]; unfold reach; rewrite Ht; cbn; rewrite pmp_open_ok, orb_true_r; try done.
  - by rewrite Hv.
  - lia.
  - lia.
  - rewrite u64_small by lia. assert ((b + o) `mod` 8 = 0) as -> by (Z.to_euclidean_division_equations; lia). done.
  - unfold u64. apply Z.mod_pos_bound. lia.
  - rewrite u64_small by lia. lia.
Qed.

(** Nor are there translations in machine mode. *)
Lemma window_machine f m vp b n :
  vp `mod` 4 = 0 → b `mod` 8 = 0 → 0 ≤ b → 0 ≤ n → b + n ≤ 2^64 → window f Machine m vp vp b b n.
Proof.
  intros Hv Hb Hb0 Hn Hbn m' _. unfold reach. cbn. split; [by rewrite Hv|]. intros acc o _ H1 H2 H3.
  rewrite u64_small by lia. assert ((b + o) `mod` 8 = 0) as -> by (Z.to_euclidean_division_equations; lia). done.
Qed.

Lemma merge_spec mask old new i : 0 ≤ i →
  Z.testbit (merge mask old new) i = if Z.testbit mask i then Z.testbit new i else Z.testbit old i.
Proof.
  intros Hi. unfold merge. rewrite Z.lor_spec, !Z.land_spec, Z.lnot_spec by done. destruct (Z.testbit mask i); cbn.
  - by rewrite andb_false_r, andb_true_r.
  - by rewrite andb_true_r, andb_false_r, orb_false_r.
Qed.

(** A machine-mode handler that leaves mstatus alone returns to where the
    trap came from, and supervisor code sees no difference. *)
Lemma mret_mtrap s f c m a :
  c Mstatus = cs (mtrap s) Mstatus → c Mepc = pc s →
  let s' := mret (Hart f c m Machine a) in
  priv s' = priv s ∧ pc s' = pc s ∧
  (∀ i, 0 ≤ i → i ∉ [MSTATUS_MPIE; 11; 12] → Z.testbit (cs s' Mstatus) i = Z.testbit (cs s Mstatus) i).
Proof.
  intros Hst Hepc. unfold mret. cbn [cs priv pc]. rewrite Hst, Hepc. unfold mtrap. cbn [cs].
  rewrite fn_lookup_insert, fn_lookup_insert_ne, fn_lookup_insert by done. split_and!; [|done|].
  - unfold mpp. rewrite !merge_spec by done. by destruct (priv s).
  - intros i Hi Hn. rewrite !not_elem_of_cons in Hn. destruct Hn as (H1 & H2 & H3 & _).
    assert (Z.testbit (Z.shiftl 3 11) i = false) as Hm.
    { rewrite Z.shiftl_spec by done. destruct (decide (i < 11)); [apply Z.testbit_neg_r; lia|]. apply (Z.bits_above_log2 3); cbn; lia. }
    rewrite !merge_spec, Hm, !put_bit_spec, merge_spec, !put_bit_spec by done. cbn.
    repeat case_decide; subst; try done; unfold MSTATUS_MPIE, MSTATUS_MIE_BIT in *; try lia.
    by rewrite Hm.
Qed.
