(* ===== verification/Trampoline.v ===== *)
(** * kernel/trampoline.S: between user space and the kernel

    uservec and userret are in one page that every page table maps at
    TRAMPOLINE. They save the user registers in the trapframe of the process
    and restore them, and change the page table under their own feet. *)

From S2P Require Import Prelude Riscv Mem Kalloc Vm Proc Machine.

(** The registers of struct trapframe in its order, after the five words for
    the kernel. *)
Definition trapframe_regs : list reg :=
  [Ra; Sp; Gp; Tp; T0; T1; T2; S0; S1; A0; A1; A2; A3; A4; A5; A6; A7;
   S2; S3; S4; S5; S6; S7; S8; S9; S10; S11; T3; T4; T5; T6].
Definition TF_SIZE : Z := 288.
(** The offset of a register's field. *)
Definition tf_off (r : reg) : Z :=
  40 + 8 * match list_find (eq r) trapframe_regs with Some (i, _) => Z.of_nat i | None => 31 end.

Definition uservec : list instr :=
  [Csrw Sscratch A0; Li A0 TRAPFRAME] ++
  saves A0 [(Ra, 40); (Sp, 48); (Gp, 56); (Tp, 64); (T0, 72); (T1, 80); (T2, 88); (S0, 96); (S1, 104);
            (A1, 120); (A2, 128); (A3, 136); (A4, 144); (A5, 152); (A6, 160); (A7, 168);
            (S2, 176); (S3, 184); (S4, 192); (S5, 200); (S6, 208); (S7, 216); (S8, 224); (S9, 232); (S10, 240); (S11, 248);
            (T3, 256); (T4, 264); (T5, 272); (T6, 280)] ++
  [Csrr T0 Sscratch; Sd T0 112 A0; Ld Sp 8 A0; Ld Tp 32 A0; Ld T0 16 A0; Ld T1 0 A0;
   SfenceVma; Csrw Satp T1; SfenceVma; Jr T0].

Definition userret : list instr :=
  [SfenceVma; Csrw Satp A0; SfenceVma; Li A0 TRAPFRAME] ++
  loads A0 [(Ra, 40); (Sp, 48); (Gp, 56); (Tp, 64); (T0, 72); (T1, 80); (T2, 88); (S0, 96); (S1, 104);
            (A1, 120); (A2, 128); (A3, 136); (A4, 144); (A5, 152); (A6, 160); (A7, 168);
            (S2, 176); (S3, 184); (S4, 192); (S5, 200); (S6, 208); (S7, 216); (S8, 224); (S9, 232); (S10, 240); (S11, 248);
            (T3, 256); (T4, 264); (T5, 272); (T6, 280)] ++
  [Ld A0 112 A0; Sret].

(** The registers that are saved and restored by the long sequences. *)
Definition bulk : list (reg * Z) := (λ r, (r, tf_off r)) <$> filter (λ r, r ≠ A0) trapframe_regs.

(** The assembly uses the offsets of the C structure. *)
Lemma uservec_blocks :
  uservec = [Csrw Sscratch A0; Li A0 TRAPFRAME] ++ saves A0 bulk ++ [Csrr T0 Sscratch] ++ saves A0 [(T0, tf_off A0)] ++
    loads A0 [(Sp, TF_KERNEL_SP); (Tp, TF_KERNEL_HARTID); (T0, TF_KERNEL_TRAP); (T1, TF_KERNEL_SATP)] ++
    [SfenceVma; Csrw Satp T1; SfenceVma; Jr T0].
Proof. reflexivity. Qed.

Lemma userret_blocks :
  userret = [SfenceVma; Csrw Satp A0; SfenceVma; Li A0 TRAPFRAME] ++ loads A0 bulk ++ [Ld A0 (tf_off A0) A0; Sret].
Proof. reflexivity. Qed.

Lemma bulk_fields : fields TF_SIZE bulk.
Proof. decide_now. Qed.
Lemma bulk_regs : NoDup bulk.*1.
Proof. decide_now. Qed.
Lemma bulk_elem r : r ≠ Zero → r ≠ A0 → (r, tf_off r) ∈ bulk.
Proof.
  intros H0 HA. apply list_elem_of_fmap. exists r. split; [done|]. apply list_elem_of_filter. split; [done|].
  destruct r; (done || decide_now).
Qed.
Lemma bulk_no_A0 : A0 ∉ bulk.*1.
Proof. decide_now. Qed.

Lemma bulk_low : Forall (λ ro, 40 ≤ ro.2 ∧ (ro.2 + 8 ≤ tf_off A0 ∨ tf_off A0 + 8 ≤ ro.2)) bulk.
Proof. decide_now. Qed.

Section trampoline.
Context (tramp tf : Z).

(** The registers in the trapframe. *)
Definition frame_regs (m : mem) (r : reg) : Z := load64 m (tf + tf_off r).

(** Memory after uservec, for user registers [f]. *)
Definition framed (f : reg → Z) (m : mem) : mem :=
  store64 (saved (<[A0 := TRAPFRAME]> f) tf bulk m) (tf + tf_off A0) (f A0).

Lemma framed_kernel f m o : 0 ≤ o ≤ 32 → load64 (framed f m) (tf + o) = load64 m (tf + o).
Proof.
  intros Ho. unfold framed. rewrite load64_store64_ne by (change (tf_off A0) with 112; lia).
  apply saved_other. eapply Forall_impl; [apply bulk_low|]. cbv beta. intros ro ?. lia.
Qed.

Lemma framed_regs f m r : r ≠ Zero → (∀ r, 0 ≤ f r < 2^64) → frame_regs (framed f m) r = f r.
Proof.
  intros Hr Hf. unfold frame_regs, framed. destruct (decide (r = A0)) as [->|HA].
  - rewrite load64_store64_eq. by apply u64_small.
  - pose proof (bulk_elem r Hr HA) as Hin. rewrite load64_store64_ne.
    + rewrite (saved_field TF_SIZE _ _ _ _ r) by (done || apply bulk_fields).
      rewrite fn_lookup_insert_ne by done. by apply u64_small.
    + pose proof bulk_low as HF. rewrite Forall_forall in HF. destruct (HF _ Hin). cbn [Datatypes.snd] in *. lia.
Qed.

Lemma framed_agree f m : agree tf TF_SIZE m (framed f m).
Proof.
  unfold framed. eapply agree_trans; [apply saved_agree, bulk_fields|].
  apply agree_store64; change (tf_off A0) with 112; unfold TF_SIZE; lia.
Qed.

Lemma framed_outside f m : agree (tf + 40) (TF_SIZE - 40) m (framed f m).
Proof.
  intros x Hx. unfold framed. rewrite load8_store64_ne by (change (tf_off A0) with 112; unfold TF_SIZE in *; lia).
  unfold saved. generalize m. pose proof bulk_low as HF. pose proof bulk_fields as [HF2 _]. revert HF HF2. generalize bulk.
  induction l as [|[r o] l IH]; intros H1 H2 m'; [done|]. apply Forall_cons in H1 as [H1 H1'], H2 as [H2 H2'].
  cbn [foldl Datatypes.fst Datatypes.snd] in *. rewrite IH by done. apply load8_store64_ne. unfold TF_SIZE in *. lia.
Qed.

(** The state in which uservec jumps to the kernel. *)
Definition entered (s : hart) : hart :=
  let m := framed (rg s) (pm s) in
  let word o := load64 (pm s) (tf + o) in
  Hart (<[T1 := word TF_KERNEL_SATP]> (<[T0 := word TF_KERNEL_TRAP]> (<[Tp := word TF_KERNEL_HARTID]>
         (<[Sp := word TF_KERNEL_SP]> (<[T0 := rg s A0]> (<[A0 := TRAPFRAME]> (rg s)))))))
    (<[Satp := word TF_KERNEL_SATP]> (<[Sscratch := rg s A0]> (cs s))) m (priv s) (word TF_KERNEL_TRAP).

Lemma window_sscratch c pr m v :
  window c pr m TRAMPOLINE tramp TRAPFRAME tf TF_SIZE → window (<[Sscratch := v]> c) pr m TRAMPOLINE tramp TRAPFRAME tf TF_SIZE.
Proof.
  apply window_ext, same_view_insert. decide_now.
Qed.

(** uservec up to the switch of page tables. *)
Lemma uservec_saves f c m a :
  (∀ r, 0 ≤ f r < 2^64) → window c Supervisor m TRAMPOLINE tramp TRAPFRAME tf TF_SIZE →
  run TRAMPOLINE tramp uservec (Hart f c m Supervisor a) =
  run TRAMPOLINE tramp [SfenceVma; Csrw Satp T1; SfenceVma; Jr T0]
    (Hart (rg (entered (Hart f c m Supervisor a))) (<[Sscratch := f A0]> c) (framed f m) Supervisor a).
Proof.
  intros Hr Hw. pose proof (window_sscratch _ _ _ (f A0) Hw) as Hw'.
  destruct (Hw m (agree_refl _ _ _)) as [Hf _]. destruct (Hw' m (agree_refl _ _ _)) as [Hf' _].
  rewrite uservec_blocks. cbn [app]. erewrite run_cons; [|exact Hf|reflexivity]. erewrite run_cons; [|exact Hf'|reflexivity].
  change (set_reg A0 _ _) with (Hart (<[A0 := TRAPFRAME]> f) (<[Sscratch := f A0]> c) m Supervisor a).
  rewrite run_app, (run_saves _ _ TRAPFRAME tf TF_SIZE); [|exact Hw'|done|apply bulk_fields]. cbn [mbind option_bind].
  unfold with_pm. cbn [rg cs pm priv pc].
  assert (window (<[Sscratch := f A0]> c) Supervisor (saved (<[A0 := TRAPFRAME]> f) tf bulk m) TRAMPOLINE tramp TRAPFRAME tf TF_SIZE) as Hw3.
  { eapply window_agree; [exact Hw'|]. apply saved_agree, bulk_fields. }
  erewrite run_cons; [|by apply Hw3|reflexivity].
  change (set_reg T0 _ _) with (Hart (<[T0 := u64 (f A0)]> (<[A0 := TRAPFRAME]> f)) (<[Sscratch := f A0]> c)
    (saved (<[A0 := TRAPFRAME]> f) tf bulk m) Supervisor a).
  rewrite (u64_small (f A0)) by apply Hr.
  rewrite run_app, (run_saves _ _ TRAPFRAME tf TF_SIZE); [|exact Hw3|done|decide_now]. cbn [mbind option_bind].
  change (with_pm _ _) with (Hart (<[T0 := f A0]> (<[A0 := TRAPFRAME]> f)) (<[Sscratch := f A0]> c) (framed f m) Supervisor a).
  rewrite run_app, (run_loads _ _ TRAPFRAME tf TF_SIZE); [|exact (window_agree _ _ _ _ _ _ _ _ _ Hw' (framed_agree f m))|done|decide_now|].
  2: { intros o Ho. exfalso. rewrite !elem_of_cons, elem_of_nil in Ho. by destruct Ho as [[=]|[[=]|[[=]|[[=]|[]]]]]. }
  cbn [mbind option_bind]. unfold with_rg, loaded, entered. cbn [foldl rg cs pm priv pc Datatypes.fst Datatypes.snd].
  by rewrite !framed_kernel by (vm_compute; done).
Qed.

(** uservec runs through: it leaves the user's registers in the trapframe and
    jumps to the kernel's trap handler on the kernel's stack and page table. *)
Lemma uservec_enters f c m a :
  (∀ r, 0 ≤ f r < 2^64) → window c Supervisor m TRAMPOLINE tramp TRAPFRAME tf TF_SIZE →
  fetchable (<[Satp := load64 m (tf + TF_KERNEL_SATP)]> c) Supervisor m TRAMPOLINE tramp tf TF_SIZE →
  run TRAMPOLINE tramp uservec (Hart f c m Supervisor a) = Some (entered (Hart f c m Supervisor a)).
Proof.
  intros Hr Hw Hk. rewrite uservec_saves by done. pose proof (window_sscratch _ _ _ (f A0) Hw) as Hw'.
  assert (reach (<[Sscratch := f A0]> c) Supervisor (framed f m) Fetch TRAMPOLINE 4 = Some tramp) as Hf by apply Hw', framed_agree.
  assert (reach (<[Satp := load64 m (tf + TF_KERNEL_SATP)]> (<[Sscratch := f A0]> c)) Supervisor (framed f m) Fetch TRAMPOLINE 4
    = Some tramp) as Hf2.
  { erewrite reach_ext; [apply Hk, framed_agree|]. apply same_view_satp, same_view_insert. decide_now. }
  erewrite run_cons; [|exact Hf|reflexivity]. erewrite run_cons; [|exact Hf|reflexivity].
  erewrite run_cons; [|exact Hf2|reflexivity]. erewrite run_cons; [|exact Hf2|reflexivity]. reflexivity.
Qed.

(** ** userret *)

(** What userret gives back to the user. *)
Lemma userret_restores f c m a :
  fetchable c Supervisor m TRAMPOLINE tramp tf TF_SIZE →
  window (<[Satp := f A0]> c) Supervisor m TRAMPOLINE tramp TRAPFRAME tf TF_SIZE →
  ∃ f', run TRAMPOLINE tramp userret (Hart f c m Supervisor a) = Some (sret (Hart f' (<[Satp := f A0]> c) m Supervisor a)) ∧
    ∀ r, r ≠ Zero → f' r = frame_regs m r.
Proof.
  intros Hk Hw. destruct (Hw m (agree_refl _ _ _)) as [Hf Hrd]. pose proof (Hk m (agree_refl _ _ _)) as Hf0.
  rewrite userret_blocks. cbn [app].
  erewrite run_cons; [|exact Hf0|reflexivity]. erewrite run_cons; [|exact Hf0|reflexivity].
  erewrite run_cons; [|exact Hf|reflexivity]. erewrite run_cons; [|exact Hf|reflexivity].
  change (set_reg A0 _ _) with (Hart (<[A0 := TRAPFRAME]> f) (<[Satp := f A0]> c) m Supervisor a).
  rewrite run_app, (run_loads _ _ TRAPFRAME tf TF_SIZE); [|exact Hw|done|apply bulk_fields|].
  2: { intros o Ho. destruct bulk_no_A0. apply list_elem_of_fmap. by exists (A0, o). }
  cbn [mbind option_bind]. unfold with_rg. cbn [rg cs pm priv pc]. set (g := loaded m tf bulk _).
  assert (g A0 = TRAPFRAME) as HgA by (unfold g; rewrite loaded_other by apply bulk_no_A0; apply fn_lookup_insert).
  erewrite run_cons; [|exact Hf|cbn [step rg cs pm priv]; rewrite HgA, Hrd by (done || decide_now); reflexivity].
  erewrite run_cons; [|exact Hf|reflexivity]. eexists (<[A0 := u64 (load64 m (tf + tf_off A0))]> g). split; [reflexivity|].
  intros r Hr. destruct (decide (r = A0)) as [->|Hne].
  - rewrite fn_lookup_insert. apply u64_small, load64_range.
  - rewrite fn_lookup_insert_ne by done. apply loaded_field; [apply bulk_regs|by apply bulk_elem].
Qed.
End trampoline.

(** What a trap from user mode does to mstatus, and what sret to user mode. *)
Lemma strap_user_status cause tval u :
  priv u = User →
  Z.testbit (cs (strap cause tval u) Mstatus) MSTATUS_SPP = false ∧ Z.testbit (cs (strap cause tval u) Mstatus) MSTATUS_SIE = false.
Proof.
  intros Hp. unfold strap. cbn [cs]. rewrite !fn_lookup_insert_ne, fn_lookup_insert by done.
  rewrite (bool_decide_true _ Hp). by rewrite !put_bit_spec by done.
Qed.

Lemma sret_user f c m a :
  Z.testbit (c Mstatus) MSTATUS_SPP = false → Z.testbit (c Mstatus) MSTATUS_SPIE = true →
  let u := sret (Hart f c m Supervisor a) in priv u = User ∧ Z.testbit (cs u Mstatus) MSTATUS_SIE = true.
Proof.
  intros H1 H2. unfold sret. cbn [priv cs]. rewrite H1, fn_lookup_insert. split; [done|]. by rewrite !put_bit_spec by done.
Qed.

(** C11. A trap is invisible to the registers of the user program. A trap from
    user mode, with the trampoline page mapped in both page tables and the
    trapframe in the user's, runs uservec to its end: all 31 registers of the
    user are in their fields of the trapframe, nothing outside its saved
    registers has changed, and the hart is in the trap handler that the
    trapframe names, on the kernel's stack and page table, with the trap's
    cause and address in the control registers and interrupts off. From any
    state in which the kernel later calls userret with a user page table that
    maps the two pages, for a return to user mode, userret runs to its end too:
    the program continues in user mode at sepc with interrupts on, with the
    registers that are in the trapframe, so a register whose field the kernel
    left alone has the value it had at the trap. *)
Theorem trap_preserves_user_registers (tramp tf : Z) (u : hart) (cause tval : Z) :
  priv u = User → regs_ok u →
  window (cs u) Supervisor (pm u) TRAMPOLINE tramp TRAPFRAME tf TF_SIZE →
  fetchable (<[Satp := load64 (pm u) (tf + TF_KERNEL_SATP)]> (cs u)) Supervisor (pm u) TRAMPOLINE tramp tf TF_SIZE →
  ∃ k, run TRAMPOLINE tramp uservec (strap cause tval u) = Some k ∧
    (∀ r, r ≠ Zero → frame_regs tf (pm k) r = rg u r) ∧
    agree (tf + 40) (TF_SIZE - 40) (pm u) (pm k) ∧
    pc k = load64 (pm u) (tf + TF_KERNEL_TRAP) ∧ rg k Sp = load64 (pm u) (tf + TF_KERNEL_SP) ∧
    rg k Tp = load64 (pm u) (tf + TF_KERNEL_HARTID) ∧ cs k Satp = load64 (pm u) (tf + TF_KERNEL_SATP) ∧
    priv k = Supervisor ∧ cs k Sepc = pc u ∧ cs k Scause = cause ∧ cs k Stval = tval ∧
    Z.testbit (cs k Mstatus) MSTATUS_SPP = false ∧ Z.testbit (cs k Mstatus) MSTATUS_SIE = false ∧
    ∀ k', priv k' = Supervisor → fetchable (cs k') Supervisor (pm k') TRAMPOLINE tramp tf TF_SIZE →
      window (<[Satp := rg k' A0]> (cs k')) Supervisor (pm k') TRAMPOLINE tramp TRAPFRAME tf TF_SIZE →
      Z.testbit (cs k' Mstatus) MSTATUS_SPP = false → Z.testbit (cs k' Mstatus) MSTATUS_SPIE = true →
      ∃ u', run TRAMPOLINE tramp userret k' = Some u' ∧ priv u' = User ∧ pc u' = cs k' Sepc ∧ pm u' = pm k' ∧
        cs u' Satp = rg k' A0 ∧ Z.testbit (cs u' Mstatus) MSTATUS_SIE = true ∧
        ∀ r, r ≠ Zero → rg u' r = frame_regs tf (pm k') r ∧
          (frame_regs tf (pm k') r = frame_regs tf (pm k) r → rg u' r = rg u r).
Proof.
  intros Hp Hr Hw Hk. exists (entered tf (strap cause tval u)).
  pose proof (strap_view cause tval u) as Hv.
  split; [apply (uservec_enters tramp tf (rg u) (cs (strap cause tval u)) (pm u) (cs u Stvec));
    [exact Hr|by eapply window_ext|eapply fetchable_ext; [by apply same_view_satp|done]]|].
  assert (∀ r, r ≠ Zero → frame_regs tf (framed tf (rg u) (pm u)) r = rg u r) as Hfr by (intros; by apply framed_regs).
  split; [exact Hfr|]. split; [apply framed_outside|].
  destruct (strap_user_status cause tval u Hp) as [Hst1 Hst2].
  do 8 (split; [reflexivity|]). split; [exact Hst1|]. split; [exact Hst2|].
  intros [f c m pr a]. cbn [priv cs pm rg]. intros -> Hf' Hw' Hspp Hspie.
  destruct (userret_restores tramp tf f c m a Hf' Hw') as (f' & Hrun & Hregs).
  exists (sret (Hart f' (<[Satp := f A0]> c) m Supervisor a)). split; [exact Hrun|].
  destruct (sret_user f' (<[Satp := f A0]> c) m a) as (H1 & H2); [done..|].
  split_and!; [done|done|done|done|done|]. intros r Hne. cbn [rg sret]. rewrite (Hregs r Hne). split; [done|].
  intros ->. by apply Hfr.
Qed.

(** ** A concrete user program *)

(** Decides the conditions of [window_page] and [fetchable_page]. *)
Definition fetch_check (f : csr → Z) (m : mem) (tramp tf : Z) : bool :=
  bool_decide (translate f Supervisor m Fetch TRAMPOLINE = Some tramp) && bool_decide (tf ∉ tables f m TRAMPOLINE).
Definition frame_check (f : csr → Z) (m : mem) (tramp tf : Z) : bool :=
  fetch_check f m tramp tf &&
  bool_decide (translate f Supervisor m Read TRAPFRAME = Some tf) &&
  bool_decide (translate f Supervisor m Write TRAPFRAME = Some tf) && bool_decide (tf ∉ tables f m TRAPFRAME).

Lemma fetch_check_ok f m tramp tf :
  pmp_open f → phys_page tramp → phys_page tf → fetch_check f m tramp tf = true →
  fetchable f Supervisor m TRAMPOLINE tramp tf TF_SIZE.
Proof.
  intros Hpmp Ht [Hf _]. unfold fetch_check. rewrite andb_true_iff, !bool_decide_eq_true. intros [H1 H2].
  apply fetchable_page; [exact Hpmp|decide_now|exact Ht|exact Hf|decide_now|exact H1|exact H2].
Qed.
Lemma frame_check_ok f m tramp tf :
  pmp_open f → phys_page tramp → phys_page tf → frame_check f m tramp tf = true →
  window f Supervisor m TRAMPOLINE tramp TRAPFRAME tf TF_SIZE.
Proof.
  intros Hpmp Ht Hf. unfold frame_check, fetch_check. rewrite !andb_true_iff, !bool_decide_eq_true. intros [[[[H1 H2] H3] H4] H5].
  apply window_page; [exact Hpmp|decide_now|exact Ht|decide_now|decide_now|exact Hf|decide_now|exact H1|exact H2|exact H3|exact H4|exact H5].
Qed.

Module Sample.
Definition kend : Z := 0x80100000.
Definition tramp : Z := 0x80007000.
Definition tf : Z := 0x80200000.
(** Six free pages in a chain. *)
Definition free_pages : list Z := (λ i, 0x80101000 + i * PGSIZE) <$> seqZ 0 6.
Definition km0 : kmem := Kmem (foldr (λ p m, store64 m p (if p =? 0x80106000 then 0 else p + PGSIZE)) ∅ free_pages) 0x80101000.

(** A kernel page table with the trampoline, and the page table of a process. *)
Definition boot : outcome kmem (Z * Z) :=
  (let* kpt := uvmcreate in
   let* _ := mappages kpt TRAMPOLINE PGSIZE tramp (Z.lor PTE_R PTE_X) in
   let* upt := proc_pagetable kend tramp tf in
   ret (kpt, upt)) km0.
Definition result (o : outcome kmem (Z * Z)) : Z * Z * mem :=
  match o with Done r k => (r, km_mem k) | _ => (0, 0, ∅) end.
Definition kpt : Z := (result boot).1.1.
Definition upt : Z := (result boot).1.2.
Definition memory : mem :=
  let m := (result boot).2 in
  let m := store64 m (tf + TF_KERNEL_SATP) (MAKE_SATP kpt) in
  let m := store64 m (tf + TF_KERNEL_SP) 0x3fffffd000 in
  let m := store64 m (tf + TF_KERNEL_TRAP) 0x80002a10 in
  store64 m (tf + TF_KERNEL_HARTID) 1.
Definition csrs (satp : Z) (c : csr) : Z :=
  match c with
  | Satp => satp | Pmpcfg0 => 0xf | Pmpaddr0 => 0x3fffffffffffff | Mstatus => 2 | Stvec => TRAMPOLINE | _ => 0
  end.
Definition program : hart := Hart (λ r, if decide (r = Zero) then 0 else 77) (csrs (MAKE_SATP upt)) memory User 0x1000.

Lemma tramp_page : phys_page tramp.
Proof. split; decide_now. Qed.
Lemma tf_page : phys_page tf.
Proof. split; decide_now. Qed.
Lemma user_window : window (csrs (MAKE_SATP upt)) Supervisor memory TRAMPOLINE tramp TRAPFRAME tf TF_SIZE.
Proof. apply frame_check_ok; [by split|apply tramp_page|apply tf_page|vm_compute; reflexivity]. Qed.
Lemma kernel_fetchable :
  fetchable (<[Satp := load64 memory (tf + TF_KERNEL_SATP)]> (csrs (MAKE_SATP upt))) Supervisor memory TRAMPOLINE tramp tf TF_SIZE.
Proof. apply fetch_check_ok; [by split|apply tramp_page|apply tf_page|vm_compute; reflexivity]. Qed.
End Sample.

Lemma trap_preserves_user_registers_witness :
  ∃ k, run TRAMPOLINE Sample.tramp uservec (strap 8 0 Sample.program) = Some k ∧
    ∀ r, r ≠ Zero → frame_regs Sample.tf (pm k) r = 77.
Proof.
  destruct (trap_preserves_user_registers Sample.tramp Sample.tf Sample.program 8 0) as (k & Hrun & Hregs & _).
  - reflexivity.
  - intros r. unfold Sample.program. cbn [rg]. case_decide; lia.
  - exact Sample.user_window.
  - exact Sample.kernel_fetchable.
  - exists k. split; [exact Hrun|]. intros r Hr. rewrite Hregs by exact Hr. unfold Sample.program. cbn [rg]. by rewrite decide_False.
Defined.
