(* ===== verification/Switch.v ===== *)
(** * kernel/swtch.S and the supervisor part of kernel/kernelvec.S

    swtch saves the registers that a function must preserve in one struct
    context and loads them from another; kernelvec saves all registers on the
    kernel stack around a call of kerneltrap. *)

From S2P Require Import Prelude Riscv Mem Kalloc Machine.

(** ** swtch *)

(** The fields of struct context in order. *)
Definition context_regs : list reg := [Ra; Sp; S0; S1; S2; S3; S4; S5; S6; S7; S8; S9; S10; S11].
Definition CONTEXT_SIZE : Z := 112.
Definition context : list (reg * Z) := imap (λ i r, (r, 8 * Z.of_nat i)) context_regs.

Definition swtch : list instr :=
  saves A0 [(Ra, 0); (Sp, 8); (S0, 16); (S1, 24); (S2, 32); (S3, 40); (S4, 48); (S5, 56); (S6, 64); (S7, 72);
            (S8, 80); (S9, 88); (S10, 96); (S11, 104)] ++
  loads A1 [(Ra, 0); (Sp, 8); (S0, 16); (S1, 24); (S2, 32); (S3, 40); (S4, 48); (S5, 56); (S6, 64); (S7, 72);
            (S8, 80); (S9, 88); (S10, 96); (S11, 104)] ++
  [Jr Ra].

Lemma swtch_blocks : swtch = saves A0 context ++ loads A1 context ++ [Jr Ra].
Proof. reflexivity. Qed.
Lemma context_fields : fields CONTEXT_SIZE context.
Proof. decide_now. Qed.
Lemma context_nodup : NoDup context.*1.
Proof. decide_now. Qed.
Lemma context_no_args : (A0 ∉ context.*1) ∧ (A1 ∉ context.*1).
Proof. split; decide_now. Qed.
Lemma context_elem r : r ∈ context_regs → ∃ o, (r, o) ∈ context.
Proof. intros [i Hi]%list_elem_of_lookup. exists (8 * Z.of_nat i). apply elem_of_lookup_imap. eauto. Qed.
Lemma context_reg r o : (r, o) ∈ context → r ∈ context_regs.
Proof. intros (i & r' & [= -> ->] & Hi)%elem_of_lookup_imap. by eapply list_elem_of_lookup_2. Qed.

(** The structures [old] and [new], at physical addresses [po] and [pn], can
    be accessed in the state [s], whatever is written to them. *)
Definition contexts_ok (vp pp po pn : Z) (s : hart) : Prop :=
  window (cs s) (priv s) (pm s) vp pp (rg s A0) po CONTEXT_SIZE ∧
  (∀ m', agree po CONTEXT_SIZE (pm s) m' → window (cs s) (priv s) m' vp pp (rg s A1) pn CONTEXT_SIZE) ∧
  (po + CONTEXT_SIZE ≤ pn ∨ pn + CONTEXT_SIZE ≤ po).

Lemma swtch_runs vp pp po pn s :
  contexts_ok vp pp po pn s →
  let m := saved (rg s) po context (pm s) in
  let f := loaded m pn context (rg s) in
  run vp pp swtch s = Some (Hart f (cs s) m (priv s) (f Ra)).
Proof.
  intros (Hwo & Hwn & Hd) m f. pose proof (saved_agree po CONTEXT_SIZE (rg s) context (pm s) context_fields) as Ha.
  rewrite swtch_blocks, run_app, (run_saves vp pp (rg s A0) po CONTEXT_SIZE); [|done|done|apply context_fields].
  cbn [mbind option_bind]. rewrite run_app, (run_loads vp pp (rg s A1) pn CONTEXT_SIZE); [|by apply Hwn|done|apply context_fields|].
  2: { intros o Ho. destruct (proj2 context_no_args). apply list_elem_of_fmap. by exists (A1, o). }
  cbn [mbind option_bind]. erewrite run_cons; [reflexivity| |reflexivity]. exact (proj1 (Hwn m Ha m (agree_refl _ _ _))).
Qed.

Lemma context_disjoint f po pn m o :
  (po + CONTEXT_SIZE ≤ pn ∨ pn + CONTEXT_SIZE ≤ po) → 0 ≤ o → o + 8 ≤ CONTEXT_SIZE →
  load64 (saved f po context m) (pn + o) = load64 m (pn + o).
Proof.
  intros Hd H1 H2. apply saved_other. destruct context_fields as [HF _]. eapply Forall_impl; [exact HF|].
  cbv beta. intros ro ?. lia.
Qed.

Lemma context_fst : context.*1 = context_regs.
Proof. reflexivity. Qed.

(** What is loaded is what was in the context before the other was saved. *)
Lemma swtch_loads f po pn m r o :
  (po + CONTEXT_SIZE ≤ pn ∨ pn + CONTEXT_SIZE ≤ po) → (r, o) ∈ context →
  loaded (saved f po context m) pn context f r = load64 m (pn + o).
Proof.
  intros Hd Ho. rewrite (loaded_field _ _ _ _ r o context_nodup Ho). destruct context_fields as [HF _].
  rewrite Forall_forall in HF. destruct (HF _ Ho) as (_ & H1 & H2 & _). by apply context_disjoint.
Qed.

(** C12. swtch suspends one thread of the kernel and resumes another. It
    leaves through the return address in [new] with the stack and the other
    callee-saved registers that are in [new], and all other registers, the
    control registers and the memory outside [old] as they were. When any
    later call of swtch, on any hart, is given the suspended context as its
    [new], with its bytes untouched, the first thread returns from its call
    with all its callee-saved registers and its stack as they were. *)
Theorem swtch_resumes vp pp po pn (s : hart) :
  regs_ok s → contexts_ok vp pp po pn s →
  ∃ s1, run vp pp swtch s = Some s1 ∧
    (∀ r o, (r, o) ∈ context → rg s1 r = load64 (pm s) (pn + o)) ∧ pc s1 = load64 (pm s) (pn + 0) ∧
    (∀ r, r ∉ context_regs → rg s1 r = rg s r) ∧
    cs s1 = cs s ∧ priv s1 = priv s ∧ agree po CONTEXT_SIZE (pm s) (pm s1) ∧
    ∀ vp' pp' px t, contexts_ok vp' pp' px po t →
      (∀ r o, (r, o) ∈ context → load64 (pm t) (po + o) = load64 (pm s1) (po + o)) →
      ∃ t1, run vp' pp' swtch t = Some t1 ∧ pc t1 = rg s Ra ∧ (∀ r, r ∈ context_regs → rg t1 r = rg s r) ∧
        (∀ r, r ∉ context_regs → rg t1 r = rg t r).
Proof.
  intros Hr Hc. eexists. split; [by apply swtch_runs|]. cbn [rg cs pm priv pc].
  destruct Hc as (_ & _ & Hd). split_and!; try done.
  - intros r o Ho. by apply swtch_loads.
  - by apply (swtch_loads _ _ _ _ Ra 0); [|decide_now].
  - intros r Hn. apply loaded_other. by rewrite context_fst.
  - apply saved_agree, context_fields.
  - intros vp' pp' px t Ht Hsame. pose proof Ht as (_ & _ & Hd'). eexists. split; [by apply swtch_runs|]. cbn [rg pc].
    assert (∀ r, r ∈ context_regs → loaded (saved (rg t) px context (pm t)) po context (rg t) r = rg s r) as Hback.
    { intros r (o & Ho)%context_elem. rewrite (swtch_loads _ _ _ _ r o) by done. rewrite (Hsame r o Ho).
      rewrite (saved_field CONTEXT_SIZE _ _ _ _ r o context_fields Ho). apply u64_small, Hr. }
    split_and!; [apply Hback; decide_now|done|]. intros r Hn. apply loaded_other. by rewrite context_fst.
Qed.

Lemma swtch_resumes_witness :
  let s := Hart (λ r, match r with A0 => 0x80010000 | A1 => 0x80020000 | Sp => 0x80033000 | _ => 0 end)
             (λ c, match c with Pmpcfg0 => 0xf | Pmpaddr0 => 0x3fffffffffffff | _ => 0 end)
             (store64 ∅ 0x80020008 0x80044000) Supervisor 0x80002000 in
  ∃ s1, run 0x80002000 0x80002000 swtch s = Some s1 ∧ rg s1 Sp = 0x80044000.
Proof.
  intros s. assert (∀ m b, b = 0x80010000 ∨ b = 0x80020000 → window (cs s) (priv s) m 0x80002000 0x80002000 b b CONTEXT_SIZE) as Hw.
  { intros m b [-> | ->]; apply window_bare; (done || split; done). }
  destruct (swtch_resumes 0x80002000 0x80002000 0x80010000 0x80020000 s) as (s1 & Hrun & Hregs & _).
  - intros r. by destruct r.
  - split_and!; [apply Hw; by left|intros m' _; apply Hw; by right|left; done].
  - exists s1. split; [exact Hrun|]. rewrite (Hregs Sp 8) by decide_now. vm_compute. reflexivity.
Defined.

(** ** kernelvec *)

Definition KERNELVEC_SIZE : Z := 256.

(** Up to the call of kerneltrap, which returns to [link]. *)
Definition kernelvec_save (kerneltrap link : Z) : list instr :=
  [Addi Sp Sp (-256)] ++
  saves Sp [(Ra, 0); (Sp, 8); (Gp, 16); (Tp, 24); (T0, 32); (T1, 40); (T2, 48); (S0, 56); (S1, 64);
            (A0, 72); (A1, 80); (A2, 88); (A3, 96); (A4, 104); (A5, 112); (A6, 120); (A7, 128);
            (S2, 136); (S3, 144); (S4, 152); (S5, 160); (S6, 168); (S7, 176); (S8, 184); (S9, 192); (S10, 200); (S11, 208);
            (T3, 216); (T4, 224); (T5, 232); (T6, 240)] ++
  [Call kerneltrap link].

(** From [link] on; tp is not restored. *)
Definition kernelvec_restore : list instr :=
  loads Sp [(Ra, 0); (Sp, 8); (Gp, 16); (T0, 32); (T1, 40); (T2, 48); (S0, 56); (S1, 64);
            (A0, 72); (A1, 80); (A2, 88); (A3, 96); (A4, 104); (A5, 112); (A6, 120); (A7, 128);
            (S2, 136); (S3, 144); (S4, 152); (S5, 160); (S6, 168); (S7, 176); (S8, 184); (S9, 192); (S10, 200); (S11, 208);
            (T3, 216); (T4, 224); (T5, 232); (T6, 240)] ++
  [Addi Sp Sp 256; Sret].

Definition stacked : list (reg * Z) :=
  imap (λ i r, (r, 8 * Z.of_nat i))
    [Ra; Sp; Gp; Tp; T0; T1; T2; S0; S1; A0; A1; A2; A3; A4; A5; A6; A7;
     S2; S3; S4; S5; S6; S7; S8; S9; S10; S11; T3; T4; T5; T6].
Definition unstacked : list (reg * Z) := filter (λ ro, ro.1 ≠ Tp) stacked.

Lemma kernelvec_save_blocks kt link : kernelvec_save kt link = Addi Sp Sp (-256) :: saves Sp stacked ++ [Call kt link].
Proof. reflexivity. Qed.
Lemma kernelvec_restore_blocks : kernelvec_restore = loads Sp unstacked ++ [Addi Sp Sp 256; Sret].
Proof. reflexivity. Qed.
Lemma stacked_fields : fields KERNELVEC_SIZE stacked.
Proof. decide_now. Qed.
Lemma unstacked_fields : fields KERNELVEC_SIZE unstacked.
Proof. decide_now. Qed.
Lemma unstacked_nodup : NoDup unstacked.*1.
Proof. decide_now. Qed.
Lemma unstacked_elem r : r ≠ Zero → r ≠ Tp → ∃ o, (r, o) ∈ unstacked ∧ (r, o) ∈ stacked.
Proof.
  intros H0 Ht. assert (r ∈ unstacked.*1) as ([r' o] & -> & Ho)%list_elem_of_fmap by (destruct r; (done || decide_now)).
  exists o. split; [done|]. by apply list_elem_of_filter in Ho as [_ Ho].
Qed.

Lemma stack_room f : 256 ≤ f Sp < 2^64 → u64 (f Sp + -256) = f Sp - 256.
Proof. intros H. rewrite u64_small; lia. Qed.

(** The call of kerneltrap, with the registers on the stack. *)
Lemma kernelvec_saves vp pp p kt link f c m a :
  256 ≤ f Sp < 2^64 → window c Supervisor m vp pp (f Sp - 256) p KERNELVEC_SIZE →
  let g := <[Sp := f Sp - 256]> f in
  run vp pp (kernelvec_save kt link) (Hart f c m Supervisor a) =
    Some (Hart (<[Ra := u64 link]> g) c (saved g p stacked m) Supervisor kt).
Proof.
  intros Hs Hw g. destruct (Hw m (agree_refl _ _ _)) as [Hf _]. rewrite kernelvec_save_blocks.
  erewrite run_cons; [|exact Hf|reflexivity].
  change (set_reg Sp _ _) with (Hart (<[Sp := u64 (f Sp + -256)]> f) c m Supervisor a). rewrite stack_room by done. fold g.
  rewrite run_app, (run_saves vp pp (f Sp - 256) p KERNELVEC_SIZE); [|exact Hw|apply fn_lookup_insert|apply stacked_fields].
  cbn [mbind option_bind]. erewrite run_cons; [reflexivity| |reflexivity].
  apply Hw, saved_agree, stacked_fields.
Qed.

(** The return, with the registers [g] still on the stack. *)
Lemma kernelvec_restores vp pp p g f c m a :
  window c Supervisor m vp pp (g Sp) p KERNELVEC_SIZE → f Sp = g Sp →
  (∀ r o, (r, o) ∈ unstacked → load64 m (p + o) = g r) →
  ∃ f', run vp pp kernelvec_restore (Hart f c m Supervisor a) = Some (sret (Hart f' c m Supervisor a)) ∧
    f' Sp = u64 (g Sp + 256) ∧ f' Tp = f Tp ∧ ∀ r, r ≠ Zero → r ≠ Tp → r ≠ Sp → f' r = g r.
Proof.
  intros Hw HSp Hm. destruct (Hw m (agree_refl _ _ _)) as [Hf _]. rewrite kernelvec_restore_blocks.
  rewrite run_app, (run_loads vp pp (g Sp) p KERNELVEC_SIZE); [|exact Hw|exact HSp|apply unstacked_fields|apply Hm].
  cbn [mbind option_bind]. unfold with_rg. cbn [rg cs pm priv pc]. set (h := loaded m p unstacked f).
  assert (∀ r, r ≠ Zero → r ≠ Tp → h r = g r) as Hh.
  { intros r H0 Ht. destruct (unstacked_elem r H0 Ht) as (o & Ho & _). unfold h. rewrite (loaded_field _ _ _ _ r o unstacked_nodup Ho). by apply Hm. }
  erewrite run_cons; [|exact Hf|reflexivity]. erewrite run_cons; [|exact Hf|reflexivity].
  exists (<[Sp := u64 (h Sp + 256)]> h). split; [reflexivity|]. rewrite fn_lookup_insert, Hh by done. split; [done|].
  split; [rewrite fn_lookup_insert_ne by done; apply loaded_other; decide_now|].
  intros r H0 Ht HS. rewrite fn_lookup_insert_ne by done. by apply Hh.
Qed.

(** C15. A trap in the kernel is invisible to the code it interrupts. From a
    trap in supervisor mode with 256 bytes of stack below the stack pointer,
    kernelvec calls kerneltrap on that stack and changes only those 256 bytes.
    When kerneltrap returns, on whichever hart, with the stack pointer and the
    saved registers on the stack as they were, and with SPP set, kernelvec
    goes on at sepc in supervisor mode with all registers of the interrupted
    code, and only tp, the number of the hart, is that of the hart it now runs
    on. *)
Theorem kernelvec_preserves_registers vp pp p kt link (s : hart) cause tval :
  regs_ok s → 256 ≤ rg s Sp → priv s = Supervisor →
  window (cs s) Supervisor (pm s) vp pp (rg s Sp - 256) p KERNELVEC_SIZE →
  ∃ k, run vp pp (kernelvec_save kt link) (strap cause tval s) = Some k ∧
    pc k = kt ∧ rg k Ra = u64 link ∧ rg k Sp = rg s Sp - 256 ∧ cs k Sepc = pc s ∧ agree p KERNELVEC_SIZE (pm s) (pm k) ∧
    ∀ k', priv k' = Supervisor → rg k' Sp = rg k Sp →
      window (cs k') Supervisor (pm k') vp pp (rg k' Sp) p KERNELVEC_SIZE →
      (∀ r o, (r, o) ∈ stacked → load64 (pm k') (p + o) = load64 (pm k) (p + o)) →
      Z.testbit (cs k' Mstatus) MSTATUS_SPP = true →
      ∃ s', run vp pp kernelvec_restore k' = Some s' ∧ priv s' = Supervisor ∧ pc s' = cs k' Sepc ∧ pm s' = pm k' ∧
        rg s' Tp = rg k' Tp ∧ ∀ r, r ≠ Zero → r ≠ Tp → rg s' r = rg s r.
Proof.
  intros Hr Hroom Hp Hw. pose proof (window_ext _ _ _ _ _ _ _ _ _ (strap_view cause tval s) Hw) as Hw'.
  set (g := <[Sp := rg s Sp - 256]> (rg s)).
  eexists. split; [apply (kernelvec_saves vp pp p kt link (rg s)); [split; [done|apply Hr]|exact Hw']|]. cbn [rg cs pm priv pc].
  split_and!; try done; [apply saved_agree, stacked_fields|].
  intros [f c m pr a]. cbn [priv rg cs pm]. intros -> HSp Hw2 Hm Hspp.
  change (f Sp = rg s Sp - 256) in HSp.
  assert (∀ r, 0 ≤ g r < 2^64) as Hg.
  { intros r. unfold g. destruct (decide (r = Sp)) as [->|]; [rewrite fn_lookup_insert; pose proof (Hr Sp); lia|by rewrite fn_lookup_insert_ne]. }
  assert (g Sp = rg s Sp - 256) as HgS by apply fn_lookup_insert.
  destruct (kernelvec_restores vp pp p g f c m a) as (f' & Hrun & H1 & H2 & H3).
  - by rewrite HgS, <- HSp.
  - by rewrite HgS.
  - intros r o [_ Ho]%list_elem_of_filter. rewrite (Hm r o Ho), (saved_field KERNELVEC_SIZE _ _ _ _ r o stacked_fields Ho).
    by apply u64_small.
  - eexists. split; [exact Hrun|]. cbn [sret priv pc pm rg cs]. rewrite Hspp. split_and!; try done.
    intros r H0 Ht. destruct (decide (r = Sp)) as [->|HS].
    + rewrite H1, HgS, u64_small; [lia|]. pose proof (Hr Sp). lia.
    + rewrite H3 by done. by apply fn_lookup_insert_ne.
Qed.

Lemma kernelvec_preserves_registers_witness :
  let s := Hart (λ r, match r with Sp => 0x80033000 | Zero => 0 | _ => 5 end)
             (λ c, match c with Pmpcfg0 => 0xf | Pmpaddr0 => 0x3fffffffffffff | _ => 0 end) ∅ Supervisor 0x80002468 in
  ∃ k, run 0x80005000 0x80005000 (kernelvec_save 0x80002b00 0x80005090) (strap (2^63 + 1) 0 s) = Some k ∧
    rg k Sp = 0x80032f00 ∧ cs k Sepc = 0x80002468.
Proof.
  intros s. destruct (kernelvec_preserves_registers 0x80005000 0x80005000 0x80032f00 0x80002b00 0x80005090 s (2^63 + 1) 0)
    as (k & Hrun & _ & _ & HSp & Hepc & _).
  - intros r. by destruct r.
  - done.
  - reflexivity.
  - apply window_bare; (done || split; done).
  - exists k. split; [exact Hrun|]. rewrite HSp, Hepc. split; reflexivity.
Defined.
