(* ===== verification/Boot.v ===== *)
(** * Boot and the clock: kernel/entry.S, kernel/start.c, timervec of kernel/kernelvec.S

    A hart starts in machine mode at _entry, gets a stack, and start prepares
    the switch to supervisor mode and the clock. Clock interrupts come to
    timervec in machine mode, which passes them on as software interrupts.
    The control registers are accessed by the functions of kernel/riscv.h. *)

From S2P Require Import Prelude Riscv Mem Kalloc Vm Proc Machine.

(** ** kernel/riscv.h *)

Definition csrr (c : csr) : M hart Z := gets (λ s, csr_read c (cs s)).
Definition csrw (c : csr) (x : Z) : M hart unit := modify (λ s, with_cs (csr_write c x (cs s)) s).

Definition MSTATUS_MPP_MASK : Z := Z.shiftl 3 11.
Definition MSTATUS_MPP_S : Z := Z.shiftl 1 11.
Definition MSTATUS_MIE : Z := Z.shiftl 1 3.
Definition SIE_SEIE : Z := Z.shiftl 1 9.
Definition SIE_STIE : Z := Z.shiftl 1 5.
Definition SIE_SSIE : Z := Z.shiftl 1 1.
Definition MIE_MTIE : Z := Z.shiftl 1 7.

Definition r_mhartid : M hart Z := csrr Mhartid.
Definition r_mstatus : M hart Z := csrr Mstatus.
Definition w_mstatus (x : Z) : M hart unit := csrw Mstatus x.
Definition w_mepc (x : Z) : M hart unit := csrw Mepc x.
Definition r_sie : M hart Z := csrr Sie.
Definition w_sie (x : Z) : M hart unit := csrw Sie x.
Definition r_mie : M hart Z := csrr Mie.
Definition w_mie (x : Z) : M hart unit := csrw Mie x.
Definition w_medeleg (x : Z) : M hart unit := csrw Medeleg x.
Definition w_mideleg (x : Z) : M hart unit := csrw Mideleg x.
Definition w_mtvec (x : Z) : M hart unit := csrw Mtvec x.
Definition w_pmpcfg0 (x : Z) : M hart unit := csrw Pmpcfg0 x.
Definition w_pmpaddr0 (x : Z) : M hart unit := csrw Pmpaddr0 x.
Definition w_satp (x : Z) : M hart unit := csrw Satp x.
Definition w_mscratch (x : Z) : M hart unit := csrw Mscratch x.
Definition w_tp (x : Z) : M hart unit := modify (set_reg Tp x).

Definition CLINT : Z := 0x2000000.
Definition CLINT_MTIMECMP (hartid : Z) : Z := CLINT + 0x4000 + 8 * hartid.
Definition CLINT_MTIME : Z := CLINT + 0xBFF8.

(** A 64-bit access in machine mode. *)
Definition ld (a : Z) : M hart Z := gets (λ s, load64 (pm s) a).
Definition sd (a v : Z) : M hart unit := modify (λ s, with_pm (store64 (pm s) a v) s).

Section boot.
(** The addresses of stack0, timer_scratch, main and timervec. *)
Variables (stack0 timer_scratch main timervec : Z).

(** ** kernel/entry.S *)

(** Up to the call of start, which does not return. *)
Definition entry (start link : Z) : list instr :=
  [Li Sp stack0; Li A0 (1024 * 4); Csrr A1 Mhartid; Addi A1 A1 1; Mul A0 A0 A1; Add Sp Sp A0; Call start link].

(** ** kernel/start.c *)

Definition scratch (id : Z) : Z := timer_scratch + 40 * id.
Definition interval : Z := 1000000.

Definition timerinit : M hart unit :=
  let* h := r_mhartid in
  let id := i32 h in
  let* now := ld CLINT_MTIME in
  sd (CLINT_MTIMECMP id) (now + interval) ;;;
  sd (scratch id + 24) (CLINT_MTIMECMP id) ;;;
  sd (scratch id + 32) interval ;;;
  w_mscratch (scratch id) ;;;
  w_mtvec timervec ;;;
  let* st := r_mstatus in
  w_mstatus (Z.lor st MSTATUS_MIE) ;;;
  let* ie := r_mie in
  w_mie (Z.lor ie MIE_MTIE).

(** The last instruction, mret, leaves start. *)
Definition start : M hart unit :=
  let* x := r_mstatus in
  let x := Z.land x (Z.lnot MSTATUS_MPP_MASK) in
  let x := Z.lor x MSTATUS_MPP_S in
  w_mstatus x ;;;
  w_mepc main ;;;
  w_satp 0 ;;;
  w_medeleg 0xffff ;;;
  w_mideleg 0xffff ;;;
  let* e := r_sie in
  w_sie (Z.lor (Z.lor (Z.lor e SIE_SEIE) SIE_STIE) SIE_SSIE) ;;;
  w_pmpaddr0 0x3fffffffffffff ;;;
  w_pmpcfg0 0xf ;;;
  timerinit ;;;
  let* h := r_mhartid in
  w_tp (i32 h) ;;;
  modify mret.

(** ** timervec *)

Definition timervec_code : list instr :=
  [Csrrw A0 Mscratch A0; Sd A1 0 A0; Sd A2 8 A0; Sd A3 16 A0;
   Ld A1 24 A0; Ld A2 32 A0; Ld A3 0 A1; Add A3 A3 A2; Sd A3 0 A1;
   Li A1 2; Csrw Sip A1;
   Ld A3 16 A0; Ld A2 8 A0; Ld A1 0 A0; Csrrw A0 Mscratch A0; Mret].

(** The kernel's variables are aligned and in RAM, above the devices. *)
Definition layout : Prop :=
  timer_scratch `mod` 8 = 0 ∧ CLINT + 0x10000 ≤ timer_scratch ∧ timer_scratch + 40 * NCPU ≤ 2^56 ∧ timervec `mod` 4 = 0.

(** Clock interrupts of hart [h] are set up. *)
Definition timer_ready (h : Z) (s : hart) : Prop :=
  cs s Mscratch = scratch h ∧ cs s Mtvec = timervec ∧
  Z.testbit (cs s Mideleg) 1 = true ∧ Z.testbit (cs s Mie) 7 = true ∧
  load64 (pm s) (scratch h + 24) = CLINT_MTIMECMP h ∧ load64 (pm s) (scratch h + 32) = interval.

Lemma layout_bounds h :
  layout → 0 ≤ h < NCPU →
  scratch h `mod` 8 = 0 ∧ 0 ≤ scratch h ∧ scratch h + 40 ≤ 2^56 ∧
  CLINT_MTIMECMP h `mod` 8 = 0 ∧ 0 ≤ CLINT_MTIMECMP h ∧ CLINT_MTIMECMP h + 8 ≤ scratch h.
Proof.
  unfold layout, scratch, CLINT_MTIMECMP, CLINT, NCPU. intros (H1 & H2 & H3 & _) Hh. split_and!; try lia; Z.to_euclidean_division_equations; lia.
Qed.

Lemma timervec_windows f m h :
  layout → 0 ≤ h < NCPU →
  window f Machine m timervec timervec (scratch h) (scratch h) 40 ∧
  window f Machine m timervec timervec (CLINT_MTIMECMP h) (CLINT_MTIMECMP h) 8.
Proof.
  intros Hl Hh. destruct (layout_bounds h Hl Hh) as (H1 & H2 & H3 & H4 & H5 & H6). destruct Hl as (_ & _ & _ & Ht).
  split; apply window_machine; lia.
Qed.

Definition area : list (reg * Z) := [(A1, 0); (A2, 8); (A3, 16)].

Lemma timervec_blocks :
  timervec_code = Csrrw A0 Mscratch A0 :: saves A0 area ++ loads A0 [(A1, 24); (A2, 32)] ++ loads A1 [(A3, 0)] ++
    [Add A3 A3 A2] ++ saves A1 [(A3, 0)] ++ [Li A1 2; Csrw Sip A1] ++ loads A0 [(A3, 16); (A2, 8); (A1, 0)] ++ [Csrrw A0 Mscratch A0; Mret].
Proof. reflexivity. Qed.

(** Memory after timervec. *)
Definition ticked (h : Z) (f : reg → Z) (m : mem) : mem :=
  store64 (saved f (scratch h) area m) (CLINT_MTIMECMP h) (u64 (load64 m (CLINT_MTIMECMP h) + interval)).

Lemma ticked_facts h f m :
  layout → 0 ≤ h < NCPU →
  (∀ r o, (r, o) ∈ area → load64 (ticked h f m) (scratch h + o) = u64 (f r)) ∧
  (∀ o, 24 ≤ o ≤ 32 → load64 (ticked h f m) (scratch h + o) = load64 m (scratch h + o)) ∧
  load64 (ticked h f m) (CLINT_MTIMECMP h) = u64 (load64 m (CLINT_MTIMECMP h) + interval) ∧
  (∀ x, ¬ (scratch h ≤ x < scratch h + 24) → ¬ (CLINT_MTIMECMP h ≤ x < CLINT_MTIMECMP h + 8) → load8 (ticked h f m) x = load8 m x).
Proof.
  intros Hl Hh. destruct (layout_bounds h Hl Hh) as (H1 & H2 & H3 & H4 & H5 & H6). unfold ticked. split_and!.
  - intros r o Ho. assert (0 ≤ o ≤ 16) by (unfold area in Ho; rewrite !elem_of_cons, elem_of_nil in Ho; destruct Ho as [[= -> ->]|[[= -> ->]|[[= -> ->]|[]]]]; lia).
    rewrite load64_store64_ne by lia. apply (saved_field 40); [decide_now|done].
  - intros o Ho. rewrite load64_store64_ne by lia. apply saved_other. unfold area. repeat constructor; cbn; lia.
  - rewrite load64_store64_eq. apply u64_small, Z.mod_pos_bound. lia.
  - intros x Hx1 Hx2. rewrite load8_store64_ne by lia. unfold saved, area. cbn [foldl Datatypes.fst Datatypes.snd].
    by rewrite !load8_store64_ne by lia.
Qed.

Section timervec.
Context (h : Z) (Hl : layout) (Hh : 0 ≤ h < NCPU) (f : reg → Z) (c : csr → Z) (m : mem) (a : Z).
Context (Hr : ∀ r, 0 ≤ f r < 2^64) (Hsc : c Mscratch = scratch h).
Context (Hcmp : load64 m (scratch h + 24) = CLINT_MTIMECMP h) (Hint : load64 m (scratch h + 32) = interval).

(** The registers in the middle of the handler. *)
Definition working : reg → Z :=
  let t := load64 m (CLINT_MTIMECMP h) in
  <[A3 := u64 (t + interval)]> (<[A3 := t]> (<[A2 := interval]> (<[A1 := CLINT_MTIMECMP h]> (<[A0 := scratch h]> f)))).

Lemma timervec_advances code :
  run timervec timervec
    (Csrrw A0 Mscratch A0 :: saves A0 area ++ loads A0 [(A1, 24); (A2, 32)] ++ loads A1 [(A3, 0)] ++
     [Add A3 A3 A2] ++ saves A1 [(A3, 0)] ++ code) (Hart f c m Machine a) =
  run timervec timervec code
    (Hart working (<[Mscratch := f A0]> c) (ticked h f m) Machine a).
Proof.
  assert (∀ c' m', window c' Machine m' timervec timervec (scratch h) (scratch h) 40) as Hw by (intros; by apply timervec_windows).
  assert (∀ c' m', window c' Machine m' timervec timervec (CLINT_MTIMECMP h) (CLINT_MTIMECMP h) 8) as Hw2 by (intros; by apply timervec_windows).
  assert (∀ c' m', reach c' Machine m' Fetch timervec 4 = Some timervec) as Hf by (intros c' m'; apply (Hw c' m' m' (agree_refl _ _ _))).
  destruct (layout_bounds h Hl Hh) as (H1 & H2 & H3 & H4 & H5 & H6).
  erewrite run_cons; [|apply Hf|reflexivity].
  change (set_reg A0 _ _) with (Hart (<[A0 := u64 (c Mscratch)]> f) (<[Mscratch := f A0]> c) m Machine a).
  rewrite Hsc, (u64_small (scratch h)) by lia.
  rewrite run_app, (run_saves _ _ (scratch h) (scratch h) 40); [|apply Hw|apply fn_lookup_insert|decide_now]. cbn [mbind option_bind].
  change (with_pm _ _) with (Hart (<[A0 := scratch h]> f) (<[Mscratch := f A0]> c) (saved f (scratch h) area m) Machine a).
  set (m1 := saved f (scratch h) area m).
  assert (∀ o, 24 ≤ o → load64 m1 (scratch h + o) = load64 m (scratch h + o)) as Hm1.
  { intros o Ho. apply saved_other. unfold area. repeat constructor; cbn; lia. }
  assert (load64 m1 (CLINT_MTIMECMP h) = load64 m (CLINT_MTIMECMP h)) as Hm2.
  { apply saved_other. unfold area. repeat constructor; cbn; lia. }
  rewrite run_app, (run_loads _ _ (scratch h) (scratch h) 40); [|apply Hw|apply fn_lookup_insert|decide_now|].
  2: { intros o Ho. rewrite !elem_of_cons, elem_of_nil in Ho. by destruct Ho as [[=]|[[=]|[]]]. }
  cbn [mbind option_bind]. unfold with_rg, loaded. cbn [foldl rg cs pm priv pc Datatypes.fst Datatypes.snd].
  rewrite !Hm1, Hcmp, Hint by lia.
  rewrite run_app, (run_loads _ _ (CLINT_MTIMECMP h) (CLINT_MTIMECMP h) 8); [|apply Hw2|done|decide_now|].
  2: { intros o Ho. rewrite elem_of_cons, elem_of_nil in Ho. by destruct Ho as [[=]|[]]. }
  cbn [mbind option_bind]. unfold with_rg, loaded. cbn [foldl rg cs pm priv pc Datatypes.fst Datatypes.snd].
  rewrite Z.add_0_r, Hm2. cbn [app]. erewrite run_cons; [|apply Hf|reflexivity].
  change (set_reg A3 _ _) with (Hart working (<[Mscratch := f A0]> c) m1 Machine a).
  rewrite run_app, (run_saves _ _ (CLINT_MTIMECMP h) (CLINT_MTIMECMP h) 8); [|apply Hw2|done|decide_now]. cbn [mbind option_bind].
  unfold with_pm, saved at 1. cbn [foldl rg cs pm priv pc Datatypes.fst Datatypes.snd]. by rewrite Z.add_0_r.
Qed.

(** The registers and control registers before mret. *)
Definition restored : reg → Z :=
  let g := loaded (ticked h f m) (scratch h) [(A3, 16); (A2, 8); (A1, 0)] (<[A1 := 2]> working) in <[A0 := u64 (f A0)]> g.
Definition raised : csr → Z :=
  <[Mscratch := scratch h]> (<[Mip := merge (Z.land (c Mideleg) SIP_SSIP) (c Mip) 2]> (<[Mscratch := f A0]> c)).

Lemma timervec_runs :
  run timervec timervec timervec_code (Hart f c m Machine a) = Some (mret (Hart restored raised (ticked h f m) Machine a)).
Proof.
  assert (∀ c' m', window c' Machine m' timervec timervec (scratch h) (scratch h) 40) as Hw by (intros; by apply timervec_windows).
  assert (∀ c' m', reach c' Machine m' Fetch timervec 4 = Some timervec) as Hf by (intros c' m'; apply (Hw c' m' m' (agree_refl _ _ _))).
  rewrite timervec_blocks, timervec_advances. cbn [app].
  erewrite run_cons; [|apply Hf|reflexivity]. erewrite run_cons; [|apply Hf|reflexivity].
  change (with_cs _ _) with (Hart (<[A1 := 2]> working) (<[Mip := merge (Z.land (c Mideleg) SIP_SSIP) (c Mip) 2]> (<[Mscratch := f A0]> c))
    (ticked h f m) Machine a).
  rewrite run_app, (run_loads _ _ (scratch h) (scratch h) 40); [|apply Hw|done|decide_now|].
  2: { intros o Ho. rewrite !elem_of_cons, elem_of_nil in Ho. by destruct Ho as [[=]|[[=]|[[=]|[]]]]. }
  cbn [mbind option_bind]. erewrite run_cons; [|apply Hf|reflexivity]. erewrite run_cons; [|apply Hf|reflexivity]. reflexivity.
Qed.

Lemma restored_regs r : r ≠ Zero → restored r = f r.
Proof.
  intros H0. destruct (ticked_facts h f m Hl Hh) as (Hsv & _). unfold restored.
  destruct (decide (r = A0)) as [->|HA]; [rewrite fn_lookup_insert; by apply u64_small|]. rewrite fn_lookup_insert_ne by done.
  destruct (decide (r ∈ [A1; A2; A3])) as [Hin|Hin].
  - assert (∃ o, (r, o) ∈ [(A3, 16); (A2, 8); (A1, 0)] ∧ (r, o) ∈ area) as (o & Ho & Ho').
    { rewrite !elem_of_cons, elem_of_nil in Hin. destruct Hin as [-> |[-> |[-> |[]]]]; [exists 0|exists 8|exists 16]; split; decide_now. }
    rewrite (loaded_field _ _ _ _ r o) by (done || decide_now). rewrite (Hsv r o Ho'). by apply u64_small.
  - rewrite !not_elem_of_cons in Hin. destruct Hin as (H1 & H2 & H3 & _). rewrite loaded_other by (cbn; rewrite !not_elem_of_cons; auto using not_elem_of_nil).
    unfold working. by rewrite !fn_lookup_insert_ne by done.
Qed.
End timervec.

(** The bits of mstatus that machine traps use are not shown in sstatus. *)
Lemma sstatus_mask_bits i : 0 ≤ i → Z.testbit SSTATUS_MASK i = true → i ∉ [MSTATUS_MPIE; 11; 12].
Proof. intros Hi Hm Hin. rewrite !elem_of_cons, elem_of_nil in Hin. by destruct Hin as [-> |[-> |[-> |[]]]]. Qed.

Lemma raised_other h f s m g a c :
  cs s Mscratch = scratch h → c ≠ Mstatus → c ≠ Mepc → c ≠ Mip →
  cs (mret (Hart g (raised h f (cs (mtrap s))) m Machine a)) c = cs s c.
Proof.
  intros Hsc H1 H2 H3. unfold mret, raised, mtrap. cbn [cs]. rewrite fn_lookup_insert_ne by done.
  destruct (decide (c = Mscratch)) as [->|]; [by rewrite fn_lookup_insert|]. by rewrite !fn_lookup_insert_ne by done.
Qed.

Lemma raised_mip h f s m g a i :
  Z.testbit (cs s Mideleg) 1 = true → 0 ≤ i →
  Z.testbit (cs (mret (Hart g (raised h f (cs (mtrap s))) m Machine a)) Mip) i = bool_decide (i = 1) || Z.testbit (cs s Mip) i.
Proof.
  intros Hd Hi. change (cs (mret _) Mip) with (merge (Z.land (cs s Mideleg) SIP_SSIP) (cs s Mip) 2).
  rewrite merge_spec, Z.land_spec by done. change SIP_SSIP with (2^1). change 2 with (2^1). rewrite Z.pow2_bits_eqb by done.
  destruct (Z.eqb_spec 1 i) as [<-|Hne]; [by rewrite Hd|]. rewrite andb_false_r, bool_decide_false by done. done.
Qed.

(** C16. Clock interrupts are invisible to what they interrupt, at any
    privilege. When hart [h]'s clock is set up, a trap to timervec returns to
    the same instruction in the same mode with the same registers; it advances
    the hart's mtimecmp by the interval, so that the next interrupt comes;
    it writes nothing else but the save area; it leaves a software interrupt
    pending for the kernel; no other control register that supervisor code can
    see changes, and the clock is still set up. *)
Theorem clock_interrupt_invisible h (s : hart) :
  layout → 0 ≤ h < NCPU → regs_ok s → timer_ready h s →
  ∃ s', run timervec timervec timervec_code (mtrap s) = Some s' ∧
    pc s' = pc s ∧ priv s' = priv s ∧ (∀ r, r ≠ Zero → rg s' r = rg s r) ∧
    load64 (pm s') (CLINT_MTIMECMP h) = u64 (load64 (pm s) (CLINT_MTIMECMP h) + interval) ∧
    (∀ x, ¬ (scratch h ≤ x < scratch h + 24) → ¬ (CLINT_MTIMECMP h ≤ x < CLINT_MTIMECMP h + 8) →
      load8 (pm s') x = load8 (pm s) x) ∧
    (∀ i, 0 ≤ i → Z.testbit (cs s' Mip) i = bool_decide (i = 1) || Z.testbit (cs s Mip) i) ∧
    csr_read Sstatus (cs s') = csr_read Sstatus (cs s) ∧
    (∀ c, c ∉ [Mstatus; Mepc; Mip] → cs s' c = cs s c) ∧ timer_ready h s'.
Proof.
  intros Hl Hh Hr (Hsc & Htv & Hdel & Hie & Hcmp & Hint).
  eexists. split; [by apply (timervec_runs h Hl Hh (rg s) (cs (mtrap s)) (pm s) (cs s Mtvec))|].
  destruct (ticked_facts h (rg s) (pm s) Hl Hh) as (_ & Hkeep & Hcmp' & Hmem).
  destruct (mret_mtrap s (restored h (rg s) (pm s)) (raised h (rg s) (cs (mtrap s))) (ticked h (rg s) (pm s)) (cs s Mtvec))
    as (Hpriv & Hpc & Hst); [reflexivity..|].
  assert (∀ c, c ∉ [Mstatus; Mepc; Mip] → cs (mret (Hart (restored h (rg s) (pm s)) (raised h (rg s) (cs (mtrap s)))
    (ticked h (rg s) (pm s)) Machine (cs s Mtvec))) c = cs s c) as Hcs.
  { intros c Hc. rewrite !not_elem_of_cons in Hc. destruct Hc as (H1 & H2 & H3 & _). by apply raised_other. }
  split_and!; [done|done| |done|done| | |done|].
  - intros r Hr0. by apply restored_regs.
  - intros i Hi. by apply raised_mip.
  - apply Z.bits_inj'. intros i Hi. cbn [csr_read]. rewrite !Z.land_spec. destruct (Z.testbit SSTATUS_MASK i) eqn:Hm; [|by rewrite !andb_false_r].
    rewrite Hst by (done || by apply sstatus_mask_bits). done.
  - unfold timer_ready. rewrite !Hcs by decide_now. split_and!; try done; cbn [pm mret]; by rewrite Hkeep by lia.
Qed.

(** Each hart gets the stack of 4096 bytes that ends at stack0 + (hartid + 1) * 4096. *)
Lemma entry_stack vp st link s :
  vp `mod` 4 = 0 → priv s = Machine → 0 ≤ cs s Mhartid < NCPU → 0 ≤ stack0 → stack0 + 4096 * NCPU < 2^64 → 0 ≤ st < 2^64 →
  ∃ s', run vp vp (entry st link) s = Some s' ∧ rg s' Sp = stack0 + 4096 * (cs s Mhartid + 1) ∧ pc s' = st ∧
    pm s' = pm s ∧ cs s' = cs s ∧ priv s' = Machine.
Proof.
  destruct s as [f c m pr a]. cbn [priv cs rg pm]. unfold NCPU. intros Hv -> Hid H1 H2 H3.
  assert (reach c Machine m Fetch vp 4 = Some vp) as Hf by (unfold reach; cbn; by rewrite Hv).
  unfold entry. do 7 (erewrite run_cons; [|exact Hf|reflexivity]). eexists. split; [reflexivity|].
  split_and!; try done.
  change (u64 (u64 stack0 + u64 (u64 (1024 * 4) * u64 (u64 (c Mhartid) + 1))) = stack0 + 4096 * (c Mhartid + 1)).
  rewrite (u64_small stack0), (u64_small (c Mhartid)), (u64_small (1024 * 4)), (u64_small (c Mhartid + 1)), (u64_small (1024 * 4 * _)), u64_small; lia.
Qed.

(** Bits of mstatus and mie that start sets. *)
Lemma start_status st : mpp (Z.lor (Z.lor (Z.land st (Z.lnot MSTATUS_MPP_MASK)) MSTATUS_MPP_S) MSTATUS_MIE) = Supervisor.
Proof.
  unfold mpp. rewrite !Z.lor_spec, !Z.land_spec, !Z.lnot_spec by done.
  change (Z.testbit MSTATUS_MPP_MASK 12) with true. change (Z.testbit MSTATUS_MPP_S 12) with false.
  change (Z.testbit MSTATUS_MIE 12) with false. change (Z.testbit MSTATUS_MPP_S 11) with true. cbn [negb].
  by rewrite andb_false_r, orb_true_r.
Qed.

Lemma start_sie mie i : i ∈ [1; 5; 9] →
  Z.testbit (Z.land (Z.lor (merge (Z.land 0xffff MIDELEG_MASK) mie
    (Z.lor (Z.lor (Z.lor (Z.land mie (Z.land 0xffff MIDELEG_MASK)) SIE_SEIE) SIE_STIE) SIE_SSIE)) MIE_MTIE) (Z.land 0xffff MIDELEG_MASK)) i = true.
Proof.
  rewrite !elem_of_cons, elem_of_nil. intros [-> |[-> |[-> |[]]]]; rewrite Z.land_spec, Z.lor_spec, merge_spec, !Z.lor_spec by done; cbn;
    by rewrite ?orb_true_r.
Qed.

Lemma start_mie x : Z.testbit (Z.lor (merge (Z.land 0xffff MIDELEG_MASK) x
  (Z.lor (Z.lor (Z.lor (Z.land x (Z.land 0xffff MIDELEG_MASK)) SIE_SEIE) SIE_STIE) SIE_SSIE)) MIE_MTIE) 7 = true.
Proof. rewrite Z.lor_spec. apply orb_true_r. Qed.

(** The control registers and the memory when start executes mret. *)
Definition start_csrs (h : Z) (c : csr → Z) : csr → Z :=
  let x := Z.lor (Z.land (c Mstatus) (Z.lnot MSTATUS_MPP_MASK)) MSTATUS_MPP_S in
  let deleg := Z.land 0xffff MIDELEG_MASK in
  let ie := merge deleg (c Mie) (Z.lor (Z.lor (Z.lor (Z.land (c Mie) deleg) SIE_SEIE) SIE_STIE) SIE_SSIE) in
  <[Mie := Z.lor ie MIE_MTIE]> (<[Mstatus := Z.lor x MSTATUS_MIE]> (<[Mtvec := timervec]> (<[Mscratch := scratch h]>
    (<[Pmpcfg0 := 0xf]> (<[Pmpaddr0 := 0x3fffffffffffff]> (<[Mie := ie]> (<[Mideleg := deleg]> (<[Medeleg := 0xffff]>
      (<[Satp := 0]> (<[Mepc := main]> (<[Mstatus := x]> c))))))))))).
Definition start_mem (h : Z) (m : mem) : mem :=
  store64 (store64 (store64 m (CLINT_MTIMECMP h) (load64 m CLINT_MTIME + interval)) (scratch h + 24) (CLINT_MTIMECMP h)) (scratch h + 32) interval.

Lemma start_runs f c m pr a :
  start (Hart f c m pr a) =
  Done tt (mret (Hart (<[Tp := u64 (i32 (c Mhartid))]> f) (start_csrs (i32 (c Mhartid)) c) (start_mem (i32 (c Mhartid)) m) pr a)).
Proof. reflexivity. Qed.

Lemma start_mem_facts h m :
  layout → 0 ≤ h < NCPU →
  load64 (start_mem h m) (CLINT_MTIMECMP h) = u64 (load64 m CLINT_MTIME + interval) ∧
  load64 (start_mem h m) (scratch h + 24) = CLINT_MTIMECMP h ∧ load64 (start_mem h m) (scratch h + 32) = interval.
Proof.
  intros Hl Hh. destruct (layout_bounds h Hl Hh) as (H1 & H2 & H3 & H4 & H5 & H6). unfold start_mem. split_and!.
  - by rewrite !load64_store64_ne, load64_store64_eq by lia.
  - rewrite load64_store64_ne, load64_store64_eq by lia. apply u64_small. lia.
  - by rewrite load64_store64_eq.
Qed.

(** C18. start, in machine mode on hart [h], enters main in supervisor mode
    with paging off, tp set to the number of the hart, access to all of
    physical memory, exceptions and interrupts delegated to supervisor mode
    and the three supervisor interrupts enabled. The hart's clock is set up as
    timervec needs it, with the first interrupt after one interval. *)
Theorem start_enters_main h (s : hart) :
  layout → priv s = Machine → cs s Mhartid = h → 0 ≤ h < NCPU →
  ∃ s', start s = Done tt s' ∧ priv s' = Supervisor ∧ pc s' = main ∧ cs s' Satp = 0 ∧
    rg s' Tp = h ∧ (∀ r, r ≠ Tp → rg s' r = rg s r) ∧ pmp_open (cs s') ∧
    cs s' Medeleg = 0xffff ∧ cs s' Mideleg = MIDELEG_MASK ∧ (∀ i, i ∈ [1; 5; 9] → Z.testbit (csr_read Sie (cs s')) i = true) ∧
    load64 (pm s') (CLINT_MTIMECMP h) = u64 (load64 (pm s) CLINT_MTIME + interval) ∧ timer_ready h s'.
Proof.
  destruct s as [f c m pr a]. cbn [priv cs]. intros Hl -> Hid Hh. destruct (layout_bounds h Hl Hh) as (H1 & H2 & H3 & H4 & H5 & H6).
  assert (i32 h = h) as Hi by (apply i32_small; unfold NCPU in Hh; lia).
  subst h. rewrite start_runs, Hi. destruct (start_mem_facts (c Mhartid) m Hl Hh) as (M1 & M2 & M3).
  eexists. split; [reflexivity|]. split_and!; try done.
  - exact (start_status (c Mstatus)).
  - change (u64 (c Mhartid) = c Mhartid). apply u64_small. unfold NCPU in Hh. lia.
  - intros r Hr. by apply fn_lookup_insert_ne.
  - intros i Hin. exact (start_sie (c Mie) i Hin).
  - unfold timer_ready. split_and!; try done. exact (start_mie (c Mie)).
Qed.
End boot.

(** ** Turning on paging, kernel/vm.c *)

(** kvminit stores the result in kernel_pagetable. *)
Definition kvminit (etext trampoline : Z) : M kmem Z := kvmmake etext trampoline.

(** The fences around the write of satp have no effect in this model. *)
Definition kvminithart (kernel_pagetable : Z) : M hart unit := w_satp (MAKE_SATP kernel_pagetable).

(** The hardware then walks the kernel's table. *)
Lemma kvminithart_walks kpt s :
  phys_page kpt → ∃ s', kvminithart kpt s = Done tt s' ∧ satp_root (cs s') = kpt ∧ Z.shiftr (cs s' Satp) 60 = 8 ∧
    pm s' = pm s ∧ rg s' = rg s ∧ ∀ c, c ≠ Satp → cs s' c = cs s c.
Proof.
  intros [Ha Hk]. eexists. split; [reflexivity|]. split_and!; try done.
  - unfold satp_root. change (cs _ Satp) with (MAKE_SATP kpt). unfold MAKE_SATP. change (2^44 - 1) with (Z.ones 44).
    rewrite Z.land_lor_distr_l. change (Z.land SATP_SV39 (Z.ones 44)) with 0. rewrite Z.lor_0_l, Z.land_ones by done.
    unfold page_aligned, PGSIZE in *. rewrite Z.shiftr_div_pow2, Z.shiftl_mul_pow2 by done.
    rewrite Z.mod_small; change (2^12) with 4096; [Z.to_euclidean_division_equations; lia|].
    split; [apply Z.div_pos; lia|apply Z.div_lt_upper_bound; lia].
  - change (cs _ Satp) with (MAKE_SATP kpt). unfold MAKE_SATP. rewrite Z.shiftr_lor. change (Z.shiftr SATP_SV39 60) with 8.
    rewrite Z.shiftr_shiftr by done. rewrite (Z.shiftr_div_pow2 kpt) by done. rewrite Z.div_small; [done|]. unfold PGSIZE in Hk. lia.
  - intros c Hc. by apply fn_lookup_insert_ne.
Qed.

(** ** A concrete machine: hart 2 out of reset, and after start *)

Module BootSample.
Definition reset : hart :=
  Hart (λ _, 0) (λ c, match c with Mhartid => 2 | Mstatus => 0x1800 | _ => 0 end) (store64 ∅ CLINT_MTIME 500) Machine 0x80000000.
Definition result (o : outcome hart unit) : hart := match o with Done _ s => s | _ => reset end.
Definition started : hart := result (start 0x80010000 0x80001000 0x80005800 reset).
Lemma sample_layout : layout 0x80010000 0x80005800.
Proof. unfold layout. split_and!; (done || decide_now). Qed.
End BootSample.

Lemma start_enters_main_witness :
  ∃ s', start 0x80010000 0x80001000 0x80005800 BootSample.reset = Done tt s' ∧ priv s' = Supervisor ∧ pc s' = 0x80001000 ∧ rg s' Tp = 2.
Proof.
  destruct (start_enters_main 0x80010000 0x80001000 0x80005800 2 BootSample.reset) as (s' & H1 & H2 & H3 & _ & H4 & _);
    [exact BootSample.sample_layout|reflexivity|reflexivity|done|]. exists s'. split_and!; assumption.
Defined.

Lemma clock_interrupt_invisible_witness :
  ∃ s', run 0x80005800 0x80005800 timervec_code (mtrap BootSample.started) = Some s' ∧ pc s' = 0x80001000 ∧
    load64 (pm s') (CLINT_MTIMECMP 2) = 2000500.
Proof.
  destruct (clock_interrupt_invisible 0x80010000 0x80005800 2 BootSample.started) as (s' & H1 & H2 & _ & _ & H3 & _).
  - exact BootSample.sample_layout.
  - done.
  - intros r. by destruct r.
  - unfold timer_ready. split_and!; vm_compute; reflexivity.
  - exists s'. split_and!; [exact H1|rewrite H2; reflexivity|rewrite H3; vm_compute; reflexivity].
Defined.
