(* ===== verification/TrapTheorems.v ===== *)
(** * Between the trap handlers in C and the trampoline

    What usertrapret (Trap.v) leaves in the trapframe and in the control
    registers is what uservec and userret (Trampoline.v) rely on. *)

From S2P Require Import Prelude Riscv Mem Kalloc Vm Block FsFormat Log LogSpec LogOps Txn Fs.
From S2P Require Import Pipe Uart Printf Console File Spinlock Proc Exec Sysfile Syscall.
From S2P Require Import Machine Trampoline Trap.

Section trap.
Context {Sc : Type} {dev : Z} `{!BufCache Sc dev} (E : env) (uservec_off : Z).

(** Physical memory. *)
Definition memory (s : @tst Sc) : mem := km_mem (fk (ffs (kfl (tk s)))).

(** [s] with other contents of physical memory. *)
Definition with_memory (m : mem) (s : @tst Sc) : @tst Sc :=
  let k := tk s in let f := kfl k in let x := ffs f in
  Tst (Kst (Fls (Fst (ftx x) (itable x) (fsb x) (Kmem m (freelist (fk x)))) (ftable f) (pipes f) (devsw f) (fcon f) (fuart f))
         (ptable k) (nextpid k) (initproc k) (ticks k) (first k)) (th s).

Lemma run_st64 a v (s : @tst Sc) : on_kst (on_k (st64 a v)) s = Done tt (with_memory (store64 (memory s) a v) s).
Proof. destruct s as [[[[? ? ? [? ?]] ? ? ? ? ?] ? ? ? ? ?] ?]. reflexivity. Qed.
Lemma run_ld64 a (s : @tst Sc) : on_kst (on_k (ld64 a)) s = Done (load64 (memory s) a) s.
Proof. destruct s as [[[[? ? ? [? ?]] ? ? ? ? ?] ? ? ? ? ?] ?]. reflexivity. Qed.
Lemma with_memory_twice m m' s : with_memory m (with_memory m' s) = with_memory m s.
Proof. reflexivity. Qed.
Lemma memory_with_memory m s : memory (with_memory m s) = m.
Proof. reflexivity. Qed.
Lemma run_getp me (s : @tst Sc) : on_kst (getp me) s = Done (ptable (tk s) !!! me) s.
Proof. destruct s as [k h]. reflexivity. Qed.

(** The first five words of the trapframe, of which the code writes four. *)
Definition prepared (tf satp sp trap hartid : Z) (m : mem) : mem :=
  store64 (store64 (store64 (store64 m (tf + TF_KERNEL_SATP) satp) (tf + TF_KERNEL_SP) sp) (tf + TF_KERNEL_TRAP) trap) (tf + TF_KERNEL_HARTID) hartid.

Lemma prepared_words tf satp sp trap hartid m :
  let m' := prepared tf satp sp trap hartid m in
  load64 m' (tf + TF_KERNEL_SATP) = u64 satp ∧ load64 m' (tf + TF_KERNEL_SP) = u64 sp ∧
  load64 m' (tf + TF_KERNEL_TRAP) = u64 trap ∧ load64 m' (tf + TF_KERNEL_HARTID) = u64 hartid ∧
  (∀ o, o = TF_EPC ∨ 40 ≤ o → load64 m' (tf + o) = load64 m (tf + o)) ∧ agree tf 40 m m'.
Proof.
  unfold prepared, TF_KERNEL_SATP, TF_KERNEL_SP, TF_KERNEL_TRAP, TF_KERNEL_HARTID, TF_EPC. split_and!.
  1,2,3,4: by rewrite ?load64_store64_ne, load64_store64_eq by lia.
  - intros o Ho. by rewrite !load64_store64_ne by lia.
  - intros x Hx. by rewrite !load8_store64_ne by lia.
Qed.

Lemma tf_off_low r : 40 ≤ tf_off r.
Proof. by destruct r. Qed.

(** The bits of sstatus with which usertrapret goes to user mode. *)
Lemma user_sstatus x :
  let y := Z.lor (Z.land (Z.land x (Z.lnot SSTATUS_SIE)) (Z.lnot SSTATUS_SPP)) SSTATUS_SPIE in
  Z.testbit y MSTATUS_SPP = false ∧ Z.testbit y MSTATUS_SPIE = true ∧ Z.testbit y MSTATUS_SIE = false.
Proof.
  cbn zeta. rewrite !Z.lor_spec, !Z.land_spec, !Z.lnot_spec by done. cbn.
  rewrite ?andb_false_r, ?orb_true_r, ?orb_false_r. done.
Qed.

(** The whole effect of usertrapret: the four words and five control registers. *)
Lemma usertrapret_runs (me : nat) (s : @tst Sc) :
  let p := ptable (tk s) !!! me in
  let h := th s in
  let m := prepared (trapframe p) (satp h) (kstack p + PGSIZE) (e_usertrap E) (tp h) (memory s) in
  usertrapret E uservec_off me s =
  Done (TUser (MAKE_SATP (pagetable p)))
    (Tst (tk (with_memory m s))
       (Hart (Z.lor (Z.land (Z.land (sstatus h) (Z.lnot SSTATUS_SIE)) (Z.lnot SSTATUS_SPP)) SSTATUS_SPIE)
          (TRAMPOLINE + uservec_off) (load64 m (trapframe p + TF_EPC)) (scause h) (stval h) (satp h) (tp h) (sip h) (claim h) (plicw h))).
Proof.
  intros p h m. unfold usertrapret. erewrite bind_done by apply run_getp. fold p.
  do 3 erewrite bind_done by reflexivity.
  do 4 (erewrite bind_done by apply run_st64; rewrite ?memory_with_memory, ?with_memory_twice).
  erewrite bind_done by reflexivity. erewrite bind_done by apply run_ld64. erewrite bind_done by reflexivity.
  reflexivity.
Qed.

(** C17. usertrapret prepares the way to user space and back: the trapframe
    gets the kernel's page table, the top of the process's kernel stack, the
    address of usertrap and the number of the hart, which are the words that
    uservec loads at the next trap; the user's registers in it and all other
    memory stay as they are. The hart is left with traps going to uservec in
    the trampoline, sepc at the saved user program counter, the previous mode
    set to user with interrupts enabled after sret and disabled until then,
    and userret is given the satp of the process's page table. *)
Theorem usertrapret_prepares (me : nat) (s : @tst Sc) :
  let p := ptable (tk s) !!! me in
  let tf := trapframe p in
  ∃ s', usertrapret E uservec_off me s = Done (TUser (MAKE_SATP (pagetable p))) s' ∧
    load64 (memory s') (tf + TF_KERNEL_SATP) = u64 (satp (th s)) ∧
    load64 (memory s') (tf + TF_KERNEL_SP) = u64 (kstack p + PGSIZE) ∧
    load64 (memory s') (tf + TF_KERNEL_TRAP) = u64 (e_usertrap E) ∧
    load64 (memory s') (tf + TF_KERNEL_HARTID) = u64 (tp (th s)) ∧
    (∀ r, frame_regs tf (memory s') r = frame_regs tf (memory s) r) ∧ agree tf 40 (memory s) (memory s') ∧
    sepc (th s') = load64 (memory s) (tf + TF_EPC) ∧ stvec (th s') = TRAMPOLINE + uservec_off ∧ satp (th s') = satp (th s) ∧
    Z.testbit (sstatus (th s')) MSTATUS_SPP = false ∧ Z.testbit (sstatus (th s')) MSTATUS_SPIE = true ∧
    Z.testbit (sstatus (th s')) MSTATUS_SIE = false.
Proof.
  intros p tf.
  destruct (prepared_words tf (satp (th s)) (kstack p + PGSIZE) (e_usertrap E) (tp (th s)) (memory s)) as (H1 & H2 & H3 & H4 & H5 & H6).
  destruct (user_sstatus (sstatus (th s))) as (U1 & U2 & U3).
  eexists. split; [apply usertrapret_runs|]. fold p tf. cbn [th sstatus stvec sepc satp].
  generalize dependent (prepared tf (satp (th s)) (kstack p + PGSIZE) (e_usertrap E) (tp (th s)) (memory s)).
  intros m H1 H2 H3 H4 H5 H6.
  change (memory (Tst (tk (with_memory m s)) _)) with m.
  split_and!; [exact H1|exact H2|exact H3|exact H4| |exact H6| |reflexivity|reflexivity|exact U1|exact U2|exact U3].
  - intros r. apply H5. right. apply tf_off_low.
  - apply H5. by left.
Qed.

(** ** System calls *)

Lemma store_a0_stores me v s s' :
  store_a0 (Sc:=Sc) me v s = Done tt s' →
  ptable s' = ptable s ∧
  load64 (km_mem (fk (ffs (kfl s')))) (trapframe (ptable s' !!! me) + TF_A 0) = u64 v.
Proof.
  intros H. apply bind_inv in H as (p & s1 & [= <- <-] & [= <-]). cbn. split; [done|]. rewrite load64_store64_eq.
  unfold u64. by rewrite Z.mod_mod.
Qed.

(** A system call that returns leaves its result in the a0 of the trapframe,
    which userret loads; an unknown one returns -1. *)
Lemma syscall_returns_in_a0 me c s v s' :
  syscall (Sc:=Sc) E me c s = Done (SReturned v) s' →
  load64 (km_mem (fk (ffs (kfl s')))) (trapframe (ptable s' !!! me) + TF_A 0) = u64 v ∧
  (syscalls (Sc:=Sc) E me c (i32 (load64 (km_mem (fk (ffs (kfl s)))) (trapframe (ptable s !!! me) + TF_A 7))) = None → v = -1).
Proof.
  intros H. apply bind_inv in H as (p & s1 & [= <- <-] & H). apply bind_inv in H as (a7 & s2 & Ha & H).
  assert (a7 = load64 (km_mem (fk (ffs (kfl s)))) (trapframe (ptable s !!! me) + TF_A 7)) as <- by (by injection Ha as <-).
  cbn zeta in H. destruct (syscalls E me c (i32 a7)) as [call|] eqn:Hc.
  - apply bind_inv in H as (r & s3 & Hr & H). apply bind_inv in H as ([] & s4 & Hs & [= -> <-]). split; [|discriminate].
    by apply store_a0_stores in Hs as [_ ?].
  - apply bind_inv in H as (x & s3 & Hr & H). apply bind_inv in H as ([] & s4 & Hs & [= <- <-]). split; [|reflexivity].
    by apply store_a0_stores in Hs as [_ ?].
Qed.
End trap.
