(* ===== verification/ExecTheorems.v ===== *)
(** * What exec changes in the process table *)

From S2P Require Import Prelude Ring Riscv Mem Kalloc Vm Block FsFormat Bio BioSpec BioTheorems Log LogSpec LogOps LogTheorems Txn Fs.
From S2P Require Import Pipe Uart Printf Console File Spinlock Proc ProcFrame Exec.

Section exec.
Context {Sc : Type} {dev : Z} `{!BufCache Sc dev} (E : env).
Abbreviation kst := (@kst Sc).

Definition untouched (s s' : kst) : Prop := ptable s' = ptable s ∧ nextpid s' = nextpid s ∧ initproc s' = initproc s.

(** [m] does not change the process table; if it returns, its result satisfies [Q]. *)
Definition leaves {A} (m : M kst A) (Q : A → Prop) : Prop := ∀ s a s', m s = Done a s' → untouched s s' ∧ Q a.

Lemma untouched_trans s1 s2 s3 : untouched s1 s2 → untouched s2 s3 → untouched s1 s3.
Proof. intros (? & ? & ?) (? & ? & ?). split_and!; congruence. Qed.

Lemma leaves_mono {A} (m : M kst A) (Q Q' : A → Prop) : leaves m Q → (∀ a, Q a → Q' a) → leaves m Q'.
Proof. intros H HQ s a s' Hm. destruct (H s a s' Hm). auto. Qed.
Lemma leaves_ret {A} (a : A) (Q : A → Prop) : Q a → leaves (ret a) Q.
Proof. intros HQ s b s' [= <- <-]. done. Qed.
Lemma leaves_gets {A} (f : kst → A) : leaves (gets f) (λ _, True).
Proof. intros s b s' [= _ <-]. done. Qed.
Lemma leaves_panic {A} msg (Q : A → Prop) : leaves (panic msg) Q.
Proof. by intros s b s'. Qed.
Lemma leaves_on_fl {A} (m : M _ A) : leaves (on_fl m) (λ _, True).
Proof. intros s a s' H. unfold on_fl in H. destruct (m (kfl s)); by simplify_eq. Qed.
Lemma leaves_bind {A B} (m : M kst A) (k : A → M kst B) (P : A → Prop) (Q : B → Prop) :
  leaves m P → (∀ a, P a → leaves (k a) Q) → leaves (bind m k) Q.
Proof.
  intros Hm Hk s b s'' (a & s' & H1 & H2)%bind_inv. destruct (Hm _ _ _ H1) as [U1 HP]. destruct (Hk a HP _ _ _ H2) as [U2 HQ].
  split; [by eapply untouched_trans|done].
Qed.
Lemma leaves_loop {A B} n (body : A → M kst (A + B)) a :
  (∀ a, leaves (body a) (λ _, True)) → leaves (loop n body a) (λ _, True).
Proof.
  intros Hb. revert a. induction n as [|n IH]; intros a; [by intros s b s'|]. cbn [loop].
  eapply leaves_bind; [apply Hb|]. intros [a'|b] _; [apply IH|by apply leaves_ret].
Qed.
End exec.

(** Proves [leaves m (λ _, True)] by the structure of [m]. *)
Ltac leaves :=
  lazymatch goal with
  | |- leaves (bind _ _) _ => apply (leaves_bind _ _ (λ _, True)); [leaves|let x := fresh in intros x _; leaves]
  | |- leaves (ret _) _ => apply leaves_ret; done
  | |- leaves (gets _) _ => apply leaves_gets
  | |- leaves (getp _) _ => apply leaves_gets
  | |- leaves (panic _) _ => apply leaves_panic
  | |- leaves (on_fl _) _ => apply leaves_on_fl
  | |- leaves (on_fs _) _ => apply leaves_on_fl
  | |- leaves (on_k _) _ => apply leaves_on_fl
  | |- leaves (ldk _) _ => apply leaves_on_fl
  | |- leaves (readk _ _ _ _ _) _ => apply leaves_on_fl
  | |- leaves begin_op _ => apply leaves_on_fl
  | |- leaves end_op _ => apply leaves_on_fl
  | |- leaves (namei _ _ _) _ => apply leaves_on_fl
  | |- leaves (loop _ _ _) _ => apply leaves_loop; let x := fresh in intros x; leaves
  | |- leaves (match ?x with _ => _ end) _ => destruct x; leaves
  | |- leaves (let _ := _ in _) _ => cbv zeta; leaves
  | |- _ => idtac
  end.

Section commit.
Context {Sc : Type} {dev : Z} `{!BufCache Sc dev} (E : env).
Abbreviation kst := (@kst Sc).

Lemma loadseg_leaves pt va ip off sz : leaves (Sc:=Sc) (loadseg E pt va ip off sz) (λ _, True).
Proof. unfold loadseg. leaves. Qed.

Lemma exec_bad_leaves pid pt sz ip : leaves (Sc:=Sc) (exec_bad E pid pt sz ip) (λ r, r = -1).
Proof.
  unfold exec_bad. apply (leaves_bind _ _ (λ _, True)); [leaves|]. intros [] _. apply (leaves_bind _ _ (λ _, True)); [leaves|]. intros [] _. by apply leaves_ret.
Qed.

Lemma exec_segment_leaves pt ip off sz : leaves (Sc:=Sc) (exec_segment E pt ip off sz) (λ _, True).
Proof. unfold exec_segment. leaves; apply loadseg_leaves. Qed.

Lemma exec_segments_leaves n pt ip off sz : leaves (Sc:=Sc) (exec_segments E n pt ip off sz) (λ _, True).
Proof.
  revert off sz. induction n as [|n IH]; intros off sz; cbn [exec_segments]; [by apply leaves_ret|].
  eapply leaves_bind; [apply exec_segment_leaves|]. intros [sz'|sz'] _; [apply IH|by apply leaves_ret].
Qed.

(** The number of arguments is at most MAXARG. *)
Lemma exec_args_leaves argv pt base argc sp :
  0 ≤ argc ≤ MAXARG →
  leaves (Sc:=Sc) (exec_args E argv pt base argc sp) (λ r, ∀ n sp', r = Some (n, sp') → 0 ≤ n ≤ MAXARG).
Proof.
  revert argc sp. induction argv as [|a argv IH]; intros argc sp Ha; cbn [exec_args]; [apply leaves_ret; by intros n sp' [= <- <-]|].
  destruct (a =? 0); [apply leaves_ret; by intros n sp' [= <- <-]|]. destruct (Z.leb_spec MAXARG argc); [by apply leaves_ret|].
  apply (leaves_bind _ _ (λ _, True)); [leaves|]. intros [l|] _; [|by intros s b s']. cbv zeta. case_match; [by apply leaves_ret|].
  apply (leaves_bind _ _ (λ _, True)); [leaves|]. intros r _. case_match; [by apply leaves_ret|]. apply (leaves_bind _ _ (λ _, True)); [leaves|]. intros [] _.
  apply IH. lia.
Qed.

(** The process [me] has a new program: page table, size and name, and
    nothing else in the table has changed. *)
Definition new_image (me : nat) (s s' : kst) : Prop :=
  ∃ pt sz base, pt ≠ 0 ∧ nextpid s' = nextpid s ∧ initproc s' = initproc s ∧
    ptable s' = alter (λ p, set_sz sz (set_pagetable pt (set_pname (safestrcpy_list (pname p) base 16) p))) me (ptable s).

Definition commits (me : nat) (m : M kst Z) : Prop :=
  ∀ s r s', m s = Done r s' → (r = -1 ∧ untouched s s') ∨ (0 ≤ r ≤ MAXARG ∧ new_image me s s').

Lemma commits_bind {A} me (m : M kst A) (k : A → M kst Z) (P : A → Prop) :
  leaves m P → (∀ a, P a → commits me (k a)) → commits me (bind m k).
Proof.
  intros Hm Hk s r s'' (a & s' & H1 & H2)%bind_inv. destruct (Hm _ _ _ H1) as [U HP].
  destruct (Hk a HP _ _ _ H2) as [[-> U']|[Hr (pt & sz & base & Hpt & Hn & Hi & Ht)]].
  - left. split; [done|by eapply untouched_trans].
  - right. split; [done|]. destruct U as (U1 & U2 & U3). exists pt, sz, base. rewrite Ht, Hn, Hi, U1, U2, U3. done.
Qed.

Lemma commits_fails me (m : M kst Z) : leaves m (λ r, r = -1) → commits me m.
Proof. intros H s r s' Hm. destruct (H _ _ _ Hm). by left. Qed.

(** Once nothing can fail any more. *)
Lemma exec_commit_point me (p : proc) pt sz argc sp entry oldpt oldsz :
  pt ≠ 0 → 0 ≤ argc ≤ MAXARG →
  commits me
    (on_k (st64 (trapframe p + TF_A 1) sp) ;;;
     let* path := ldk (λ m, cstrn m (e_path E) (Z.to_nat MAXPATH)) in
     updp me (λ p, set_pname (safestrcpy_list (pname p) (basename path path) 16) p) ;;;
     updp me (set_pagetable pt) ;;;
     updp me (set_sz sz) ;;;
     on_k (st64 (trapframe p + TF_EPC) entry) ;;;
     on_k (st64 (trapframe p + TF_SP) sp) ;;;
     on_k (proc_freepagetable (e_kend E) oldpt oldsz) ;;;
     ret argc).
Proof.
  intros Hpt Hargc. apply (commits_bind _ _ _ (λ _, True)); [leaves|]. intros [] _.
  apply (commits_bind _ _ _ (λ _, True)); [leaves|]. intros path _ s r s' Hrun.
  apply bind_inv in Hrun as ([] & s1 & [= <-] & Hrun). apply bind_inv in Hrun as ([] & s2 & [= <-] & Hrun).
  apply bind_inv in Hrun as ([] & s3 & [= <-] & Hrun).
  assert (leaves (Sc:=Sc) (on_k (st64 (trapframe p + TF_EPC) entry) ;;; on_k (st64 (trapframe p + TF_SP) sp) ;;;
    on_k (proc_freepagetable (e_kend E) oldpt oldsz) ;;; ret argc) (λ r, r = argc)) as Hl.
  { do 3 (apply (leaves_bind _ _ (λ _, True)); [leaves|]; intros [] _). by apply leaves_ret. }
  destruct (Hl _ _ _ Hrun) as [(U1 & U2 & U3) ->]. right. split; [done|].
  exists pt, sz, (basename path path). cbn in U1, U2, U3. split_and!; [done..|]. rewrite U1.
  apply list_eq. intros i. destruct (decide (i = me)) as [->|]; [|by rewrite !list_lookup_alter_ne by done].
  rewrite !list_lookup_alter_eq. by destruct (ptable s !! me).
Qed.

(** exec either fails with -1 and no process has changed, or it gives the
    calling process a new page table, size and name, and returns the number of
    its arguments. *)
Lemma exec_commits me argv : commits me (exec E me argv).
Proof.
  unfold exec. apply (commits_bind _ _ _ (λ _, True)); [leaves|]. intros p _.
  apply (commits_bind _ _ _ (λ _, True)); [leaves|]. intros [] _.
  apply (commits_bind _ _ _ (λ _, True)); [leaves|]. intros [ip|] _.
  2: { apply commits_fails. apply (leaves_bind _ _ (λ _, True)); [leaves|]. intros [] _. by apply leaves_ret. }
  apply (commits_bind _ _ _ (λ _, True)); [leaves|]. intros [] _.
  apply (commits_bind _ _ _ (λ _, True)); [leaves|]. intros r _. case_match; [apply commits_fails, exec_bad_leaves|].
  apply (commits_bind _ _ _ (λ _, True)); [leaves|]. intros elf _. case_match; [apply commits_fails, exec_bad_leaves|].
  apply (commits_bind _ _ _ (λ _, True)); [leaves|]. intros pt _. destruct (Z.eqb_spec pt 0); [apply commits_fails, exec_bad_leaves|].
  apply (commits_bind _ _ _ (λ _, True)); [apply exec_segments_leaves|]. intros [sz|sz] _; [|apply commits_fails, exec_bad_leaves].
  do 2 (apply (commits_bind _ _ _ (λ _, True)); [leaves|]; intros [] _).
  apply (commits_bind _ _ _ (λ _, True)); [leaves|]. intros p' _. cbv zeta.
  apply (commits_bind _ _ _ (λ _, True)); [leaves|]. intros sz1 _. case_match; [apply commits_fails, exec_bad_leaves|].
  apply (commits_bind _ _ _ (λ _, True)); [leaves|]. intros [] _.
  eapply commits_bind; [by apply exec_args_leaves|]. intros [[argc sp]|] Ha; [|apply commits_fails, exec_bad_leaves].
  specialize (Ha argc sp eq_refl). apply (commits_bind _ _ _ (λ _, True)); [leaves|]. intros [] _. case_match; [apply commits_fails, exec_bad_leaves|].
  apply (commits_bind _ _ _ (λ _, True)); [leaves|]. intros r2 _. case_match; [apply commits_fails, exec_bad_leaves|].
  by apply exec_commit_point.
Qed.
End commit.
