(* ===== verification/ExecExample.v ===== *)
(** * From mkfs to exec: a program on an image is started

    mkfs (Mkfs.v) writes an image with one ELF file, the kernel mounts it with
    fsinit and a process executes /init. Everything is evaluated: the buffer
    cache, the log, path lookup, inodes, page tables and copyout. *)

From S2P Require Import Prelude Ring Riscv Mem Kalloc Vm VmTree VmCopy Block FsFormat Bio BioSpec BioTheorems Log LogSpec LogOps LogTheorems Txn Fs.
From S2P Require Import Pipe Uart Printf Console ConsoleTheorems File Spinlock Proc ProcFrame ProcTheorems Exec Mkfs ExecTheorems.

Module ExecSample.
Definition le (n v : Z) : list Z := Z_to_little_endian n 8 v.
(** A header, one segment of eight bytes to be loaded at address 0, and the bytes. *)
Definition elf : list Z :=
  le 4 ELF_MAGIC ++ replicate 20 0 ++ le 8 4 ++ le 8 64 ++ replicate 16 0 ++ le 2 1 ++ replicate 6 0 ++
  le 4 ELF_PROG_LOAD ++ le 4 5 ++ le 8 120 ++ le 8 0 ++ le 8 0 ++ le 8 8 ++ le 8 5000 ++ le 8 4096 ++
  [1; 2; 3; 4; 5; 6; 7; 8].

(** The blocks of the image that hold anything. *)
Definition disk (o : outcome mkst unit) : gmap Z block :=
  match o with
  | Done _ s => list_to_map ((λ b, (b, img s b)) <$> seqZ 0 60)
  | _ => ∅
  end.
Definition image : gmap Z block := disk (Mkfs.main 2000 [(str "user/_init", Some [elf])] mk_start).

#[local] Instance bio : BufCache bst ex_dev := bio_cache ex_pid ex_dev.

Definition pages (o : outcome kmem unit) : kmem := match o with Done _ k => k | _ => Kmem ∅ 0 end.
Definition boot_cache (o : outcome bst unit) : bst := match o with Done _ s => s | _ => Bst [] ∅ [] end.
Definition fls0 : @fls bst :=
  Fls (Fst (Lst (boot_cache (binit (Bst (replicate (S HEAD) inhabitant) image []))) (Log 0 0 0 false 0 0 (replicate (Z.to_nat LOGSIZE) 0)))
         (replicate 50 inhabitant) ex_sb (pages (freerange 0x80021000 0x87000000 0x87010000 (Kmem ∅ 0))))
    (replicate 100 inhabitant) ∅ [] (Cons (replicate 128 0) 0 0 0) ex_uart.
Definition kst0 : @kst bst := Kst fls0 (ex_init :: replicate 63 inhabitant) 2 (Some 0%nat) 0 true.

(** The arguments init and -v, in pages of their own as sys_exec puts them. *)
Definition arg0 : Z := 0x80060000.
Definition arg1 : Z := 0x80061000.
Definition mem_set (a : Z) (bs : list Z) : M (@kst bst) unit := on_k (modify (upd_mem (λ m, store_bytes m a bs))).

Definition run : M (@kst bst) Z :=
  let* tf := on_k kalloc in
  let* pt := on_k (proc_pagetable (e_kend ex_env) (e_trampoline ex_env) tf) in
  updp 0 (set_trapframe tf) ;;;
  updp 0 (set_pagetable pt) ;;;
  on_fl (fsinit (e_logstart ex_env) (e_nlog ex_env) ROOTDEV) ;;;
  mem_set (e_path ex_env) (str "/init" ++ [0]) ;;;
  mem_set arg0 (str "init" ++ [0]) ;;;
  mem_set arg1 (str "-v" ++ [0]) ;;;
  exec ex_env 0 [arg0; arg1; 0].

Lemma run_value : value_of (run kst0) = Some 2.
Proof. vm_compute. reflexivity. Qed.
Lemma run_exec s' : run kst0 = Done 2 s' → ∃ s, exec ex_env 0 [arg0; arg1; 0] s = Done 2 s'.
Proof.
  unfold run. generalize kst0. intros s0 H. do 8 apply bind_inv in H as (? & ? & _ & H). eauto.
Qed.

(** The user's view: [n] bytes at [va]. *)
Definition user_bytes (p : proc) (s : @kst bst) (va n : Z) : option (list Z) :=
  mapM (user_load (mem_of s) (pagetable p)) (seqZ va n).

(** The result of exec, and of the process its size, entry point, stack
    pointer, a1, program, zeroed data, argv array and argument strings. *)
Definition outcome_of (o : outcome (@kst bst) Z) :=
  match o with
  | Done r s =>
      let p := ptable s !!! 0%nat in
      let word o := load64 (mem_of s) (trapframe p + o) in
      Some (r, (before_nul (pname p), sz p), (word TF_EPC, word TF_SP, word (TF_A 1)),
        (user_bytes p s 0 8, user_bytes p s 8 8, user_bytes p s 16320 24, user_bytes p s 16368 5, user_bytes p s 16352 3),
        user_bytes p s 8192 1)
  | _ => None
  end.

(** The program is in place, the argument strings and the array of their
    addresses are on the stack, and the guard page below it is not accessible. *)
Example exec_from_image :
  outcome_of (run kst0) =
  Some (2, (str "init", 16384), (4, 16320, 16320),
    (Some [1; 2; 3; 4; 5; 6; 7; 8], Some (replicate 8 0), Some (le 8 16368 ++ le 8 16352 ++ le 8 0),
     Some (str "init" ++ [0]), Some (str "-v" ++ [0])), None).
Proof. vm_compute. reflexivity. Qed.
End ExecSample.


#[local] Existing Instance ExecSample.bio.

