(* ===== verification/Utools.v ===== *)
(** * More user programs: user/ls.c, rm.c, mkdir.c, ln.c, init.c, pingpong.c, the main of grep.c, and the random numbers of grind.c

    As in Uprogs.v, a run is what a program writes and its exit status, and
    the answers of system calls are arguments. *)

From S2P Require Import Prelude Fs Printf Fcntl User Grep Uprogs.

(** ** do_rand of grind.c *)

(** The new value of the context, which is also the result. *)
Definition do_rand (ctx : Z) : Z :=
  let x := ctx `mod` 0x7ffffffe + 1 in
  let hi := x `div` 127773 in
  let lo := x `mod` 127773 in
  let x := 16807 * lo - 2836 * hi in
  let x := if x <? 0 then x + 0x7fffffff else x in
  x - 1.

(** It is the generator of Park and Miller: multiplication by 7^5 modulo the
    prime 2^31 - 1, shifted to start at 0; no intermediate value needs more
    than 32 bits. *)
Lemma do_rand_park_miller ctx :
  0 ≤ ctx →
  let x := ctx `mod` 0x7ffffffe + 1 in
  do_rand ctx = (7^5 * x) `mod` (2^31 - 1) - 1 ∧ 0 ≤ do_rand ctx ≤ 0x7ffffffd ∧
  - 2^31 ≤ 16807 * (x `mod` 127773) - 2836 * (x `div` 127773) < 2^31.
Proof.
  intros Hc x. unfold do_rand. fold x. cbv zeta. pose proof (Z.mod_pos_bound ctx 0x7ffffffe ltac:(lia)) as Hx.
  pose proof (Z.div_mod x 127773 ltac:(lia)) as Hd. pose proof (Z.mod_pos_bound x 127773 ltac:(lia)) as Hlo.
  set (hi := x `div` 127773) in *. set (lo := x `mod` 127773) in *.
  assert (1 ≤ x ≤ 0x7ffffffe) as Hxr by (unfold x; lia). assert (0 ≤ hi ≤ 16807) as Hhi by lia.
  assert ((7^5 * x) `mod` (2^31 - 1) ≠ 0) as Hne.
  { intros H%Z.mod_divide; [|lia]. apply Z.gauss in H; [|by vm_compute]. apply Z.divide_pos_le in H; lia. }
  assert (7^5 * x = (2^31 - 1) * hi + (16807 * lo - 2836 * hi)) as He by lia.
  assert ((7^5 * x) `mod` (2^31 - 1) = if 16807 * lo - 2836 * hi <? 0 then 16807 * lo - 2836 * hi + 0x7fffffff else 16807 * lo - 2836 * hi) as Hm.
  { destruct (Z.ltb_spec (16807 * lo - 2836 * hi) 0); symmetry.
    - apply Z.mod_unique_pos with (q := hi - 1); lia.
    - apply Z.mod_unique_pos with (q := hi); lia. }
  rewrite <- Hm. pose proof (Z.mod_pos_bound (7^5 * x) (2^31 - 1) ltac:(lia)). split; [done|]. lia.
Qed.

(** ** rm, mkdir and ln *)

(** Calls [call] on the arguments up to the first failure. The calls made,
    and the run. *)
Fixpoint until_fail (call : list Z → bool) (msg : list Z → list Z) (argv : list (list Z)) : list (list Z) * run :=
  match argv with
  | [] => ([], exits 0)
  | a :: argv =>
      if call a then let '(l, r) := until_fail call msg argv in (a :: l, r)
      else ([a], andthen (emit 2 (msg a)) (exits 0))
  end.

Definition rm (unlink : list Z → bool) (argv : list (list Z)) : list (list Z) * run :=
  match argv with
  | [] => ([], andthen (emit 2 (str "Usage: rm files..." ++ [10])) (exits 1))
  | _ => until_fail unlink (λ a, str "rm: " ++ a ++ str " failed to delete" ++ [10]) argv
  end.

Definition mkdir (mkdir : list Z → bool) (argv : list (list Z)) : list (list Z) * run :=
  match argv with
  | [] => ([], andthen (emit 2 (str "Usage: mkdir files..." ++ [10])) (exits 1))
  | _ => until_fail mkdir (λ a, str "mkdir: " ++ a ++ str " failed to create" ++ [10]) argv
  end.

(** A call is made for each argument when none fails, and the status is 0
    even when one does. *)
Lemma until_fail_calls call msg argv :
  (until_fail call msg argv).1 `prefix_of` argv ∧ (until_fail call msg argv).2.2 = Some 0 ∧
  (Forall (λ a, call a = true) argv → (until_fail call msg argv).1 = argv).
Proof.
  induction argv as [|a argv (IH1 & IH2 & IH3)]; [done|]. cbn [until_fail]. destruct (call a) eqn:Ha.
  - destruct (until_fail call msg argv) as [l r]. cbn in *. split_and!; [by apply prefix_cons|done|].
    intros [_ HF]%Forall_cons. by rewrite IH3.
  - split_and!; [by exists argv|done|]. intros [H _]%Forall_cons. congruence.
Qed.

Definition ln (link : list Z → list Z → bool) (argv : list (list Z)) : run :=
  match argv with
  | [old; new] =>
      if link old new then exits 0
      else andthen (emit 2 (str "link " ++ old ++ [32] ++ new ++ str ": failed" ++ [10])) (exits 0)
  | _ => andthen (emit 2 (str "Usage: ln old new" ++ [10])) (exits 1)
  end.

(** ** ls *)

Module Ls.
(** The name after the last slash, padded with blanks to DIRSIZ bytes. The
    buffer of the code is static, so the byte after them is 0. *)
Definition fmtname (path : list Z) : list Z :=
  let p := Find.fmtnames path in
  if DIRSIZ <=? length p then p else p ++ replicate (Z.to_nat DIRSIZ - length p) 32.

Section ls.
(** open, then type, inode number and size by fstat, and the entries read. *)
Variable opens : nat → list Z → bool.
Variable fstat : list Z → option (Z * Z * Z).
Variable entries : list Z → list (Z * list Z).

Definition num (n : Z) : list Z := numeral UPrintf.digits (i32 n) 10 true.
(** [%s %d %d %d]; %l prints its argument as an unsigned int. *)
Definition line (path : list Z) (st : Z * Z * Z) (last : list Z) : list Z :=
  let '(ty, ino, _) := st in fmtname path ++ [32] ++ num ty ++ [32] ++ num ino ++ [32] ++ last ++ [10].

(** The line for an entry of the directory [path]; none for a free entry. *)
Definition entry (path : list Z) (e : Z * list Z) : option (Z * list Z) :=
  if e.1 =? 0 then None
  else
    let buf := path ++ [47] ++ Find.cname e.2 in
    Some (1, match (if opens 1 buf then fstat buf else None) with
             | None => str "ls: cannot stat " ++ buf ++ [10]
             | Some st => line buf st (num st.2)
             end).

Definition ls (path : list Z) : list (Z * list Z) :=
  (1, str "begin ls , ths path length is " ++ num (length path) ++ [10]) ::
  if negb (opens 0 path) then [(2, str "ls: cannot open " ++ path ++ [10])]
  else
    match fstat path with
    | None => [(2, str "ls: cannot stat " ++ path ++ [10])]
    | Some st =>
        let ty := st.1.1 in
        if (ty =? T_DEVICE) || (ty =? T_FILE)
        then [(1, line path st (numeral UPrintf.digits (i32 st.2) 10 false))]
        else if ty =? T_DIR then
          if 512 <? length path + 1 + DIRSIZ + 1 then [(1, str "ls: path too long" ++ [10])]
          else (1, str "before ls , the dir is " ++ path ++ [47; 10]) :: omap (entry path) (entries path)
        else []
    end.

Definition main (argv : list (list Z)) : run :=
  (match argv with [] => ls [46] | _ => concat (ls <$> argv) end, Some 0).

Lemma entries_length path es : length (omap (entry path) es) = length (filter (λ e, e.1 ≠ 0) es).
Proof.
  induction es as [|[i nm] es IH]; [done|]. rewrite filter_cons. cbn [omap list_omap Datatypes.fst]. unfold entry at 1. cbn [Datatypes.fst].
  destruct (Z.eqb_spec i 0); case_decide; try done. cbn [length]. by f_equal.
Qed.

(** One line for each live entry of a directory. *)
Lemma ls_lists path ino size :
  opens 0 path = true → fstat path = Some (T_DIR, ino, size) → length path + 1 + DIRSIZ + 1 ≤ 512 →
  (length (ls path) = 2 + length (filter (λ e, e.1 ≠ 0%Z) (entries path)))%nat.
Proof.
  intros Ho Hs Hl. unfold ls. rewrite Ho, Hs. cbn [negb Datatypes.fst].
  change ((T_DIR =? T_DEVICE) || (T_DIR =? T_FILE)) with false. change (T_DIR =? T_DIR) with true. cbn iota.
  rewrite (proj2 (Z.ltb_ge _ _)) by done. cbn [length]. by rewrite entries_length.
Qed.
End ls.

(** Names are at least DIRSIZ wide. *)
Lemma fmtname_width path : (length (fmtname path) = Nat.max 14 (length (Find.fmtnames path)))%nat.
Proof.
  unfold fmtname, DIRSIZ. destruct (Z.leb_spec 14 (length (Find.fmtnames path))); [lia|].
  rewrite length_app, length_replicate. lia.
Qed.
End Ls.

(** ** init *)

Module Init.
Definition console : list Z := str "console".

(** The descriptors: [o1] and [o2] say whether the first and the second open
    of the console succeed. *)
Definition descriptors (o1 o2 : bool) (o : table) : table :=
  let open (ok : bool) (o : table) := if ok then fd_new (DFile console O_RDWR) o else None in
  let o := match open o1 o with
           | Some (_, o) => o
           | None => match open o2 o with Some (_, o) => o | None => o end
           end in
  fd_dup 0 (fd_dup 0 o).

Definition starting : list Z := str "init: starting sh" ++ [10].

(** The inner loop waits with the results [ws]; [forks k] is the result of the
    kth fork. What init prints. *)
Fixpoint waiting (forks : nat → Z) (k : nat) (pid : Z) (ws : list Z) : list (list Z) :=
  match ws with
  | [] => []
  | wpid :: ws =>
      if wpid =? pid then
        starting :: (if forks (S k) <? 0 then [str "init: fork failed" ++ [10]] else waiting forks (S k) (forks (S k)) ws)
      else if wpid <? 0 then [str "init: wait returned an error" ++ [10]]
      else waiting forks k pid ws
  end.

Definition main (forks : nat → Z) (ws : list Z) : list (list Z) :=
  starting :: (if forks 0%nat <? 0 then [str "init: fork failed" ++ [10]] else waiting forks 0 (forks 0%nat) ws).

(** A process that starts without files has the console as 0, 1 and 2. *)
Lemma init_descriptors o1 n :
  descriptors o1 true (replicate (3 + n) None) = replicate 3 (Some (DFile console O_RDWR)) ++ replicate n None.
Proof. destruct o1; reflexivity. Qed.

(** Other processes that exit are reaped silently; when the shell exits, a
    new one is started. *)
Lemma init_restarts forks k pid ws ws' :
  Forall (λ w, 0 ≤ w ∧ w ≠ pid) ws → 0 ≤ forks (S k) →
  waiting forks k pid (ws ++ pid :: ws') = starting :: waiting forks (S k) (forks (S k)) ws'.
Proof.
  intros HF Hf. induction HF as [|w ws [H1 H2] HF IH]; cbn [app waiting].
  - rewrite Z.eqb_refl. by rewrite (proj2 (Z.ltb_ge (forks (S k)) 0)).
  - rewrite (proj2 (Z.eqb_neq w pid)), (proj2 (Z.ltb_ge w 0)) by done. done.
Qed.
End Init.

(** ** The main of grep *)

Module GrepMain.
(** What grep writes for a file; its loop reads at most once more than there
    are bytes. *)
Definition grep_file (ready : nat → nat) (pattern input : list Z) : list Z :=
  match grep ready (S (S (length input))) pattern (Gst input 0 [] []) with
  | Done _ s => out s
  | _ => []
  end.

Fixpoint files (ready : nat → nat) (opens : list Z → option (list Z)) (pattern : list Z) (argv : list (list Z)) : run :=
  match argv with
  | [] => exits 0
  | a :: argv =>
      match opens a with
      | None => andthen (emit 1 (str "grep: cannot open " ++ a ++ [10])) (exits 1)
      | Some input => andthen (emit 1 (grep_file ready pattern input)) (files ready opens pattern argv)
      end
  end.

Definition main (ready : nat → nat) (stdin : list Z) (opens : list Z → option (list Z)) (argv : list (list Z)) : run :=
  match argv with
  | [] => andthen (emit 2 (str "usage: grep pattern [file ...]" ++ [10])) (exits 1)
  | [pattern] => andthen (emit 1 (grep_file ready pattern stdin)) (exits 0)
  | pattern :: argv => files ready opens pattern argv
  end.

(** The files are searched one after the other; the first that cannot be
    opened ends the program with status 1. *)
Lemma grep_files ready opens pattern argv bad rest :
  Forall (λ a, is_Some (opens a)) argv → opens bad = None →
  files ready opens pattern (argv ++ bad :: rest) =
  (((λ a, (1, grep_file ready pattern (default [] (opens a)))) <$> argv) ++ [(1, str "grep: cannot open " ++ bad ++ [10])], Some 1).
Proof.
  intros HF Hb. induction HF as [|a argv [i Hi] HF IH]; cbn [app files fmap list_fmap]; [by rewrite Hb|].
  rewrite Hi, IH. done.
Qed.
End GrepMain.

(** ** pingpong *)

Module Pingpong.
(** Where parent and child are, and the bytes in the pipe. Both processes have
    both ends of the one pipe open until they exit. *)
Inductive parent := PWrite | PSleep | PRead | PDone.
Inductive child := CRead | CWrite | CDone.
Record state := State { par : parent; chi : child; bytes : Z }.

(** A read waits while the pipe is empty, and takes up to 100 bytes. The
    length of the sleep says nothing about how far the child gets. *)
Inductive step : state → state → Prop :=
| parent_write c n : step (State PWrite c n) (State PSleep c (n + 1))
| parent_sleep c n : step (State PSleep c n) (State PRead c n)
| parent_read c n : 0 < n → step (State PRead c n) (State PDone c (n - Z.min n 100))
| child_read p n : 0 < n → step (State p CRead n) (State p CWrite (n - Z.min n 100))
| child_write p n : step (State p CWrite n) (State p CDone (n + 1)).

Definition start : state := State PWrite CRead 0.

(** The run that is meant. *)
Lemma pingpong_works : rtc step start (State PDone CDone 0).
Proof.
  eapply rtc_l; [apply parent_write|]. eapply rtc_l; [apply child_read; lia|]. eapply rtc_l; [apply child_write|].
  eapply rtc_l; [apply parent_sleep|]. eapply rtc_l; [apply parent_read; cbn; lia|]. apply rtc_refl.
Qed.

(** With one pipe for both directions the parent can read back its own byte;
    then the child waits for ever. *)
Lemma pingpong_can_hang : rtc step start (State PDone CRead 0) ∧ ∀ s, ¬ step (State PDone CRead 0) s.
Proof.
  split.
  - eapply rtc_l; [apply parent_write|]. eapply rtc_l; [apply parent_sleep|]. eapply rtc_l; [apply parent_read; cbn; lia|]. apply rtc_refl.
  - intros s H. inversion H; subst; lia.
Qed.

(** What holds in every state. *)
Definition inv (s : state) : Prop :=
  match par s with
  | PWrite => chi s = CRead ∧ bytes s = 0
  | PDone => chi s ≠ CWrite ∧ bytes s = 0
  | _ => bytes s = match chi s with CWrite => 0 | _ => 1 end
  end.

Lemma pingpong_step s t : step s t → inv s → inv t.
Proof.
  unfold inv. intros Hs. destruct Hs as [c n|c n|c n Hn|p n Hn|p n]; cbn [par chi bytes].
  - by intros [-> ->].
  - done.
  - destruct c; intros ->; (lia || split; (done || lia)).
  - destruct p; [intros [_ ->]; lia|intros ->; lia|intros ->; lia|intros [_ ->]; lia].
  - destruct p; [by intros [? _]|intros ->; lia|intros ->; lia|by intros [? _]].
Qed.

(** Nothing else can go wrong: a state without a step is one of the two. *)
Lemma pingpong_ends s : rtc step start s → (∀ s', ¬ step s s') → s = State PDone CDone 0 ∨ s = State PDone CRead 0.
Proof.
  intros Hr Hs. assert (inv s) as H.
  { clear Hs. assert (inv start) as H0 by done. revert H0. induction Hr as [x|x y z Hxy Hyz IH]; [done|]. intros Hx. apply IH. by eapply pingpong_step. }
  destruct s as [p c n]. destruct p; unfold inv in H; cbn [par chi bytes] in H.
  - destruct (Hs _ (parent_write c n)).
  - destruct (Hs _ (parent_sleep c n)).
  - destruct c; subst n; [destruct (Hs _ (child_read PRead 1 ltac:(lia)))|destruct (Hs _ (child_write PRead 0))|destruct (Hs _ (parent_read CDone 1 ltac:(lia)))].
  - destruct H as [H ->]. destruct c; [by right|done|by left].
Qed.
End Pingpong.
